(* ===== verification/_CoqProject ===== *)
-Q . S2P
Prelude.v
GoBytes.v
Trigram.v
Text.v
GoPath.v
Ignore.v
Walk.v
Conf.v
Lines.v
Globs.v
Regexp.v
Literal.v
Matcher.v
Symbol.v
Strip.v
Extract.v
Refs.v
Index.v
IndexSearch.v
Codec.v
Shard.v
ShardLayout.v
ShardRead.v
ShardSpec.v
Scan.v
Engine.v
Decimal.v
Rebuild.v
EngineSearch.v
EngineSpec.v
EngineScan.v
EngineBuild.v
EngineRestart.v
EngineLimit.v
RebuildSpec.v
Dir.v
Crash.v
Track.v
TrackRebuild.v
Reserve.v
Store.v
StoreSpec.v
StoreSync.v
Watch.v
Barrier.v
Server.v
ServerSpec.v
Client.v
Daemon.v
Follow.v
Persist.v
Lifecycle.v
Spawn.v
Args.v
Status.v
Grep.v
