(* ===== verification/Prelude.v ===== *)
(** * gcgrep: a verification development (root file)

    gcgrep is a grep with a resident daemon.  The daemon (src/internal/daemon) keeps one store
    per indexed root.  A store lists the files of its root (walkdir, ignore), reads them, and
    hands them to one of two engines: an in-memory trigram index (internal/index) or immutable
    shard files on disk with a list of dirty paths (internal/shard).  Files that are too large
    for the index go to a stream manifest.  A watcher (internal/watch) reports changes, which the
    store applies; a barrier makes a query wait until the changes made before it have been
    applied.  The client (src/cmd/gcgrep) sends a request, prints the events of the reply and
    scans the files of the stream manifest itself.  This library models these parts as
    executable functions and step relations that keep the names of the source, and proves what
    each part promises and what they promise together.

    ** The files, from the bottom up

    - Prelude: this header; bytes, machine integers, [i64] wrap-around, lists, [MapOrder] and the
      tactics and hints the other files share.  GoBytes, GoPath, Decimal, and parts of Text: the
      functions of Go's standard library the source calls.
    - Trigram, Text, Lines, Regexp, Literal, Matcher: the pure parts of internal/index
      (trigram keys, UTF-16 and the binary probe, line windows, required literals, literal search
      and the matcher), and their copies in internal/shard and internal/daemon/utf16.go.
    - Index, IndexSearch: internal/index/index.go.  [Index] is the Go struct; [contents] is its
      abstract state, a map from paths to files, that every operation refines.
    - Codec, Shard, ShardLayout, ShardRead, ShardSpec: varint.go, build.go and shard.go of
      internal/shard: the bytes of a shard, written and read back.
    - Scan, Engine, Rebuild, EngineSearch: internal/shard/engine.go and manifest.go, the batching of
      build.go: line scans, updates, the background rebuild, queries.  EngineSpec, EngineScan,
      EngineBuild, EngineRestart, EngineLimit and RebuildSpec hold their theorems; [Serves]
      (EngineScan) is the interface between shards and engine.  Dir, Crash: operations on a
      directory and what a crash leaves of them; the writes of a rebuild on the shard directory.
      Track, TrackRebuild: how an engine accounts for the files of the repository.  [covering] says that every file is
      in a shard as it is on disk or dirty, and is enough for a search; [tracking] adds the order of the shards, which
      later changes need.  A full build establishes them, marks and restarts keep them; a rebuild keeps the first, apart from the files
      it drops ([dropped]), and the second when its new files lie in one gap between the shards ([one_gap]).
    - Symbol, Strip, Extract, Refs: internal/symbol: comment stripping, the extractors of Java, Go,
      Python and TypeScript, references.
    - Ignore, Walk, Globs, Conf: internal/ignore, internal/walkdir, the filters of
      internal/daemon/server.go, internal/conf.
    - Store, StoreSpec, StoreSync, Reserve: internal/daemon/store.go and stream.go: routing a file,
      the byte budget (alone and with concurrent workers), scan, reconcile, change, persistence.
    - Watch, Barrier: internal/watch/watch.go, and [watchLoop], [Barrier] of store.go, as steps
      that interleave.
    - Server, ServerSpec, Daemon: internal/daemon/server.go: the store of a request, the handlers,
      start and restart of a store.  Persist: the cache files of a store (save, loadPersisted,
      DeleteCache, CacheInfo of store.go).  Follow: a store of the disk engine from its creation through changes,
      rebuilds, ends of the daemon and restarts, with the files that rebuilds have lost ([disk_run]).  Lifecycle: Serve, stopAll, forget and Close as steps that
      interleave.  Spawn: the socket, and how daemons and clients start (ipc_unix.go, connectOrSpawn, cmdDaemon).
    - Client, Args: src/cmd/gcgrep/stream.go and main.go: [streamSearch], [lineReader], the flags and the commands.
      Status: gcgrep status and stop.  Grep: a search end to end.

    A component has one definition for each function or loop of the code, with the code's name; a
    loop that needs a name of its own is called [f_loop] or after what it does, and a guard or a
    body that appears twice has one definition.  State is passed explicitly.  A Go panic (an index out
    of range, a nil dereference) is [None], an error value is a sum or an option.

    ** What the theorems show (the claims are numbered in the order of their importance)

    - Storage.  A shard returns what was written (C1), its candidates are exact (C16), a damaged
      header is refused (C39).  The in-memory index refines a map of files through any history, compaction
      included (C3).  A saved store loads back ([save_load_roundtrip]).  Batches partition the files ([GroupByDirBoundary_partition]).
    - Search.  A search in memory, a search of the disk engine and the client's scan each are a plain
      scan of the contents (C2, C5, [DiskSearch_is_scan], C32), because the required literal is sound (C19), the literal
      search is the greedy one (C24), the pre-filter changes nothing (C36) and lines are reported once
      ([appendLineMatches_one_per_line]).  Limits are bounds ([streamSearch_limit], C37).  The handlers answer with exactly the matches that pass the
      filters (C21, C33), a reply always ends, and the client shows it (C22, C23).
      From the arguments to the exit code: what the flags say is what is requested (C38), and a count
      of a fixed ASCII string
      in memory exits with 0 exactly when something is there to be found (C20).
    - Agreement with the disk.  A first scan, a reconcile and a change leave the store as the disk is
      (C25, C26, [fullScan_tracks], C27), so does a restart of the daemon (C12), even
      after a crash or a failure in the middle of a save (C13), and of the disk engine (C17).  At every point of the histories of [disk_run] a search of a disk store is a scan of
      the files then listed, apart from those that rebuilds have dropped (C4): a change reaches the engine (C10), and a rebuild
      changes no answer except that it drops new files inside the range of a shard (C9).  The histories are those in which the
      new files outside every range lie in one gap when a cycle runs ([one_gap]; without it the shards lose their order, [rebuild_breaks_ranges], though
      C9 still holds for that cycle), changes during a cycle come after its reads and leave their marks ([arrived]),
      files fit the format and are not UTF-16 ([cycle_fits]), and a size and a modification time stand for a content ([dated]); the save that every change schedules panics on a disk store
      ([disk_batch_panics]) and is an end of the daemon there.  A rebuild clears
      what it copied ([rebuild_clears]), and a crash during it leaves the shards of before or of after (C18); the budget is never overshot (C34).
    - Concurrency.  After a barrier all earlier changes have been applied, in every interleaving (C6); the
      loops always come to rest with everything delivered (C7); a search is not disturbed by a rebuild (C11);
      a stop ends (C8), with every store saved (C14); a daemon that is up stays the only one
      as long as it answers dials in time and no other is past its probe (C15), and a client starts one ([cold_start_connects]);
      [fw.Add] is called for the directory of every listed file (C35).
    - The leaves.  References, Java symbols, comment stripping (C28, C29, [Strip_positions]), ignore rules (C30), the
      walk (C31), nesting of roots ([store_not_nested]), UTF-16 ([decodeUTF16_roundtrip]), configuration (C40).

    Lemmas that are not claims of their own show where the code does less than it says:
    [rebuild_drops_new_file], [rebuild_breaks_ranges], [rebuild_loses_mark], [search_between_loads_misses],
    [forget_during_stop_panics], [spawn_race_two_daemons], [late_store_unsaved], [timer_undoes_forget], [overlapping_saves_mix],
    [DiskSearch_overruns_limit], [ExtractLiteral_loses_upper_case_letters],
    [removal_leaks_budget], [disk_store_panics], [disk_batch_panics], [slow_daemon_displaced],
    [failed_watch_unnoticed], [failed_write_loses_changes], [forget_one_kind], [truncated_scan_counts] and
    others named in the files; [rebuild_clears] and C37 state what does hold there.

    ** Parameters

    Code outside src/ is an argument: [RegexpEngine] and [RegexpString] (package regexp: compiled
    expressions and their matches), [FoldOrbits] and [UnicodeCase] (case tables), [MapOrder] (the order in which Go
    iterates a map, any order at each loop), [GoParser] and [TSRegexps] (go/parser and the TypeScript
    expressions), [SymbolExtractor] (what the engines see of Extract.v), [World] (the file
    system: stat, directory entries, contents), [ManifestCodec] (the JSON of the shard manifest), [PersistCodec] (gob and gzip),
    [Sha256].  So are outcomes of calls that the code does not decide: which calls of [fw.Add] succeed, whether a dial is answered in time,
    which writes of a rebuild succeed.  Laws are hypotheses of the theorems that need them, and the witnesses
    instantiate them with concrete functions.

    ** Bounds and fuel

    Sizes, offsets and counters that can overflow are numbers in [Z] with the wrap or the bound of their
    width written out ([i64], [fits], [build_fits]); positions that index an existing slice are [nat].  The fuel is: 64 for binary
    searches (64-bit bounds halve each time), 10 for varints, 20 for decimal digits of a 64-bit number, one more than
    the length of the text for loops that advance in a text, and for the walk an argument:
    [walk_terminates] gives a value that is enough, computed from the depth of the tree.  The barrier's
    model needs no fuel, as it is a step relation; [watch_delivers] shows that its loops terminate.

    ** Conventions

    Paths are relative to the root of the store and slash-separated.  sort.Slice is a stable merge sort (no theorem
    depends on the order of equal elements).  In Engine.v ([FullBuild]) and Store.v
    writes succeed and a persisted index is the record itself; [rebuild_io] in Rebuild.v has the outcome of each write of a cycle, and
    [rebuild] is the cycle whose writes succeed, which is the one the theorems speak of unless they say otherwise; Crash.v and Persist.v have the writes
    that are cut short or fail, and the bytes.  The workers of [indexParallel] run one after another
    in Store.v; Reserve.v has the interleavings of the budget they share.  [newRootStore] makes its
    first pass in one step; in Barrier.v the watcher collects changes at any time.

    ** Not modelled

    Named pipes (internal/ipc on Windows) and process priorities: system calls.  JSON encoding, progress events, logging: they do not
    affect an answer.  The delay of the save timer: a save is a step of its own (Persist.v), and [apply_batch] says
    whether one is scheduled; when it fires on a disk store the daemon ends. *)

From Stdlib Require Export Strings.Byte Strings.String.
From Stdlib Require Export ZArith Lia.
From stdpp Require Export base gmap list sorting.

Close Scope string_scope.

(** [lia] also reasons about quotients and remainders. *)
Ltac Zify.zify_post_hook ::= Z.to_euclidean_division_equations.

(** ** Bytes

    Go's [byte] is the Standard Library's [byte] (256 constructors), so that a
    byte can hold no other value; arithmetic on bytes goes through [b2z]. *)

Abbreviation bytes := (list byte).

#[export] Instance byte_eq_dec : EqDecision byte := Byte.byte_eq_dec.

#[export] Instance byte_countable : Countable byte :=
  inj_countable Byte.to_N Byte.of_N Byte.of_to_N.

#[export] Instance byte_inhabited : Inhabited byte := populate x00.

(** The numeric value of a byte, and the byte of a number (conversion [byte(x)],
    which keeps the low eight bits). *)
Definition b2z (b : byte) : Z := Z.of_N (Byte.to_N b).
Definition z2b (z : Z) : byte := default x00 (Byte.of_N (Z.to_N (z mod 256))).

Lemma b2z_range b : (0 ≤ b2z b < 256)%Z.
Proof. unfold b2z. pose proof (Byte.to_N_bounded b). lia. Qed.

Lemma b2z_inj a b : b2z a = b2z b → a = b.
Proof.
  unfold b2z. intros H. apply N2Z.inj in H.
  pose proof (Byte.of_to_N a) as Ha. rewrite H, Byte.of_to_N in Ha. congruence.
Qed.

Lemma b2z_z2b z : b2z (z2b z) = (z mod 256)%Z.
Proof.
  unfold b2z, z2b.
  pose proof (Z.mod_pos_bound z 256 ltac:(lia)) as Hb.
  destruct (Byte.of_N (Z.to_N (z mod 256))) as [b|] eqn:E; simpl.
  - apply Byte.to_of_N in E. lia.
  - apply Byte.of_N_None_iff in E. lia.
Qed.

Lemma z2b_b2z b : z2b (b2z b) = b.
Proof.
  apply b2z_inj. rewrite b2z_z2b. apply Z.mod_small, b2z_range.
Qed.

(** Packing a field below the bits of another. *)
Lemma lor_shiftl x y n :
  (0 ≤ n)%Z → (0 ≤ y < 2 ^ n)%Z → Z.lor (Z.shiftl x n) y = (x * 2 ^ n + y)%Z.
Proof.
  intros Hn Hy. rewrite <-Z.shiftl_mul_pow2 by done.
  assert (Z.land (Z.shiftl x n) y = 0)%Z as Hl.
  { apply Z.bits_inj'. intros k Hk. rewrite Z.land_spec, Z.bits_0.
    destruct (decide (k < n)%Z); [by rewrite Z.shiftl_spec_low|].
    rewrite <-(Z.mod_small y (2 ^ n)), Z.mod_pow2_bits_high by lia.
    apply andb_false_r. }
  rewrite Z.add_nocarry_lxor by done. symmetry. by apply Z.lxor_lor.
Qed.

(** ** Go strings and literals

    A Go [string] is a sequence of bytes: the model uses [bytes] for both
    [string] and [[]byte].  [bs] turns a literal into bytes and [chr] a
    one-character literal into a byte. *)
Definition bs (s : String.string) : bytes := String.list_byte_of_string s.
Definition chr (s : String.string) : byte := default x00 (head (bs s)).

Arguments bs s%_string_scope.
Arguments chr s%_string_scope.

Abbreviation newline := x0a.
Abbreviation slash := x2f.

(** ** Runtime panics

    An operation that Go may abort (an index or slice out of range, a nil
    dereference) has an [option] result whose [None] is the panic.  Such
    operations run in sequence with stdpp's [x ← e; k]; [check! c; k] is a
    bounds check. *)
Declare Scope go_scope.
Delimit Scope go_scope with go.
Notation "'check!' c ; k" := (if c%bool then k else None)
  (at level 20, c at level 100, k at level 200) : go_scope.
#[global] Open Scope go_scope.

(** ** Lexicographic order: Go's [<] and [<=] on strings *)

Fixpoint bytes_cmp (a b : bytes) : comparison :=
  match a, b with
  | [], [] => Eq
  | [], _ :: _ => Lt
  | _ :: _, [] => Gt
  | x :: a', y :: b' =>
      match Z.compare (b2z x) (b2z y) with
      | Eq => bytes_cmp a' b'
      | c => c
      end
  end.

Definition bytes_lt (a b : bytes) : Prop := bytes_cmp a b = Lt.
Definition bytes_le (a b : bytes) : Prop := bytes_cmp a b ≠ Gt.

Definition bytes_ltb (a b : bytes) : bool :=
  match bytes_cmp a b with Lt => true | _ => false end.
Definition bytes_leb (a b : bytes) : bool :=
  match bytes_cmp a b with Gt => false | _ => true end.

Lemma bytes_cmp_refl a : bytes_cmp a a = Eq.
Proof. induction a as [|x a IH]; [done|]. simpl. by rewrite Z.compare_refl. Qed.

Lemma bytes_cmp_eq a b : bytes_cmp a b = Eq ↔ a = b.
Proof.
  split; [|intros ->; apply bytes_cmp_refl].
  revert b. induction a as [|x a IH]; intros [|y b]; simpl; try done.
  destruct (Z.compare_spec (b2z x) (b2z y)) as [E|?|?]; try done.
  intros H. apply b2z_inj in E. f_equal; auto.
Qed.

Lemma bytes_cmp_antisym a b : bytes_cmp b a = CompOpp (bytes_cmp a b).
Proof.
  revert b. induction a as [|x a IH]; intros [|y b]; simpl; try done.
  rewrite (Z.compare_antisym (b2z x) (b2z y)).
  destruct (b2z x ?= b2z y)%Z; simpl; auto.
Qed.

Lemma bytes_lt_trans a b c : bytes_lt a b → bytes_lt b c → bytes_lt a c.
Proof.
  unfold bytes_lt. revert b c.
  induction a as [|x a IH]; intros [|y b] [|z c]; simpl; try done.
  destruct (Z.compare_spec (b2z x) (b2z y)) as [E1|E1|E1]; try done;
    destruct (Z.compare_spec (b2z y) (b2z z)) as [E2|E2|E2]; try done;
    destruct (Z.compare_spec (b2z x) (b2z z)); try done; try lia; eauto.
Qed.

Lemma bytes_le_lteq a b : bytes_le a b ↔ bytes_lt a b ∨ a = b.
Proof.
  unfold bytes_le, bytes_lt. rewrite <-bytes_cmp_eq.
  destruct (bytes_cmp a b); naive_solver.
Qed.

#[export] Instance bytes_lt_dec : RelDecision bytes_lt.
Proof. intros a b. unfold bytes_lt. apply _. Defined.
#[export] Instance bytes_le_dec : RelDecision bytes_le.
Proof. intros a b. unfold bytes_le. apply _. Defined.

#[export] Instance bytes_lt_strict : StrictOrder bytes_lt.
Proof.
  split.
  - intros a H. unfold bytes_lt in H. by rewrite bytes_cmp_refl in H.
  - intros a b c. apply bytes_lt_trans.
Qed.

Lemma bytes_le_nlt a b : bytes_le a b ↔ ¬ bytes_lt b a.
Proof.
  unfold bytes_le, bytes_lt. rewrite (bytes_cmp_antisym a b).
  destruct (bytes_cmp a b); naive_solver.
Qed.

Lemma bytes_lt_nle a b : bytes_lt a b ↔ ¬ bytes_le b a.
Proof. rewrite bytes_le_nlt. destruct (decide (bytes_lt a b)); naive_solver. Qed.

#[export] Instance bytes_le_total : Total bytes_le.
Proof.
  intros a b. unfold bytes_le. rewrite (bytes_cmp_antisym a b).
  destruct (bytes_cmp a b); naive_solver.
Qed.

#[export] Instance bytes_le_preorder : PreOrder bytes_le.
Proof.
  split.
  - intros a. apply bytes_le_lteq. by right.
  - intros a b c. rewrite !bytes_le_lteq.
    intros [?| ->] [?| ->]; auto. left. by eapply bytes_lt_trans.
Qed.

#[export] Instance bytes_le_antisym : AntiSymm (=) bytes_le.
Proof.
  intros a b. rewrite !bytes_le_lteq. intros [H1| ->] [H2|H2]; auto.
  exfalso. by eapply (StrictOrder_Irreflexive a), bytes_lt_trans.
Qed.

Lemma bytes_ltb_spec a b : bytes_ltb a b = true ↔ bytes_lt a b.
Proof. unfold bytes_ltb, bytes_lt. destruct (bytes_cmp a b); naive_solver. Qed.

Lemma bytes_leb_spec a b : bytes_leb a b = true ↔ bytes_le a b.
Proof. unfold bytes_leb, bytes_le. destruct (bytes_cmp a b); naive_solver. Qed.

(** ** Automation

    The database of the facts that close the routine side conditions of the
    components (sortedness, bounds), and the tactic that uses it. *)
Create HintDb gcgrep.

Ltac go := eauto with gcgrep lia.

(** A decidable fact about every byte is checked by evaluation. *)
Definition all_bytes : list byte := map (λ n, z2b (Z.of_nat n)) (seq 0 256).

Lemma elem_of_all_bytes b : b ∈ all_bytes.
Proof.
  unfold all_bytes. apply list_elem_of_fmap. exists (Z.to_nat (b2z b)).
  pose proof (b2z_range b). split.
  - rewrite Z2Nat.id by lia. by rewrite z2b_b2z.
  - apply elem_of_seq. lia.
Qed.

Lemma byte_forall (P : byte → bool) : forallb P all_bytes = true → ∀ b, P b = true.
Proof.
  intros H b. rewrite forallb_forall in H.
  apply H, list_elem_of_In, elem_of_all_bytes.
Qed.

Lemma byte_forall2 (P : byte → byte → bool) :
  forallb (λ a, forallb (P a) all_bytes) all_bytes = true → ∀ a b, P a b = true.
Proof. intros H a. apply byte_forall. revert a. by apply byte_forall. Qed.

(** ** Machine integers and slices

    Go's [uint32] and [uint64] conversions, the reinterpretation of a [uint64]
    as an [int64] ([int] has 64 bits), and the checked slice operations. *)
Definition u16 (z : Z) : Z := (z mod 2 ^ 16)%Z.
Definition u32 (z : Z) : Z := (z mod 2 ^ 32)%Z.
Definition u64 (z : Z) : Z := (z mod 2 ^ 64)%Z.
Definition i64 (z : Z) : Z :=
  let m := (z mod 2 ^ 64)%Z in if (m <? 2 ^ 63)%Z then m else (m - 2 ^ 64)%Z.

Lemma u32_small z : (0 ≤ z < 2 ^ 32)%Z → u32 z = z.
Proof. apply Z.mod_small. Qed.
Lemma u64_small z : (0 ≤ z < 2 ^ 64)%Z → u64 z = z.
Proof. apply Z.mod_small. Qed.
Lemma i64_small z : (- 2 ^ 63 ≤ z < 2 ^ 63)%Z → i64 z = z.
Proof. unfold i64. intros H. destruct (Z.ltb_spec (z mod 2 ^ 64) (2 ^ 63)); lia. Qed.
Lemma i64_u64 z : i64 (u64 z) = i64 z.
Proof. unfold i64, u64. by rewrite Z.mod_mod. Qed.

(** [l[i]]: [None] when the index is out of range. *)
Definition idx {A} (l : list A) (i : Z) : option A :=
  if (0 <=? i)%Z then l !! Z.to_nat i else None.

(** [s[lo:hi]] *)
Definition slice {A} (s : list A) (lo hi : Z) : option (list A) :=
  check! (0 <=? lo)%Z && (lo <=? hi)%Z && (hi <=? Z.of_nat (length s))%Z;
  Some (take (Z.to_nat (hi - lo)) (drop (Z.to_nat lo) s)).

(** [len(s)] *)
Definition len {A} (s : list A) : Z := Z.of_nat (length s).

Lemma idx_nat {A} (l : list A) (i : nat) : idx l (Z.of_nat i) = l !! i.
Proof. unfold idx. rewrite (proj2 (Z.leb_le _ _)) by lia. by rewrite Nat2Z.id. Qed.

Lemma idx_Some {A} (l : list A) i x :
  idx l i = Some x ↔ ∃ n, i = Z.of_nat n ∧ l !! n = Some x.
Proof.
  split.
  - unfold idx. destruct (Z.leb_spec 0 i); [|done]. intros Hx.
    exists (Z.to_nat i). split; [lia|done].
  - intros (n & -> & Hx). by rewrite idx_nat.
Qed.

Lemma slice_app {A} (a b c : list A) lo hi :
  lo = len a → hi = (len a + len b)%Z → slice (a ++ b ++ c) lo hi = Some b.
Proof.
  unfold slice, len. intros -> ->. rewrite !length_app.
  rewrite !(proj2 (Z.leb_le _ _)) by lia. simpl. f_equal.
  rewrite Nat2Z.id, drop_app_length.
  replace (Z.to_nat _) with (length b) by lia. by rewrite take_app_length.
Qed.

(** ** Iteration order of Go maps

    A [for range] over a map visits its entries in an unspecified order: the
    development is parametric in that order. *)
Class MapOrder := {
  range {K} `{Countable K} {V} : gmap K V → list (K * V);
  range_perm {K} `{Countable K} {V} (m : gmap K V) : range m ≡ₚ map_to_list m;
  range_set {K} `{Countable K} : gset K → list K;
  range_set_perm {K} `{Countable K} (s : gset K) : range_set s ≡ₚ elements s;
}.

(** One such order, for the concrete evaluations. *)
Definition tree_order : MapOrder.
Proof.
  refine {| range K _ _ V m := map_to_list m; range_set K _ _ s := elements s |}; done.
Defined.

Lemma elem_of_range `{MapOrder} {K} `{Countable K} {V} (m : gmap K V) k v :
  (k, v) ∈ range m ↔ m !! k = Some v.
Proof. rewrite range_perm. apply elem_of_map_to_list. Qed.

Lemma elem_of_range_set `{MapOrder} {K} `{Countable K} (s : gset K) k :
  k ∈ range_set s ↔ k ∈ s.
Proof. rewrite range_set_perm. apply elem_of_elements. Qed.

Lemma NoDup_range_set `{MapOrder} {K} `{Countable K} (s : gset K) : NoDup (range_set s).
Proof. rewrite range_set_perm. apply NoDup_elements. Qed.
