(* ===== verification/GoBytes.v ===== *)
(** * The functions of Go's [bytes] and [strings] packages the source uses

    Searching, prefixes and lines over byte sequences.  A Go result [-1] is
    [None].  Each function has the lemma that characterises it; the two
    search functions are instances of [find_suffix], the first suffix of a
    sequence that satisfies a test. *)

From S2P Require Import Prelude.

(** A byte between two others. *)
Definition in_range (lo hi : Z) (b : byte) : bool := bool_decide (lo ≤ b2z b ∧ b2z b ≤ hi)%Z.

(** ** Prefixes and suffixes *)

(** [strings.HasPrefix(s, p)] *)
Fixpoint has_prefix (s p : bytes) {struct p} : bool :=
  match p with
  | [] => true
  | y :: p' =>
      match s with
      | [] => false
      | x :: s' => bool_decide (x = y) && has_prefix s' p'
      end
  end.

(** [strings.HasSuffix(s, p)] *)
Definition has_suffix (s p : bytes) : bool := has_prefix (reverse s) (reverse p).

(** [strings.TrimPrefix(s, p)] *)
Definition trim_prefix (s p : bytes) : bytes :=
  if has_prefix s p then drop (length p) s else s.

Lemma has_prefix_spec s p : has_prefix s p = true ↔ p `prefix_of` s.
Proof.
  revert s. induction p as [|y p IH]; intros s; simpl.
  { split; [|done]. intros _. apply prefix_nil. }
  destruct s as [|x s].
  { split; [done|]. intros [k Hk]. done. }
  rewrite andb_true_iff, bool_decide_eq_true, IH. split.
  - intros [-> ?]. by apply prefix_cons.
  - intros H. split; [by apply prefix_cons_inv_1 in H|by eapply prefix_cons_inv_2].
Qed.

Lemma has_prefix_app s p : has_prefix (p ++ s) p = true.
Proof. apply has_prefix_spec. by exists s. Qed.

Lemma has_prefix_nil_r s : has_prefix s [] = true.
Proof. by destruct s. Qed.

Lemma has_prefix_length s p : has_prefix s p = true → length p ≤ length s.
Proof. rewrite has_prefix_spec. apply prefix_length. Qed.

Lemma has_prefix_take s p :
  has_prefix s p = true ↔ take (length p) s = p.
Proof.
  rewrite has_prefix_spec. split.
  - intros [k ->]. by rewrite take_app_length.
  - intros H. exists (drop (length p) s). by rewrite <-H at 1; rewrite take_drop.
Qed.

(** ** Searching *)

(** The first position at which the remaining sequence satisfies [P]. *)
Fixpoint find_suffix (P : bytes → bool) (s : bytes) : option nat :=
  if P s then Some 0
  else match s with
       | [] => None
       | _ :: s' => S <$> find_suffix P s'
       end.

(** [bytes.Index(s, sub)] *)
Definition index (s sub : bytes) : option nat :=
  find_suffix (λ t, has_prefix t sub) s.

(** [bytes.Contains(s, sub)], [strings.Contains(s, sub)] *)
Definition contains (s sub : bytes) : bool := bool_decide (is_Some (index s sub)).

(** [bytes.IndexByte(s, c)], [strings.IndexByte(s, c)] *)
Fixpoint index_byte (s : bytes) (c : byte) : option nat :=
  match s with
  | [] => None
  | x :: s' => if bool_decide (x = c) then Some 0 else S <$> index_byte s' c
  end.

(** [bytes.LastIndexByte(s, c)] *)
Fixpoint last_index_byte (s : bytes) (c : byte) : option nat :=
  match s with
  | [] => None
  | x :: s' =>
      match last_index_byte s' c with
      | Some i => Some (S i)
      | None => if bool_decide (x = c) then Some 0 else None
      end
  end.

Lemma find_suffix_Some P s i :
  find_suffix P s = Some i ↔
    i ≤ length s ∧ P (drop i s) = true ∧ ∀ j, j < i → P (drop j s) = false.
Proof.
  revert i. induction s as [|x s IH]; intros i; simpl.
  - destruct (P []) eqn:E; split.
    + intros [= <-]. repeat split; auto with lia.
    + intros (Hi & _). f_equal. lia.
    + done.
    + rewrite drop_nil. intros (? & ? & ?). congruence.
  - destruct (P (x :: s)) eqn:E.
    + split.
      * intros [= <-]. repeat split; auto with lia.
      * intros (_ & _ & Hm). destruct i as [|i]; [done|].
        specialize (Hm 0 ltac:(lia)). simpl in Hm. congruence.
    + rewrite fmap_Some. split.
      * intros (k & Hk & ->). apply IH in Hk as (? & ? & Hm).
        repeat split; simpl; [lia|done|].
        intros [|j] Hj; simpl; [done|]. apply Hm. lia.
      * intros (Hl & HP & Hm). destruct i as [|i]; simpl in *; [congruence|].
        exists i. split; [|done]. apply IH. repeat split; [lia|done|].
        intros j Hj. apply (Hm (S j)). lia.
Qed.

Lemma find_suffix_None P s :
  find_suffix P s = None ↔ ∀ i, i ≤ length s → P (drop i s) = false.
Proof.
  split.
  - revert P. induction s as [|x s IH]; intros P H i Hi; simpl in *.
    + destruct (P []) eqn:?; [done|]. by rewrite drop_nil.
    + destruct (P (x :: s)) eqn:?; [done|].
      apply fmap_None in H. destruct i as [|i]; simpl; [done|].
      apply IH; [done|lia].
  - intros H. destruct (find_suffix P s) as [i|] eqn:E; [|done].
    apply find_suffix_Some in E as (? & HP & _). rewrite H in HP; done.
Qed.

Lemma find_suffix_ext P Q s :
  (∀ i, i ≤ length s → P (drop i s) = Q (drop i s)) →
  find_suffix P s = find_suffix Q s.
Proof.
  induction s as [|x s IH]; intros H; simpl;
    pose proof (H 0 ltac:(lia)) as H0; simpl in H0; rewrite H0.
  - done.
  - destruct (Q (x :: s)); [done|].
    f_equal. apply IH. intros i Hi. apply (H (S i)). simpl. lia.
Qed.

(** [sub] occurs in [s] at offset [i]. *)
Definition occurs_at (s sub : bytes) (i : nat) : Prop :=
  i ≤ length s ∧ sub `prefix_of` drop i s.

Lemma occurs_at_bound s sub i : occurs_at s sub i → i + length sub ≤ length s.
Proof.
  intros [Hi Hp]. apply prefix_length in Hp. rewrite length_drop in Hp. lia.
Qed.

Lemma occurs_at_app s sub i :
  occurs_at s sub i ↔ ∃ pre post, s = pre ++ sub ++ post ∧ length pre = i.
Proof.
  split.
  - intros [Hi [post Hp]]. exists (take i s), post.
    rewrite <-Hp, take_drop. split; [done|]. rewrite length_take. lia.
  - intros (pre & post & -> & <-). split; [rewrite length_app; lia|].
    rewrite drop_app_length. by exists post.
Qed.

Lemma index_Some s sub i :
  index s sub = Some i ↔ occurs_at s sub i ∧ ∀ j, j < i → ¬ occurs_at s sub j.
Proof.
  unfold index, occurs_at. rewrite find_suffix_Some, has_prefix_spec.
  split.
  - intros (? & ? & Hm). split; [done|]. intros j Hj [_ Hp].
    apply has_prefix_spec in Hp. rewrite Hm in Hp; done.
  - intros ([? ?] & Hm). split_and!; [done..|].
    intros j Hj. apply not_true_is_false. rewrite has_prefix_spec.
    intros Hp. apply (Hm j Hj). split; [lia|done].
Qed.

Lemma index_None s sub : index s sub = None ↔ ∀ i, ¬ occurs_at s sub i.
Proof.
  unfold index, occurs_at. rewrite find_suffix_None. split.
  - intros H i [Hi Hp]. apply has_prefix_spec in Hp. rewrite H in Hp; done.
  - intros H i Hi. apply not_true_is_false. rewrite has_prefix_spec.
    intros Hp. by apply (H i).
Qed.

Lemma contains_spec s sub :
  contains s sub = true ↔ ∃ pre post, s = pre ++ sub ++ post.
Proof.
  unfold contains. rewrite bool_decide_eq_true. split.
  - intros [i Hi]. apply index_Some in Hi as [Ho _].
    apply occurs_at_app in Ho. naive_solver.
  - intros (pre & post & ->).
    destruct (index (pre ++ sub ++ post) sub) as [i|] eqn:E; [by eexists|].
    exfalso. apply (proj1 (index_None _ _) E (length pre)).
    apply occurs_at_app. eauto.
Qed.

Lemma index_byte_Some s c i :
  index_byte s c = Some i ↔ s !! i = Some c ∧ ∀ j, j < i → s !! j ≠ Some c.
Proof.
  revert i. induction s as [|x s IH]; intros i; simpl; [naive_solver|].
  case_bool_decide as E.
  - split.
    + intros [= <-]. split; [by subst|lia].
    + intros [_ Hm]. destruct i as [|i]; [done|].
      destruct (Hm 0 ltac:(lia)). simpl. by subst.
  - rewrite fmap_Some. split.
    + intros (k & Hk & ->). apply IH in Hk as [Hl Hm]. split; [done|].
      intros [|j] Hj; simpl; [congruence|]. apply Hm. lia.
    + intros [Hl Hm]. destruct i as [|i]; simpl in *; [congruence|].
      exists i. split; [|done]. apply IH. split; [done|].
      intros j Hj. apply (Hm (S j)). lia.
Qed.

Lemma index_byte_None s c : index_byte s c = None ↔ c ∉ s.
Proof.
  induction s as [|x s IH]; simpl; [set_solver|].
  case_bool_decide; [set_solver|]. rewrite fmap_None, IH. set_solver.
Qed.

Lemma last_index_byte_Some s c i :
  last_index_byte s c = Some i ↔
    s !! i = Some c ∧ ∀ j, i < j → s !! j ≠ Some c.
Proof.
  revert i. induction s as [|x s IH]; intros i; simpl; [naive_solver|].
  destruct (last_index_byte s c) as [k|] eqn:E.
  - pose proof (proj1 (IH k) eq_refl) as [Hk Hm]. split.
    + intros [= <-]. split; [done|]. intros [|j] Hj; [lia|]. apply Hm. lia.
    + intros [Hl Hn]. f_equal.
      destruct (Nat.lt_trichotomy (S k) i) as [Hlt|[Heq|Hgt]]; [|done|].
      * destruct i as [|i]; [lia|]. destruct (Hm i); [lia|done].
      * by destruct (Hn (S k)).
  - assert (Hno : c ∉ s).
    { intros [j Hj]%list_elem_of_lookup.
      clear IH. revert j Hj E. induction s as [|y s IHs]; intros j Hj E; [done|].
      simpl in E. destruct (last_index_byte s c) eqn:E'; [done|].
      case_bool_decide; [done|]. destruct j as [|j]; simpl in *; [congruence|].
      by eapply IHs. }
    case_bool_decide as Hx; split; try done.
    + intros [= <-]. split; [by subst|]. intros [|j] Hj; [lia|].
      intros Hl. apply Hno, list_elem_of_lookup. eauto.
    + intros [Hl _]. destruct i as [|i]; [done|].
      exfalso. apply Hno, list_elem_of_lookup. eauto.
    + intros [Hl _]. destruct i as [|i]; simpl in Hl; [congruence|].
      exfalso. apply Hno, list_elem_of_lookup. eauto.
Qed.

Lemma last_index_byte_None s c : last_index_byte s c = None ↔ c ∉ s.
Proof.
  induction s as [|x s IH]; simpl; [set_solver|].
  destruct (last_index_byte s c) as [k|] eqn:E.
  - split; [done|]. intros Hn. exfalso.
    apply last_index_byte_Some in E as [E _].
    apply Hn. apply list_elem_of_lookup. exists (S k). done.
  - case_bool_decide; set_solver.
Qed.
