(* ===== verification/Trigram.v ===== *)
(** * Trigrams: the pruning index shared by the two engines

    Models [lower], [trigramsOf], [TrigramKeys] and [intersectSorted] of
    internal/index/index.go, and [trigramsOfLit] and [intersect] of
    internal/shard/shard.go.  The key lemma, [trigrams_fold_sub], is what makes
    pruning safe: the trigrams of a literal that occurs, up to ASCII case, in
    a content are trigrams of that content. *)

From S2P Require Import Prelude GoBytes.

(** [lower] folds one ASCII letter. *)
Definition lower (b : byte) : byte :=
  if bool_decide (65 ≤ b2z b ∧ b2z b ≤ 90)%Z then z2b (b2z b + 32) else b.

(** The key [uint32(lower(b[i]))<<16 | uint32(lower(b[i+1]))<<8 | uint32(lower(b[i+2]))]. *)
Definition tri_key (a b c : byte) : Z :=
  Z.lor (Z.lor (Z.shiftl (b2z (lower a)) 16) (Z.shiftl (b2z (lower b)) 8))
        (b2z (lower c)).

(** [trigramsOf]: adds every trigram of [content] to the set [seen]. *)
Fixpoint trigramsOf (content : bytes) (seen : gset Z) : gset Z :=
  match content with
  | a :: ((b :: c :: _) as rest) => trigramsOf rest ({[tri_key a b c]} ∪ seen)
  | _ => seen
  end.

(** [TrigramKeys]: the deduplicated keys, in some order. *)
Definition TrigramKeys `{MapOrder} (content : bytes) : list Z :=
  range_set (trigramsOf content ∅).

(** [trigramsOfLit]: the deduplicated keys in increasing order. *)
Definition trigramsOfLit (s : bytes) : list Z :=
  merge_sort Z.le (elements (trigramsOf s ∅)).

(** ** Folding *)

Lemma lower_idemp b : lower (lower b) = lower b.
Proof. destruct b; vm_compute; reflexivity. Qed.

Lemma tri_key_lower a b c : tri_key (lower a) (lower b) (lower c) = tri_key a b c.
Proof. unfold tri_key. by rewrite !lower_idemp. Qed.

Lemma tri_key_eq a b c :
  tri_key a b c = (b2z (lower a) * 65536 + b2z (lower b) * 256 + b2z (lower c))%Z.
Proof.
  unfold tri_key.
  pose proof (b2z_range (lower a)). pose proof (b2z_range (lower b)).
  pose proof (b2z_range (lower c)).
  replace (Z.shiftl (b2z (lower a)) 16) with (Z.shiftl (Z.shiftl (b2z (lower a)) 8) 8)
    by (by rewrite Z.shiftl_shiftl).
  rewrite <-Z.shiftl_lor, (lor_shiftl _ _ 8), (lor_shiftl _ _ 8) by lia.
  lia.
Qed.

Lemma tri_key_range a b c : (0 ≤ tri_key a b c < 2 ^ 24)%Z.
Proof.
  rewrite tri_key_eq.
  pose proof (b2z_range (lower a)). pose proof (b2z_range (lower b)).
  pose proof (b2z_range (lower c)). lia.
Qed.

Lemma tri_key_inj a b c a' b' c' :
  tri_key a b c = tri_key a' b' c' →
  lower a = lower a' ∧ lower b = lower b' ∧ lower c = lower c'.
Proof.
  rewrite !tri_key_eq. intros H.
  pose proof (b2z_range (lower a)). pose proof (b2z_range (lower b)).
  pose proof (b2z_range (lower c)). pose proof (b2z_range (lower a')).
  pose proof (b2z_range (lower b')). pose proof (b2z_range (lower c')).
  split_and!; apply b2z_inj; lia.
Qed.

(** ** The trigrams of a content *)

(** [k] is the key of some window of three bytes of [s]. *)
Definition has_tri (s : bytes) (k : Z) : Prop :=
  ∃ pre a b c post, s = pre ++ a :: b :: c :: post ∧ k = tri_key a b c.

Lemma has_tri_cons x s k :
  has_tri (x :: s) k ↔ (∃ b c post, s = b :: c :: post ∧ k = tri_key x b c) ∨ has_tri s k.
Proof.
  unfold has_tri. split.
  - intros (pre & a & b & c & post & Hs & ->). destruct pre as [|y pre]; simplify_eq/=.
    + left. eauto.
    + right. eauto 10.
  - intros [(b & c & post & -> & ->)|(pre & a & b & c & post & -> & ->)].
    + by exists [], x, b, c, post.
    + by exists (x :: pre), a, b, c, post.
Qed.

Lemma has_tri_nil k : ¬ has_tri [] k.
Proof. intros (pre & a & b & c & post & Hs & _). by destruct pre. Qed.

Lemma trigramsOf_spec s seen k : k ∈ trigramsOf s seen ↔ has_tri s k ∨ k ∈ seen.
Proof.
  revert seen. induction s as [|x s IH]; intros seen.
  { pose proof (has_tri_nil k). simpl. naive_solver. }
  rewrite has_tri_cons. destruct s as [|b [|c post]].
  - pose proof (has_tri_nil k). simpl. split; [naive_solver|].
    intros [[(?&?&?&?&_)|?]|?]; naive_solver.
  - simpl. rewrite has_tri_cons. pose proof (has_tri_nil k). naive_solver.
  - change (trigramsOf (x :: b :: c :: post) seen)
      with (trigramsOf (b :: c :: post) ({[tri_key x b c]} ∪ seen)).
    rewrite IH, elem_of_union, elem_of_singleton. naive_solver.
Qed.

Lemma TrigramKeys_spec `{MapOrder} s k : k ∈ TrigramKeys s ↔ has_tri s k.
Proof.
  unfold TrigramKeys. rewrite elem_of_range_set, trigramsOf_spec. set_solver.
Qed.

Lemma TrigramKeys_NoDup `{MapOrder} s : NoDup (TrigramKeys s).
Proof. apply NoDup_range_set. Qed.

Lemma trigramsOfLit_spec s k : k ∈ trigramsOfLit s ↔ has_tri s k.
Proof.
  unfold trigramsOfLit. rewrite merge_sort_Permutation, elem_of_elements, trigramsOf_spec.
  set_solver.
Qed.

Lemma trigramsOfLit_NoDup s : NoDup (trigramsOfLit s).
Proof. unfold trigramsOfLit. rewrite merge_sort_Permutation. apply NoDup_elements. Qed.

Lemma has_tri_app pre s post k : has_tri s k → has_tri (pre ++ s ++ post) k.
Proof.
  intros (p & a & b & c & q & -> & ->).
  exists (pre ++ p), a, b, c, (q ++ post). split; [|done].
  by rewrite <-!app_assoc.
Qed.

Lemma has_tri_fold s k : has_tri (map lower s) k ↔ has_tri s k.
Proof.
  split.
  - intros (pre & a & b & c & post & Hs & ->).
    apply fmap_app_inv in Hs as (p & r & -> & Hr & ->).
    destruct r as [|a' [|b' [|c' r]]]; simplify_eq/=.
    exists p, a', b', c', r. split; [done|]. apply tri_key_lower.
  - intros (pre & a & b & c & post & -> & ->).
    exists (map lower pre), (lower a), (lower b), (lower c), (map lower post).
    split; [by rewrite map_app|]. symmetry. apply tri_key_lower.
Qed.

(** [lit] occurs in [s] up to ASCII case. *)
Definition fold_contains (s lit : bytes) : Prop :=
  ∃ pre mid post, s = pre ++ mid ++ post ∧ map lower mid = map lower lit.

Lemma trigrams_fold_sub s lit k : fold_contains s lit → has_tri lit k → has_tri s k.
Proof.
  intros (pre & mid & post & -> & Hm) Hk. apply has_tri_app.
  apply has_tri_fold. rewrite Hm. by apply has_tri_fold.
Qed.

Lemma fold_contains_occurs s lit i : occurs_at s lit i → fold_contains s lit.
Proof. intros (pre & post & -> & _)%occurs_at_app. by exists pre, lit, post. Qed.

(** ** Intersection of posting lists *)

(** The two-pointer loop of [intersectSorted] (internal/index) and
    [intersect] (internal/shard), the same code in both packages. *)
Fixpoint intersectSorted (a : list Z) : list Z → list Z :=
  match a with
  | [] => λ _, []
  | x :: a' =>
      fix inner b :=
        match b with
        | [] => []
        | y :: b' =>
            if (x <? y)%Z then intersectSorted a' b
            else if (y <? x)%Z then inner b'
            else x :: intersectSorted a' b'
        end
  end.

Definition increasing (l : list Z) : Prop := StronglySorted Z.lt l.

Lemma increasing_cons x l : increasing (x :: l) ↔ increasing l ∧ ∀ y, y ∈ l → (x < y)%Z.
Proof.
  unfold increasing. split.
  - intros H. inversion H; subst. split; [done|]. by apply Forall_forall.
  - intros [? ?]. constructor; [done|]. by apply Forall_forall.
Qed.

Lemma increasing_snoc l x :
  increasing l → (∀ y, y ∈ l → (y < x)%Z) → increasing (l ++ [x]).
Proof.
  induction l as [|y l IH]; intros Hs Hx; simpl.
  - repeat constructor.
  - apply increasing_cons in Hs as [Hs Hy]. apply increasing_cons. split.
    + apply IH; set_solver.
    + intros z [Hz| ->%list_elem_of_singleton]%elem_of_app; [by apply Hy|].
      apply Hx. set_solver.
Qed.

Lemma increasing_NoDup l : increasing l → NoDup l.
Proof.
  induction l as [|x l IH]; [constructor|].
  intros [Hs Hx]%increasing_cons. constructor; [|by apply IH].
  intros Hin. specialize (Hx x Hin). lia.
Qed.

Lemma intersectSorted_elem a b x :
  increasing a → increasing b →
  x ∈ intersectSorted a b ↔ x ∈ a ∧ x ∈ b.
Proof.
  revert b. induction a as [|u a IH]; intros b Ha; [set_solver|].
  pose proof (proj1 (increasing_cons _ _) Ha) as [Ha' Hu].
  induction b as [|v b IHb]; intros Hb; [set_solver|].
  pose proof (proj1 (increasing_cons _ _) Hb) as [Hb' Hv]. simpl.
  rewrite !elem_of_cons.
  destruct (Z.ltb_spec u v) as [Huv|Huv]; [|destruct (Z.ltb_spec v u) as [Hvu|Hvu]].
  - rewrite IH, elem_of_cons by done. specialize (Hv u). naive_solver lia.
  - rewrite IHb, elem_of_cons by done. specialize (Hu v). naive_solver lia.
  - assert (u = v) as -> by lia. rewrite elem_of_cons, IH by done.
    specialize (Hu v). specialize (Hv v). naive_solver lia.
Qed.

Lemma intersectSorted_increasing a b :
  increasing a → increasing b → increasing (intersectSorted a b).
Proof.
  revert b. induction a as [|u a IH]; intros b Ha; [constructor|].
  pose proof (proj1 (increasing_cons _ _) Ha) as [Ha' Hu].
  induction b as [|v b IHb]; intros Hb; [constructor|].
  pose proof (proj1 (increasing_cons _ _) Hb) as [Hb' Hv]. simpl.
  destruct (u <? v)%Z; [by apply IH|]. destruct (v <? u)%Z; [by apply IHb|].
  apply increasing_cons. split; [by apply IH|].
  intros y Hy. apply intersectSorted_elem in Hy as [? ?]; auto.
Qed.

#[export] Hint Resolve intersectSorted_increasing : gcgrep.
