(* ===== verification/Text.v ===== *)
(** * Text encodings: UTF-8, UTF-16 and the binary probe

    The parts of Go's [unicode/utf8], [unicode/utf16] and [strings.ToLower]
    the source uses, then the two transcoders of the program, [decodeUTF16]
    of internal/daemon/utf16.go and of internal/shard/engine.go, and the NUL
    probe [isBinary].  Runes are code points in [Z]. *)

From S2P Require Import Prelude GoBytes Trigram.

(** ** UTF-8 (Go's [unicode/utf8]) *)

Definition RuneError : Z := 65533.

Definition is_surrogate (r : Z) : bool := bool_decide (55296 ≤ r ∧ r < 57344)%Z.

(** A Unicode scalar value. *)
Definition valid_rune (r : Z) : bool :=
  bool_decide (0 ≤ r ∧ r < 1114112)%Z && negb (is_surrogate r).

Definition cont (z : Z) : byte := z2b (128 + z mod 64).

(** [utf8.EncodeRune]: an invalid rune is encoded as [RuneError]. *)
Definition EncodeRune (r : Z) : bytes :=
  if negb (valid_rune r) then [xef; xbf; xbd]
  else if (r <? 128)%Z then [z2b r]
  else if (r <? 2048)%Z then [z2b (192 + r / 64); cont r]
  else if (r <? 65536)%Z then [z2b (224 + r / 4096); cont (r / 64); cont r]
  else [z2b (240 + r / 262144); cont (r / 4096); cont (r / 64); cont r].

(** [string(runes)] *)
Definition string_of_runes (rs : list Z) : bytes := concat (map EncodeRune rs).

Definition is_cont (lo hi : Z) (b : byte) : bool :=
  bool_decide (lo ≤ b2z b ∧ b2z b ≤ hi)%Z.

(** [utf8.DecodeRune]: the first rune of a non-empty sequence and its width;
    an ill-formed sequence is [RuneError] of width one.  The bounds of the second byte
    exclude overlong forms, surrogates and values past the last code point. *)
Definition DecodeRune (s : bytes) : Z * nat :=
  match s with
  | [] => (RuneError, 0)
  | a :: s1 =>
      let x := b2z a in
      let low := (λ b, b2z b mod 64)%Z in
      if (x <? 128)%Z then (x, 1)
      else if (x <? 194)%Z then (RuneError, 1)
      else if (x <? 224)%Z then
        match s1 with
        | b :: _ =>
            if is_cont 128 191 b then (((x - 192) * 64 + low b)%Z, 2) else (RuneError, 1)
        | _ => (RuneError, 1)
        end
      else if (x <? 240)%Z then
        match s1 with
        | b :: c :: _ =>
            if is_cont (if x =? 224 then 160 else 128)%Z (if x =? 237 then 159 else 191)%Z b
               && is_cont 128 191 c
            then (((x - 224) * 4096 + low b * 64 + low c)%Z, 3) else (RuneError, 1)
        | _ => (RuneError, 1)
        end
      else if (x <? 245)%Z then
        match s1 with
        | b :: c :: d :: _ =>
            if is_cont (if x =? 240 then 144 else 128)%Z (if x =? 244 then 143 else 191)%Z b
               && is_cont 128 191 c && is_cont 128 191 d
            then (((x - 240) * 262144 + low b * 4096 + low c * 64 + low d)%Z, 4)
            else (RuneError, 1)
        | _ => (RuneError, 1)
        end
      else (RuneError, 1)
  end.

(** The runes of a string, as [for range] yields them. *)
Fixpoint runes_loop (fuel : nat) (s : bytes) : list Z :=
  match fuel, s with
  | S fuel, _ :: _ => let '(r, w) := DecodeRune s in r :: runes_loop fuel (drop w s)
  | _, _ => []
  end.
Definition runes_of (s : bytes) : list Z := runes_loop (length s) s.

(** ** Case conversion

    The Unicode case tables are data of the Go runtime; of [unicode.ToLower]
    the development uses its documented value on ASCII. *)
Class UnicodeCase := {
  unicode_lower : Z → Z;
  unicode_lower_ascii r :
    (0 ≤ r < 128)%Z →
    unicode_lower r = if bool_decide (65 ≤ r ∧ r ≤ 90)%Z then (r + 32)%Z else r;
}.

Definition is_ascii (b : byte) : bool := (b2z b <? 128)%Z.
Definition ascii (s : bytes) : Prop := Forall (λ b, is_ascii b = true) s.

(** [strings.ToLower]: a byte map on ASCII strings, a rune map on the others. *)
Definition ToLower `{UnicodeCase} (s : bytes) : bytes :=
  if forallb is_ascii s then map lower s
  else string_of_runes (map unicode_lower (runes_of s)).

Lemma ToLower_ascii `{UnicodeCase} s : ascii s → ToLower s = map lower s.
Proof.
  intros Hs. unfold ToLower. replace (forallb is_ascii s) with true; [done|].
  symmetry. apply forallb_forall. intros b Hb. unfold ascii in Hs.
  rewrite Forall_forall in Hs. apply Hs, list_elem_of_In, Hb.
Qed.

(** Runes below 128 are their own encoding. *)
Lemma EncodeRune_ascii r : (0 ≤ r < 128)%Z → EncodeRune r = [z2b r].
Proof.
  intros Hr. unfold EncodeRune, valid_rune, is_surrogate.
  rewrite bool_decide_eq_true_2, bool_decide_eq_false_2 by lia. simpl.
  by rewrite (proj2 (Z.ltb_lt r 128)) by lia.
Qed.

(** ** UTF-16 *)

(** The code units of [b] (a trailing odd byte is dropped); [be] selects the
    byte order.  This is the loop both transcoders begin with. *)
Fixpoint u16_units (be : bool) (b : bytes) : list Z :=
  match b with
  | x :: y :: rest =>
      (if be then Z.lor (Z.shiftl (b2z x) 8) (b2z y)
       else Z.lor (Z.shiftl (b2z y) 8) (b2z x)) :: u16_units be rest
  | _ => []
  end.

(** The byte order mark, [None] when there is none. *)
Definition bom (b : bytes) : option bool :=
  match b with
  | x :: y :: _ =>
      if bool_decide (x = xff ∧ y = xfe) then Some false
      else if bool_decide (x = xfe ∧ y = xff) then Some true
      else None
  | _ => None
  end.

(** Go's [utf16.Decode]: surrogate pairs are combined and a lone surrogate is [RuneError]. *)
Fixpoint utf16_Decode (s : list Z) : list Z :=
  match s with
  | [] => []
  | r :: s' =>
      if bool_decide (r < 55296 ∨ 57344 ≤ r)%Z then r :: utf16_Decode s'
      else match s' with
           | r2 :: s'' =>
               if bool_decide (55296 ≤ r ∧ r < 56320 ∧ 56320 ≤ r2 ∧ r2 < 57344)%Z
               then (Z.lor (Z.shiftl (r - 55296) 10) (r2 - 56320) + 65536)%Z
                      :: utf16_Decode s''
               else RuneError :: utf16_Decode s'
           | [] => [RuneError]
           end
  end.

(** internal/daemon/utf16.go: [None] is [ok=false]. *)
Definition decodeUTF16 (b : bytes) : option bytes :=
  match bom b with
  | None => None
  | Some be => Some (concat (map EncodeRune (utf16_Decode (u16_units be (drop 2 b)))))
  end.

(** internal/shard/engine.go: the same function without [utf16.Decode]; each
    code unit becomes a rune of its own. *)
Definition shard_decodeUTF16 (b : bytes) : option bytes :=
  match bom b with
  | None => None
  | Some be => Some (string_of_runes (u16_units be (drop 2 b)))
  end.

(** The NUL probe of the first 8192 bytes, in both packages. *)
Definition probe_bytes : nat := Z.to_nat 8192.

Definition isBinary (content : bytes) : bool :=
  bool_decide (is_Some (index_byte (take probe_bytes content) x00)).

Lemma isBinary_false content : isBinary content = false ↔ x00 ∉ take probe_bytes content.
Proof.
  unfold isBinary. rewrite bool_decide_eq_false, <-eq_None_not_Some.
  apply index_byte_None.
Qed.

(** ** The encoder the transcoders invert *)

Definition u16_bytes (be : bool) (u : Z) : bytes :=
  if be then [z2b (u / 256); z2b u] else [z2b u; z2b (u / 256)].

Definition u16_encode (r : Z) : list Z :=
  if (r <? 65536)%Z then [r]
  else [(55296 + (r - 65536) / 1024)%Z; (56320 + (r - 65536) mod 1024)%Z].

Definition utf16_file (be : bool) (rs : list Z) : bytes :=
  (if be then [xfe; xff] else [xff; xfe])
    ++ concat (map (u16_bytes be) (concat (map u16_encode rs))).

Lemma u16_units_bytes be us :
  Forall (λ u, 0 ≤ u < 65536)%Z us →
  u16_units be (concat (map (u16_bytes be) us)) = us.
Proof.
  induction 1 as [|u us Hu Hus IH]; [done|].
  assert (Z.lor (Z.shiftl (b2z (z2b (u / 256))) 8) (b2z (z2b u)) = u) as Hlor.
  { rewrite !b2z_z2b, lor_shiftl by lia. lia. }
  simpl. destruct be; simpl; by rewrite Hlor, IH.
Qed.

Lemma u16_encode_range rs :
  Forall (λ r, valid_rune r = true) rs →
  Forall (λ u, 0 ≤ u < 65536)%Z (concat (map u16_encode rs)).
Proof.
  unfold valid_rune. induction 1 as [|r rs Hr Hrs IH]; simpl; [constructor|].
  apply andb_true_iff in Hr as [Hr _]. apply bool_decide_eq_true in Hr.
  apply Forall_app. split; [|done]. unfold u16_encode.
  destruct (Z.ltb_spec r 65536); repeat constructor; lia.
Qed.

Lemma utf16_Decode_encode rs :
  Forall (λ r, valid_rune r = true) rs →
  utf16_Decode (concat (map u16_encode rs)) = rs.
Proof.
  unfold valid_rune, is_surrogate. induction 1 as [|r rs Hr Hrs IH]; [done|].
  apply andb_true_iff in Hr as [Hr Hs]. apply bool_decide_eq_true in Hr.
  apply negb_true_iff, bool_decide_eq_false in Hs. simpl. unfold u16_encode at 1.
  destruct (Z.ltb_spec r 65536); simpl.
  - rewrite bool_decide_eq_true_2 by lia. by rewrite IH.
  - rewrite bool_decide_eq_false_2, bool_decide_eq_true_2 by lia.
    rewrite lor_shiftl by lia. rewrite IH. f_equal. lia.
Qed.

Lemma bom_utf16_file be rs : bom (utf16_file be rs) = Some be.
Proof. by destruct be. Qed.

Lemma drop_utf16_file be rs :
  drop 2 (utf16_file be rs) = concat (map (u16_bytes be) (concat (map u16_encode rs))).
Proof. by destruct be. Qed.

Lemma u16_units_odd be us x :
  u16_units be (concat (map (u16_bytes be) us) ++ [x])
    = u16_units be (concat (map (u16_bytes be) us)).
Proof. induction us as [|u us IH]; [done|]. destruct be; simpl; by f_equal. Qed.

Lemma EncodeRune_surrogate r :
  (55296 ≤ r < 57344)%Z → EncodeRune r = EncodeRune RuneError.
Proof.
  intros Hr. unfold EncodeRune at 1, valid_rune, is_surrogate.
  rewrite (bool_decide_eq_true_2 (55296 ≤ r < 57344)%Z) by lia. by rewrite andb_false_r.
Qed.

(** ** Properties *)

(** The UTF-16 transcoder of the daemon inverts UTF-16 encoding: a file of
    either byte order, with its mark and possibly a stray last byte, becomes the
    UTF-8 encoding of the same runes, surrogate pairs included. *)
Theorem decodeUTF16_roundtrip be rs trail :
  Forall (λ r, valid_rune r = true) rs → length trail ≤ 1 →
  decodeUTF16 (utf16_file be rs ++ trail) = Some (concat (map EncodeRune rs)).
Proof.
  intros Hrs Ht. unfold decodeUTF16.
  assert (bom (utf16_file be rs ++ trail) = Some be) as -> by by destruct be.
  assert (drop 2 (utf16_file be rs ++ trail) =
    concat (map (u16_bytes be) (concat (map u16_encode rs))) ++ trail) as -> by by destruct be.
  assert (u16_units be (concat (map (u16_bytes be) (concat (map u16_encode rs))) ++ trail)
          = concat (map u16_encode rs)) as ->.
  { destruct trail as [|x [|y trail]]; simpl in Ht; [rewrite app_nil_r|rewrite u16_units_odd|lia];
      by apply u16_units_bytes, u16_encode_range. }
  by rewrite utf16_Decode_encode.
Qed.

Lemma decodeUTF16_roundtrip_witness :
  decodeUTF16 (utf16_file true [104; 233; 128512]%Z ++ [x00])
    = Some (concat (map EncodeRune [104; 233; 128512]%Z)).
Proof.
  apply (decodeUTF16_roundtrip true [104; 233; 128512]%Z [x00]); [|simpl; lia].
  repeat (constructor; [vm_compute; reflexivity|]). constructor.
Defined.

(** The transcoder of the disk engine agrees on the basic plane only: it has no
    surrogate pairing, so every rune above it becomes two replacement characters. *)
Theorem shard_decodeUTF16_basic_plane be rs :
  Forall (λ r, valid_rune r = true) rs →
  shard_decodeUTF16 (utf16_file be rs) = Some (concat (map (λ r,
    if (r <? 65536)%Z then EncodeRune r else EncodeRune RuneError ++ EncodeRune RuneError) rs)).
Proof.
  intros Hrs. unfold shard_decodeUTF16. rewrite bom_utf16_file, drop_utf16_file.
  rewrite u16_units_bytes by by apply u16_encode_range.
  f_equal. unfold string_of_runes. induction Hrs as [|r rs Hr Hrs IH]; [done|].
  cbn [map concat]. rewrite map_app, concat_app, IH. f_equal. unfold u16_encode.
  unfold valid_rune in Hr. apply andb_true_iff in Hr as [Hr _]. apply bool_decide_eq_true in Hr.
  destruct (Z.ltb_spec r 65536); cbn [map concat]; [by rewrite app_nil_r|].
  by rewrite app_nil_r, (EncodeRune_surrogate (55296 + _)), (EncodeRune_surrogate (56320 + _)) by lia.
Qed.

Lemma shard_decodeUTF16_basic_plane_witness :
  decodeUTF16 (utf16_file false [128512]%Z) ≠ shard_decodeUTF16 (utf16_file false [128512]%Z) ∧
  shard_decodeUTF16 (utf16_file false [128512]%Z)
    = Some (EncodeRune RuneError ++ EncodeRune RuneError).
Proof.
  split; [vm_compute; discriminate|].
  apply (shard_decodeUTF16_basic_plane false [128512]%Z).
  repeat (constructor; [vm_compute; reflexivity|]). constructor.
Defined.
