(* ===== verification/GoPath.v ===== *)
(** * Slash-separated paths and the runes of a string

    The functions of Go's [strings] and [path/filepath] that the daemon uses on
    relative paths, and the fact its pattern matchers rest on: a slash is a rune of its
    own wherever it appears, so a path splits at slashes the same way as its runes. *)

From S2P Require Import Prelude GoBytes Text.

(** ** Splitting *)

(** [strings.Split(s, sep)] for a separator of one byte. *)
Fixpoint split_byte (sep : byte) (s : bytes) : list bytes :=
  match s with
  | [] => [[]]
  | c :: s =>
      if bool_decide (c = sep) then [] :: split_byte sep s
      else match split_byte sep s with
           | p :: ps => (c :: p) :: ps
           | [] => [[c]]
           end
  end.

(** [strings.Join(parts, "/")] *)
Fixpoint join_slash (parts : list bytes) : bytes :=
  match parts with
  | [] => []
  | [p] => p
  | p :: ps => p ++ slash :: join_slash ps
  end.

(** The part of a path after its last slash. *)
Definition path_base (p : bytes) : bytes :=
  match last_index_byte p slash with Some i => drop (S i) p | None => p end.

Lemma split_byte_not_nil sep s : split_byte sep s ≠ [].
Proof. destruct s; simpl; [done|]. repeat case_match; done. Qed.

Lemma split_byte_notin sep s : sep ∉ s → split_byte sep s = [s].
Proof.
  induction s as [|c s IH]; intros Hs; [done|]. apply not_elem_of_cons in Hs as [Hc Hs]. simpl.
  rewrite bool_decide_eq_false_2 by done. by rewrite IH.
Qed.

Lemma split_byte_app sep a b : sep ∉ a → split_byte sep (a ++ sep :: b) = a :: split_byte sep b.
Proof.
  induction a as [|c a IH]; intros Hs; simpl; [by rewrite bool_decide_eq_true_2|].
  apply not_elem_of_cons in Hs as [Hc Hs]. rewrite bool_decide_eq_false_2 by done. by rewrite IH.
Qed.

Lemma last_slash_notin a b : slash ∉ b → last_index_byte (a ++ slash :: b) slash = Some (length a).
Proof.
  intros Hb. induction a as [|c a IH]; simpl; [|by rewrite IH].
  by rewrite (proj2 (last_index_byte_None b slash) Hb).
Qed.

Lemma path_base_spec p name :
  slash ∉ name → path_base p = name ↔ p = name ∨ ∃ d, p = d ++ slash :: name.
Proof.
  intros Hn. unfold path_base. split.
  - destruct (last_index_byte p slash) as [i|] eqn:E; [|by left].
    apply last_index_byte_Some in E as [Hi _]. intros <-. right. exists (take i p).
    by rewrite (drop_S _ _ _ Hi) || rewrite <-(drop_S p slash i Hi), take_drop.
  - intros [->|[d ->]]; [by rewrite (proj2 (last_index_byte_None name slash) Hn)|].
    rewrite last_slash_notin by done. rewrite (drop_app_ge d) by lia. by rewrite Nat.sub_succ_l, Nat.sub_diag.
Qed.

(** ** Runes *)

Lemma DecodeRune_width a s : let '(_, w) := DecodeRune (a :: s) in 1 ≤ w ≤ length (a :: s).
Proof.
  unfold DecodeRune. repeat case_match; simplify_eq; simpl; lia.
Qed.

Lemma runes_loop_fuel n s : length s ≤ n → runes_loop n s = runes_of s.
Proof.
  unfold runes_of. remember (length s) as m eqn:Hm. 
  revert n s Hm. induction (lt_wf m) as [m _ IH]. intros n s -> Hn.
  destruct s as [|a s]; [by destruct n|]. destruct n as [|n]; [simpl in Hn; lia|].
  cbn [runes_loop length]. pose proof (DecodeRune_width a s) as Hw.
  destruct (DecodeRune (a :: s)) as [r w]. cbn [length] in *.
  assert (length (drop w (a :: s)) < S (length s)) as Hl by (rewrite length_drop; simpl; lia).
  f_equal. rewrite (IH _ Hl n _ eq_refl) by lia. symmetry. apply (IH _ Hl _ _ eq_refl).
  lia.
Qed.

Lemma runes_of_cons a s :
  runes_of (a :: s) = let '(r, w) := DecodeRune (a :: s) in r :: runes_of (drop w (a :: s)).
Proof.
  pose proof (DecodeRune_width a s) as Hw. change (runes_of (a :: s)) with (runes_loop (S (length s)) (a :: s)).
  cbn [runes_loop]. destruct (DecodeRune (a :: s)) as [r w]. f_equal. apply runes_loop_fuel.
  rewrite length_drop. simpl. lia.
Qed.

Lemma is_cont_slash lo hi : (128 ≤ lo)%Z → is_cont lo hi slash = false.
Proof. intros. apply bool_decide_eq_false. change (b2z slash) with 47%Z. lia. Qed.

Lemma DecodeRune_slash a s t : DecodeRune (a :: s ++ slash :: t) = DecodeRune (a :: s).
Proof.
  destruct s as [|b [|c [|d s]]]; unfold DecodeRune; cbn [app];
    rewrite ?is_cont_slash by (repeat case_match; lia); rewrite ?andb_false_r; repeat case_match; done.
Qed.

Lemma DecodeRune_ascii a s : is_ascii a = true → DecodeRune (a :: s) = (b2z a, 1).
Proof. unfold is_ascii, DecodeRune. by intros ->. Qed.

Lemma runes_of_ascii a s : is_ascii a = true → runes_of (a :: s) = b2z a :: runes_of s.
Proof. intros Ha. by rewrite runes_of_cons, DecodeRune_ascii. Qed.

(** The runes before a slash do not depend on what follows it. *)
Lemma runes_of_slash a b : runes_of (a ++ slash :: b) = runes_of a ++ 47%Z :: runes_of b.
Proof.
  remember (length a) as n eqn:Hn. revert a Hn. induction (lt_wf n) as [n _ IH]. intros a ->.
  destruct a as [|x a]; [by apply runes_of_ascii|].
  rewrite <-app_comm_cons, !runes_of_cons, DecodeRune_slash.
  pose proof (DecodeRune_width x a) as Hw. destruct (DecodeRune (x :: a)) as [r w].
  rewrite app_comm_cons, drop_app_le by lia. cbn [app]. f_equal. eapply IH; [|done].
  rewrite length_drop. cbn [length]. lia.
Qed.

(** A rune below 128 is a byte. *)
Lemma DecodeRune_low a s r w : DecodeRune (a :: s) = (r, w) → (r < 128)%Z → r = b2z a ∧ w = 1.
Proof.
  pose proof (b2z_range a). unfold DecodeRune, RuneError.
  repeat case_match; intros [= <- <-] Hr; split; try done; exfalso;
    repeat match goal with
    | H : (_ <? _)%Z = false |- _ => apply Z.ltb_ge in H
    | H : _ && _ = true |- _ => apply andb_prop in H as [? ?]
    | H : is_cont _ _ _ = true |- _ => apply bool_decide_eq_true in H
    end; lia.
Qed.

(** A path splits where its runes do. *)
Lemma runes_of_split s xs ys :
  runes_of s = xs ++ 47%Z :: ys → ∃ a b, s = a ++ slash :: b ∧ runes_of a = xs ∧ runes_of b = ys.
Proof.
  remember (length s) as n eqn:Hn. revert s xs Hn. induction (lt_wf n) as [n _ IH]. intros s xs -> Hs.
  destruct s as [|x s]; [by destruct xs|]. rewrite runes_of_cons in Hs.
  pose proof (DecodeRune_width x s) as Hw. destruct (DecodeRune (x :: s)) as [r w] eqn:E.
  destruct xs as [|r' xs]; injection Hs as Hr Hs.
  - subst r. destruct (DecodeRune_low _ _ _ _ E ltac:(lia)) as [Hx ->].
    exists [], s. rewrite (b2z_inj x slash) by done. done.
  - subst r'. destruct (IH (length (drop w (x :: s))) ltac:(rewrite length_drop; simpl; lia) _ xs eq_refl Hs)
      as (a & b & Hd & Ha & Hb).
    exists (take w (x :: s) ++ a), b. split; [by rewrite <-app_assoc, <-Hd, take_drop|]. split; [|done].
    rewrite <-Ha. clear IH Hs Ha.
    assert (∃ t, take w (x :: s) = x :: t ∧ x :: s = x :: (t ++ a) ++ slash :: b) as (t & Ht & Hxs).
    { destruct w as [|w]; [lia|]. exists (take w s). split; [done|].
      by rewrite <-app_assoc, <-Hd, <-(take_drop (S w) (x :: s)) at 1. }
    rewrite Ht, <-app_comm_cons, runes_of_cons. rewrite Hxs, DecodeRune_slash in E. rewrite E. f_equal.
    rewrite app_comm_cons, <-Ht. rewrite drop_app_ge; rewrite length_take; [|lia].
    by replace (w - w `min` length (x :: s)) with 0 by lia.
Qed.

(** ** Splitting at slashes *)

Lemma split_byte_slash sep a b : split_byte sep (a ++ sep :: b) = split_byte sep a ++ split_byte sep b.
Proof.
  induction a as [|c a IH]; simpl; [by rewrite bool_decide_eq_true_2|].
  case_bool_decide; [by rewrite IH|]. rewrite IH.
  destruct (split_byte sep a) eqn:E; [by apply split_byte_not_nil in E|done].
Qed.

Lemma join_slash_app a b : a ≠ [] → b ≠ [] → join_slash (a ++ b) = join_slash a ++ slash :: join_slash b.
Proof.
  intros Ha Hb. induction a as [|p a IH]; [done|]. destruct a as [|q a]; [by destruct b|].
  change (p ++ slash :: join_slash ((q :: a) ++ b) =
    (p ++ slash :: join_slash (q :: a)) ++ slash :: join_slash b).
  by rewrite IH, <-app_assoc.
Qed.

Lemma join_split s : join_slash (split_byte slash s) = s.
Proof.
  induction s as [|c s IH]; [done|]. cbn [split_byte]. case_bool_decide as Hc.
  - subst c. pose proof (split_byte_not_nil slash s). rewrite <-IH at 2. by destruct (split_byte slash s).
  - destruct (split_byte slash s) as [|p [|q ps]] eqn:E; [by apply split_byte_not_nil in E|..];
      rewrite <-IH; done.
Qed.
