(* ===== verification/Ignore.v ===== *)
(** * Exclusion rules: internal/ignore

    [compile] translates a gitignore pattern into two regular expressions over the
    path, with a small set of pieces; the model keeps the pieces and matches them on
    the runes of the path, as Go's regexp does.  [Ignored] is the matcher of
    .gcgrepignore and GCGREP_EXCLUDE, [GitIgnored] the tree of .gitignore files with
    its cache of loaded directories. *)

From S2P Require Import Prelude GoBytes Text GoPath.

(** ** Patterns *)

(** The pieces [compile] writes: [(?:.*/)?], [.*], [[^/]*], [[^/]] and a quoted rune. *)
Inductive piece := OptDirs | AnyRunes | NotSlashes | NotSlash | Lit (r : Z).

(** [rule]: its two expressions are the pieces followed by [$] and by [/]. *)
Record rule := mkRule { r_anchored : bool; r_body : list piece; r_dirOnly : bool }.

(** The loop of [compile]: a byte that is no wildcard is converted by [string(pat[i])] to the
    rune of its value. *)
Fixpoint compile_body (fuel : nat) (pat : bytes) : list piece :=
  match fuel with
  | O => []
  | S fuel =>
      match pat with
      | [] => []
      | c :: rest =>
          if has_prefix pat (bs "**/") then OptDirs :: compile_body fuel (drop 3 pat)
          else if has_prefix pat (bs "**") then AnyRunes :: compile_body fuel (drop 2 pat)
          else if bool_decide (c = x2a) then NotSlashes :: compile_body fuel rest
          else if bool_decide (c = x3f) then NotSlash :: compile_body fuel rest
          else Lit (b2z c) :: compile_body fuel rest
      end
  end.

(** [compile]; its expressions always compile. *)
Definition compile (pat : bytes) : rule :=
  let dirOnly := has_suffix pat [slash] in
  let pat := if dirOnly then take (length pat - 1) pat else pat in
  let anchored := has_prefix pat [slash] || contains pat [slash] in
  let pat := trim_prefix pat [slash] in
  mkRule anchored (compile_body (length pat) pat) dirOnly.

(** ** Matching *)

(** A starred class, then the rest. *)
Fixpoint star_then (P : Z → bool) (k : list Z → bool) (s : list Z) : bool :=
  k s || match s with c :: s => P c && star_then P k s | [] => false end.

Definition after_slash (k : list Z → bool) (s : list Z) : bool :=
  match s with c :: s => bool_decide (c = 47%Z) && k s | [] => false end.

Definition not_slash (c : Z) : bool := negb (bool_decide (c = 47%Z)).
Definition not_newline (c : Z) : bool := negb (bool_decide (c = 10%Z)).

(** A piece, then the rest. *)
Definition piece_then (p : piece) (k : list Z → bool) (s : list Z) : bool :=
  match p with
  | OptDirs => k s || star_then not_newline (after_slash k) s
  | AnyRunes => star_then not_newline k s
  | NotSlashes => star_then not_slash k s
  | NotSlash => match s with c :: s => not_slash c && k s | [] => false end
  | Lit r => match s with c :: s => bool_decide (c = r) && k s | [] => false end
  end.

Fixpoint body_then (ps : list piece) (k : list Z → bool) (s : list Z) : bool :=
  match ps with
  | [] => k s
  | p :: ps => piece_then p (body_then ps k) s
  end.

Fixpoint any_suffix (f : list Z → bool) (s : list Z) : bool :=
  f s || match s with _ :: s => any_suffix f s | [] => false end.

(** [^body] or [(?:^|.*/)body], then the rest: [MatchString] of the expression. *)
Definition rule_then (r : rule) (k : list Z → bool) (s : list Z) : bool :=
  if r_anchored r then body_then (r_body r) k s
  else body_then (r_body r) k s
       || any_suffix (star_then not_newline (after_slash (body_then (r_body r) k))) s.

(** [r.exact.MatchString(rel)] and [r.prefix.MatchString(rel)] *)
Definition exact_match (r : rule) (rel : bytes) : bool :=
  rule_then r (λ s, bool_decide (s = [])) (runes_of rel).
Definition prefix_match (r : rule) (rel : bytes) : bool :=
  rule_then r (after_slash (λ _, true)) (runes_of rel).

(** ** Rule files *)

(** [unicode.IsSpace] *)
Definition IsSpace (r : Z) : bool :=
  bool_decide (9 ≤ r ∧ r ≤ 13)%Z || bool_decide (8192 ≤ r ∧ r ≤ 8202)%Z ||
  bool_decide (r ∈ [32; 133; 160; 5760; 8232; 8233; 8239; 8287; 12288]%Z).

(** The runes of a string with their bytes. *)
Fixpoint chunks (fuel : nat) (s : bytes) : list (Z * bytes) :=
  match fuel, s with
  | S fuel, _ :: _ => let '(r, w) := DecodeRune s in (r, take w s) :: chunks fuel (drop w s)
  | _, _ => []
  end.

Fixpoint drop_spaces (l : list (Z * bytes)) : list (Z * bytes) :=
  match l with
  | (r, c) :: l' => if IsSpace r then drop_spaces l' else l
  | [] => []
  end.

(** [strings.TrimSpace] *)
Definition TrimSpace (s : bytes) : bytes :=
  concat (reverse (drop_spaces (reverse (drop_spaces (chunks (length s) s)))).*2).

(** The lines a [bufio.Scanner] yields: it stops at a line of 64 KiB or more, drops a
    carriage return at the end of a line, and yields no empty last line. *)
Definition scan_line (l : bytes) : bytes :=
  if has_suffix l [x0d] then take (length l - 1) l else l.
Fixpoint scan_lines (ls : list bytes) : list bytes :=
  match ls with
  | [] => []
  | [l] => if bool_decide (l = []) || (65536 <=? length l) then [] else [scan_line l]
  | l :: ls => if 65536 <=? length l then [] else scan_line l :: scan_lines ls
  end.

(** One line of a rule file, one pattern of GCGREP_EXCLUDE. *)
Definition pattern_rule (l : bytes) : option rule :=
  let l := TrimSpace l in
  if bool_decide (l = []) || has_prefix l (bs "#") || has_prefix l (bs "!") then None
  else Some (compile l).

(** [Load] of the content of .gcgrepignore, [loadGitignoreFile] of that of .gitignore:
    [None] when the file cannot be opened. *)
Definition load_rules (content : option bytes) : list rule :=
  match content with
  | None => []
  | Some c => omap pattern_rule (scan_lines (split_byte newline c))
  end.

(** [AddPatterns] *)
Definition AddPatterns (rules : list rule) (patterns : list bytes) : list rule :=
  rules ++ omap pattern_rule patterns.

(** ** [Matcher.Ignored] *)

Definition under_git (rel : bytes) : bool :=
  bool_decide (rel = bs ".git") || has_prefix rel (bs ".git/") || contains rel (bs "/.git/")
  || has_suffix rel (bs "/.git").

(** The test of the loops over the rules. *)
Definition rule_ignores (rel : bytes) (isDir : bool) (r : rule) : bool :=
  prefix_match r rel || (exact_match r rel && (isDir || negb (r_dirOnly r))).

(** [Matcher.Ignored] *)
Definition Ignored (rules : list rule) (rel : bytes) (isDir : bool) : bool :=
  under_git rel || existsb (rule_ignores rel isDir) rules.

(** ** [GitignoreTree] *)

Section Tree.
(** The content of the .gitignore of a directory, when it can be opened. *)
Context (read : bytes → option bytes).

(** [loadDir]: the rules of a directory and the cache after it. *)
Definition loadDir (dirs : gmap bytes (list rule)) (dir : bytes) : list rule * gmap bytes (list rule) :=
  match dirs !! dir with
  | Some rules => (rules, dirs)
  | None => let rules := load_rules (read dir) in (rules, <[dir := rules]> dirs)
  end.

(** The loop of [Ignored] from the [i]-th part. *)
Fixpoint tree_loop (n : nat) (parts : list bytes) (i : nat) (isDir : bool) (dirs : gmap bytes (list rule))
  : bool * gmap bytes (list rule) :=
  match n with
  | O => (false, dirs)
  | S n =>
      let dir := if decide (i = 0) then bs "." else join_slash (take i parts) in
      let '(rules, dirs) := loadDir dirs dir in
      if existsb (rule_ignores (join_slash (drop i parts)) isDir) rules then (true, dirs)
      else tree_loop n parts (S i) isDir dirs
  end.

(** [GitignoreTree.Ignored] *)
Definition GitIgnored (dirs : gmap bytes (list rule)) (rel : bytes) (isDir : bool)
  : bool * gmap bytes (list rule) :=
  let parts := split_byte slash rel in
  tree_loop (length parts) parts 0 isDir dirs.
End Tree.

(** ** The languages of the pieces *)

Definition piece_lang (p : piece) (w : list Z) : Prop :=
  match p with
  | OptDirs => w = [] ∨ ∃ v, w = v ++ [47%Z] ∧ Forall (λ c, not_newline c = true) v
  | AnyRunes => Forall (λ c, not_newline c = true) w
  | NotSlashes => Forall (λ c, not_slash c = true) w
  | NotSlash => ∃ c, w = [c] ∧ not_slash c = true
  | Lit r => w = [r]
  end.

Fixpoint body_lang (ps : list piece) (w : list Z) : Prop :=
  match ps with
  | [] => w = []
  | p :: ps => ∃ u v, w = u ++ v ∧ piece_lang p u ∧ body_lang ps v
  end.

Lemma star_then_spec P k s :
  star_then P k s = true ↔ ∃ w t, s = w ++ t ∧ Forall (λ c, P c = true) w ∧ k t = true.
Proof.
  induction s as [|c s IH]; simpl.
  - rewrite orb_false_r. split; [by exists [], []|]. by intros ([|] & [|] & [=] & _ & ?).
  - rewrite orb_true_iff, andb_true_iff, IH. split.
    + intros [Hk|(Hc & w & t & -> & Hw & Hk)]; [by exists [], (c :: s)|exists (c :: w), t; auto].
    + intros ([|c' w] & t & Hs & Hw & Hk); [simpl in Hs; subst; by left|].
      injection Hs as -> ->. apply Forall_cons in Hw as [? ?]. right. eauto 6.
Qed.

Lemma after_slash_spec k s : after_slash k s = true ↔ ∃ t, s = 47%Z :: t ∧ k t = true.
Proof. destruct s as [|c s]; simpl; [naive_solver|]. rewrite andb_true_iff, bool_decide_eq_true. naive_solver. Qed.

Lemma piece_then_spec p k s :
  piece_then p k s = true ↔ ∃ w t, s = w ++ t ∧ piece_lang p w ∧ k t = true.
Proof.
  destruct p; cbn [piece_then piece_lang].
  - rewrite orb_true_iff, star_then_spec. setoid_rewrite after_slash_spec. split.
    + intros [Hk|(w & ? & -> & Hw & t & -> & Hk)]; [exists [], s; auto|].
      exists (w ++ [47%Z]), t. rewrite <-app_assoc. split; [done|]. split; [|done]. right. eauto.
    + intros (? & t & -> & [->|(w & -> & Hw)] & Hk); [by left|]. right.
      exists w, (47%Z :: t). rewrite <-app_assoc. eauto 6.
  - apply star_then_spec.
  - apply star_then_spec.
  - destruct s as [|c s]; [split; [done|]; by intros (? & ? & Hs & (? & -> & _) & _)|].
    rewrite andb_true_iff. split; [intros [? ?]; exists [c], s; eauto|].
    intros (? & ? & Hs & (? & -> & ?) & ?). by injection Hs as -> ->.
  - destruct s as [|c s]; [split; [done|]; by intros (? & ? & Hs & -> & _)|].
    rewrite andb_true_iff, bool_decide_eq_true. split; [intros [-> ?]; by exists [r], s|].
    intros (? & ? & Hs & -> & ?). by injection Hs as -> ->.
Qed.

Lemma body_then_spec ps k s :
  body_then ps k s = true ↔ ∃ w t, s = w ++ t ∧ body_lang ps w ∧ k t = true.
Proof.
  revert s. induction ps as [|p ps IH]; intros s; cbn [body_then body_lang].
  - split; [by exists [], s|]. by intros (? & ? & -> & -> & ?).
  - rewrite piece_then_spec. setoid_rewrite IH. split.
    + intros (u & ? & -> & Hu & v & t & -> & Hv & Hk). exists (u ++ v), t.
      rewrite <-app_assoc. eauto 8.
    + intros (? & t & -> & (u & v & -> & Hu & Hv) & Hk). exists u, (v ++ t).
      rewrite <-app_assoc. eauto 8.
Qed.

Lemma any_suffix_spec f s : any_suffix f s = true ↔ ∃ a b, s = a ++ b ∧ f b = true.
Proof.
  induction s as [|c s IH]; simpl; rewrite orb_true_iff.
  - split; [intros [?|?]; [by exists [], []|done]|]. intros ([|] & [|] & [=] & ?); by left.
  - rewrite IH. split; [intros [?|(a & b & -> & ?)]; [by exists [], (c :: s)|by exists (c :: a), b]|].
    intros ([|c' a] & b & Hs & Hf); [simpl in Hs; subst; by left|]. injection Hs as -> ->. right. eauto.
Qed.

(** Where a match may start: at the start of the path, or, unanchored, after a slash. *)
Definition rule_start (r : rule) (pre : list Z) : Prop :=
  pre = [] ∨ (r_anchored r = false ∧ ∃ v, pre = v ++ [47%Z]).

Lemma rule_then_spec r k s :
  rule_then r k s = true ↔
  ∃ pre w t, s = pre ++ w ++ t ∧ rule_start r pre ∧ body_lang (r_body r) w ∧ k t = true.
Proof.
  unfold rule_then, rule_start. split.
  - assert (body_then (r_body r) k s = true → ∃ pre w t, s = pre ++ w ++ t ∧
      (pre = [] ∨ r_anchored r = false ∧ ∃ v, pre = v ++ [47%Z]) ∧ body_lang (r_body r) w ∧ k t = true) as H0.
    { intros (w & t & -> & ? & ?)%body_then_spec. exists []. eauto 8. }
    destruct (r_anchored r); [done|]. intros [?|Hs]%orb_true_iff; [by apply H0|].
    apply any_suffix_spec in Hs as (a & b & -> & Hs). apply star_then_spec in Hs as (v & ? & -> & _ & Hs).
    apply after_slash_spec in Hs as (? & -> & (w & t & -> & ? & ?)%body_then_spec).
    exists ((a ++ v) ++ [47%Z]), w, t. rewrite <-!app_assoc. split; [done|]. split; [|done].
    right. split; [done|]. by exists (a ++ v); rewrite <-app_assoc.
  - intros (pre & w & t & -> & [->|(-> & v & ->)] & Hw & Hk).
    + assert (body_then (r_body r) k (w ++ t) = true) as H by (apply body_then_spec; eauto).
      destruct (r_anchored r); [done|]. cbn [app]. by rewrite H.
    + apply orb_true_iff. right. apply any_suffix_spec. exists v, (47%Z :: w ++ t).
      rewrite <-app_assoc. split; [done|]. apply star_then_spec. exists [], (47%Z :: w ++ t).
      split; [done|]. split; [constructor|]. apply after_slash_spec. eexists. split; [done|].
      apply body_then_spec. eauto.
Qed.

(** The rule matches the whole path. *)
Lemma exact_match_spec r rel :
  exact_match r rel = true ↔
  ∃ pre w, runes_of rel = pre ++ w ∧ rule_start r pre ∧ body_lang (r_body r) w.
Proof.
  unfold exact_match. rewrite rule_then_spec. split.
  - intros (pre & w & t & Hs & ? & ? & ->%bool_decide_eq_true). rewrite app_nil_r in Hs. eauto.
  - intros (pre & w & Hs & ? & ?). exists pre, w, []. rewrite app_nil_r. by rewrite bool_decide_eq_true_2.
Qed.

(** The rule matches a directory above the path. *)
Lemma prefix_match_spec r rel :
  prefix_match r rel = true ↔
  ∃ dir rest, rel = dir ++ slash :: rest ∧ exact_match r dir = true.
Proof.
  unfold prefix_match. rewrite rule_then_spec. setoid_rewrite after_slash_spec. split.
  - intros (pre & w & ? & Hs & Hst & Hw & t & -> & _). rewrite app_assoc in Hs.
    destruct (runes_of_split _ _ _ Hs) as (dir & rest & -> & Hd & _). exists dir, rest.
    split; [done|]. apply exact_match_spec. eauto.
  - intros (dir & rest & -> & (pre & w & Hd & ? & ?)%exact_match_spec).
    rewrite runes_of_slash, Hd. exists pre, w, (47%Z :: runes_of rest). rewrite <-app_assoc. eauto 10.
Qed.

(** ** What is ignored *)

(** The path itself is named by a rule or is a .git. *)
Definition named (rules : list rule) (rel : bytes) (isDir : bool) : Prop :=
  path_base rel = bs ".git" ∨
  ∃ r, r ∈ rules ∧ exact_match r rel = true ∧ (isDir = true ∨ r_dirOnly r = false).

Lemma has_suffix_spec s p : has_suffix s p = true ↔ ∃ d, s = d ++ p.
Proof.
  unfold has_suffix. rewrite has_prefix_spec. split.
  - intros [k Hk]. exists (reverse k). rewrite <-(reverse_involutive s), Hk, reverse_app. by rewrite reverse_involutive.
  - intros [d ->]. exists (reverse d). apply reverse_app.
Qed.

Lemma git_base d : path_base d = bs ".git" ↔ d = bs ".git" ∨ ∃ e, d = e ++ bs "/.git".
Proof. rewrite path_base_spec; [done|]. by vm_compute; repeat (apply not_elem_of_cons; split; [done|]); apply not_elem_of_nil. Qed.

Lemma under_git_spec rel :
  under_git rel = true ↔
  path_base rel = bs ".git" ∨ ∃ dir rest, rel = dir ++ slash :: rest ∧ path_base dir = bs ".git".
Proof.
  unfold under_git. rewrite !orb_true_iff, bool_decide_eq_true, has_prefix_spec, contains_spec, has_suffix_spec.
  setoid_rewrite git_base. split.
  - intros [[[->|[k ->]]|(pre & post & ->)]|[d ->]].
    + auto.
    + right. exists (bs ".git"), k. auto.
    + right. exists (pre ++ bs "/.git"), post. rewrite <-app_assoc. eauto.
    + eauto.
  - intros [[->|[e ->]]|(dir & rest & -> & [->|[e ->]])].
    + auto.
    + right. by exists e.
    + left. left. right. by exists rest.
    + left. right. exists e, rest. by rewrite <-app_assoc.
Qed.

Lemma existsb_elem {A} (f : A → bool) l : existsb f l = true ↔ ∃ x, x ∈ l ∧ f x = true.
Proof. rewrite existsb_exists. by setoid_rewrite list_elem_of_In. Qed.

(** A path is ignored exactly when it is named itself, by a rule or as a .git, or when
    one of the directories above it is: the walk that skips ignored directories and the test of a
    single changed path agree. *)
Theorem Ignored_walk rules rel isDir :
  Ignored rules rel isDir = true ↔
  named rules rel isDir ∨ ∃ dir rest, rel = dir ++ slash :: rest ∧ named rules dir true.
Proof.
  unfold Ignored, named. rewrite orb_true_iff, under_git_spec, existsb_elem. unfold rule_ignores.
  setoid_rewrite orb_true_iff. setoid_rewrite andb_true_iff. setoid_rewrite prefix_match_spec.
  setoid_rewrite orb_true_iff. setoid_rewrite negb_true_iff. naive_solver.
Qed.

(** What lies below an ignored directory is ignored. *)
Lemma Ignored_below rules dir rest isDir :
  Ignored rules dir true = true → Ignored rules (dir ++ slash :: rest) isDir = true.
Proof.
  rewrite !Ignored_walk. intros [Hd|(d & r & -> & Hd)]; [by eauto|].
  right. exists d, (r ++ slash :: rest). by rewrite <-app_assoc.
Qed.

(** ** Plain names *)

(** A pattern without wildcards, slashes or bytes past ASCII. *)
Definition plain_name (name : bytes) : Prop :=
  Forall (λ c, is_ascii c = true ∧ c ≠ x2a ∧ c ≠ x3f ∧ c ≠ slash) name.

Lemma compile_body_plain name n :
  plain_name name → length name ≤ n → compile_body n name = (Lit ∘ b2z) <$> name.
Proof.
  revert n. induction name as [|c name IH]; intros [|n] Hn Hl; simpl in Hl; try lia; [done..|].
  apply Forall_cons in Hn as [(Ha & Hs & Hq & _) Hn]. cbn [compile_body].
  rewrite !(bool_decide_eq_false_2 (c = _)) by done.
  replace (has_prefix _ (bs "**/")) with false by (simpl; by rewrite bool_decide_eq_false_2).
  replace (has_prefix _ (bs "**")) with false by (simpl; by rewrite bool_decide_eq_false_2).
  cbn [fmap list_fmap]. by rewrite IH by (done || lia).
Qed.

Lemma plain_no_slash name : plain_name name → slash ∉ name.
Proof. intros Hn Hs. by apply (proj1 (Forall_forall _ _) Hn) in Hs as (_ & _ & _ & ?). Qed.

Lemma contains_byte s c : contains s [c] = true ↔ c ∈ s.
Proof.
  split.
  - intros (l1 & l2 & ->)%contains_spec. apply elem_of_app. right. by left.
  - intros (l1 & l2 & ->)%list_elem_of_split. apply contains_spec. by exists l1, l2.
Qed.

Lemma has_suffix_byte s c : has_suffix s [c] = true → c ∈ s.
Proof. intros [d ->]%has_suffix_spec. apply elem_of_app. right. by apply list_elem_of_singleton. Qed.

Lemma has_prefix_byte s c : has_prefix s [c] = true → c ∈ s.
Proof. intros [k ->]%has_prefix_spec. by left. Qed.

Lemma compile_plain name :
  plain_name name → compile name = mkRule false ((Lit ∘ b2z) <$> name) false.
Proof.
  intros Hn. pose proof (plain_no_slash _ Hn) as Hs. unfold compile, trim_prefix.
  rewrite (not_true_is_false (has_suffix name [slash])) by (by intros ?%has_suffix_byte).
  rewrite (not_true_is_false (has_prefix name [slash])) by (by intros ?%has_prefix_byte).
  rewrite (not_true_is_false (contains name [slash])) by (by intros ?%contains_byte).
  by rewrite compile_body_plain by (done || lia).
Qed.

Lemma compile_plain_dir name :
  plain_name name → compile (name ++ [slash]) = mkRule false ((Lit ∘ b2z) <$> name) true.
Proof.
  intros Hn. pose proof (plain_no_slash _ Hn) as Hs. unfold compile, trim_prefix.
  rewrite (proj2 (has_suffix_spec _ _)) by eauto. rewrite length_app. change (length [slash]) with 1.
  replace (length name + 1 - 1) with (length name) by lia. rewrite take_app_length.
  rewrite (not_true_is_false (has_prefix name [slash])) by (by intros ?%has_prefix_byte).
  rewrite (not_true_is_false (contains name [slash])) by (by intros ?%contains_byte).
  by rewrite compile_body_plain by (done || lia).
Qed.

Lemma body_lang_lits rs w : body_lang (Lit <$> rs) w ↔ w = rs.
Proof.
  revert w. induction rs as [|r rs IH]; intros w; cbn; [done|]. setoid_rewrite IH.
  split; [by intros (? & ? & -> & -> & ->)|]. intros ->. by exists [r], rs.
Qed.

Lemma runes_of_plain name : plain_name name → runes_of name = b2z <$> name.
Proof.
  induction 1 as [|c name (Ha & _) _ IH]; [done|]. rewrite runes_of_ascii by done. cbn. by rewrite IH.
Qed.

(** Runes below 128 are bytes. *)
Lemma runes_of_inj_plain s name : plain_name name → runes_of s = b2z <$> name → s = name.
Proof.
  intros Hn. revert s. induction Hn as [|c name (Ha & _) _ IH]; intros [|a s]; [done| | |].
  - rewrite runes_of_cons. by destruct (DecodeRune (a :: s)).
  - done.
  - rewrite runes_of_cons. destruct (DecodeRune (a :: s)) as [r w] eqn:E. intros [= -> Hr].
    apply DecodeRune_low in E as [Hc ->]; [|by apply Z.ltb_lt].
    apply b2z_inj in Hc as <-. simpl in Hr. by rewrite (IH s).
Qed.

Lemma exact_match_plain name d rel :
  plain_name name → exact_match (mkRule false ((Lit ∘ b2z) <$> name) d) rel = true ↔ path_base rel = name.
Proof.
  intros Hn. rewrite path_base_spec by (by apply plain_no_slash). rewrite exact_match_spec.
  rewrite list_fmap_compose. unfold rule_start. cbn [r_anchored r_body].
  setoid_rewrite body_lang_lits. split.
  - intros (pre & ? & Hs & [->|(_ & v & ->)] & ->).
    + left. by apply runes_of_inj_plain.
    + rewrite <-app_assoc in Hs. apply runes_of_split in Hs as (a & b & -> & _ & Hb).
      right. exists a. by rewrite (runes_of_inj_plain b name Hn Hb).
  - intros [->|[a ->]].
    + exists [], (b2z <$> name). rewrite runes_of_plain by done. auto.
    + exists (runes_of a ++ [47%Z]), (b2z <$> name). rewrite runes_of_slash, (runes_of_plain name) by done.
      rewrite <-app_assoc. eauto 8.
Qed.

(** A pattern that is a plain name, as a line of a rule file or in GCGREP_EXCLUDE, excludes the
    files and directories of that name at any depth and what lies below them, and nothing else but
    .git; with a slash at its end, only directories. *)
Theorem plain_name_excludes name (dirOnly : bool) rel (isDir : bool) :
  plain_name name →
  Ignored [compile (name ++ (if dirOnly then [slash] else []))] rel isDir = true ↔
  (path_base rel = bs ".git" ∨ (path_base rel = name ∧ (isDir = true ∨ dirOnly = false))) ∨
  ∃ dir rest, rel = dir ++ slash :: rest ∧ (path_base dir = bs ".git" ∨ path_base dir = name).
Proof.
  intros Hn.
  assert (∀ p d, named [compile (name ++ (if dirOnly then [slash] else []))] p d ↔
    path_base p = bs ".git" ∨ (path_base p = name ∧ (d = true ∨ dirOnly = false))) as H.
  { intros p d. unfold named. setoid_rewrite list_elem_of_singleton.
    assert (compile (name ++ (if dirOnly then [slash] else [])) =
      mkRule false ((Lit ∘ b2z) <$> name) dirOnly) as ->.
    { destruct dirOnly; [by apply compile_plain_dir|]. rewrite app_nil_r. by apply compile_plain. }
    pose proof (exact_match_plain name dirOnly p Hn). naive_solver. }
  rewrite Ignored_walk. setoid_rewrite H. naive_solver.
Qed.

Lemma plain_name_excludes_witness :
  plain_name (bs "vendor") ∧ Ignored [compile (bs "vendor/")] (bs "a/vendor/b.go") false = true ∧
  Ignored [compile (bs "vendor/")] (bs "a/vendor") false = false.
Proof.
  assert (plain_name (bs "vendor")) as Hn by (repeat constructor; done).
  split; [done|]. split.
  - apply (plain_name_excludes (bs "vendor") true _ _ Hn). right.
    exists (bs "a/vendor"), (bs "b.go"). split; [done|]. right. vm_compute. reflexivity.
  - vm_compute. reflexivity.
Defined.

(** ** The tree of .gitignore files *)

Section TreeSpec.
Context (read : bytes → option bytes).

(** Every cached directory holds the rules of its file. *)
Definition coherent (dirs : gmap bytes (list rule)) : Prop :=
  ∀ dir rules, dirs !! dir = Some rules → rules = load_rules (read dir).

(** The directory of the first [i] parts. *)
Definition tree_dir (parts : list bytes) (i : nat) : bytes :=
  if decide (i = 0) then bs "." else join_slash (take i parts).

(** A rule of the [i]-th directory excludes the rest of the path. *)
Definition tree_ignores (parts : list bytes) (isDir : bool) (i : nat) : bool :=
  existsb (rule_ignores (join_slash (drop i parts)) isDir) (load_rules (read (tree_dir parts i))).

Lemma loadDir_coherent dirs dir :
  coherent dirs → (loadDir read dirs dir).1 = load_rules (read dir) ∧ coherent (loadDir read dirs dir).2.
Proof.
  intros Hc. unfold loadDir. destruct (dirs !! dir) as [rules|] eqn:E; [split; [by apply Hc|done]|].
  split; [done|]. intros d rules. destruct (decide (d = dir)) as [->|].
  - cbn. rewrite lookup_insert_eq. by intros [= <-].
  - cbn. rewrite lookup_insert_ne by done. apply Hc.
Qed.

Lemma tree_loop_spec n parts i isDir dirs :
  coherent dirs →
  ((tree_loop read n parts i isDir dirs).1 = true ↔
     ∃ j, i ≤ j < i + n ∧ tree_ignores parts isDir j = true) ∧
  coherent (tree_loop read n parts i isDir dirs).2.
Proof.
  revert i dirs. induction n as [|n IH]; intros i dirs Hc; cbn [tree_loop].
  { split; [|done]. split; [done|]. intros (j & ? & _). lia. }
  destruct (loadDir_coherent dirs (tree_dir parts i) Hc) as [Hr Hc'].
  change (if decide (i = 0) then bs "." else join_slash (take i parts)) with (tree_dir parts i).
  destruct (loadDir read dirs (tree_dir parts i)) as [rules dirs']. cbn in Hr, Hc'. subst rules.
  change (existsb _ _) with (tree_ignores parts isDir i).
  destruct (tree_ignores parts isDir i) eqn:E.
  - split; [|done]. split; [|done]. intros _. exists i. split; [lia|done].
  - destruct (IH (S i) dirs' Hc') as [IH1 IH2]. split; [|done]. rewrite IH1. split.
    + intros (j & ? & ?). exists j. split; [lia|done].
    + intros (j & ? & Hj). exists j. split; [|done]. destruct (decide (j = i)); [congruence|lia].
Qed.

(** C30. As long as the files do not change, a query of the tree, whatever directories are already
    cached, excludes a path exactly when a rule of the .gitignore of one of the directories above
    it matches the path relative to that directory; the cache stays coherent. *)
Theorem GitIgnored_cached dirs rel isDir :
  coherent dirs →
  let parts := split_byte slash rel in
  ((GitIgnored read dirs rel isDir).1 = true ↔
     ∃ i, i < length parts ∧ tree_ignores parts isDir i = true) ∧
  coherent (GitIgnored read dirs rel isDir).2.
Proof.
  intros Hc parts. destruct (tree_loop_spec (length parts) parts 0 isDir dirs Hc) as [H1 H2].
  split; [|done]. etransitivity; [exact H1|]. split; intros (j & ? & ?); exists j; (split; [lia|done]).
Qed.
(** A path below a directory the tree excludes is excluded too. *)
Lemma GitIgnored_below dir rest isDir :
  (GitIgnored read ∅ dir true).1 = true → (GitIgnored read ∅ (dir ++ slash :: rest) isDir).1 = true.
Proof.
  assert (coherent ∅) as Hc by (intros ? ?; by rewrite lookup_empty).
  unfold GitIgnored. rewrite split_byte_slash.
  pose proof (split_byte_not_nil slash dir) as Hd. pose proof (split_byte_not_nil slash rest) as Hr.
  set (pd := split_byte slash dir) in *. set (pr := split_byte slash rest) in *.
  rewrite (proj1 (tree_loop_spec _ pd 0 true ∅ Hc)).
  intros (i & Hi & Ht). apply tree_loop_spec; [done|]. exists i.
  split; [rewrite length_app; lia|]. revert Ht. unfold tree_ignores, tree_dir.
  rewrite take_app_le, drop_app_le by lia.
  rewrite join_slash_app by (done || (intros E%(f_equal length); rewrite length_drop in E; simpl in E; lia)).
  rewrite !existsb_elem. intros (r & Hin & Hr'). exists r. split; [done|]. revert Hr'.
  unfold rule_ignores. rewrite !orb_true_iff, !andb_true_iff, !prefix_match_spec.
  intros [(d & x & -> & He)|[He _]]; left.
  - exists d, (x ++ slash :: join_slash pr). by rewrite <-app_assoc.
  - eauto.
Qed.
End TreeSpec.

Lemma GitIgnored_cached_witness :
  let read := λ d, if bool_decide (d = bs "src") then Some (bs "*.gen.go") else None in
  coherent read ∅ ∧ (GitIgnored read ∅ (bs "src/a/x.gen.go") false).1 = true.
Proof.
  intros read. assert (coherent read ∅) as Hc by (intros ? ?; by rewrite lookup_empty).
  split; [done|]. apply (GitIgnored_cached read ∅ (bs "src/a/x.gen.go") false Hc).
  exists 1. split; vm_compute; [lia|reflexivity].
Defined.

(** A pattern past ASCII does not exclude the path it spells: each of its bytes is turned into
    the rune of that number. *)
Theorem compile_not_ascii :
  Ignored [compile [xc3; xa9]] [xc3; xa9] false = false ∧
  Ignored [compile [xc3; xa9]] [xc3; x83; xc2; xa9] false = true.
Proof. split; vm_compute; reflexivity. Qed.

(** A line of 64 KiB ends the reading of the rules: the patterns after it are lost. *)
Theorem load_rules_long_line :
  load_rules (Some (repeat x61 (Z.to_nat 65536) ++ [newline] ++ bs "*.log")) = [].
Proof. vm_compute. reflexivity. Qed.
