(* ===== verification/Walk.v ===== *)
(** * The directory walker: internal/walkdir

    The file system is an interface of the calls the walker makes, on paths relative
    to the root (the empty path is the root itself).  [walk] has fuel for the nesting of
    directories; [walk_terminates] bounds it, also when symbolic links make cycles. *)

From S2P Require Import Prelude GoBytes Text GoPath.

Inductive FileMode := ModeDir | ModeRegular | ModeOther.

(** [os.FileInfo] *)
Record FileInfo := mkInfo { fi_Size : Z; fi_MtimeNS : Z; fi_Mode : FileMode }.

Inductive fs_error := ErrNotExist | ErrOther.

(** The calls to the operating system; [ReadDir] yields the names in order, with the flag of
    symbolic links. *)
Record World := mkWorld {
  ReadDir : bytes → option (list (bytes * bool));
  Lstat : bytes → FileInfo + fs_error;
  Stat : bytes → FileInfo + fs_error;
  EvalSymlinks : bytes → option bytes;
  ReadFile : bytes → bytes + fs_error;
}.

Definition is_dir (fi : FileInfo) : bool := match fi_Mode fi with ModeDir => true | _ => false end.
Definition is_regular (fi : FileInfo) : bool := match fi_Mode fi with ModeRegular => true | _ => false end.

(** [filepath.Join(dir, name)] *)
Definition child (dir name : bytes) : bytes :=
  if bool_decide (dir = []) then name else dir ++ slash :: name.

(** What the callback returns: nil, [fs.SkipDir] or another error. *)
Inductive fn_result := Continue | SkipDir | Failed.

(** A call of the callback: path, directory flag and stat data. *)
Definition visit : Type := bytes * bool * FileInfo.

(** The calls so far, the real paths seen through links, and whether an error stopped the walk. *)
Definition walk_state : Type := list visit * gset bytes * bool.

Section Walk.
Context (w : World) (follow : bool) (fn : bytes → bool → FileInfo → fn_result).

(** The part of the loop of [walk] that finds what an entry is: [None] to skip it, else its stat
    data and the set of real paths after it. *)
Definition entry_info (path : bytes) (isLink : bool) (seen : gset bytes) : option (FileInfo * gset bytes) :=
  if isLink then
    if negb follow then None
    else match Stat w path with
         | inr _ => None
         | inl fi =>
             if is_dir fi then
               match EvalSymlinks w path with
               | None => None
               | Some real => if bool_decide (real ∈ seen) then None else Some (fi, {[real]} ∪ seen)
               end
             else Some (fi, seen)
         end
  else match Lstat w path with inl fi => Some (fi, seen) | inr _ => None end.

(** One entry; [rec] walks a directory. *)
Definition walk_entry (rec : bytes → gset bytes → option walk_state) (dir : bytes) (seen : gset bytes)
    (e : bytes * bool) : option walk_state :=
  let path := child dir e.1 in
  match entry_info path e.2 seen with
  | None => Some ([], seen, false)
  | Some (fi, seen) =>
      if is_dir fi then
        match fn path true fi with
        | SkipDir => Some ([(path, true, fi)], seen, false)
        | _ => '(vs, seen, stop) ← rec path seen; Some ((path, true, fi) :: vs, seen, stop)
        end
      else if is_regular fi then
        Some ([(path, false, fi)], seen, match fn path false fi with Failed => true | _ => false end)
      else Some ([], seen, false)
  end.

Fixpoint walk_entries (rec : bytes → gset bytes → option walk_state) (dir : bytes) (seen : gset bytes)
    (es : list (bytes * bool)) : option walk_state :=
  match es with
  | [] => Some ([], seen, false)
  | e :: es =>
      '(vs, seen, stop) ← walk_entry rec dir seen e;
      if (stop : bool) then Some (vs, seen, true)
      else '(ws, seen, stop) ← walk_entries rec dir seen es; Some (vs ++ ws, seen, stop)
  end.

(** [walk]: [None] when the fuel ends. *)
Fixpoint walk (fuel : nat) (dir : bytes) (seen : gset bytes) : option walk_state :=
  match fuel with
  | O => None
  | S fuel =>
      match ReadDir w dir with
      | None => Some ([], seen, false)
      | Some es => walk_entries (walk fuel) dir seen es
      end
  end.

(** [Walk]: the calls it makes from a directory. *)
Definition Walk (fuel : nat) (root : bytes) : option (list visit) :=
  let seen := if follow then match EvalSymlinks w root with Some real => {[real]} | None => ∅ end else ∅ in
  '(vs, _, _) ← walk fuel root seen; Some vs.

(** ** Termination *)

(** The directories below [dir], links apart, nest less than [n] deep. *)
Fixpoint within (n : nat) (dir : bytes) : Prop :=
  match n with
  | O => False
  | S n => ∀ es, ReadDir w dir = Some es → ∀ name fi, (name, false) ∈ es →
             Lstat w (child dir name) = inl fi → is_dir fi = true → within n (child dir name)
  end.

Lemma walk_entries_total rec dir seen es :
  (∀ e seen', e ∈ es → seen ⊆ seen' → ∃ st, walk_entry rec dir seen' e = Some st ∧ seen' ⊆ st.1.2) →
  ∃ st, walk_entries rec dir seen es = Some st ∧ seen ⊆ st.1.2.
Proof.
  revert seen. induction es as [|e es IH]; intros seen He; cbn [walk_entries]; [by eexists|].
  destruct (He e seen ltac:(by left) ltac:(done)) as ([[vs seen'] stop] & -> & Hsub). cbn in *.
  destruct stop; [by eexists|].
  destruct (IH seen') as ([[ws seen''] stop'] & -> & Hsub').
  { intros e' seen2 Hin Hs. apply He; [by right|set_solver]. }
  cbn in *. eexists. split; [done|]. cbn. set_solver.
Qed.

Lemma walk_total (n : nat) (reals : gset bytes) (fuel k : nat) (dir : bytes) (seen : gset bytes) :
  (∀ p, within n p) → (∀ p real, EvalSymlinks w p = Some real → real ∈ reals) →
  within k dir → k + n * size (reals ∖ seen) ≤ fuel →
  ∃ st, walk fuel dir seen = Some st ∧ seen ⊆ st.1.2.
Proof.
  intros Hn Hr. revert k dir seen. induction fuel as [|fuel IH]; intros k dir seen Hk Hf.
  { destruct k; [done|lia]. }
  destruct k as [|k]; [done|]. cbn [walk]. destruct (ReadDir w dir) as [es|] eqn:Ed; [|by eexists].
  apply walk_entries_total. intros [name isLink] seen' Hin Hsub. unfold walk_entry. cbn [fst snd].
  assert (size (reals ∖ seen') ≤ size (reals ∖ seen)) as Hsz by (apply subseteq_size; set_solver).
  assert (∀ fi seen2, seen' ⊆ seen2 → (∃ st, walk fuel (child dir name) seen2 = Some st ∧ seen2 ⊆ st.1.2) →
    ∃ st, match fn (child dir name) true fi with
          | SkipDir => Some ([(child dir name, true, fi)], seen2, false)
          | _ => '(vs, seen, stop) ← walk fuel (child dir name) seen2;
                 Some ((child dir name, true, fi) :: vs, seen, stop)
          end = Some st ∧ seen' ⊆ st.1.2) as Hrec.
  { intros fi seen2 Hs ([[vs s] stop] & -> & Hs2). cbn in *.
    destruct (fn _ _ _); eexists; (split; [done|cbn; set_solver]). }
  unfold entry_info. destruct isLink.
  - destruct follow; [|by eexists]. destruct (Stat w _) as [fi|]; [|by eexists].
    cbn [negb]. destruct (is_dir fi) eqn:Edir.
    + destruct (EvalSymlinks w _) as [real|] eqn:El; [|by eexists].
      case_bool_decide as Hreal; [by eexists|]. rewrite Edir. apply Hrec; [set_solver|].
      apply (IH n); [apply Hn|].
      assert (size (reals ∖ ({[real]} ∪ seen')) < size (reals ∖ seen')) as Hlt.
      { apply subset_size. specialize (Hr _ _ El). set_solver. }
      nia.
    + rewrite Edir. destruct (is_regular fi); by eexists.
  - destruct (Lstat w _) as [fi|] eqn:El; [|by eexists]. destruct (is_dir fi) eqn:Edir.
    + apply Hrec; [done|]. apply (IH k); [|nia]. cbn [within] in Hk. by eapply Hk.
    + destruct (is_regular fi); by eexists.
Qed.
End Walk.

(** C31. The walk ends, with or without following links: when directories nest less than [n] deep,
    links apart, and links lead to finitely many real paths, a nesting of [n] directories for
    the root and for each of those real paths is enough, because no real path is entered
    through a link twice. *)
Theorem walk_terminates (w : World) (follow : bool) (fn : bytes → bool → FileInfo → fn_result) (n : nat) (reals : gset bytes) (fuel : nat) (root : bytes) :
  (∀ p, within w n p) → (∀ p real, EvalSymlinks w p = Some real → real ∈ reals) →
  n * S (size reals) ≤ fuel →
  is_Some (Walk w follow fn fuel root).
Proof.
  intros Hn Hr Hf. unfold Walk.
  set (seen := if follow then _ else _).
  destruct (walk_total w follow fn n reals fuel n root seen Hn Hr (Hn root)) as ([[vs s] stop] & -> & _).
  - assert (size (reals ∖ seen) ≤ size reals) by (apply subseteq_size; set_solver). nia.
  - by eexists.
Qed.

(** A directory [a] with a file [f] and a link [up] to the root, which the followed walk enters once. *)
Definition loop_world : World :=
  let stat := λ p, inl (mkInfo 1 0 (if bool_decide (path_base p = bs "f") then ModeRegular else ModeDir)) in
  mkWorld
    (λ p, if bool_decide (p = [] ∨ path_base p = bs "up") then Some [(bs "a", false)]
          else if bool_decide (path_base p = bs "a") then Some [(bs "f", false); (bs "up", true)] else None)
    stat stat (λ p, Some []) (λ p, inl []).

Lemma path_base_child (dir name : bytes) : slash ∉ name → path_base (child dir name) = name.
Proof.
  intros Hn. apply path_base_spec; [done|]. unfold child. case_bool_decide; [by left|right; by exists dir].
Qed.

Lemma no_slash_dec (name : bytes) : bool_decide (slash ∈ name) = false → slash ∉ name.
Proof. apply bool_decide_eq_false_1. Qed.

Lemma loop_world_within p : within loop_world 3 p.
Proof.
  assert (∀ dir name, name ∈ [bs "a"; bs "f"; bs "up"] → path_base (child dir name) = name) as Hb.
  { intros dir name Hin. apply path_base_child. revert name Hin. apply Forall_forall.
    repeat constructor; apply no_slash_dec; vm_compute; reflexivity. }
  assert (∀ n dir, path_base dir = bs "a" → within loop_world (S n) dir) as Ha.
  { intros n dir Hd es Hes name fi Hin. unfold loop_world in *. cbn [ReadDir Lstat] in *.
    rewrite bool_decide_eq_false_2 in Hes by (rewrite Hd; intros [->|]; done).
    rewrite bool_decide_eq_true_2 in Hes by done. injection Hes as <-.
    apply elem_of_cons in Hin as [[= ->]|[[=]|?%elem_of_nil]%elem_of_cons]; [|done].
    rewrite Hb by (by right; left). rewrite bool_decide_eq_true_2 by done. by intros [= <-]. }
  destruct (decide (path_base p = bs "a")) as [Hp|Hp]; [by apply (Ha 2)|].
  intros es Hes name fi Hin _ _. unfold loop_world in Hes. cbn [ReadDir] in Hes.
  case_bool_decide.
  - injection Hes as <-. apply elem_of_cons in Hin as [[= ->]|?%elem_of_nil]; [|done].
    apply (Ha 1). rewrite Hb by (by left). done.
  - by rewrite (bool_decide_eq_false_2 _ Hp) in Hes.
Qed.

Lemma walk_terminates_witness :
  (∀ p, within loop_world 3 p) ∧ is_Some (Walk loop_world true (λ _ _ _, Continue) 6 []) ∧
  (map (λ v : visit, v.1.1) <$> Walk loop_world true (λ _ _ _, Continue) 6 []) =
    Some [bs "a"; bs "a/f"].
Proof.
  split; [exact loop_world_within|]. split.
  - apply (walk_terminates loop_world true (λ _ _ _, Continue) 3 {[ [] ]} 6 []).
    + exact loop_world_within.
    + intros p real [= <-]. set_solver.
    + rewrite size_singleton. lia.
  - vm_compute. reflexivity.
Defined.

(** ** What is visited *)

Section Visits.
Context (w : World) (fn : bytes → bool → FileInfo → fn_result).

(** The calls made below [dir] when links are not followed: entries that are no links, and those
    of the directories for which the callback does not return [SkipDir]. *)
Inductive visited (dir : bytes) : visit → Prop :=
  | visited_dir es name fi :
      ReadDir w dir = Some es → (name, false) ∈ es → Lstat w (child dir name) = inl fi →
      is_dir fi = true → visited dir (child dir name, true, fi)
  | visited_file es name fi :
      ReadDir w dir = Some es → (name, false) ∈ es → Lstat w (child dir name) = inl fi →
      is_regular fi = true → visited dir (child dir name, false, fi)
  | visited_below es name fi v :
      ReadDir w dir = Some es → (name, false) ∈ es → Lstat w (child dir name) = inl fi →
      is_dir fi = true → fn (child dir name) true fi ≠ SkipDir → visited (child dir name) v →
      visited dir v.

Definition never_fails : Prop := ∀ p d fi, fn p d fi ≠ Failed.

Lemma regular_not_dir fi : is_regular fi = true → is_dir fi = false.
Proof. unfold is_regular, is_dir. by destruct (fi_Mode fi). Qed.

(** The calls for one entry. *)
Definition entry_visits (dir : bytes) (e : bytes * bool) (v : visit) : Prop :=
  e.2 = false ∧ ∃ fi, Lstat w (child dir e.1) = inl fi ∧
    ((is_dir fi = true ∧ (v = (child dir e.1, true, fi) ∨
        (fn (child dir e.1) true fi ≠ SkipDir ∧ visited (child dir e.1) v))) ∨
     (is_regular fi = true ∧ v = (child dir e.1, false, fi))).

Lemma visited_entries dir es v :
  ReadDir w dir = Some es → visited dir v ↔ ∃ e, e ∈ es ∧ entry_visits dir e v.
Proof.
  intros He. unfold entry_visits. split.
  - destruct 1; assert (es0 = es) as -> by congruence; exists (name, false); cbn; split; eauto 10.
  - intros ([name l] & Hin & Hl0 & fi & Hl & [[Hd [->|[Hs Hv]]]|[Hr ->]]); cbn in *; subst l.
    + by eapply visited_dir.
    + by eapply visited_below.
    + by eapply visited_file.
Qed.

Lemma walk_entries_visits rec dir es seen vs seen' stop :
  never_fails →
  (∀ name seen vs seen' stop, rec (child dir name) seen = Some (vs, seen', stop) →
     stop = false ∧ ∀ v, v ∈ vs ↔ visited (child dir name) v) →
  walk_entries w false fn rec dir seen es = Some (vs, seen', stop) →
  stop = false ∧ ∀ v, v ∈ vs ↔ ∃ e, e ∈ es ∧ entry_visits dir e v.
Proof.
  intros Hnf Hrec. revert seen vs seen' stop.
  induction es as [|[name l] es IH]; intros seen vs seen' stop; cbn [walk_entries].
  { intros [= <- <- <-]. split; [done|]. set_solver. }
  assert (∀ us seen1 stop1, walk_entry w false fn rec dir seen (name, l) = Some (us, seen1, stop1) →
    stop1 = false ∧ ∀ v, v ∈ us ↔ entry_visits dir (name, l) v) as Hone.
  { intros us seen1 stop1. unfold walk_entry, entry_info, entry_visits. cbn.
    destruct l.
    { intros [= <- <- <-]. split; [done|]. intros v. split; [by intros ?%elem_of_nil|]. by intros [? _]. }
    destruct (Lstat w _) as [fi|] eqn:El.
    - assert (∀ fi', @inl FileInfo fs_error fi = inl fi' → fi' = fi) as Hfi by congruence.
      destruct (is_dir fi) eqn:Ed.
      + destruct (fn _ true fi) eqn:Ef; [| |by destruct (Hnf (child dir name) true fi)].
        * destruct (rec _ seen) as [[[vs1 s1] st1]|] eqn:Er; [|done]. cbn. intros [= <- <- <-].
          apply Hrec in Er as [-> Hv]. split; [done|]. intros v. rewrite elem_of_cons, Hv. split.
          -- intros H. split; [done|]. exists fi. split; [done|]. left. split; [done|].
             destruct H; [by left|right]. by rewrite Ef.
          -- intros (_ & fi' & ->%Hfi & [[_ [?|[_ ?]]]|[Hr _]]); [by left|by right|].
             apply regular_not_dir in Hr. congruence.
        * intros [= <- <- <-]. split; [done|]. intros v. rewrite list_elem_of_singleton. split.
          -- intros ->. split; [done|]. exists fi. split; [done|]. left. by split; [|left].
          -- intros (_ & fi' & ->%Hfi & [[_ [?|[? ?]]]|[Hr _]]); [done|done|].
             apply regular_not_dir in Hr. congruence.
      + destruct (is_regular fi) eqn:Er; intros [= <- <- <-].
        * split; [specialize (Hnf (child dir name) false fi); by destruct (fn _ false fi)|].
          intros v. rewrite list_elem_of_singleton. split.
          -- intros ->. split; [done|]. exists fi. split; [done|]. by right.
          -- intros (_ & fi' & ->%Hfi & [[? _]|[_ ?]]); [congruence|done].
        * split; [done|]. intros v. split; [by intros ?%elem_of_nil|].
          intros (_ & fi' & ->%Hfi & [[? _]|[? _]]); congruence.
    - intros [= <- <- <-]. split; [done|]. intros v. split; [by intros ?%elem_of_nil|].
      by intros (_ & fi & ? & _). }
  destruct (walk_entry _ _ _ _ _ _ _) as [[[us seen1] stop1]|]; [|done].
  cbn. destruct (Hone _ _ _ eq_refl) as [-> Hus].
  destruct (walk_entries _ _ _ _ _ seen1 es) as [[[ws seen2] stop2]|] eqn:Ew; [|done].
  cbn. intros [= <- <- <-]. destruct (IH _ _ _ _ Ew) as [-> Hws]. split; [done|].
  intros v. rewrite elem_of_app, Hus, Hws. setoid_rewrite elem_of_cons. naive_solver.
Qed.

(** Without following links, the walk makes exactly the calls [visited] describes. *)
Lemma walk_visits fuel dir seen vs seen' stop :
  never_fails → walk w false fn fuel dir seen = Some (vs, seen', stop) →
  stop = false ∧ ∀ v, v ∈ vs ↔ visited dir v.
Proof.
  intros Hnf. revert dir seen vs seen' stop. induction fuel as [|fuel IH]; intros dir seen vs seen' stop; [done|].
  cbn [walk]. destruct (ReadDir w dir) as [es|] eqn:He.
  - intros Hw. apply walk_entries_visits in Hw as [-> Hv]; [|done|by eauto].
    split; [done|]. intros v. by rewrite Hv, visited_entries.
  - intros [= <- <- <-]. split; [done|]. intros v. split; [by intros ?%elem_of_nil|].
    destruct 1; congruence.
Qed.

Lemma Walk_visits fuel root vs :
  never_fails → Walk w false fn fuel root = Some vs → ∀ v, v ∈ vs ↔ visited root v.
Proof.
  intros Hnf. unfold Walk. destruct (walk _ _ _ _ _ _) as [[[us s] stop]|] eqn:E; [|done].
  cbn. intros [= <-]. by apply walk_visits in E as [_ ?].
Qed.
End Visits.
