(* ===== verification/Conf.v ===== *)
(** * Configuration: internal/conf

    [Load] overrides the defaults by the environment, an argument of the model, and
    clamps the counts the engines divide work by.  Durations are in nanoseconds. *)

From S2P Require Import Prelude GoBytes Text GoPath.

(** [Config] *)
Record Config := mkConfig {
  MaxFileSizeMB : Z; MaxIndexMB : Z; BarrierTimeout : Z; Debounce : Z; SaveDelay : Z;
  Workers : Z; SpawnTimeout : Z; DialTimeout : Z; MaxColumns : Z; Limit : Z;
  ProgressInterval : Z; Priority : bytes; Engine : bytes; DiskEngineMB : Z;
  RebuildInterval : Z; ShardTargetMB : Z; ShardMinMB : Z; ShardMaxMB : Z;
  RebuildThreshold : Z; SearchWorkers : Z; MemoryLimitMB : Z; ShardInlineKB : Z;
  Exclude : list bytes; Gitignore : bool;
}.

Definition Millisecond : Z := 1000000.
Definition Second : Z := 1000 * Millisecond.

(** [defaultWorkers], given [runtime.NumCPU()]. *)
Definition defaultWorkers (numCPU : Z) : Z :=
  let w := Z.quot numCPU 2 in
  let w := if (8 <? w)%Z then 8%Z else w in
  if (w <? 1)%Z then 1%Z else w.

(** [Default] *)
Definition Default (numCPU : Z) : Config :=
  {| MaxFileSizeMB := 2; MaxIndexMB := 256; BarrierTimeout := 2 * Second; Debounce := 200 * Millisecond;
     SaveDelay := 30 * Second; Workers := defaultWorkers numCPU; SpawnTimeout := 5 * Second;
     DialTimeout := 500 * Millisecond; MaxColumns := 0; Limit := 2000;
     ProgressInterval := 300 * Millisecond; Priority := bs "low"; Engine := bs "auto"; DiskEngineMB := 10;
     RebuildInterval := 20 * Second; ShardTargetMB := 80; ShardMinMB := 32; ShardMaxMB := 128;
     RebuildThreshold := 20; SearchWorkers := 2; MemoryLimitMB := 100; ShardInlineKB := 0;
     Exclude := []; Gitignore := false |}.

(** ** Numbers of the environment *)

(** The value of a non-empty string of digits. *)
Fixpoint digits_val (acc : Z) (s : bytes) : option Z :=
  match s with
  | [] => Some acc
  | c :: s => if in_range 48 57 c then digits_val (acc * 10 + (b2z c - 48)) s else None
  end.

(** [strconv.Atoi]: [None] is an error, of syntax or of range. *)
Definition Atoi (s : bytes) : option Z :=
  let '(neg, ds) := match s with
                    | c :: r => if bool_decide (c = x2d) then (true, r)
                                else if bool_decide (c = x2b) then (false, r) else (false, s)
                    | [] => (false, [])
                    end in
  if bool_decide (ds = []) then None
  else
    v ← digits_val 0 ds;
    let v := if (neg : bool) then (- v)%Z else v in
    if bool_decide (- 2 ^ 63 ≤ v < 2 ^ 63)%Z then Some v else None.

Section Load.
(** [os.LookupEnv] *)
Context (env : bytes → option bytes).

(** [intVar] *)
Definition intVar (dst : Z) (key : bytes) : Z :=
  match env key with
  | Some v => match Atoi v with Some n => n | None => dst end
  | None => dst
  end.

(** [msVar]: the product with a millisecond wraps. *)
Definition msVar (dst : Z) (key : bytes) : Z :=
  match env key with
  | Some v => match Atoi v with Some n => if (0 <=? n)%Z then i64 (n * Millisecond) else dst | None => dst end
  | None => dst
  end.

(** A variable that must be one of some words. *)
Definition wordVar (dst : bytes) (key : bytes) (words : list bytes) : bytes :=
  match env key with
  | Some v => if bool_decide (v ∈ words) then v else dst
  | None => dst
  end.

Definition at_least_1 (n : Z) : Z := if (n <? 1)%Z then 1%Z else n.

(** [Load] *)
Definition Load (numCPU : Z) : Config :=
  let c := Default numCPU in
  {| MaxFileSizeMB := intVar (MaxFileSizeMB c) (bs "GCGREP_MAX_FILESIZE_MB");
     MaxIndexMB := intVar (MaxIndexMB c) (bs "GCGREP_MAX_INDEX_MB");
     BarrierTimeout := msVar (BarrierTimeout c) (bs "GCGREP_BARRIER_TIMEOUT_MS");
     Debounce := msVar (Debounce c) (bs "GCGREP_DEBOUNCE_MS");
     SaveDelay := msVar (SaveDelay c) (bs "GCGREP_SAVE_DELAY_MS");
     Workers := at_least_1 (intVar (Workers c) (bs "GCGREP_WORKERS"));
     SpawnTimeout := msVar (SpawnTimeout c) (bs "GCGREP_SPAWN_TIMEOUT_MS");
     DialTimeout := msVar (DialTimeout c) (bs "GCGREP_DIAL_TIMEOUT_MS");
     MaxColumns := intVar (MaxColumns c) (bs "GCGREP_MAX_COLUMNS");
     Limit := intVar (Limit c) (bs "GCGREP_LIMIT");
     ProgressInterval := msVar (ProgressInterval c) (bs "GCGREP_PROGRESS_INTERVAL_MS");
     Priority := wordVar (Priority c) (bs "GCGREP_PRIORITY") [bs "low"; bs "normal"];
     Engine := wordVar (Engine c) (bs "GCGREP_ENGINE") [bs "auto"; bs "mem"; bs "disk"];
     DiskEngineMB := intVar (DiskEngineMB c) (bs "GCGREP_DISK_ENGINE_MB");
     RebuildInterval := msVar (RebuildInterval c) (bs "GCGREP_REBUILD_INTERVAL_MS");
     ShardTargetMB := intVar (ShardTargetMB c) (bs "GCGREP_SHARD_TARGET_MB");
     ShardMinMB := intVar (ShardMinMB c) (bs "GCGREP_SHARD_MIN_MB");
     ShardMaxMB := intVar (ShardMaxMB c) (bs "GCGREP_SHARD_MAX_MB");
     RebuildThreshold := at_least_1 (intVar (RebuildThreshold c) (bs "GCGREP_REBUILD_THRESHOLD"));
     SearchWorkers := at_least_1 (intVar (SearchWorkers c) (bs "GCGREP_SEARCH_WORKERS"));
     MemoryLimitMB := intVar (MemoryLimitMB c) (bs "GCGREP_MEMORY_LIMIT_MB");
     ShardInlineKB := intVar (ShardInlineKB c) (bs "GCGREP_SHARD_INLINE_KB");
     Gitignore := match env (bs "GCGREP_GITIGNORE") with
                  | Some v => bool_decide (v ∈ [bs "1"; bs "true"])
                  | None => Gitignore c
                  end;
     Exclude := match env (bs "GCGREP_EXCLUDE") with
                | Some v => if bool_decide (v = []) then Exclude c else split_byte x2c v
                | None => Exclude c
                end |}.

(** [Overrides]: the variables that are set, sorted. *)
Definition override_keys : list bytes :=
  [bs "GCGREP_MAX_FILESIZE_MB"; bs "GCGREP_MAX_INDEX_MB"; bs "GCGREP_BARRIER_TIMEOUT_MS";
   bs "GCGREP_DEBOUNCE_MS"; bs "GCGREP_SAVE_DELAY_MS"; bs "GCGREP_WORKERS"; bs "GCGREP_SPAWN_TIMEOUT_MS";
   bs "GCGREP_DIAL_TIMEOUT_MS"; bs "GCGREP_MAX_COLUMNS"; bs "GCGREP_LIMIT"; bs "GCGREP_PROGRESS_INTERVAL_MS";
   bs "GCGREP_PRIORITY"; bs "GCGREP_ENGINE"; bs "GCGREP_DISK_ENGINE_MB"; bs "GCGREP_REBUILD_INTERVAL_MS";
   bs "GCGREP_SHARD_TARGET_MB"; bs "GCGREP_SHARD_MIN_MB"; bs "GCGREP_SHARD_MAX_MB";
   bs "GCGREP_REBUILD_THRESHOLD"; bs "GCGREP_SEARCH_WORKERS"; bs "GCGREP_MEMORY_LIMIT_MB";
   bs "GCGREP_SHARD_INLINE_KB"; bs "GCGREP_EXCLUDE"; bs "GCGREP_GITIGNORE"].
Definition Overrides : list bytes :=
  merge_sort bytes_le (omap (λ k, v ← env k; Some (k ++ bs "=" ++ v)) override_keys).
End Load.

(** [MaxFileSize] *)
Definition MaxFileSize (c : Config) : Z := i64 (Z.shiftl (MaxFileSizeMB c) 20).

(** ** Clamps *)

Lemma at_least_1_pos n : (1 ≤ at_least_1 n)%Z.
Proof. unfold at_least_1. destruct (Z.ltb_spec n 1); lia. Qed.

Lemma defaultWorkers_range n : (0 ≤ n)%Z → (1 ≤ defaultWorkers n ≤ 8)%Z.
Proof.
  intros Hn. unfold defaultWorkers. destruct (Z.ltb_spec 8 (Z.quot n 2));
    match goal with |- context [(?x <? 1)%Z] => destruct (Z.ltb_spec x 1) end; lia.
Qed.

Lemma msVar_nonneg env dst key :
  (0 ≤ dst)%Z → (∀ v n, env key = Some v → Atoi v = Some n → n < 2 ^ 43)%Z → (0 ≤ msVar env dst key)%Z.
Proof.
  intros Hd Hn. unfold msVar. destruct (env key) as [v|] eqn:Ev; [|done].
  destruct (Atoi v) as [n|] eqn:Ea; [|done]. specialize (Hn v n eq_refl Ea).
  destruct (Z.leb_spec 0 n); [|done]. unfold Millisecond. rewrite i64_small by lia. lia.
Qed.

(** C40. Whatever the environment holds, the numbers of workers and the rebuild threshold are at
    least one and the words are among those the daemon knows; without a worker setting there are
    one to eight workers; and no interval is negative unless a variable asks for more than
    2^43 milliseconds. *)
Theorem Load_bounds env numCPU :
  (0 ≤ numCPU)%Z →
  let c := Load env numCPU in
  (1 ≤ Workers c)%Z ∧ (1 ≤ SearchWorkers c)%Z ∧ (1 ≤ RebuildThreshold c)%Z ∧
  (env (bs "GCGREP_WORKERS") = None → (Workers c ≤ 8)%Z) ∧
  Engine c ∈ [bs "auto"; bs "mem"; bs "disk"] ∧ Priority c ∈ [bs "low"; bs "normal"] ∧
  ((∀ key v n, env key = Some v → Atoi v = Some n → (n < 2 ^ 43)%Z) →
     Forall (λ d, (0 ≤ d)%Z) [BarrierTimeout c; Debounce c; SaveDelay c; SpawnTimeout c; DialTimeout c;
                              ProgressInterval c; RebuildInterval c]).
Proof.
  intros Hn c. pose proof (defaultWorkers_range numCPU Hn) as Hw.
  split_and!; try apply at_least_1_pos.
  - intros He. unfold c, Load, intVar. cbn [Workers Default]. rewrite He. unfold at_least_1.
    destruct (Z.ltb_spec (defaultWorkers numCPU) 1); lia.
  - unfold c, Load, wordVar. cbn [Engine Default]. repeat case_match; [by eapply bool_decide_eq_true_1|..]; by left.
  - unfold c, Load, wordVar. cbn [Priority Default]. repeat case_match; [by eapply bool_decide_eq_true_1|..]; by left.
  - intros Hb. repeat constructor; apply msVar_nonneg; eauto; done.
Qed.

Lemma Load_bounds_witness :
  let env := λ k, if bool_decide (k = bs "GCGREP_WORKERS") then Some (bs "-3") else None in
  (0 ≤ 16)%Z ∧ Workers (Load env 16) = 1%Z ∧ (1 ≤ SearchWorkers (Load env 16))%Z.
Proof.
  intros env. split; [lia|]. split; [vm_compute; reflexivity|].
  destruct (Load_bounds env 16 ltac:(lia)) as (_ & H & _). exact H.
Defined.

(** A large number of milliseconds wraps to a negative interval. *)
Theorem msVar_wraps :
  msVar (λ _, Some (bs "9223372036855")) 0 (bs "GCGREP_DEBOUNCE_MS") = (-9223372036854551616)%Z.
Proof. vm_compute. reflexivity. Qed.
