(* ===== verification/Lines.v ===== *)
(** * Lines of a content: internal/index/index.go

    [LineText], [TruncateWindow] and [appendLineMatches], with the reference
    function [lines] (a split at newlines) they are proved against. *)

From S2P Require Import Prelude GoBytes.

(** ** Definitions *)

(** The two loops of [LineText] over the rest [content[start:]]. *)
Fixpoint LineText_loop (n : nat) (rest : bytes) : bytes :=
  match n with
  | 0 =>
      match index_byte rest newline with
      | None => rest
      | Some e => take e rest
      end
  | S n =>
      match index_byte rest newline with
      | None => []
      | Some i => LineText_loop n (drop (i + 1) rest)
      end
  end.

(** [LineText]: the 1-based line of content, without its newline. *)
Definition LineText (content : bytes) (line : Z) : bytes :=
  LineText_loop (Z.to_nat (line - 1)) content.

(** The character U+2026. *)
Definition ellipsis : bytes := [xe2; x80; xa6].

(** [TruncateWindow] *)
Definition TruncateWindow (line : bytes) (matchOff maxCols : Z) : option bytes :=
  if (maxCols <=? 0)%Z || (len line <=? maxCols)%Z then Some line
  else
    let start := if (maxCols ÷ 2 <? matchOff)%Z then (matchOff - maxCols ÷ 2)%Z else 0%Z in
    let fin := (start + maxCols)%Z in
    let '(start, fin) :=
      if (len line <? fin)%Z then ((len line - maxCols)%Z, len line) else (start, fin) in
    out ← slice line start fin;
    let out := if (0 <? start)%Z then ellipsis ++ out else out in
    Some (if (fin <? len line)%Z then out ++ ellipsis else out).

(** [index.Match] *)
Record Match := mkMatch {
  m_Path : bytes;
  m_Line : nat;
  m_Text : bytes;
  m_Col : nat;
  m_LineLen : nat;
}.

(** The inner loop of [appendLineMatches]: moves [pos] up to [loc[0]], counting newlines.
    Each iteration moves [pos], so fuel [loc[0] - pos + 1] is enough. *)
Fixpoint advance (fuel : nat) (content : bytes) (loc0 lineNo pos : nat) : option (nat * nat) :=
  match fuel with
  | 0 => None
  | S fuel =>
      if pos <? loc0 then
        seg ← slice content (Z.of_nat pos) (Z.of_nat loc0);
        match index_byte seg newline with
        | None => Some (lineNo, loc0)
        | Some nl => advance fuel content loc0 (lineNo + 1) (pos + nl + 1)
        end
      else Some (lineNo, pos)
  end.

(** The bounds [start] and [end] of the output line of a match. *)
Definition line_start (before : bytes) : nat :=
  match last_index_byte before newline with Some i => i + 1 | None => 0 end.
Definition line_end (content after : bytes) (fin : nat) : nat :=
  match index_byte after newline with Some i => fin + i | None => length content end.

(** [appendLineMatches]: [lastLine] is [None] for Go's [-1]; [acc] is [res.Matches]. *)
Fixpoint appendLineMatches_loop (path content : bytes) (limit maxCols : Z)
    (locs : list (nat * nat)) (lineNo pos : nat) (lastLine : option nat)
    (acc : list Match) : option (list Match) :=
  match locs with
  | [] => Some acc
  | (l0, l1) :: locs' =>
      adv ← advance (S (l0 - pos)) content l0 lineNo pos;
      let '(lineNo, pos) := adv in
      if bool_decide (lastLine = Some lineNo) then
        appendLineMatches_loop path content limit maxCols locs' lineNo pos lastLine acc
      else
        before ← slice content 0 (Z.of_nat l0);
        after ← slice content (Z.of_nat l1) (len content);
        let start := line_start before in
        let fin := line_end content after l1 in
        text ← (if (maxCols <=? 0)%Z || (Z.of_nat (fin - start) <=? maxCols)%Z
                then slice content (Z.of_nat start) (Z.of_nat fin) else Some []);
        let acc := acc ++ [mkMatch path lineNo text (l0 - start) (fin - start)] in
        if (0 <? limit)%Z && (limit <=? len acc)%Z then Some acc
        else appendLineMatches_loop path content limit maxCols locs' lineNo pos (Some lineNo) acc
  end.

Definition appendLineMatches (path content : bytes) (locs : list (nat * nat))
    (limit maxCols : Z) (acc : list Match) : option (list Match) :=
  appendLineMatches_loop path content limit maxCols locs 1 0 None acc.

(** ** Reference: the lines of a content *)

Fixpoint lines (s : bytes) : list bytes :=
  match s with
  | [] => [[]]
  | c :: s' =>
      if bool_decide (c = newline) then [] :: lines s'
      else match lines s' with
           | l :: ls => (c :: l) :: ls
           | [] => [[c]]
           end
  end.

(** Newlines in a content. *)
Definition newlines (s : bytes) : nat := length (filter (.= newline) s).

Lemma newlines_app a b : newlines (a ++ b) = newlines a + newlines b.
Proof. unfold newlines. by rewrite filter_app, length_app. Qed.

Lemma newlines_cons c s :
  newlines (c :: s) = (if decide (c = newline) then 1 else 0) + newlines s.
Proof. unfold newlines. rewrite filter_cons. by case_decide. Qed.

Lemma newlines_0 s : newlines s = 0 ↔ newline ∉ s.
Proof.
  unfold newlines. rewrite length_zero_iff_nil. split.
  - intros Hs Hin. apply (not_elem_of_nil newline). rewrite <-Hs.
    by apply list_elem_of_filter.
  - induction s as [|c s IH]; [done|]. intros Hn. rewrite filter_cons.
    rewrite elem_of_cons in Hn. case_decide; naive_solver.
Qed.

Lemma lines_not_nil s : lines s ≠ [].
Proof. destruct s as [|c s]; simpl; [done|]. repeat case_match; done. Qed.

Lemma lines_no_newline s : newline ∉ s → lines s = [s].
Proof.
  induction s as [|c s IH]; [done|]. rewrite elem_of_cons. intros Hn. simpl.
  rewrite bool_decide_eq_false_2 by naive_solver. by rewrite IH by naive_solver.
Qed.

Lemma lines_app_newline a b : newline ∉ a → lines (a ++ newline :: b) = a :: lines b.
Proof.
  induction a as [|c a IH]; [done|]. rewrite elem_of_cons. intros Hn. simpl.
  rewrite bool_decide_eq_false_2 by naive_solver. by rewrite IH by naive_solver.
Qed.

(** The first newline splits the content. *)
Lemma index_byte_split s c i :
  index_byte s c = Some i → s = take i s ++ c :: drop (i + 1) s ∧ c ∉ take i s.
Proof.
  intros [Hi Hm]%index_byte_Some. split.
  - by rewrite Nat.add_1_r, take_drop_middle.
  - intros (j & Hj)%list_elem_of_lookup.
    apply lookup_take_Some in Hj as [Hj Hlt]. by apply (Hm j).
Qed.

Lemma lines_index s i :
  index_byte s newline = Some i → lines s = take i s :: lines (drop (i + 1) s).
Proof.
  intros [Hs Hn]%index_byte_split.
  transitivity (lines (take i s ++ newline :: drop (i + 1) s)); [by rewrite <-Hs|].
  by apply lines_app_newline.
Qed.

Lemma LineText_loop_lines n s : LineText_loop n s = default [] (lines s !! n).
Proof.
  revert s. induction n as [|n IH]; intros s; simpl;
    (destruct (index_byte s newline) as [i|] eqn:E;
     [by rewrite ?IH, (lines_index _ _ E)|]);
    apply index_byte_None in E; by rewrite lines_no_newline.
Qed.

(** The line that starts after [newlines pre] newlines. *)
Lemma lines_lookup pre l post :
  newline ∉ l → (pre = [] ∨ last pre = Some newline) →
  (post = [] ∨ head post = Some newline) →
  lines (pre ++ l ++ post) !! newlines pre = Some l.
Proof.
  intros Hl Hpre Hpost.
  assert (∀ p, last p = Some newline → ∀ s, lines (p ++ s) !! newlines p = lines s !! 0) as Hskip.
  { intros p. remember (length p) as n eqn:En. revert p En.
    induction n as [n IH] using lt_wf_ind. intros p En Hp s.
    destruct (index_byte p newline) as [i|] eqn:E.
    2: { apply index_byte_None in E. exfalso. apply E.
         apply last_Some in Hp as [p' ->]. apply elem_of_app. right. by left. }
    pose proof (index_byte_split _ _ _ E) as [Hs Hn].
    remember (take i p) as a. remember (drop (i + 1) p) as b. clear Heqa Heqb E.
    subst p. rewrite <-app_assoc. simpl. rewrite lines_app_newline by done.
    rewrite newlines_app, newlines_cons, decide_True, (proj2 (newlines_0 a) Hn) by done.
    simpl. destruct (decide (b = [])) as [->|Hb]; [done|].
    rewrite last_app_cons in Hp.
    apply (IH (length b)); [rewrite length_app in En; simpl in En; lia|done|].
    destruct b; [done|]. exact Hp. }
  assert (lines (l ++ post) !! 0 = Some l) as H0.
  { destruct Hpost as [->|Hh].
    - rewrite app_nil_r. by rewrite lines_no_newline.
    - destruct post as [|c post]; [done|]. simplify_eq/=. by rewrite lines_app_newline. }
  destruct Hpre as [->|Hp]; [done|]. by rewrite Hskip.
Qed.

(** ** The output line of a match *)

(** The 1-based line of an offset. *)
Definition line_no (content : bytes) (a : nat) : nat := S (newlines (take a content)).

Lemma slice_nat {A} (s : list A) lo hi :
  lo ≤ hi → hi ≤ length s →
  slice s (Z.of_nat lo) (Z.of_nat hi) = Some (take (hi - lo) (drop lo s)).
Proof.
  intros. unfold slice. rewrite !(proj2 (Z.leb_le _ _)) by lia. simpl.
  rewrite Nat2Z.id. do 2 f_equal. lia.
Qed.

Lemma slice_to {A} (s : list A) hi :
  hi ≤ length s → slice s 0 (Z.of_nat hi) = Some (take hi s).
Proof. intros. pose proof (slice_nat s 0 hi) as H'. rewrite drop_0, Nat.sub_0_r in H'. apply H'; lia. Qed.

Lemma slice_from {A} (s : list A) lo :
  lo ≤ length s → slice s (Z.of_nat lo) (len s) = Some (drop lo s).
Proof.
  intros. unfold len. rewrite slice_nat by lia. f_equal. apply take_ge.
  rewrite length_drop. lia.
Qed.

Lemma newlines_take_add content a b :
  a ≤ b → newlines (take b content) = newlines (take a content) + newlines (take (b - a) (drop a content)).
Proof.
  intros H. rewrite <-newlines_app. f_equal.
  rewrite take_take_drop. f_equal. lia.
Qed.

Lemma advance_spec fuel content loc0 pos :
  loc0 - pos < fuel → pos ≤ loc0 → loc0 ≤ length content →
  advance fuel content loc0 (line_no content pos) pos = Some (line_no content loc0, loc0).
Proof.
  revert pos. induction fuel as [|fuel IH]; intros pos Hf Hp Hl; [lia|]. cbn [advance].
  destruct (Nat.ltb_spec pos loc0); [|by replace loc0 with pos by lia].
  rewrite slice_nat by lia. cbn [mbind option_bind].
  destruct (index_byte _ newline) as [i|] eqn:E.
  - assert (Hi : i < loc0 - pos ∧ content !! (pos + i) = Some newline).
    { apply index_byte_Some in E as [E _]. apply lookup_take_Some in E as [E ?].
      by rewrite lookup_drop in E. }
    destruct Hi as [Hi Hnl].
    assert (line_no content pos + 1 = line_no content (pos + i + 1)) as ->.
    { unfold line_no. rewrite Nat.add_1_r, (Nat.add_1_r (pos + i)).
      rewrite (take_S_r _ _ _ Hnl), newlines_app, (newlines_take_add content pos (pos + i)) by lia.
      apply index_byte_split in E as [_ Hn]. rewrite take_take, Nat.min_l in Hn by lia.
      replace (pos + i - pos) with i by lia. rewrite (proj2 (newlines_0 _) Hn).
      rewrite newlines_cons, decide_True by done. unfold newlines at 3. simpl. lia. }
    apply IH; lia.
  - apply index_byte_None in E. unfold line_no.
    rewrite (newlines_take_add content pos loc0) by lia. rewrite (proj2 (newlines_0 _) E).
    do 3 f_equal. lia.
Qed.

Lemma line_start_spec before :
  line_start before ≤ length before ∧ (newline ∉ drop (line_start before) before) ∧
  (take (line_start before) before = [] ∨ last (take (line_start before) before) = Some newline).
Proof.
  unfold line_start. destruct (last_index_byte before newline) as [i|] eqn:E.
  - apply last_index_byte_Some in E as [Hi Hm]. pose proof (lookup_lt_Some _ _ _ Hi).
    split; [lia|]. split.
    + intros (j & Hj)%list_elem_of_lookup. rewrite lookup_drop in Hj.
      by apply (Hm (i + 1 + j)); [lia|].
    + right. rewrite Nat.add_1_r, (take_S_r _ _ _ Hi). by rewrite last_snoc.
  - apply last_index_byte_None in E. split; [lia|]. split; [by rewrite drop_0|]. by left.
Qed.

Lemma line_end_spec content b :
  b ≤ length content →
  let fin := line_end content (drop b content) b in
  b ≤ fin ≤ length content ∧ (newline ∉ take (fin - b) (drop b content)) ∧
  (drop fin content = [] ∨ head (drop fin content) = Some newline).
Proof.
  intros Hb. unfold line_end. destruct (index_byte (drop b content) newline) as [i|] eqn:E.
  - pose proof (index_byte_split _ _ _ E) as [_ Hn].
    apply index_byte_Some in E as [Hi _]. pose proof (lookup_lt_Some _ _ _ Hi) as Hl.
    rewrite length_drop in Hl. simpl. split; [lia|].
    replace (b + i - b) with i by lia. split; [done|]. right.
    rewrite <-drop_drop. by rewrite <-(take_drop_middle (drop b content) i newline Hi),
      drop_app_length' by (rewrite length_take, length_drop; lia).
  - apply index_byte_None in E. simpl. split; [lia|]. split.
    + intros Hin. apply E. eapply subseteq_take, Hin.
    + left. apply drop_ge. lia.
Qed.

(** The output line of a span that holds no newline is a line of the content. *)
Lemma span_line content a b :
  a ≤ b → b ≤ length content → newline ∉ take (b - a) (drop a content) →
  let start := line_start (take a content) in
  let fin := line_end content (drop b content) b in
  start ≤ a ∧ b ≤ fin ≤ length content ∧
  lines content !! newlines (take a content) = Some (take (fin - start) (drop start content)).
Proof.
  intros Hab Hb Hnl start fin.
  destruct (line_start_spec (take a content)) as (Hs1 & Hs2 & Hs3). fold start in Hs1, Hs2, Hs3.
  destruct (line_end_spec content b Hb) as (He1 & He2 & He3). fold fin in He1, He2, He3.
  rewrite length_take in Hs1. split; [lia|]. split; [lia|].
  rewrite take_take, Nat.min_l in Hs3 by lia.
  assert (Hline : take (fin - start) (drop start content)
    = drop start (take a content) ++ take (b - a) (drop a content)
      ++ take (fin - b) (drop b content)).
  { rewrite <-(take_drop (a - start) (drop start content)) at 1.
    rewrite drop_drop. replace (start + (a - start)) with a by lia.
    rewrite take_app, take_take, length_take, length_drop.
    rewrite (Nat.min_l (a - start) (length content - start)) by lia.
    rewrite Nat.min_r by lia. rewrite skipn_firstn_comm. f_equal.
    rewrite <-(take_drop (b - a) (drop a content)) at 1.
    rewrite drop_drop. replace (a + (b - a)) with b by lia.
    rewrite take_app, take_take, length_take, length_drop.
    rewrite (Nat.min_l (b - a) (length content - a)) by lia.
    rewrite Nat.min_r by lia. do 2 f_equal. lia. }
  assert (Hcontent : content = take start content ++ take (fin - start) (drop start content)
                               ++ drop fin content).
  { rewrite <-(take_drop start content) at 1. f_equal.
    rewrite <-(take_drop (fin - start) (drop start content)) at 1. f_equal.
    rewrite drop_drop. f_equal. lia. }
  assert (Hcount : newlines (take a content) = newlines (take start content)).
  { rewrite (newlines_take_add content start a) by lia.
    rewrite <-skipn_firstn_comm, (proj2 (newlines_0 _) Hs2). lia. }
  rewrite Hcount.
  pose proof (lines_lookup (take start content) (take (fin - start) (drop start content))
    (drop fin content)) as HL.
  rewrite <-Hcontent in HL. apply HL; [|done..].
  rewrite Hline, !elem_of_app. naive_solver.
Qed.

(** ** [appendLineMatches] against a reference *)

(** The output of one span. *)
Definition span_match (path content : bytes) (maxCols : Z) (a b : nat) : Match :=
  let start := line_start (take a content) in
  let fin := line_end content (drop b content) b in
  let text := take (fin - start) (drop start content) in
  mkMatch path (line_no content a)
    (if (maxCols <=? 0)%Z || (Z.of_nat (fin - start) <=? maxCols)%Z then text else [])
    (a - start) (fin - start).

(** One output per line: a span on the line of the previous output is dropped. *)
Fixpoint line_matches (path content : bytes) (maxCols : Z) (locs : list (nat * nat))
    (lastLine : option nat) : list Match :=
  match locs with
  | [] => []
  | (a, b) :: locs' =>
      if bool_decide (lastLine = Some (line_no content a)) then
        line_matches path content maxCols locs' lastLine
      else span_match path content maxCols a b
             :: line_matches path content maxCols locs' (Some (line_no content a))
  end.

(** A match cap: no cap when it is not positive. *)
Definition capped {A} (limit : Z) (l : list A) : list A :=
  if (0 <? limit)%Z then take (Z.to_nat limit) l else l.

Definition valid_locs (content : bytes) (locs : list (nat * nat)) : Prop :=
  Forall (λ l, l.1 ≤ l.2 ∧ l.2 ≤ length content) locs ∧
  StronglySorted (λ l1 l2, l1.1 ≤ l2.1) locs.

Lemma app_cons_snoc {A} (l k : list A) x : (l ++ [x]) ++ k = l ++ x :: k.
Proof. by rewrite <-app_assoc. Qed.

Lemma capped_app_full {A} limit (l k : list A) :
  (0 < limit)%Z → len l = limit → capped limit (l ++ k) = l.
Proof.
  unfold capped, len. intros H <-. rewrite (proj2 (Z.ltb_lt _ _)) by done.
  by rewrite Nat2Z.id, take_app_length.
Qed.

Lemma capped_small {A} limit (l : list A) :
  (limit ≤ 0)%Z ∨ (len l < limit)%Z → capped limit l = l.
Proof.
  unfold capped, len. intros H. destruct (Z.ltb_spec 0 limit); [|done].
  apply take_ge. lia.
Qed.

Lemma appendLineMatches_loop_spec path content limit maxCols locs pos lastLine acc :
  valid_locs content locs → Forall (λ l, pos ≤ l.1) locs →
  (limit ≤ 0)%Z ∨ (len acc < limit)%Z →
  appendLineMatches_loop path content limit maxCols locs (line_no content pos) pos lastLine acc
    = Some (capped limit (acc ++ line_matches path content maxCols locs lastLine)).
Proof.
  revert pos lastLine acc. induction locs as [|[a b] locs IH];
    intros pos lastLine acc [Hv Hs] Hpos Hacc.
  { simpl. by rewrite app_nil_r, capped_small. }
  apply Forall_cons in Hv as [[Hab Hb] Hv]. simpl in Hab, Hb.
  apply Forall_cons in Hpos as [Hpa _]. simpl in Hpa.
  inversion Hs as [|? ? Hs' Ha]; subst. cbn [appendLineMatches_loop].
  rewrite advance_spec by lia. cbn [mbind option_bind line_matches].
  case_bool_decide as Hlast; [by apply IH|].
  rewrite slice_to, slice_from by lia. cbn [mbind option_bind].
  destruct (line_start_spec (take a content)) as (Hs1 & _ & _). rewrite length_take in Hs1.
  destruct (line_end_spec content b Hb) as (He1 & _ & _).
  rewrite slice_nat by lia.
  match goal with |- context [if ?c then Some ?t else Some []] =>
    replace (if c then Some t else Some []) with (Some (if c then t else [])) by (by destruct c)
  end.
  cbn [mbind option_bind]. fold (span_match path content maxCols a b).
  rewrite <-(app_cons_snoc acc (line_matches _ _ _ _ _)).
  destruct (Z.ltb_spec 0 limit) as [Hl|Hl]; simpl.
  - assert (len (acc ++ [span_match path content maxCols a b]) = len acc + 1)%Z as Hlen.
    { unfold len. rewrite length_app. simpl. lia. }
    destruct (Z.leb_spec limit (len (acc ++ [span_match path content maxCols a b]))).
    + by rewrite capped_app_full by lia.
    + apply IH; [by split|done|lia].
  - apply IH; [by split|done|lia].
Qed.

Lemma appendLineMatches_spec path content locs limit maxCols acc :
  valid_locs content locs → (limit ≤ 0)%Z ∨ (len acc < limit)%Z →
  appendLineMatches path content locs limit maxCols acc
    = Some (capped limit (acc ++ line_matches path content maxCols locs None)).
Proof.
  intros. change (appendLineMatches path content locs limit maxCols acc) with
    (appendLineMatches_loop path content limit maxCols locs (line_no content 0) 0 None acc).
  apply appendLineMatches_loop_spec; [done| |done].
  apply Forall_forall. lia.
Qed.

Lemma line_no_mono content a b : a ≤ b → line_no content a ≤ line_no content b.
Proof. intros H. unfold line_no. rewrite (newlines_take_add content a b) by done. lia. Qed.

(** With no previous line below, the outputs have increasing lines, one for
    each line that holds a span. *)
Lemma line_matches_lines path content maxCols locs last :
  StronglySorted (λ l1 l2 : nat * nat, l1.1 ≤ l2.1) locs →
  Forall (λ l, ∀ n, last = Some n → n ≤ line_no content l.1) locs →
  StronglySorted (λ m1 m2, m_Line m1 < m_Line m2)
    (line_matches path content maxCols locs last) ∧
  Forall (λ m, ∀ n, last = Some n → n < m_Line m)
    (line_matches path content maxCols locs last) ∧
  ∀ n, last ≠ Some n →
    (∃ m, m ∈ line_matches path content maxCols locs last ∧ m_Line m = n) ↔
    ∃ l, l ∈ locs ∧ line_no content l.1 = n.
Proof.
  revert last. induction locs as [|[a b] locs IH]; intros last Hs Hlast.
  { simpl. split_and!; [constructor|constructor|set_solver]. }
  inversion Hs as [|? ? Hs' Ha]; subst. apply Forall_cons in Hlast as [Hla Hlast].
  simpl. case_bool_decide as E.
  - destruct (IH last Hs' Hlast) as (I1 & I2 & I3). split_and!; [done|done|].
    intros n Hn. rewrite I3 by done. split.
    + intros (l & Hl & <-). exists l. split; [by right|done].
    + intros (l & [->|Hl]%elem_of_cons & <-); [simpl in *; congruence|eauto].
  - destruct (IH (Some (line_no content a)) Hs') as (I1 & I2 & I3).
    { eapply Forall_impl; [exact Ha|]. simpl. intros [c d] Hcd n [= <-]. by apply line_no_mono. }
    split_and!.
    + constructor; [done|]. eapply Forall_impl; [exact I2|]. intros m Hm. by apply Hm.
    + simpl in Hla. constructor.
      * simpl. intros n ->. specialize (Hla n eq_refl).
        destruct (decide (n = line_no content a)); [congruence|]. simpl. lia.
      * eapply Forall_impl; [exact I2|]. intros m Hm n ->.
        specialize (Hm _ eq_refl). specialize (Hla n eq_refl). lia.
    + intros n Hn. destruct (decide (n = line_no content a)) as [->|Hna].
      * split; intros _; eexists; (split; [by left|done]).
      * specialize (I3 n ltac:(congruence)). split.
        -- intros (m & [->|Hm]%elem_of_cons & <-); [done|].
           destruct (proj1 I3 ltac:(eauto)) as (l & ? & ?). exists l. split; [by right|done].
        -- intros (l & [->|Hl]%elem_of_cons & <-); [done|].
           destruct (proj2 I3 ltac:(eauto)) as (m & ? & ?). exists m. split; [by right|done].
Qed.

Lemma line_matches_span path content maxCols locs last m :
  m ∈ line_matches path content maxCols locs last →
  ∃ a b, (a, b) ∈ locs ∧ m = span_match path content maxCols a b.
Proof.
  revert last. induction locs as [|[a b] locs IH]; intros last; simpl; [set_solver|].
  case_bool_decide.
  - intros (x & y & ? & ->)%IH. exists x, y. split; [by right|done].
  - intros [->|(x & y & ? & ->)%IH]%elem_of_cons; [exists a, b|exists x, y];
      (split; [|done]); [by left|by right].
Qed.

(** ** Properties *)

(** [LineText content n] is the n-th line of the content, empty past its last line. *)
Theorem LineText_is_line content n :
  LineText content (Z.of_nat (S n)) = default [] (lines content !! n).
Proof.
  unfold LineText. replace (Z.to_nat _) with n by lia. apply LineText_loop_lines.
Qed.

(** [appendLineMatches] reports like grep: for the spans of a content, in
    order and none crossing a newline, it never panics and, without a cap,
    reports each line that holds a span exactly once, in increasing order; the
    text of a report is that line of the content (left out when longer than
    [maxCols]) and its column locates a span in the line. *)
Theorem appendLineMatches_one_per_line path content locs maxCols :
  valid_locs content locs →
  Forall (λ l, newline ∉ take (l.2 - l.1) (drop l.1 content)) locs →
  ∃ ms, appendLineMatches path content locs 0 maxCols [] = Some ms ∧
    StronglySorted (λ m1 m2, m_Line m1 < m_Line m2) ms ∧
    (∀ n, (∃ m, m ∈ ms ∧ m_Line m = n) ↔ ∃ l, l ∈ locs ∧ line_no content l.1 = n) ∧
    (∀ m, m ∈ ms → ∃ line a b, lines content !! (m_Line m - 1) = Some line ∧
       m_LineLen m = length line ∧ (a, b) ∈ locs ∧
       m_Text m = (if (maxCols <=? 0)%Z || (len line <=? maxCols)%Z then line else []) ∧
       take (b - a) (drop (m_Col m) line) = take (b - a) (drop a content)).
Proof.
  intros Hv Hnl. rewrite appendLineMatches_spec by (first [done | lia]).
  eexists. split; [reflexivity|]. unfold capped. simpl.
  destruct (line_matches_lines path content maxCols locs None (proj2 Hv)) as (I1 & _ & I3).
  { apply Forall_forall. done. }
  split_and!; [done| |].
  - intros n. by apply I3.
  - intros m (a & b & Hab & ->)%line_matches_span.
    destruct Hv as [Hv _]. rewrite Forall_forall in Hv, Hnl.
    destruct (Hv _ Hab) as [Hle Hb]. specialize (Hnl _ Hab). simpl in Hle, Hb, Hnl.
    destruct (span_line content a b Hle Hb Hnl) as (Hs & He & Hl).
    unfold span_match. simpl. rewrite Nat.sub_0_r.
    set (start := line_start (take a content)) in *.
    set (fin := line_end content (drop b content) b) in *.
    exists (take (fin - start) (drop start content)), a, b. unfold len.
    rewrite length_take, length_drop, Nat.min_l by lia. split_and!; [done..|].
    rewrite skipn_firstn_comm, drop_drop, take_take, Nat.min_l by lia.
    do 2 f_equal. lia.
Qed.

Lemma appendLineMatches_one_per_line_witness :
  ∃ ms, appendLineMatches (bs "a.go") (bs "foo foo" ++ newline :: bs "bar foo") [(0, 3); (4, 7); (12, 15)] 0 0 []
        = Some ms ∧
    StronglySorted (λ m1 m2, m_Line m1 < m_Line m2) ms ∧
    (∀ n, (∃ m, m ∈ ms ∧ m_Line m = n) ↔
       ∃ l, l ∈ [(0, 3); (4, 7); (12, 15)] ∧
            line_no (bs "foo foo" ++ newline :: bs "bar foo") l.1 = n) ∧
    (∀ m, m ∈ ms → ∃ line a b,
       lines (bs "foo foo" ++ newline :: bs "bar foo") !! (m_Line m - 1) = Some line ∧
       m_LineLen m = length line ∧ (a, b) ∈ [(0, 3); (4, 7); (12, 15)] ∧
       m_Text m = (if (0 <=? 0)%Z || (len line <=? 0)%Z then line else []) ∧
       take (b - a) (drop (m_Col m) line)
         = take (b - a) (drop a (bs "foo foo" ++ newline :: bs "bar foo"))).
Proof.
  apply (appendLineMatches_one_per_line (bs "a.go") (bs "foo foo" ++ newline :: bs "bar foo")
    [(0, 3); (4, 7); (12, 15)] 0).
  - split; repeat constructor; simpl; lia.
  - repeat constructor; apply (bool_decide_unpack _); vm_compute; done.
Defined.

(** [TruncateWindow] never panics.  A line longer than [maxCols] is cut to
    exactly [maxCols] consecutive bytes, which hold the match offset when it is
    an offset of the line, between ellipses that mark what was cut. *)
Theorem TruncateWindow_window line matchOff maxCols :
  (0 < maxCols)%Z → (maxCols < len line)%Z →
  ∃ start, (0 ≤ start)%Z ∧ (start + maxCols ≤ len line)%Z ∧
    ((0 ≤ matchOff < len line)%Z → (start ≤ matchOff < start + maxCols)%Z) ∧
    ∃ w, slice line start (start + maxCols) = Some w ∧ len w = maxCols ∧
      TruncateWindow line matchOff maxCols = Some
        ((if (0 <? start)%Z then ellipsis else []) ++ w ++
         (if (start + maxCols <? len line)%Z then ellipsis else [])).
Proof.
  intros Hm Hl. unfold TruncateWindow.
  rewrite (proj2 (Z.leb_gt _ _)), (proj2 (Z.leb_gt (len line) _)) by lia. cbn [orb].
  set (start := if (maxCols ÷ 2 <? matchOff)%Z then (matchOff - maxCols ÷ 2)%Z else 0%Z).
  assert (Hq : (0 ≤ maxCols ÷ 2 < maxCols)%Z) by (rewrite Z.quot_div_nonneg; lia).
  assert (Hstart : (0 ≤ start)%Z ∧ ((0 ≤ matchOff)%Z → (start ≤ matchOff ≤ start + maxCols ÷ 2)%Z)).
  { unfold start. destruct (Z.ltb_spec (maxCols ÷ 2) matchOff); lia. }
  set (start' := if (len line <? start + maxCols)%Z then (len line - maxCols)%Z else start).
  exists start'.
  assert (Hb : (0 ≤ start')%Z ∧ (start' + maxCols ≤ len line)%Z).
  { unfold start'. destruct (Z.ltb_spec (len line) (start + maxCols)); lia. }
  split; [lia|]. split; [lia|]. split.
  { unfold start'. destruct (Z.ltb_spec (len line) (start + maxCols)); lia. }
  assert (Hw : slice line start' (start' + maxCols) = Some (take (Z.to_nat maxCols) (drop (Z.to_nat start') line))).
  { unfold slice. fold (len line). rewrite !(proj2 (Z.leb_le _ _)) by lia. simpl.
    do 2 f_equal. lia. }
  eexists. split; [exact Hw|]. split.
  { unfold len in *. rewrite length_take, length_drop. lia. }
  replace (if (len line <? start + maxCols)%Z then ((len line - maxCols)%Z, len line)
           else (start, (start + maxCols)%Z)) with (start', (start' + maxCols)%Z)
    by (unfold start'; destruct (Z.ltb_spec (len line) (start + maxCols)); f_equal; lia).
  rewrite Hw. cbn [mbind option_bind].
  destruct (0 <? start')%Z, (start' + maxCols <? len line)%Z; by rewrite ?app_nil_r, ?app_assoc.
Qed.

Lemma TruncateWindow_window_witness :
  ∃ start, (0 ≤ start)%Z ∧ (start + 4 ≤ 10)%Z ∧
    ((0 ≤ 7 < 10)%Z → (start ≤ 7 < start + 4)%Z) ∧
    ∃ w, slice (bs "0123456789") start (start + 4) = Some w ∧ len w = 4%Z ∧
      TruncateWindow (bs "0123456789") 7 4 = Some
        ((if (0 <? start)%Z then ellipsis else []) ++ w ++
         (if (start + 4 <? 10)%Z then ellipsis else [])).
Proof. apply (TruncateWindow_window (bs "0123456789") 7 4); vm_compute; reflexivity. Defined.
