(* ===== verification/Globs.v ===== *)
(** * The path filters of a query: internal/daemon/server.go

    [Match] is Go's [filepath.Match] (on Unix), chunk by chunk; the filters of the
    server combine it with hidden files, exclusions, inclusions and .gitignore. *)

From S2P Require Import Prelude GoBytes Text GoPath Lines Ignore.

(** ** [filepath.Match] *)

(** The part of [scanChunk] after the stars: the end of the chunk. *)
Fixpoint chunk_end (inrange : bool) (p : bytes) : nat :=
  match p with
  | [] => 0
  | c :: p' =>
      if bool_decide (c = x5c) then
        match p' with _ :: p'' => S (S (chunk_end inrange p'')) | [] => 1 end
      else if bool_decide (c = x2a) && negb inrange then 0
      else S (chunk_end (if bool_decide (c = x5b) then true else if bool_decide (c = x5d) then false else inrange) p')
  end.

(** [scanChunk]: whether stars come first, the chunk, the rest. *)
Fixpoint drop_stars (p : bytes) : bytes :=
  match p with c :: p' => if bool_decide (c = x2a) then drop_stars p' else p | [] => [] end.
Definition scanChunk (p : bytes) : bool * bytes * bytes :=
  let q := drop_stars p in
  let i := chunk_end false q in
  (negb (bool_decide (length q = length p)), take i q, drop i q).

(** [getEsc]: a rune of a class and the rest, [None] for [ErrBadPattern]. *)
Definition getEsc (chunk : bytes) : option (Z * bytes) :=
  match chunk with
  | [] => None
  | c :: rest =>
      if bool_decide (c = x2d) || bool_decide (c = x5d) then None
      else
        let chunk := if bool_decide (c = x5c) then rest else chunk in
        if bool_decide (chunk = []) then None
        else
          let '(r, n) := DecodeRune chunk in
          if bool_decide (r = RuneError) && bool_decide (n = 1) then None
          else if bool_decide (drop n chunk = []) then None else Some (r, drop n chunk)
  end.

(** The ranges of a class: whether [r] is in one of them, and the rest after the bracket. *)
Fixpoint class_ranges (fuel : nat) (r : Z) (chunk : bytes) (matched : bool) (nrange : nat) : option (bool * bytes) :=
  match fuel with
  | O => None
  | S fuel =>
      match chunk with
      | c :: rest =>
          if bool_decide (c = x5d) && bool_decide (0 < nrange) then Some (matched, rest)
          else
            '(lo, chunk) ← getEsc chunk;
            '(hi, chunk) ← match chunk with
                           | d :: rest => if bool_decide (d = x2d) then getEsc rest else Some (lo, chunk)
                           | [] => Some (lo, chunk)
                           end;
            class_ranges fuel r chunk (matched || (bool_decide (lo ≤ r)%Z && bool_decide (r ≤ hi)%Z)) (S nrange)
      | [] => None
      end
  end.

(** [matchChunk]: [None] for [ErrBadPattern], else what is left of the name; the name is [None]
    once it has failed to match ([failed]). *)
Fixpoint match_chunk (fuel : nat) (chunk : bytes) (s : option bytes) : option (option bytes) :=
  match fuel with
  | O => None
  | S fuel =>
      match chunk with
      | [] => Some s
      | c :: rest =>
          let s := match s with Some [] => None | _ => s end in
          if bool_decide (c = x5b) then
            let '(r, s) := match s with
                           | Some s => let '(r, n) := DecodeRune s in (r, Some (drop n s))
                           | None => (0%Z, None)
                           end in
            let '(negated, rest) := match rest with
                                    | d :: rest' => if bool_decide (d = x5e) then (true, rest') else (false, rest)
                                    | [] => (false, rest)
                                    end in
            '(matched, rest) ← class_ranges (S (length rest)) r rest false 0;
            match_chunk fuel rest (if Bool.eqb matched negated then None else s)
          else if bool_decide (c = x3f) then
            match_chunk fuel rest
              (match s with
               | Some (x :: _ as s) => if bool_decide (x = slash) then None else Some (drop (DecodeRune s).2 s)
               | _ => None
               end)
          else
            let lit := if bool_decide (c = x5c) then rest else chunk in
            match lit with
            | [] => None
            | c :: rest =>
                match_chunk fuel rest
                  (match s with
                   | Some (x :: s) => if bool_decide (c = x) then Some s else None
                   | _ => None
                   end)
            end
      end
  end.
Definition matchChunk (chunk s : bytes) : option (option bytes) :=
  match_chunk (S (length chunk)) chunk (Some s).

(** The search past a star: the chunk is tried after each byte of the name up to a slash; the
    last chunk must use up the name. *)
Fixpoint star_match (chunk : bytes) (last : bool) (name : bytes) : option (option bytes) :=
  match name with
  | [] => Some None
  | x :: name =>
      if bool_decide (x = slash) then Some None
      else
        t ← matchChunk chunk name;
        match t with
        | Some t => if last && negb (bool_decide (t = [])) then star_match chunk last name else Some (Some t)
        | None => star_match chunk last name
        end
  end.

(** The check of the rest of a pattern. *)
Fixpoint pattern_valid (fuel : nat) (pattern : bytes) : bool :=
  match fuel with
  | O => false
  | S fuel =>
      if bool_decide (pattern = []) then true
      else
        let '(_, chunk, rest) := scanChunk pattern in
        match matchChunk chunk [] with Some _ => pattern_valid fuel rest | None => false end
  end.

(** [filepath.Match]: [None] for [ErrBadPattern]. *)
Fixpoint match_loop (fuel : nat) (pattern name : bytes) : option bool :=
  match fuel with
  | O => None
  | S fuel =>
      if bool_decide (pattern = []) then Some (bool_decide (name = []))
      else
        let '(star, chunk, rest) := scanChunk pattern in
        if star && bool_decide (chunk = []) then Some (negb (contains name [slash]))
        else
          t ← matchChunk chunk name;
          match t with
          | Some t =>
              if bool_decide (t = []) || negb (bool_decide (rest = [])) then match_loop fuel rest t
              else if star then
                u ← star_match chunk (bool_decide (rest = [])) name;
                match u with
                | Some u => match_loop fuel rest u
                | None => if pattern_valid fuel rest then Some false else None
                end
              else if pattern_valid fuel rest then Some false else None
          | None =>
              if star then
                u ← star_match chunk (bool_decide (rest = [])) name;
                match u with
                | Some u => match_loop fuel rest u
                | None => if pattern_valid fuel rest then Some false else None
                end
              else if pattern_valid fuel rest then Some false else None
          end
  end.
Definition Match (pattern name : bytes) : option bool := match_loop (S (length pattern)) pattern name.

(** A match, an error counting as none: [if ok, _ := filepath.Match(g, p); ok]. *)
Definition glob_ok (g p : bytes) : bool := default false (Match g p).
Definition glob_valid (g : bytes) : bool := bool_decide (is_Some (Match g (bs "x"))).

(** ** Filters *)

(** [hiddenPath] *)
Fixpoint hidden_loop (fuel : nat) (rel : bytes) : bool :=
  match fuel with
  | O => false
  | S fuel =>
      match rel with
      | [] => false
      | c :: _ =>
          if bool_decide (c = x2e) then true
          else match index_byte rel slash with
               | None => false
               | Some i => hidden_loop fuel (drop (S i) rel)
               end
      end
  end.
Definition hiddenPath (rel : bytes) : bool := hidden_loop (S (length rel)) rel.

(** [globMatcher]: [None] is an error, [Some None] no filter. *)
Definition globMatcher (globs : list bytes) : option (option (bytes → bool)) :=
  if bool_decide (globs = []) then Some None
  else if negb (forallb glob_valid globs) then None
  else Some (Some (λ p, existsb (λ g, glob_ok g p || glob_ok g (path_base p)) globs)).

(** [globMatchAny] *)
Definition globMatchAny (globs : list bytes) (p : bytes) : bool :=
  existsb (λ g, glob_ok g p || glob_ok g (path_base p)
             || (has_suffix g (bs "/*") && has_prefix p (take (length g - 1) g))) globs.

(** [buildIncludeMatcher] *)
Definition buildIncludeMatcher (globs : list bytes) : bytes → bool :=
  if bool_decide (globs = []) then λ _, false else globMatchAny globs.

(** [excludeIncludeMatcher] *)
Definition excludeIncludeMatcher (exclude include : list bytes) : option (option (bytes → bool)) :=
  if bool_decide (exclude = []) && bool_decide (include = []) then Some None
  else if negb (forallb glob_valid exclude) || negb (forallb glob_valid include) then None
  else Some (Some (λ p,
         if negb (bool_decide (include = [])) && globMatchAny include p then true
         else if negb (bool_decide (exclude = [])) && globMatchAny exclude p then false
         else true)).

(** ** The fuel is enough *)

Lemma getEsc_shrinks chunk r rest : getEsc chunk = Some (r, rest) → length rest < length chunk.
Proof.
  unfold getEsc. destruct chunk as [|c chunk]; [done|]. destruct (_ || _); [done|].
  set (ch := if bool_decide (c = x5c) then _ else _). assert (length ch ≤ S (length chunk)) as Hl by (unfold ch; case_match; simpl; lia).
  clearbody ch. destruct ch as [|a ch]; [done|].
  rewrite bool_decide_eq_false_2 by done. pose proof (DecodeRune_width a ch) as Hw.
  destruct (DecodeRune (a :: ch)) as [r' n]. destruct (_ && _); [done|]. destruct (bool_decide _); [done|].
  intros [= _ <-]. rewrite length_drop. cbn [length] in *. lia.
Qed.

Lemma class_ranges_fuel (n m : nat) (r : Z) (chunk : bytes) (matched : bool) (k : nat) :
  length chunk < n → length chunk < m → class_ranges n r chunk matched k = class_ranges m r chunk matched k.
Proof.
  revert m chunk matched k. induction n as [|n IH]; intros m chunk matched k Hn Hm; [lia|].
  destruct m as [|m]; [lia|]. cbn [class_ranges]. destruct chunk as [|c rest]; [done|].
  destruct (_ && _); [done|]. destruct (getEsc (c :: rest)) as [[lo ch]|] eqn:E; [|done]. cbn [mbind option_bind].
  apply getEsc_shrinks in E. destruct ch as [|d ch]; [apply IH; cbn [length] in *; lia|].
  destruct (bool_decide (d = x2d)); [|cbn [mbind option_bind]; apply IH; cbn [length] in *; lia].
  destruct (getEsc ch) as [[hi ch2]|] eqn:E2; [|done]. apply getEsc_shrinks in E2. cbn [mbind option_bind].
  apply IH; cbn [length] in *; lia.
Qed.

Lemma class_ranges_shrinks (n : nat) (r : Z) (chunk : bytes) (matched : bool) (k : nat) b rest :
  class_ranges n r chunk matched k = Some (b, rest) → length rest < length chunk.
Proof.
  revert chunk matched k. induction n as [|n IH]; intros chunk matched k; cbn [class_ranges]; [done|].
  destruct chunk as [|c ch]; [done|]. destruct (_ && _); [intros [= _ <-]; cbn; lia|].
  destruct (getEsc (c :: ch)) as [[lo ch1]|] eqn:E; [|done]. cbn [mbind option_bind]. apply getEsc_shrinks in E.
  destruct ch1 as [|d ch1]; [intros H%IH; cbn [length] in *; lia|].
  destruct (bool_decide (d = x2d)); [|cbn [mbind option_bind]; intros H%IH; cbn [length] in *; lia].
  destruct (getEsc ch1) as [[hi ch2]|] eqn:E2; [|done]. apply getEsc_shrinks in E2. cbn [mbind option_bind].
  intros H%IH. cbn [length] in *. lia.
Qed.

Lemma match_chunk_fuel (n m : nat) (chunk : bytes) (s : option bytes) :
  length chunk < n → length chunk < m → match_chunk n chunk s = match_chunk m chunk s.
Proof.
  revert m chunk s. induction n as [|n IH]; intros m chunk s Hn Hm; [lia|]. destruct m as [|m]; [lia|].
  cbn [match_chunk]. destruct chunk as [|c rest]; [done|]. set (s' := match s with Some [] => None | _ => s end).
  cbn [length] in *. destruct (bool_decide (c = x5b)).
  - destruct (match s' with Some s0 => _ | None => _ end) as [r s2].
    destruct (match rest with [] => _ | _ => _ end) as [neg rest'] eqn:E.
    assert (length rest' ≤ length rest).
    { destruct rest as [|d rest]; [by injection E as <- <-|]. destruct (bool_decide (d = x5e)); injection E as <- <-; cbn; lia. }
    destruct (class_ranges _ r rest' false 0) as [[b rest2]|] eqn:Ec; [|done]. cbn [mbind option_bind].
    apply class_ranges_shrinks in Ec. apply IH; lia.
  - destruct (bool_decide (c = x3f)); [apply IH; lia|].
    destruct (bool_decide (c = x5c)); [|apply IH; lia]. destruct rest as [|d rest]; [done|]. cbn [length] in *. apply IH; lia.
Qed.

Lemma drop_stars_length p : length (drop_stars p) ≤ length p.
Proof. induction p as [|c p IH]; cbn; [done|]. case_bool_decide; cbn; lia. Qed.

Lemma drop_stars_head p c q : drop_stars p = c :: q → c ≠ x2a.
Proof. induction p as [|d p IH]; cbn; [done|]. case_bool_decide; [done|]. by intros [= -> ->]. Qed.

Lemma scanChunk_shrinks (p : bytes) star chunk rest :
  scanChunk p = (star, chunk, rest) → p ≠ [] → length rest < length p.
Proof.
  unfold scanChunk. intros [= <- <- <-] Hp. rewrite length_drop. pose proof (drop_stars_length p).
  destruct (drop_stars p) as [|c q] eqn:E; [destruct p; cbn in *; [done|lia]|].
  apply drop_stars_head in E. cbn [chunk_end]. rewrite (bool_decide_eq_false_2 (c = x2a)) by done. cbn [andb length] in *.
  destruct (bool_decide (c = x5c)); [destruct q|]; lia.
Qed.

Lemma pattern_valid_fuel n m p : length p < n → length p < m → pattern_valid n p = pattern_valid m p.
Proof.
  revert m p. induction n as [|n IH]; intros m p Hn Hm; [lia|]. destruct m as [|m]; [lia|]. cbn [pattern_valid].
  case_bool_decide as Hp; [done|]. destruct (scanChunk p) as [[star chunk] rest] eqn:E.
  apply scanChunk_shrinks in E; [|done]. destruct (matchChunk chunk []); [|done]. apply IH; lia.
Qed.

(** [filepath.Match] as modelled never runs out of fuel: each chunk takes at least one byte
    off the pattern, so any fuel past its length gives the same answer, a match, a mismatch or
    the error of a malformed pattern. *)
Theorem Match_fuel n pattern name : length pattern < n → match_loop n pattern name = Match pattern name.
Proof.
  unfold Match. generalize (Nat.lt_succ_diag_r (length pattern)). generalize (S (length pattern)) as m.
  revert pattern name. induction n as [|n IH]; intros p name m Hm Hn; [lia|]. destruct m as [|m]; [lia|].
  cbn [match_loop]. case_bool_decide as Hp; [done|]. destruct (scanChunk p) as [[star chunk] rest] eqn:E.
  apply scanChunk_shrinks in E; [|done]. destruct (_ && _); [done|].
  assert (∀ t, match_loop n rest t = match_loop m rest t) as IH' by (intros; apply IH; lia).
  rewrite (pattern_valid_fuel n m rest) by lia.
  destruct (matchChunk chunk name) as [t|]; [|done]. cbn [mbind option_bind].
  destruct t as [t|].
  - destruct (_ || _); [done|]. destruct star; [|done].
    destruct (star_match _ _ _) as [[u|]|]; cbn [mbind option_bind]; done.
  - destruct star; [|done]. destruct (star_match _ _ _) as [[u|]|]; cbn [mbind option_bind]; done.
Qed.

Lemma Match_fuel_witness :
  length (bs "*.go") < 9 ∧ match_loop 9 (bs "*.go") (bs "a.go") = Some true.
Proof.
  split; [vm_compute; lia|]. rewrite (Match_fuel 9 (bs "*.go") (bs "a.go")) by (vm_compute; lia).
  vm_compute. reflexivity.
Defined.

(** ** Hidden paths *)

Lemma hidden_loop_spec (n : nat) (rel : bytes) :
  length rel < n →
  hidden_loop n rel = true ↔ ∃ part, part ∈ split_byte slash rel ∧ head part = Some x2e.
Proof.
  revert rel. induction n as [|n IH]; intros rel Hn; [lia|]. cbn [hidden_loop].
  destruct rel as [|c rel]; [split; [done|]; intros (p & ->%list_elem_of_singleton & ?); done|].
  destruct (index_byte (c :: rel) slash) as [i|] eqn:Ei.
  - destruct (index_byte_split _ _ _ Ei) as (Heq & Hnot). rewrite Nat.add_1_r in Heq. set (a := take i (c :: rel)) in *.
    assert (split_byte slash (c :: rel) = a :: split_byte slash (drop (S i) (c :: rel))) as ->
      by (rewrite Heq at 1; by apply split_byte_app).
    setoid_rewrite elem_of_cons. case_bool_decide as Hc.
    + split; [|done]. intros _. exists a. split; [by left|]. subst c. destruct i as [|i]; [|done].
      apply index_byte_Some in Ei as [[=] _].
    + rewrite IH by (rewrite length_drop; cbn [length] in *; lia).
            split; [intros (p & ? & ?); eauto|]. intros (p & [->|Hp] & Hh); [|eauto].
      exfalso. apply Hc. unfold a in Hh. destruct i; [done|]. by injection Hh.
  - rewrite split_byte_notin by by apply index_byte_None. setoid_rewrite list_elem_of_singleton.
    case_bool_decide as Hc; [subst c; split; eauto|]. split; [done|]. intros (p & -> & [= ?]). done.
Qed.

(** A path is hidden exactly when one of its parts between slashes starts with a dot. *)
Theorem hiddenPath_spec rel :
  hiddenPath rel = true ↔ ∃ part, part ∈ split_byte slash rel ∧ head part = Some x2e.
Proof. apply hidden_loop_spec. lia. Qed.

(** ** Extensions *)

(** A string without the special bytes of patterns. *)
Definition plain_glob (lit : bytes) : Prop :=
  Forall (λ c, c ≠ x2a ∧ c ≠ x3f ∧ c ≠ x5b ∧ c ≠ x5c) lit.

Lemma match_chunk_failed n lit : plain_glob lit → length lit < n → match_chunk n lit None = Some None.
Proof.
  intros Hp. revert n. induction Hp as [|c lit (Hs & Hq & Hb & He) Hp IH]; intros [|n] Hn; cbn [length] in Hn; try lia; [done|].
  cbn [match_chunk]. rewrite !(bool_decide_eq_false_2 (c = _)) by done. apply IH. lia.
Qed.

Lemma match_chunk_plain n lit s :
  plain_glob lit → length lit < n →
  match_chunk n lit (Some s) = Some (if has_prefix s lit then Some (drop (length lit) s) else None).
Proof.
  intros Hp. revert n s. induction Hp as [|c lit (Hs & Hq & Hb & He) Hp IH]; intros [|n] s Hn;
    cbn [length] in Hn; try lia; [done|].
  cbn [match_chunk]. rewrite !(bool_decide_eq_false_2 (c = _)) by done. destruct s as [|x s].
  - apply match_chunk_failed; [done|lia].
  - cbn [has_prefix]. destruct (decide (c = x)) as [->|Hne].
    + rewrite !bool_decide_eq_true_2 by done. cbn [andb]. apply IH. lia.
    + rewrite !bool_decide_eq_false_2 by congruence. apply match_chunk_failed; [done|lia].
Qed.

Lemma chunk_end_plain lit : plain_glob lit → chunk_end false lit = length lit.
Proof.
  induction 1 as [|c lit (Hs & Hq & Hb & He) Hp IH]; [done|]. cbn [chunk_end length].
  rewrite !(bool_decide_eq_false_2 (c = _)) by done. cbn [andb]. rewrite ?(bool_decide_eq_false_2 (c = x2a)) by done.
  cbn [andb]. f_equal. destruct (bool_decide (c = x5d)); exact IH.
Qed.

Lemma scan_star_plain lit : plain_glob lit → scanChunk (x2a :: lit) = (true, lit, []).
Proof.
  intros Hp. unfold scanChunk. change (drop_stars (x2a :: lit)) with (drop_stars lit).
  assert (drop_stars lit = lit) as Hd.
  { destruct Hp as [|c lit (Hs & _)]; [done|]. cbn. by rewrite bool_decide_eq_false_2. }
  rewrite Hd, chunk_end_plain by done.
  rewrite firstn_all, drop_all, bool_decide_eq_false_2 by (cbn; lia). done.
Qed.

(** The search past the star finds the literal at the end of the name, unless a slash comes first. *)
Lemma star_match_plain lit name :
  plain_glob lit →
  ∃ r, star_match lit true name = Some r ∧
    (r = Some [] ∧ (∃ pre, name = pre ++ lit ∧ pre ≠ [] ∧ slash ∉ pre) ∨
     r = None ∧ ∀ pre, name = pre ++ lit → pre ≠ [] → slash ∈ pre).
Proof.
  intros Hp. induction name as [|x name IH]; cbn [star_match].
  { exists None. split; [done|]. right. split; [done|]. by intros [|? ?]. }
  case_bool_decide as Hx.
  { subst x. exists None. split; [done|]. right. split; [done|]. intros [|y pre] [=] ?; [done|]. subst. by left. }
  unfold matchChunk at 1. rewrite match_chunk_plain by (done || lia). cbn [mbind option_bind].
  assert (∀ pre, x :: name = pre ++ lit → pre ≠ [] → ∃ pre', pre = x :: pre' ∧ name = pre' ++ lit) as Hcons.
  { intros [|y pre] [=]; [done|]. subst. eauto. }
  assert (∃ r, star_match lit true name = Some r ∧
    (name ≠ lit → (r = Some [] ∧ (∃ pre, x :: name = pre ++ lit ∧ pre ≠ [] ∧ slash ∉ pre) ∨
     r = None ∧ ∀ pre, x :: name = pre ++ lit → pre ≠ [] → slash ∈ pre))) as (r & Hr & Hspec).
  { destruct IH as (r & Hr & IH). exists r. split; [done|]. intros Hnl.
    destruct IH as [(-> & pre & -> & Hne & Hs)|(-> & Hs)].
    - left. split; [done|]. exists (x :: pre). split_and!; [done..|]. apply not_elem_of_cons. split; [congruence|done].
    - right. split; [done|]. intros pre H1 H2. destruct (Hcons pre H1 H2) as (pre' & -> & ->).
      right. apply Hs; [done|]. by intros ->. }
  destruct (has_prefix name lit) eqn:Hpre.
  - apply has_prefix_spec in Hpre as [t ->]. rewrite drop_app_length. case_bool_decide as Ht; cbn [negb andb].
    + subst t. rewrite app_nil_r in *. eexists. split; [done|]. left. split; [done|].
      exists [x]. split_and!; [done..|]. apply not_elem_of_cons. split; [congruence|apply not_elem_of_nil].
    + exists r. split; [done|]. apply Hspec. intros Heq. apply Ht.
      apply (f_equal length) in Heq. rewrite length_app in Heq. destruct t; [done|cbn in Heq; lia].
  - exists r. split; [done|]. apply Hspec. intros ->.
    rewrite (proj2 (has_prefix_spec lit lit)) in Hpre; done.
Qed.

Lemma Match_star_plain lit name :
  plain_glob lit → lit ≠ [] →
  ∃ b, Match (x2a :: lit) name = Some b ∧ (b = true ↔ ∃ pre, name = pre ++ lit ∧ slash ∉ pre).
Proof.
  intros Hp Hne. unfold Match. cbn [match_loop length]. rewrite bool_decide_eq_false_2 by done.
  rewrite scan_star_plain by done. rewrite (bool_decide_eq_false_2 (lit = [])) by done. cbn [andb].
  unfold matchChunk. rewrite match_chunk_plain by (done || lia). cbn [mbind option_bind].
  rewrite !(bool_decide_eq_true_2 ([] = [])) by done. cbn [negb].
  assert (∀ n, pattern_valid (S n) [] = true) as -> by done.
  destruct (star_match_plain lit name Hp) as (r & -> & Hr). cbn [mbind option_bind].
  assert ((name ≠ lit) → ∃ b, match r with Some u => match_loop (S (length lit)) [] u | None => Some false end = Some b ∧
    (b = true ↔ ∃ pre, name = pre ++ lit ∧ slash ∉ pre)) as Hstar.
  { intros Hnl. destruct Hr as [(-> & pre & Hpre & _ & Hs)|(-> & Hs)].
    - exists true. split; [done|]. split; [|done]. intros _. by exists pre.
    - exists false. split; [done|]. split; [done|]. intros (pre & Heq & Hpre). exfalso. apply Hpre, Hs; [done|].
      by intros ->. }
  destruct (has_prefix name lit) eqn:Hpre.
  - apply has_prefix_spec in Hpre as [t ->]. rewrite drop_app_length, orb_false_r. case_bool_decide as Ht.
    + subst t. exists true. split; [done|]. split; [|done]. intros _.
      exists []. rewrite app_nil_r. split; [done|apply not_elem_of_nil].
    + apply Hstar. intros Heq. apply Ht. apply (f_equal length) in Heq. rewrite length_app in Heq.
      destruct t; [done|cbn in Heq; lia].
  - apply Hstar. intros ->. rewrite (proj2 (has_prefix_spec lit lit)) in Hpre; done.
Qed.

Lemma path_base_split p : (p = path_base p ∨ ∃ d, p = d ++ slash :: path_base p) ∧ slash ∉ path_base p.
Proof.
  unfold path_base. destruct (last_index_byte p slash) as [i|] eqn:E; [|split; [by left|by apply last_index_byte_None]].
  apply last_index_byte_Some in E as [Hi Hlast]. split.
  - right. exists (take i p). by rewrite take_drop_middle.
  - intros (j & Hj)%list_elem_of_lookup. rewrite lookup_drop in Hj. by apply (Hlast (S i + j)); [lia|].
Qed.

(** A star followed by a plain extension selects, at any depth, exactly the paths that end with
    the extension. *)
Theorem glob_extension (lit p : bytes) :
  plain_glob lit → lit ≠ [] → slash ∉ lit →
  ∃ f, globMatcher [x2a :: lit] = Some (Some f) ∧ (f p = true ↔ has_suffix p lit = true).
Proof.
  intros Hp Hne Hs. unfold globMatcher. rewrite bool_decide_eq_false_2 by done.
  assert (glob_valid (x2a :: lit) = true) as Hv.
  { apply bool_decide_eq_true. destruct (Match_star_plain lit (bs "x") Hp Hne) as (b & -> & _). by eexists. }
  cbn [forallb]. rewrite Hv. cbn [andb negb]. eexists. split; [done|]. cbn [existsb]. rewrite orb_false_r, orb_true_iff.
  assert (∀ q, glob_ok (x2a :: lit) q = true ↔ ∃ pre, q = pre ++ lit ∧ slash ∉ pre) as Hok.
  { intros q. unfold glob_ok. by destruct (Match_star_plain lit q Hp Hne) as (b & -> & Hb). }
  rewrite !Hok, has_suffix_spec. split.
  - intros [(pre & -> & _)|(pre & Hb & _)]; [by exists pre|].
    destruct (path_base_split p) as [[Hpb|[d Hpb]] _]; rewrite Hpb, Hb; [by exists pre|].
    exists (d ++ slash :: pre). by rewrite <-app_assoc.
  - intros [pre Hpre]. right. destruct (path_base_split p) as [[Hpb|[d Hpb]] Hns].
    + exists pre. split; [congruence|]. intros Hin. apply Hns. rewrite <-Hpb, Hpre. apply elem_of_app. by left.
    + assert (∃ pre', path_base p = pre' ++ lit) as [pre' Hpre'].
      { rewrite Hpre in Hpb at 1. apply app_eq_inv in Hpb as [(k & Hd & Hk)|(k & Hd & Hk)].
        - destruct k as [|y k]; [cbn in Hk; rewrite <-Hk in Hs; exfalso; apply Hs; by left|].
          injection Hk as _ Hk. by exists k.
        - rewrite Hk in Hs. exfalso. apply Hs, elem_of_app. right. by left. }
      exists pre'. split; [done|]. intros Hin. apply Hns. rewrite Hpre'. apply elem_of_app. by left.
Qed.

Lemma glob_extension_witness :
  plain_glob (bs ".go") ∧
  ∃ f, globMatcher [bs "*.go"] = Some (Some f) ∧ f (bs "cmd/x.go") = true.
Proof.
  assert (plain_glob (bs ".go")) as Hp by (repeat constructor; discriminate).
  split; [exact Hp|].
  destruct (glob_extension (bs ".go") (bs "cmd/x.go") Hp) as (f & Hf & Hx).
  - discriminate.
  - apply (bool_decide_unpack _). vm_compute. exact I.
  - exists f. split; [exact Hf|]. apply Hx. vm_compute. reflexivity.
Defined.
