(* ===== verification/Regexp.v ===== *)
(** * Required literals of a pattern: internal/index/query.go

    The syntax tree of Go's [regexp/syntax] (the fields the source reads), the
    texts a tree can match, and [requiredLiteral], [ExtractLiteral] and
    [PlainLiteral] (internal/index/literal.go) over it.  [requiredLiteral_sound]
    states that the literal used to prune the index occurs in every match. *)

From S2P Require Import Prelude GoBytes Trigram Text.

(** ** Syntax: [syntax.Regexp] *)

Inductive Op :=
  | OpNoMatch | OpEmptyMatch | OpLiteral | OpCharClass | OpAnyCharNotNL | OpAnyChar
  | OpBeginLine | OpEndLine | OpBeginText | OpEndText | OpWordBoundary | OpNoWordBoundary
  | OpCapture | OpStar | OpPlus | OpQuest | OpRepeat | OpConcat | OpAlternate.

#[export] Instance op_eq_dec : EqDecision Op.
Proof. solve_decision. Defined.

(** Operator, [Flags&FoldCase], [Rune] and [Sub]. *)
Inductive Regexp := Rx (op : Op) (FoldCase : bool) (Rune : list Z) (Sub : list Regexp).

(** ** [requiredLiteral] *)

(** A literal [sub] that [OpConcat] joins to the current run. *)
Definition plain_literal (re : Regexp) : option (list Z) :=
  match re with
  | Rx OpLiteral false rs _ => Some rs
  | _ => None
  end.

(** The [flush] closure: the longer of [best] and [run]. *)
Definition flush (best run : bytes) : bytes :=
  if length best <? length run then run else best.

(** The loop of the [OpConcat] case over the operands, [rec] being the recursive call. *)
Definition concat_loop (rec : Regexp → option bytes) :=
  fix go (subs : list Regexp) (best run : bytes) : option bytes :=
    match subs with
    | [] => Some (flush best run)
    | s :: subs' =>
        match plain_literal s with
        | Some rs => go subs' best (run ++ string_of_runes rs)
        | None =>
            let best := flush best run in
            s' ← rec s;
            go subs' (if length best <? length s' then s' else best) []
        end
    end.

(** The longest literal that must appear in every match.  [None] is the panic
    of [re.Sub[0]] on a capture or a repetition without an operand. *)
Fixpoint requiredLiteral `{UnicodeCase} (re : Regexp) : option bytes :=
  match re with
  | Rx op fold rs sub =>
      match op with
      | OpLiteral => Some (if fold then ToLower (string_of_runes rs) else string_of_runes rs)
      | OpCapture | OpPlus =>
          match sub with
          | r :: _ => requiredLiteral r
          | [] => None
          end
      | OpConcat => concat_loop requiredLiteral sub [] []
      | _ => Some []
      end
  end.

(** ** The parser and the engine

    Go's [regexp] and [regexp/syntax] are libraries the source only calls. *)
Class RegexpEngine := {
  Regex : Type;
  regexp_Compile : bytes → option Regex;
  re_FindIndex : Regex → bytes → option (nat * nat);
  re_FindAllIndex : Regex → bytes → list (nat * nat);
  syntax_Parse : bytes → option Regexp;
  syntax_Simplify : Regexp → Regexp;
}.

(** [ExtractLiteral] *)
Definition ExtractLiteral `{UnicodeCase} `{RegexpEngine} (pattern : bytes) (fixed : bool)
  : option bytes :=
  let finish lit := if length lit <? 3 then [] else ToLower lit in
  if fixed then Some (finish pattern)
  else match syntax_Parse pattern with
       | None => Some []
       | Some re => finish <$> requiredLiteral (syntax_Simplify re)
       end.

(** [PlainLiteral]: [None] is [("", false)]. *)
Definition PlainLiteral `{RegexpEngine} (pattern : bytes) (fixed : bool) : option bytes :=
  if fixed then Some pattern
  else re ← syntax_Parse pattern;
       match syntax_Simplify re with
       | Rx OpLiteral false rs _ => Some (string_of_runes rs)
       | _ => None
       end.

(** ** What a tree matches

    Texts matched by a tree, an over-approximation of the engine's matches:
    assertions constrain the neighbourhood only and match the empty text.
    Texts are bytes; one rune is consumed as [utf8.DecodeRune] reads it. *)

(** The runes equal to [r] under simple case folding ([unicode.SimpleFold]). *)
Class FoldOrbits := {
  fold_orbit : Z → Z → Prop;
  fold_orbit_ascii r r' :
    (0 ≤ r < 128)%Z → r ∉ [75; 83; 107; 115]%Z → fold_orbit r r' →
    (0 ≤ r' < 128)%Z ∧ lower (z2b r') = lower (z2b r);
}.

Definition rune_text (r : Z) (t : bytes) : Prop :=
  t ≠ [] ∧ DecodeRune t = (r, length t).

Section Matches.
Context `{FoldOrbits}.

Definition rune_eq (fold : bool) (r r' : Z) : Prop :=
  if fold then fold_orbit r r' else r' = r.

Definition literal_text (fold : bool) (rs : list Z) (t : bytes) : Prop :=
  ∃ ts, Forall2 (λ r u, ∃ r', rune_eq fold r r' ∧ rune_text r' u) rs ts ∧ t = concat ts.

Fixpoint in_class (rs : list Z) (r : Z) : Prop :=
  match rs with
  | lo :: hi :: rs' => (lo ≤ r ≤ hi)%Z ∨ in_class rs' r
  | _ => False
  end.

Definition cat_texts (rec : Regexp → bytes → Prop) :=
  fix cat (subs : list Regexp) (t : bytes) : Prop :=
    match subs with
    | [] => t = []
    | s :: subs' => ∃ t1 t2, rec s t1 ∧ cat subs' t2 ∧ t = t1 ++ t2
    end.

Fixpoint matches (re : Regexp) (t : bytes) : Prop :=
  match re with
  | Rx op fold rs sub =>
      match op with
      | OpNoMatch => False
      | OpLiteral => literal_text fold rs t
      | OpCharClass => ∃ r, in_class rs r ∧ rune_text r t
      | OpAnyCharNotNL => ∃ r, r ≠ 10%Z ∧ rune_text r t
      | OpAnyChar => ∃ r, rune_text r t
      | OpCapture => match sub with [r] => matches r t | _ => False end
      | OpPlus =>
          match sub with
          | [r] => ∃ t1 ts, matches r t1 ∧ Forall (matches r) ts ∧ t = t1 ++ concat ts
          | _ => False
          end
      | OpStar | OpRepeat =>
          match sub with
          | [r] => ∃ ts, Forall (matches r) ts ∧ t = concat ts
          | _ => False
          end
      | OpQuest => match sub with [r] => t = [] ∨ matches r t | _ => False end
      | OpAlternate =>
          (fix alt subs := match subs with
                           | [] => False
                           | s :: subs' => matches s t ∨ alt subs'
                           end) sub
      | OpConcat =>
          cat_texts matches sub t
      | _ => t = []
      end
  end.
End Matches.

(** ** Well-formed trees and safe literals *)

Definition safe_rune (fold : bool) (r : Z) : bool :=
  if fold then bool_decide (0 ≤ r < 128 ∧ r ∉ [75; 83; 107; 115])%Z
  else valid_rune r && negb (r =? RuneError)%Z.

(** Captures and repetitions have one operand (as the parser builds them), and
    the literals are runes whose index folding is exact: scalar values other
    than U+FFFD, and under [(?i)] ASCII runes other than K and S, which also
    fold to U+212A and U+017F. *)
Fixpoint safe_re (re : Regexp) : bool :=
  match re with
  | Rx op fold rs sub =>
      match op with
      | OpLiteral => forallb (safe_rune fold) rs
      | OpCapture | OpPlus => match sub with [r] => safe_re r | _ => false end
      | OpConcat => forallb safe_re sub
      | _ => true
      end
  end.

(** ** Soundness *)

Lemma rune_text_encode r t :
  valid_rune r = true → r ≠ RuneError → rune_text r t → t = EncodeRune r.
Proof.
  intros Hv Hne [Ht Hd]. unfold EncodeRune. rewrite Hv. simpl negb. cbv iota.
  destruct t as [|a t]; [done|]. clear Ht. pose proof (b2z_range a) as Ha.
  unfold DecodeRune in Hd. cbv zeta in Hd.
  destruct (Z.ltb_spec (b2z a) 128).
  { simplify_eq/=. destruct t; [|done]. rewrite (proj2 (Z.ltb_lt _ _)) by lia.
    by rewrite z2b_b2z. }
  destruct (Z.ltb_spec (b2z a) 194); [by simplify_eq|].
  destruct (Z.ltb_spec (b2z a) 224).
  { destruct t as [|b t]; [by simplify_eq|].
    destruct (is_cont 128 191 b) eqn:Hb; [|by simplify_eq].
    apply bool_decide_eq_true in Hb. simplify_eq/=. destruct t; [|done].
    rewrite (proj2 (Z.ltb_ge _ _)), (proj2 (Z.ltb_lt _ _)) by lia.
    repeat f_equal; apply b2z_inj; unfold cont; rewrite b2z_z2b; lia. }
  destruct (Z.ltb_spec (b2z a) 240).
  { destruct t as [|b [|c t]]; [by simplify_eq..|].
    match goal with H : context [if ?x then _ else _] |- _ => destruct x eqn:Hb in H end;
      [|by simplify_eq].
    apply andb_true_iff in Hb as [Hb%bool_decide_eq_true Hc%bool_decide_eq_true].
    assert (Hr : (2048 ≤ (b2z a - 224) * 4096 + b2z b mod 64 * 64 + b2z c mod 64 < 65536)%Z).
    { destruct (Z.eqb_spec (b2z a) 224), (Z.eqb_spec (b2z a) 237); lia. }
    assert (Hb' : (128 ≤ b2z b ≤ 191)%Z).
    { destruct (Z.eqb_spec (b2z a) 224), (Z.eqb_spec (b2z a) 237); lia. }
    simplify_eq/=. destruct t; [|done].
    rewrite !(proj2 (Z.ltb_ge _ _)), (proj2 (Z.ltb_lt _ _)) by lia.
    repeat f_equal; apply b2z_inj; unfold cont; rewrite b2z_z2b; lia. }
  destruct (Z.ltb_spec (b2z a) 245); [|by simplify_eq].
  destruct t as [|b [|c [|d t]]]; [by simplify_eq..|].
  match goal with H : context [if ?x then _ else _] |- _ => destruct x eqn:Hb in H end;
    [|by simplify_eq].
  rewrite !andb_true_iff in Hb.
  destruct Hb as [[Hb%bool_decide_eq_true Hc%bool_decide_eq_true] Hd'%bool_decide_eq_true].
  assert (Hb' : (128 ≤ b2z b ≤ 191)%Z ∧ (b2z a = 240 → 144 ≤ b2z b)%Z).
  { destruct (Z.eqb_spec (b2z a) 240), (Z.eqb_spec (b2z a) 244); lia. }
  simplify_eq/=. destruct t; [|done].
  rewrite !(proj2 (Z.ltb_ge _ _)) by lia.
  repeat f_equal; apply b2z_inj; unfold cont; rewrite b2z_z2b; lia.
Qed.

Lemma fold_contains_nil s : fold_contains s [].
Proof. by exists [], [], s. Qed.

Lemma fold_contains_refl s : fold_contains s s.
Proof. exists [], s, []. by rewrite app_nil_r. Qed.

Lemma fold_contains_mono a s b lit : fold_contains s lit → fold_contains (a ++ s ++ b) lit.
Proof.
  intros (pre & mid & post & -> & Hm). exists (a ++ pre), mid, (post ++ b).
  split; [|done]. by rewrite <-!app_assoc.
Qed.

Lemma fold_contains_l a s lit : fold_contains s lit → fold_contains (a ++ s) lit.
Proof. intros H. rewrite <-(app_nil_r s). by apply fold_contains_mono. Qed.

Lemma fold_contains_r s b lit : fold_contains s lit → fold_contains (s ++ b) lit.
Proof. by apply (fold_contains_mono []). Qed.

#[export] Hint Resolve fold_contains_nil fold_contains_refl fold_contains_l
  fold_contains_r : gcgrep.

Section Sound.
Context `{UnicodeCase} `{FoldOrbits}.

Lemma rune_text_safe fold r r' u :
  safe_rune fold r = true → rune_eq fold r r' → rune_text r' u →
  if fold then map lower u = map lower (EncodeRune r) else u = EncodeRune r.
Proof.
  unfold safe_rune, rune_eq. destruct fold.
  - intros Hs%bool_decide_eq_true Ho Hu. destruct Hs as [Hr Hn].
    destruct (fold_orbit_ascii r r' Hr Hn Ho) as [Hr' Hl].
    apply rune_text_encode in Hu as ->.
    + rewrite !EncodeRune_ascii by lia. simpl. by rewrite Hl.
    + unfold valid_rune, is_surrogate.
      rewrite bool_decide_eq_true_2, bool_decide_eq_false_2 by lia. done.
    + unfold RuneError. lia.
  - intros [Hv Hn%negb_true_iff%Z.eqb_neq]%andb_true_iff -> Hu.
    by apply rune_text_encode.
Qed.

Lemma literal_text_safe fold rs t :
  forallb (safe_rune fold) rs = true → literal_text fold rs t →
  if fold then map lower t = map lower (string_of_runes rs) else t = string_of_runes rs.
Proof.
  intros Hs (ts & Hts & ->). unfold string_of_runes.
  induction Hts as [|r u rs ts (r' & He & Hu) Hts IH]; simpl in *; [by destruct fold|].
  apply andb_true_iff in Hs as [Hr Hs]. specialize (IH Hs).
  pose proof (rune_text_safe _ _ _ _ Hr He Hu) as Hru.
  destruct fold; rewrite ?map_app; congruence.
Qed.

Lemma safe_runes_ascii rs :
  forallb (safe_rune true) rs = true → ascii (string_of_runes rs).
Proof.
  unfold ascii, string_of_runes.
  induction rs as [|r rs IH]; simpl; [constructor|].
  intros [Hr%bool_decide_eq_true Hs]%andb_true_iff. destruct Hr as [Hr _].
  rewrite EncodeRune_ascii by lia. simpl. constructor; [|by apply IH].
  unfold is_ascii. rewrite b2z_z2b. lia.
Qed.

Lemma map_lower_idemp s : map lower (map lower s) = map lower s.
Proof. rewrite map_map. apply map_ext. intros; apply lower_idemp. Qed.

Lemma literal_required fold rs sub t :
  safe_re (Rx OpLiteral fold rs sub) = true →
  matches (Rx OpLiteral fold rs sub) t →
  fold_contains t (if fold then ToLower (string_of_runes rs) else string_of_runes rs).
Proof.
  simpl. intros Hs Ht. pose proof (literal_text_safe _ _ _ Hs Ht) as Hl.
  destruct fold; [|by subst; apply fold_contains_refl].
  exists [], t, []. split; [by rewrite app_nil_r|].
  rewrite ToLower_ascii by (by apply safe_runes_ascii). by rewrite map_lower_idemp.
Qed.

(** The literal of a subtree occurs in every text of the subtree. *)
Definition sound_at (re : Regexp) : Prop :=
  safe_re re = true →
  ∃ lit, requiredLiteral re = Some lit ∧ ∀ t, matches re t → fold_contains t lit.

Lemma flush_contains s best p run :
  fold_contains s best → s = p ++ run → fold_contains s (flush best run).
Proof. intros Hb ->. unfold flush. case_match; eauto with gcgrep. Qed.

Lemma plain_literal_text s rs t :
  plain_literal s = Some rs → safe_re s = true → matches s t → t = string_of_runes rs.
Proof.
  destruct s as [op fold rs' sub]. destruct op, fold; simpl; try done.
  intros [= ->] Hs Ht. by apply (literal_text_safe false).
Qed.

(** [best] occurs in the text read so far and [run] ends it. *)
Lemma concat_loop_sound subs best run :
  Forall sound_at subs → forallb safe_re subs = true →
  ∃ lit, concat_loop requiredLiteral subs best run = Some lit ∧
    ∀ p t, fold_contains (p ++ run) best → cat_texts matches subs t →
      fold_contains ((p ++ run) ++ t) lit.
Proof.
  intros Hsub. revert best run.
  induction Hsub as [|s subs Hsnd Hsub IH]; intros best run Hs; simpl in *.
  - eexists. split; [done|]. intros p t Hb ->. rewrite app_nil_r.
    by eapply flush_contains.
  - apply andb_true_iff in Hs as [Hs Hss].
    destruct (plain_literal s) as [rs|] eqn:Hp.
    + destruct (IH best (run ++ string_of_runes rs) Hss) as (lit & -> & Hlit).
      eexists. split; [done|]. intros p t Hb (t1 & t2 & Ht1 & Ht2 & ->).
      rewrite (plain_literal_text _ _ _ Hp Hs Ht1).
      specialize (Hlit p t2). rewrite !app_assoc in *. apply Hlit; [|done].
      by apply fold_contains_r.
    + destruct (Hsnd Hs) as (l & -> & Hl). simpl.
      destruct (IH (if length (flush best run) <? length l then l else flush best run) [] Hss)
        as (lit & -> & Hlit).
      eexists. split; [done|]. intros p t Hb (t1 & t2 & Ht1 & Ht2 & ->).
      specialize (Hlit ((p ++ run) ++ t1) t2). rewrite app_nil_r in Hlit.
      rewrite app_assoc. apply Hlit; [|done].
      case_match; [by apply fold_contains_l, Hl|].
      apply fold_contains_r. by eapply flush_contains.
Qed.

Fixpoint Regexp_nested_ind (P : Regexp → Prop)
    (IH : ∀ op fold rs sub, Forall P sub → P (Rx op fold rs sub)) (re : Regexp) : P re :=
  match re with
  | Rx op fold rs sub =>
      IH op fold rs sub
        ((fix all l : Forall P l :=
            match l with
            | [] => Forall_nil_2 P
            | r :: l' => Forall_cons_2 P r l' (Regexp_nested_ind P IH r) (all l')
            end) sub)
  end.

Lemma requiredLiteral_sound_at re : sound_at re.
Proof.
  induction re as [op fold rs sub IH] using Regexp_nested_ind. intros Hs.
  destruct op; try (simpl; eexists; split; [done|]; intros; apply fold_contains_nil).
  - (* OpLiteral *)
    eexists. split; [done|]. intros t. by apply literal_required.
  - (* OpCapture *)
    simpl in Hs. destruct sub as [|r [|]]; try done.
    inversion IH as [|? ? Hr _]; subst. destruct (Hr Hs) as (lit & Hl & Hm).
    exists lit. by split.
  - (* OpPlus *)
    simpl in Hs. destruct sub as [|r [|]]; try done.
    inversion IH as [|? ? Hr _]; subst. destruct (Hr Hs) as (lit & Hl & Hm).
    exists lit. split; [done|]. intros t (t1 & ts & Ht1 & _ & ->).
    by apply fold_contains_r, Hm.
  - (* OpConcat *)
    destruct (concat_loop_sound sub [] [] IH Hs) as (lit & Hl & Hm).
    exists lit. split; [done|]. intros t Ht.
    apply (Hm [] t); [apply fold_contains_nil|done].
Qed.
End Sound.

(** ** Concrete tables for the witnesses

    The lower case of ASCII and Latin-1, the orbits of ASCII letters with the two
    non-ASCII members of the orbits of K and S, and an engine that knows one
    regular expression. *)
Definition latin1_lower (r : Z) : Z :=
  if bool_decide (65 ≤ r ∧ r ≤ 90 ∨ 192 ≤ r ∧ r ≤ 222 ∧ r ≠ 215)%Z then (r + 32)%Z else r.

Definition latin1_case : UnicodeCase.
Proof.
  refine {| unicode_lower := latin1_lower |}.
  intros r Hr. unfold latin1_lower. repeat case_bool_decide; lia.
Defined.

Definition ascii_orbit (r r' : Z) : Prop :=
  ((0 ≤ r' < 128) ∧ lower (z2b r') = lower (z2b r))%Z ∨
  (r ∈ [75; 107] ∧ r' = 8490)%Z ∨ (r ∈ [83; 115] ∧ r' = 383)%Z.

Definition ascii_orbits : FoldOrbits.
Proof.
  refine {| fold_orbit := ascii_orbit |}.
  intros r r' Hr Hn [[? ?]|[[Hk _]|[Hk _]]]; [done|set_solver..].
Defined.

(** [.+Hello]: a repetition and a literal. *)
Definition hello_re : Regexp :=
  Rx OpConcat false [] [Rx OpPlus false [] [Rx OpAnyChar false [] []];
                        Rx OpLiteral false (map b2z (bs "Hello")) []].

Definition one_engine (re : Regexp) : RegexpEngine :=
  {| Regex := unit; regexp_Compile _ := Some tt; re_FindIndex _ _ := None;
     re_FindAllIndex _ _ := []; syntax_Parse _ := Some re; syntax_Simplify re := re |}.

Lemma hello_matches : @matches ascii_orbits hello_re (bs "  Hello").
Proof.
  exists (bs "  "), (bs "Hello"). split_and!; [|exists (bs "Hello"), []; split_and!|done]; [..|done|done].
  - exists (bs " "), [bs " "]. split_and!; [exists 32%Z; by split| |done].
    constructor; [|constructor]. exists 32%Z. by split.
  - exists (map (λ b, [b]) (bs "Hello")). split; [|done].
    repeat (constructor; [eexists; split; [reflexivity|by split]|]). constructor.
Qed.

(** ** Properties *)

(** C19. On a well-formed tree with safe literals [requiredLiteral] does not panic, and the
    literal it returns occurs, up to ASCII case, in every text the tree matches. *)
Theorem requiredLiteral_sound `{UnicodeCase} `{FoldOrbits} re :
  safe_re re = true →
  ∃ lit, requiredLiteral re = Some lit ∧ ∀ t, matches re t → fold_contains t lit.
Proof. apply requiredLiteral_sound_at. Qed.

(** Pruning by [ExtractLiteral] never loses a match: when the lowering of the
    required literal is the ASCII folding the index uses, every trigram looked
    up is a trigram of every content with a match. *)
Theorem ExtractLiteral_prunes_safely `{UnicodeCase} `{FoldOrbits} `{RegexpEngine}
    pattern re lit content pre t post :
  syntax_Parse pattern = Some re →
  safe_re (syntax_Simplify re) = true →
  requiredLiteral (syntax_Simplify re) = Some lit →
  ToLower lit = map lower lit →
  content = pre ++ t ++ post →
  matches (syntax_Simplify re) t →
  ∃ l, ExtractLiteral pattern false = Some l ∧ ∀ k, has_tri l k → has_tri content k.
Proof.
  intros Hp Hs Hl Hlow -> Hm. unfold ExtractLiteral. rewrite Hp, Hl. simpl.
  eexists. split; [done|]. intros k Hk.
  destruct (length lit <? 3); [by apply has_tri_nil in Hk|].
  rewrite Hlow in Hk. apply (proj1 (has_tri_fold _ _)) in Hk.
  destruct (requiredLiteral_sound_at _ Hs) as (lit' & Hl' & Hc).
  apply (trigrams_fold_sub _ lit); [|done].
  apply fold_contains_mono. rewrite Hl in Hl'. simplify_eq. by apply Hc.
Qed.

Lemma requiredLiteral_sound_witness :
  @requiredLiteral latin1_case hello_re = Some (bs "Hello") ∧
  ∃ lit, @requiredLiteral latin1_case hello_re = Some lit ∧
    ∀ t, @matches ascii_orbits hello_re t → fold_contains t lit.
Proof.
  split; [vm_compute; reflexivity|].
  apply (@requiredLiteral_sound latin1_case ascii_orbits hello_re).
  vm_compute. reflexivity.
Defined.

Lemma ExtractLiteral_prunes_safely_witness :
  ∃ l, @ExtractLiteral latin1_case (one_engine hello_re) (bs ".+Hello") false = Some l ∧
    ∀ k, has_tri l k → has_tri (bs "a  Hello!") k.
Proof.
  apply (@ExtractLiteral_prunes_safely latin1_case ascii_orbits (one_engine hello_re)
    (bs ".+Hello") hello_re (bs "Hello") (bs "a  Hello!") (bs "a") (bs "  Hello") (bs "!"));
    [reflexivity|vm_compute; reflexivity|vm_compute; reflexivity|vm_compute; reflexivity
    |reflexivity|exact hello_matches].
Defined.

(** The lowering is not always the folding of the index: the
    pattern "CAFÉ" (É is C3 89 in UTF-8) occurs in the content "CAFÉ", but a
    trigram of its extracted literal "café" is not a trigram of that
    content, so both engines prune the file from the case-sensitive search. *)
Theorem ExtractLiteral_loses_upper_case_letters `{MapOrder} :
  let cafe := bs "CAF" ++ [xc3; x89] in
  ∃ l k, @ExtractLiteral latin1_case (one_engine hello_re) cafe true = Some l ∧
    contains cafe cafe = true ∧ k ∈ TrigramKeys l ∧ k ∉ TrigramKeys cafe.
Proof.
  intros cafe. exists (bs "caf" ++ [xc3; xa9]), (tri_key (chr "f") xc3 xa9).
  split_and!; [vm_compute; reflexivity|vm_compute; reflexivity|..].
  - apply TrigramKeys_spec. exists (bs "ca"), (chr "f"), xc3, xa9, []. by split.
  - intros Hk%TrigramKeys_spec.
    pose proof (proj2 (trigramsOf_spec _ ∅ _) (or_introl Hk)) as Hs.
    revert Hs. apply (bool_decide_unpack _). vm_compute. done.
Qed.
