(* ===== verification/Literal.v ===== *)
(** * Literal search: internal/index/literal.go

    [foldIndex] (an ASCII case-insensitive [bytes.Index]), [foldEqual] and
    [literalFindAll], with their specification: [foldIndex] is the first
    position where the literal occurs up to case, and [literalFindAll] returns the
    greedy leftmost occurrences. *)

From S2P Require Import Prelude GoBytes Trigram Text.

(** ** Definitions *)

(** [HasNonASCII] *)
Definition HasNonASCII (s : bytes) : bool :=
  existsb (λ b, bool_decide (128 ≤ b2z b)%Z) s.

(** [foldEqual]: compares [b] with the bytes of [a] at the same indices, which must exist. *)
Fixpoint foldEqual (a b : bytes) : option bool :=
  match b with
  | [] => Some true
  | y :: b' =>
      match a with
      | [] => None
      | x :: a' => if bool_decide (lower x ≠ lower y) then Some false else foldEqual a' b'
      end
  end.

(** The loop of [foldIndex]; [c1] and [c2] are the two cases of the first
    byte of the literal.  Fuel bounds the iterations: each one advances [off]. *)
Fixpoint foldIndex_loop (fuel : nat) (s lit : bytes) (c1 c2 : byte) (off : nat)
  : option (option nat) :=
  match fuel with
  | 0 => None
  | S fuel =>
      if off + length lit <=? length s then
        let i1 := index_byte (drop off s) c1 in
        let i1 :=
          if bool_decide (c2 = c1) then i1
          else match index_byte (drop off s) c2 with
               | Some i2 =>
                   match i1 with
                   | Some i1 => if i2 <? i1 then Some i2 else Some i1
                   | None => Some i2
                   end
               | None => i1
               end in
        match i1 with
        | None => Some None
        | Some i1 =>
            let pos := off + i1 in
            if length s <? pos + length lit then Some None
            else
              eq ← foldEqual (take (length lit) (drop pos s)) lit;
              if eq : bool then Some (Some pos)
              else foldIndex_loop fuel s lit c1 c2 (pos + 1)
        end
      else Some None
  end.

(** [foldIndex]: [lit[0]] panics on an empty literal. *)
Definition foldIndex (s lit : bytes) : option (option nat) :=
  match lit with
  | [] => None
  | l0 :: _ =>
      let c1 := lower l0 in
      let c2 := if bool_decide (97 ≤ b2z c1 ∧ b2z c1 ≤ 122)%Z then z2b (b2z c1 - 32) else c1 in
      foldIndex_loop (S (length s)) s lit c1 c2 0
  end.

(** The two loops of [literalFindAll], which differ in the search they call. *)
Fixpoint find_all_loop (find : bytes → option (option nat)) (n fuel : nat)
    (content : bytes) (off : nat) (locs : list (nat * nat)) : option (list (nat * nat)) :=
  match fuel with
  | 0 => None
  | S fuel =>
      i ← find (drop off content);
      match i with
      | None => Some locs
      | Some i =>
          let start := off + i in
          find_all_loop find n fuel content (start + n) (locs ++ [(start, start + n)])
      end
  end.

(** [literalFindAll] *)
Definition literalFindAll (content lit : bytes) (fold : bool) : option (list (nat * nat)) :=
  match lit with
  | [] => Some []
  | _ =>
      find_all_loop
        (λ s, if fold then foldIndex s lit else Some (index s lit))
        (length lit) (S (length content)) content 0 []
  end.

(** ** Specification *)

(** [lit] starts [t], up to ASCII case when [fold]. *)
Definition match_at (lit : bytes) (fold : bool) (t : bytes) : bool :=
  if fold then has_prefix (map lower t) (map lower lit) else has_prefix t lit.

Lemma match_at_length lit fold t : match_at lit fold t = true → length lit ≤ length t.
Proof.
  unfold match_at. destruct fold; intros H%has_prefix_length; [|done].
  by rewrite !length_map in H.
Qed.

Lemma match_at_fold_contains lit fold s i :
  match_at lit fold (drop i s) = true → fold_contains s lit.
Proof.
  unfold match_at. destruct fold; rewrite has_prefix_spec.
  - intros [k Hk]. apply fmap_app_inv in Hk as (mid & post & Hm & _ & Hd).
    exists (take i s), mid, post. rewrite <-Hd, take_drop. by split.
  - intros [k Hk]. exists (take i s), lit, k. by rewrite <-Hk, take_drop.
Qed.

Lemma foldEqual_spec a b :
  length b ≤ length a →
  foldEqual a b = Some (has_prefix (map lower a) (map lower b)).
Proof.
  revert a. induction b as [|y b IH]; intros [|x a] Hl; simpl in *; try done; [lia|].
  case_bool_decide; case_bool_decide; try done. simpl. apply IH. lia.
Qed.

(** The two candidates for the first byte are exactly the bytes that fold to it. *)
Definition fold_variant (c1 : byte) : byte :=
  if bool_decide (97 ≤ b2z c1 ∧ b2z c1 ≤ 122)%Z then z2b (b2z c1 - 32) else c1.

Lemma lower_variants l0 x :
  lower x = lower l0 ↔ x = lower l0 ∨ x = fold_variant (lower l0).
Proof.
  set (P := λ l0 x, eqb (bool_decide (lower x = lower l0))
    (bool_decide (x = lower l0) || bool_decide (x = fold_variant (lower l0)))).
  assert (P l0 x = true) as H.
  { apply (byte_forall2 P). vm_compute. reflexivity. }
  unfold P in H. apply eqb_prop in H. revert H.
  repeat case_bool_decide; naive_solver.
Qed.

(** The minimum of the two searches is the first byte of either kind. *)
Definition first_of (s : bytes) (c1 c2 : byte) : option nat :=
  if bool_decide (c2 = c1) then index_byte s c1
  else match index_byte s c2 with
       | Some i2 =>
           match index_byte s c1 with
           | Some i1 => if i2 <? i1 then Some i2 else Some i1
           | None => Some i2
           end
       | None => index_byte s c1
       end.

Lemma first_of_Some s c1 c2 i :
  first_of s c1 c2 = Some i →
  (s !! i = Some c1 ∨ s !! i = Some c2) ∧
  ∀ j, j < i → s !! j ≠ Some c1 ∧ s !! j ≠ Some c2.
Proof.
  unfold first_of. case_bool_decide as E.
  - intros [? ?]%index_byte_Some. subst. naive_solver.
  - destruct (index_byte s c2) as [i2|] eqn:E2; [destruct (index_byte s c1) as [i1|] eqn:E1|].
    + apply index_byte_Some in E1 as [H1 M1]. apply index_byte_Some in E2 as [H2 M2].
      destruct (Nat.ltb_spec i2 i1); intros [= <-]; (split; [auto|]);
        intros j Hj; split; (apply M1 || apply M2); lia.
    + apply index_byte_Some in E2 as [H2 M2]. intros [= <-]. split; [auto|].
      intros j Hj. split; [|by apply M2]. intros Hl.
      apply index_byte_None in E1. by apply E1, (list_elem_of_lookup_2 _ j).
    + intros [H1 M1]%index_byte_Some. split; [auto|]. intros j Hj. split; [by apply M1|].
      intros Hl. apply index_byte_None in E2. by apply E2, (list_elem_of_lookup_2 _ j).
Qed.

Lemma first_of_None s c1 c2 :
  first_of s c1 c2 = None → ∀ j, s !! j ≠ Some c1 ∧ s !! j ≠ Some c2.
Proof.
  unfold first_of. case_bool_decide as E.
  - intros H%index_byte_None j. subst.
    split; intros Hl; by apply H, (list_elem_of_lookup_2 _ j).
  - destruct (index_byte s c2) as [i2|] eqn:E2.
    + destruct (index_byte s c1) as [i1|]; [by destruct (i2 <? i1)|done].
    + intros H1%index_byte_None j. apply index_byte_None in E2.
      split; intros Hl; [apply H1|apply E2]; by apply (list_elem_of_lookup_2 _ j).
Qed.

Section FoldIndex.
Context (s : bytes) (l0 : byte) (rest : bytes).
Let lit := l0 :: rest.
Let P := match_at lit true.

(** A fold match at [j] has one of the two variants there. *)
Lemma fold_match_head j :
  P (drop j s) = true →
  s !! j = Some (lower l0) ∨ s !! j = Some (fold_variant (lower l0)).
Proof.
  unfold P, match_at. destruct (drop j s) as [|x t] eqn:E; [done|].
  simpl. intros [Hx%bool_decide_eq_true _]%andb_true_iff.
  assert (s !! j = Some x) as ->.
  { rewrite <-(Nat.add_0_r j), <-lookup_drop, E. done. }
  apply lower_variants in Hx as [->| ->]; auto.
Qed.

Lemma fold_match_long j : length s < j + length lit → P (drop j s) = false.
Proof.
  intros Hl. apply not_true_is_false. intros H%match_at_length.
  rewrite length_drop in H. simpl in *. lia.
Qed.

Lemma foldIndex_loop_spec fuel off :
  length s - off < fuel →
  (∀ j, j < off → P (drop j s) = false) →
  foldIndex_loop fuel s lit (lower l0) (fold_variant (lower l0)) off
    = Some (find_suffix P s).
Proof.
  revert off. induction fuel as [|fuel IH]; intros off Hf Hoff; [lia|].
  cbn [foldIndex_loop]. fold (first_of (drop off s) (lower l0) (fold_variant (lower l0))).
  destruct (Nat.leb_spec (off + length lit) (length s)) as [Hle|Hgt].
  2: { f_equal. symmetry. apply find_suffix_None. intros j _.
       destruct (decide (j < off)); [by apply Hoff|]. apply fold_match_long. lia. }
  destruct (first_of _ _ _) as [i1|] eqn:Ei.
  2: { f_equal. symmetry. apply find_suffix_None. intros j _.
       destruct (decide (j < off)); [by apply Hoff|].
       apply not_true_is_false. intros Hh%fold_match_head.
       destruct (first_of_None _ _ _ Ei (j - off)) as [N1 N2].
       rewrite lookup_drop in N1, N2. replace (off + (j - off)) with j in * by lia.
       naive_solver. }
  apply first_of_Some in Ei as [_ Hmin].
  assert (∀ j, j < off + i1 → P (drop j s) = false) as Hlow.
  { intros j Hj. destruct (decide (j < off)); [by apply Hoff|].
    apply not_true_is_false. intros Hh%fold_match_head.
    destruct (Hmin (j - off)) as [N1 N2]; [lia|].
    rewrite lookup_drop in N1, N2. replace (off + (j - off)) with j in * by lia.
    naive_solver. }
  destruct (Nat.ltb_spec (length s) (off + i1 + length lit)) as [Hlong|Hin].
  { f_equal. symmetry. apply find_suffix_None. intros j _.
    destruct (decide (j < off + i1)); [by apply Hlow|]. apply fold_match_long. lia. }
  assert (foldEqual (take (length lit) (drop (off + i1) s)) lit
          = Some (P (drop (off + i1) s))) as ->.
  { rewrite foldEqual_spec by (rewrite length_take, length_drop; lia).
    f_equal. unfold P, match_at. apply eq_true_iff_eq. rewrite !has_prefix_take.
    change (map lower) with (fmap lower : bytes → bytes).
    rewrite <-!fmap_take, length_fmap, take_take. by rewrite Nat.min_id. }
  cbn [mbind option_bind].
  destruct (P (drop (off + i1) s)) eqn:HP.
  - f_equal. symmetry. apply find_suffix_Some. split_and!; [simpl in *; lia|done|done].
  - apply IH; [simpl in *; lia|]. intros j Hj.
    destruct (decide (j = off + i1)) as [->|]; [done|]. apply Hlow. lia.
Qed.
End FoldIndex.

Lemma foldIndex_spec s lit :
  lit ≠ [] → foldIndex s lit = Some (find_suffix (match_at lit true) s).
Proof.
  destruct lit as [|l0 rest]; [done|]. intros _. unfold foldIndex.
  apply foldIndex_loop_spec; lia.
Qed.

(** The search both loops of [literalFindAll] repeat. *)
Definition lit_search (lit : bytes) (fold : bool) (s : bytes) : option (option nat) :=
  if fold then foldIndex s lit else Some (index s lit).

Lemma lit_search_spec lit fold s :
  lit ≠ [] → lit_search lit fold s = Some (find_suffix (match_at lit fold) s).
Proof. intros Hl. destruct fold; [by apply foldIndex_spec|done]. Qed.

(** ** The greedy leftmost occurrences of a literal *)

(** [locs] lists the occurrences [literalFindAll] must return from offset
    [off] on: each is an occurrence, they are in order and disjoint, and every
    occurrence meets one of them. *)
Definition greedy_from (P : bytes → bool) (n off : nat) (content : bytes)
    (locs : list (nat * nat)) : Prop :=
  (∀ a b, (a, b) ∈ locs → off ≤ a ∧ b = a + n ∧ b ≤ length content ∧ P (drop a content) = true) ∧
  StronglySorted (λ l1 l2, l1.2 ≤ l2.1) locs ∧
  (∀ p, off ≤ p → p ≤ length content → P (drop p content) = true →
     ∃ a b, (a, b) ∈ locs ∧ a ≤ p < b).

Section FindAll.
Context (lit : bytes) (fold : bool) (content : bytes).
Hypothesis lit_ne : lit ≠ [].
Let P := match_at lit fold.
Let n := length lit.

Lemma n_pos : 0 < n.
Proof. unfold n. destruct lit; simpl; [done|lia]. Qed.

Lemma greedy_from_cons off i locs :
  find_suffix P (drop off content) = Some i → off ≤ length content →
  greedy_from P n (off + i + n) content locs →
  greedy_from P n off content ((off + i, off + i + n) :: locs).
Proof.
  intros (Hi & HP & Hmin)%find_suffix_Some Hoff (H1 & H2 & H3).
  pose proof n_pos as Hn. rewrite length_drop in Hi. rewrite drop_drop in HP.
  pose proof (match_at_length _ _ _ HP) as Hlen. rewrite length_drop in Hlen.
  fold n in Hlen. split_and!.
  - intros a b [[= -> ->]|Hab]%elem_of_cons.
    + split_and!; [lia|done|lia|done].
    + destruct (H1 a b Hab) as (? & ? & ? & ?). split_and!; [lia|done..].
  - constructor; [done|]. apply Forall_forall. intros [a b] Hab. simpl.
    by destruct (H1 a b Hab) as (? & ?).
  - intros p Hp Hpl HPp. destruct (decide (p < off + i + n)) as [Hlt|Hge].
    + exists (off + i), (off + i + n). split; [by left|].
      split; [|done]. destruct (decide (p < off + i)) as [Hb|]; [|lia].
      specialize (Hmin (p - off) ltac:(lia)). rewrite drop_drop in Hmin.
      replace (off + (p - off)) with p in Hmin by lia. congruence.
    + destruct (H3 p ltac:(lia) Hpl HPp) as (a & b & ? & ?).
      exists a, b. split; [by right|done].
Qed.

Lemma find_all_loop_spec fuel off locs :
  length content - off < fuel → off ≤ length content →
  ∃ locs', find_all_loop (lit_search lit fold) n fuel content off locs = Some (locs ++ locs')
           ∧ greedy_from P n off content locs'.
Proof.
  pose proof n_pos as Hn.
  revert off locs. induction fuel as [|fuel IH]; intros off locs Hf Hoff; [lia|].
  cbn [find_all_loop]. rewrite lit_search_spec by done. cbn [mbind option_bind].
  fold P. destruct (find_suffix P (drop off content)) as [i|] eqn:Ei.
  - pose proof Ei as (Hi & HP & _)%find_suffix_Some.
    pose proof (match_at_length _ _ _ HP) as Hlen. fold n in Hlen.
    rewrite !length_drop in *.
    destruct (IH (off + i + n) (locs ++ [(off + i, off + i + n)])) as (locs' & Hl & Hg);
      [lia..|].
    exists ((off + i, off + i + n) :: locs'). rewrite Hl, <-app_assoc. split; [done|].
    by apply greedy_from_cons.
  - exists []. rewrite app_nil_r. split; [done|]. split_and!.
    + set_solver.
    + constructor.
    + intros p Hp Hpl HPp. exfalso.
      apply (proj1 (find_suffix_None _ _)) with (i := p - off) in Ei.
      * rewrite drop_drop in Ei. replace (off + (p - off)) with p in Ei by lia. congruence.
      * rewrite length_drop. lia.
Qed.
End FindAll.

Lemma literalFindAll_spec content lit fold :
  lit ≠ [] →
  ∃ locs, literalFindAll content lit fold = Some locs ∧
          greedy_from (match_at lit fold) (length lit) 0 content locs.
Proof.
  intros Hne. destruct (find_all_loop_spec lit fold content Hne (S (length content)) 0 [])
    as (locs & Hl & Hg); [lia..|].
  exists locs. split; [|done]. destruct lit; [done|]. exact Hl.
Qed.

(** ** Properties *)

(** [foldIndex] never panics on a non-empty literal, terminates, and returns the
    leftmost offset at which the literal occurs up to ASCII case ([None], Go's
    [-1], when it occurs nowhere), for any fuel above the length of the text. *)
Theorem foldIndex_leftmost s lit fuel c1 c2 :
  lit ≠ [] →
  length s < fuel →
  c1 = lower (hd x00 lit) →
  c2 = fold_variant c1 →
  foldIndex_loop fuel s lit c1 c2 0 = foldIndex s lit ∧
  ∃ r, foldIndex s lit = Some r ∧
    match r with
    | Some i => map lower (take (length lit) (drop i s)) = map lower lit
                ∧ ∀ j, j < i → map lower (take (length lit) (drop j s)) ≠ map lower lit
    | None => ¬ fold_contains s lit
    end.
Proof.
  intros Hne Hf -> ->. destruct lit as [|l0 rest]; [done|]. simpl hd.
  rewrite foldIndex_spec by done. rewrite foldIndex_loop_spec by lia. split; [done|].
  assert (∀ j, match_at (l0 :: rest) true (drop j s) = true ↔
    map lower (take (length (l0 :: rest)) (drop j s)) = map lower (l0 :: rest)) as Hm.
  { intros j. unfold match_at. rewrite has_prefix_take, length_map.
    change (map lower) with (fmap lower : bytes → bytes). by rewrite fmap_take. }
  eexists. split; [done|].
  destruct (find_suffix _ s) as [i|] eqn:E.
  - apply find_suffix_Some in E as (_ & HP & Hmin). split; [by apply Hm|].
    intros j Hj Hc. apply Hm in Hc. by rewrite Hmin in Hc.
  - intros (pre & mid & post & -> & Hmid).
    apply (proj1 (find_suffix_None _ _)) with (i := length pre) in E;
      [|rewrite length_app; lia].
    rewrite drop_app_length in E. unfold match_at in E.
    rewrite map_app, Hmid, has_prefix_app in E. done.
Qed.

Lemma foldIndex_leftmost_witness :
  foldIndex (bs "xx FooBAR foobar") (bs "fOObar") = Some (Some 3) ∧
  ∃ r, foldIndex (bs "xx FooBAR foobar") (bs "fOObar") = Some r ∧
    match r with
    | Some i => map lower (take (length (bs "fOObar")) (drop i (bs "xx FooBAR foobar")))
                = map lower (bs "fOObar")
                ∧ ∀ j, j < i →
                    map lower (take (length (bs "fOObar")) (drop j (bs "xx FooBAR foobar")))
                    ≠ map lower (bs "fOObar")
    | None => ¬ fold_contains (bs "xx FooBAR foobar") (bs "fOObar")
    end.
Proof.
  split; [vm_compute; reflexivity|].
  apply (foldIndex_leftmost (bs "xx FooBAR foobar") (bs "fOObar") 100 (chr "f") (chr "F"));
    [done|vm_compute; lia|vm_compute; reflexivity|vm_compute; reflexivity].
Defined.

(** C24. [literalFindAll] never panics, terminates, and returns exactly the
    greedy leftmost occurrences of a non-empty literal: every reported span is an
    occurrence of its length (up to case when [fold]), the spans are in order
    and disjoint, and every occurrence in the content meets a reported span. *)
Theorem literalFindAll_greedy content lit fold :
  lit ≠ [] →
  ∃ locs, literalFindAll content lit fold = Some locs ∧
    (∀ a b, (a, b) ∈ locs →
       b = a + length lit ∧ b ≤ length content ∧ match_at lit fold (drop a content) = true) ∧
    StronglySorted (λ l1 l2, l1.2 ≤ l2.1) locs ∧
    (∀ p, p ≤ length content → match_at lit fold (drop p content) = true →
       ∃ a b, (a, b) ∈ locs ∧ a ≤ p < b).
Proof.
  intros Hne. destruct (literalFindAll_spec content lit fold Hne) as (locs & Hl & H1 & H2 & H3).
  exists locs. split_and!; [done| |done|].
  - intros a b Hab. by destruct (H1 a b Hab) as (_ & ?).
  - intros p. apply H3. lia.
Qed.

Lemma literalFindAll_greedy_witness :
  literalFindAll (bs "aaaAa") (bs "aa") true = Some [(0, 2); (2, 4)] ∧
  ∃ locs, literalFindAll (bs "aaaAa") (bs "aa") true = Some locs ∧
    (∀ a b, (a, b) ∈ locs →
       b = a + 2 ∧ b ≤ 5 ∧ match_at (bs "aa") true (drop a (bs "aaaAa")) = true) ∧
    StronglySorted (λ l1 l2, l1.2 ≤ l2.1) locs ∧
    (∀ p, p ≤ 5 → match_at (bs "aa") true (drop p (bs "aaaAa")) = true →
       ∃ a b, (a, b) ∈ locs ∧ a ≤ p < b).
Proof.
  split; [vm_compute; reflexivity|].
  apply (literalFindAll_greedy (bs "aaaAa") (bs "aa") true). done.
Defined.
