(* ===== verification/Matcher.v ===== *)
(** * The matcher: internal/index/matcher.go

    [MatcherFor] chooses between the regular expression and a literal fast
    path with a rare-byte pre-filter; [FindFirst] applies it to a line.  The
    daemon and the client both match through it. *)

From S2P Require Import Prelude GoBytes Trigram Text Regexp Literal.

(** ** Definitions *)

(** [regexp.QuoteMeta] *)
Definition special_bytes : bytes := bs "\.+*?()|[]{}^$".
Definition QuoteMeta (s : bytes) : bytes :=
  concat (map (λ b, if bool_decide (b ∈ special_bytes) then [chr "\"; b] else [b]) s).

Section Matcher.
Context `{RegexpEngine}.

(** [Re] is a pointer: [None] is nil. *)
Record Matcher := mkMatcher {
  Re : option Regex;
  PlainLit : bytes;
  Fold : bool;
  rareByte : byte;
  hasRare : bool;
}.

(** The zero value [Matcher{}]. *)
Definition zeroMatcher : Matcher := mkMatcher None [] false x00 false.

(** The table [byteFreqRank] as [init] leaves it. *)
Definition byteFreqRank (b : byte) : Z :=
  if bool_decide (b ∈ bs "(){}[];,._=-+*/<>&|!:'\#" ++ [x22]) then 140
  else if in_range 48 57 b then 160
  else if in_range 65 90 b then 180
  else if in_range 97 122 b then 200
  else if bool_decide (b ∈ [x20; x09; x0a; x0d]) then 255
  else 50.

(** [pickRareByte]: [None] is [(0, false)]. *)
Definition pickRareByte (lit : bytes) : option byte :=
  match lit with
  | [] => None
  | b0 :: rest =>
      Some (fold_left
        (λ best b, if (byteFreqRank b <? byteFreqRank best)%Z then b else best) rest b0)
  end.

(** [MatcherFor]: [None] is a compilation error. *)
Definition MatcherFor (pattern : bytes) (fixed nocase : bool) : option Matcher :=
  let pat := if fixed then QuoteMeta pattern else pattern in
  let pat := if nocase then bs "(?i)" ++ pat else pat in
  re ← regexp_Compile pat;
  let '(lit, fold) :=
    match PlainLiteral pattern fixed with
    | Some lit =>
        if negb nocase then (lit, false)
        else if negb (HasNonASCII lit) then (lit, true)
        else ([], false)
    | None => ([], false)
    end in
  Some (match pickRareByte lit with
        | Some b => mkMatcher (Some re) lit fold b true
        | None => mkMatcher (Some re) lit fold x00 false
        end).

Definition is_letter (b : byte) : bool := in_range 97 122 b || in_range 65 90 b.

(** [m.rareByte ^ 0x20] *)
Definition alt_case (b : byte) : byte := z2b (Z.lxor (b2z b) 32).

Definition lacks (line : bytes) (b : byte) : bool := bool_decide (index_byte line b = None).

(** The pre-filter of [FindFirst]: [true] returns nil at once. *)
Definition prefilter (m : Matcher) (line : bytes) : bool :=
  hasRare m && lacks line (rareByte m) &&
  (negb (Fold m) ||
   (is_letter (alt_case (rareByte m)) && lacks line (alt_case (rareByte m)))).

(** [FindFirst]: the span of the first match in a line. *)
Definition FindFirst (m : Matcher) (line : bytes) : option (option (nat * nat)) :=
  if bool_decide (PlainLit m = []) then
    re ← Re m; Some (re_FindIndex re line)
  else if prefilter m line then Some None
  else
    i ← (if Fold m then foldIndex line (PlainLit m) else Some (index line (PlainLit m)));
    match i with
    | None => Some None
    | Some i => Some (Some (i, i + length (PlainLit m)))
    end.

(** ** Invariant *)

(** The rare byte is a byte of the literal, and a regular expression is there when needed. *)
Definition matcher_ok (m : Matcher) : Prop :=
  (hasRare m = true → rareByte m ∈ PlainLit m) ∧ (PlainLit m = [] → is_Some (Re m)).

Lemma pickRareByte_elem lit b : pickRareByte lit = Some b → b ∈ lit.
Proof.
  destruct lit as [|b0 rest]; [done|]. simpl. intros [= <-].
  revert b0. induction rest as [|x rest IH]; intros b0; simpl; [by left|].
  case_match; [right; apply IH|].
  specialize (IH b0). apply elem_of_cons in IH as [->|?]; [by left|by right; right].
Qed.

Lemma MatcherFor_ok pattern fixed nocase m :
  MatcherFor pattern fixed nocase = Some m → matcher_ok m.
Proof.
  unfold MatcherFor. intros Hm.
  destruct (regexp_Compile _) as [re|]; [|done]. simpl in Hm.
  destruct (match PlainLiteral pattern fixed with
            | Some lit => _ | None => _ end) as [lit fold].
  destruct (pickRareByte lit) as [b|] eqn:Hb; simplify_eq; split; simpl; try done.
  intros _. by apply pickRareByte_elem.
Qed.

(** ** The pre-filter drops no match *)

Lemma fold_alt x r : lower x = lower r → x = r ∨ (x = alt_case r ∧ is_letter (alt_case r) = true).
Proof.
  set (P := λ x r, implb (bool_decide (lower x = lower r))
    (bool_decide (x = r) || (bool_decide (x = alt_case r) && is_letter (alt_case r)))).
  assert (P x r = true) as HP. { apply (byte_forall2 P). vm_compute. reflexivity. }
  unfold P in HP. intros E. rewrite bool_decide_eq_true_2 in HP by done. simpl in HP.
  apply orb_true_iff in HP as [HP|HP].
  - left. by apply bool_decide_eq_true in HP.
  - right. apply andb_true_iff in HP as [HP ?]. by apply bool_decide_eq_true in HP.
Qed.

Lemma lacks_spec line b : lacks line b = true ↔ b ∉ line.
Proof. unfold lacks. rewrite bool_decide_eq_true. apply index_byte_None. Qed.

(** A match holds a byte that folds to the rare one. *)
Lemma match_has_byte lit fold line i b :
  match_at lit fold (drop i line) = true → b ∈ lit →
  ∃ x, x ∈ line ∧ lower x = lower b ∧ (fold = false → x = b).
Proof.
  unfold match_at. intros Hm Hb. apply list_elem_of_lookup in Hb as [j Hj].
  destruct fold; apply has_prefix_spec in Hm as [k Hk].
  - assert ((lower <$> drop i line) !! j = Some (lower b)) as Hl.
    { change (lower <$> drop i line) with (map lower (drop i line)).
      rewrite Hk. apply lookup_app_l_Some.
      change (map lower lit) with (lower <$> lit). by rewrite list_lookup_fmap, Hj. }
    apply list_lookup_fmap_Some in Hl as (x & E & Hx).
    exists x. split_and!; [|done|done].
    rewrite lookup_drop in Hx. by eapply list_elem_of_lookup_2.
  - exists b. split_and!; [|done|done].
    assert (drop i line !! j = Some b) as Hl. { rewrite Hk. by apply lookup_app_l_Some. }
    rewrite lookup_drop in Hl. by eapply list_elem_of_lookup_2.
Qed.

Lemma prefilter_sound m line :
  matcher_ok m → prefilter m line = true →
  find_suffix (match_at (PlainLit m) (Fold m)) line = None.
Proof.
  intros [Hr _] Hp. apply find_suffix_None. intros i _. apply not_true_is_false. intros Hm.
  unfold prefilter in Hp. rewrite !andb_true_iff in Hp. destruct Hp as [[Hh Hl] Hf].
  destruct (match_has_byte _ _ _ _ _ Hm (Hr Hh)) as (x & Hx & Elow & Enf).
  apply lacks_spec in Hl. destruct (Fold m); simpl in Hf.
  - apply andb_true_iff in Hf as [_ Ha%lacks_spec].
    apply fold_alt in Elow as [->|[-> _]]; auto.
  - rewrite Enf in Hx by done. auto.
Qed.

(** The span [FindFirst] reports on the literal path. *)
Definition first_span (lit : bytes) (fold : bool) (line : bytes) : option (nat * nat) :=
  (λ i, (i, i + length lit)) <$> find_suffix (match_at lit fold) line.

Lemma FindFirst_spec m line :
  matcher_ok m →
  FindFirst m line = Some
    (if bool_decide (PlainLit m = []) then
       match Re m with Some re => re_FindIndex re line | None => None end
     else first_span (PlainLit m) (Fold m) line).
Proof.
  intros Hok. unfold FindFirst. case_bool_decide as Hl.
  - by destruct (proj2 Hok Hl) as [re ->].
  - destruct (prefilter m line) eqn:Hp.
    + unfold first_span. by rewrite prefilter_sound.
    + assert ((if Fold m then foldIndex line (PlainLit m)
               else Some (index line (PlainLit m)))
              = Some (find_suffix (match_at (PlainLit m) (Fold m)) line)) as ->
        by (by apply (lit_search_spec (PlainLit m) (Fold m))).
      unfold first_span. by destruct (find_suffix _ line).
Qed.
End Matcher.

Arguments Matcher : clear implicits.
Arguments Matcher {_}.
#[export] Hint Resolve MatcherFor_ok : gcgrep.

(** ** Properties *)

(** C36. The fast path is exact: a matcher built by [MatcherFor] never panics, and
    the rare-byte pre-filter never changes its answer; on the literal path
    [FindFirst] reports the leftmost occurrence of the literal. *)
Theorem FindFirst_prefilter_exact `{RegexpEngine} pattern fixed nocase m line :
  MatcherFor pattern fixed nocase = Some m →
  FindFirst m line = Some
    (if bool_decide (PlainLit m = []) then
       match Re m with Some re => re_FindIndex re line | None => None end
     else first_span (PlainLit m) (Fold m) line).
Proof. intros Hm. apply FindFirst_spec. go. Qed.

Lemma FindFirst_prefilter_exact_witness :
  ∃ m, @MatcherFor (one_engine hello_re) (bs "Need[") true true = Some m ∧
    rareByte m = chr "[" ∧
    FindFirst m (bs "a nEED[ here") = Some (Some (2, 7)) ∧
    FindFirst m (bs "a nEED[ here") = Some
      (if bool_decide (PlainLit m = []) then None
       else first_span (PlainLit m) (Fold m) (bs "a nEED[ here")).
Proof.
  eexists. split; [vm_compute; reflexivity|].
  split; [vm_compute; reflexivity|]. split; [vm_compute; reflexivity|].
  apply (@FindFirst_prefilter_exact (one_engine hello_re) (bs "Need[") true true).
  vm_compute. reflexivity.
Defined.

(** [pickRareByte] returns a byte of the literal of the lowest frequency rank. *)
Theorem pickRareByte_least lit :
  lit ≠ [] →
  ∃ b, pickRareByte lit = Some b ∧ b ∈ lit ∧
    ∀ x, x ∈ lit → (byteFreqRank b ≤ byteFreqRank x)%Z.
Proof.
  destruct lit as [|b0 rest]; [done|]. intros _.
  eexists. split; [reflexivity|]. split; [by apply pickRareByte_elem|].
  revert b0. induction rest as [|y rest IH]; intros b0 x Hx; simpl.
  - apply list_elem_of_singleton in Hx as ->. done.
  - destruct (Z.ltb_spec (byteFreqRank y) (byteFreqRank b0)).
    + apply elem_of_cons in Hx as [->|Hx]; [|by apply IH].
      specialize (IH y y ltac:(by left)). lia.
    + rewrite !elem_of_cons in Hx. destruct Hx as [->|[->|Hx]].
      * apply IH. by left.
      * specialize (IH b0 b0 ltac:(by left)). lia.
      * apply IH. by right.
Qed.

Lemma pickRareByte_least_witness :
  ∃ b, pickRareByte (bs "main@x") = Some b ∧ b ∈ bs "main@x" ∧
    ∀ x, x ∈ bs "main@x" → (byteFreqRank b ≤ byteFreqRank x)%Z.
Proof. apply (pickRareByte_least (bs "main@x")). done. Defined.
