(* ===== verification/Symbol.v ===== *)
(** * Symbols: internal/symbol/symbol.go

    The definitions the engines store and look up.  The extractors are behind
    the interface [SymbolExtractor]: the engines store whatever they return. *)

From S2P Require Import Prelude.

(** [symbol.Def]; [Kind] is a Go string type. *)
Record Def := mkDef {
  d_Name : bytes;
  d_Kind : bytes;
  d_Container : bytes;
  d_Line : Z;
}.

#[export] Instance def_eq_dec : EqDecision Def.
Proof. solve_decision. Defined.

(** [symbol.Extract(path, src)] *)
Class SymbolExtractor := { Extract : bytes → bytes → list Def }.
