(* ===== verification/Strip.v ===== *)
(** * Comments and literals: internal/symbol/strip.go, and line numbers of symbol.go

    [stripCLike] and [stripPython] blank comments and literals in place; both only
    read bytes they have not rewritten, so each is a recursion over what is left of
    the source, in the state of its scanner.  [line] is a binary search over the
    starts of the lines. *)

From S2P Require Import Prelude GoBytes Text Symbol.

Abbreviation space := x20.

(** ** C-like languages *)

(** The states of [stripCLike]; a quoted literal is [quoted] with its delimiter
    ([dquote] and [squote]). *)
Inductive cstate := code | lineComment | blockComment | quoted (q : byte) | backtick.

(** [stripCLike] from a state. *)
Fixpoint strip_c (state : cstate) (s : bytes) : bytes :=
  match s with
  | [] => []
  | c :: s' =>
      match state with
      | code =>
          if bool_decide (c = slash) && bool_decide (head s' = Some slash) then
            space :: strip_c lineComment s'
          else if bool_decide (c = slash) && bool_decide (head s' = Some x2a) then
            space :: strip_c blockComment s'
          else if bool_decide (c = x22) || bool_decide (c = x27) then c :: strip_c (quoted c) s'
          else if bool_decide (c = x60) then c :: strip_c backtick s'
          else c :: strip_c code s'
      | lineComment =>
          if bool_decide (c = newline) then c :: strip_c code s' else space :: strip_c lineComment s'
      | blockComment =>
          match s' with
          | d :: s'' =>
              if bool_decide (c = x2a) && bool_decide (d = slash) then space :: space :: strip_c code s''
              else (if bool_decide (c = newline) then c else space) :: strip_c blockComment s'
          | [] => [if bool_decide (c = newline) then c else space]
          end
      | quoted q =>
          match s' with
          | d :: s'' =>
              if bool_decide (c = x5c) then
                space :: (if bool_decide (d = newline) then d else space) :: strip_c (quoted q) s''
              else if bool_decide (c = q) || bool_decide (c = newline) then c :: strip_c code s'
              else space :: strip_c (quoted q) s'
          | [] => [if bool_decide (c = q) || bool_decide (c = newline) then c else space]
          end
      | backtick =>
          if bool_decide (c = x60) then c :: strip_c code s'
          else (if bool_decide (c = newline) then c else space) :: strip_c backtick s'
      end
  end.

Definition stripCLike (src : bytes) : bytes := strip_c code src.

(** ** Python *)

(** Where [stripPython] is: in its outer loop, in a comment, in a literal. *)
Inductive pstate := pcode | pcomment | pstring (q : byte) | ptriple (q : byte).

Fixpoint strip_py (state : pstate) (s : bytes) : bytes :=
  match s with
  | [] => []
  | c :: s' =>
      match state with
      | pcode =>
          if bool_decide (c = x23) then space :: strip_py pcomment s'
          else if bool_decide (c = x22) || bool_decide (c = x27) then
            match s' with
            | d :: e :: s'' =>
                if bool_decide (d = c) && bool_decide (e = c) then c :: d :: e :: strip_py (ptriple c) s''
                else c :: strip_py (pstring c) s'
            | _ => c :: strip_py (pstring c) s'
            end
          else c :: strip_py pcode s'
      | pcomment =>
          if bool_decide (c = newline) then c :: strip_py pcode s' else space :: strip_py pcomment s'
      | pstring q =>
          if bool_decide (c = newline) then c :: strip_py pcode s'
          else if bool_decide (c = x5c) then
            match s' with
            | d :: s'' => space :: (if bool_decide (d = newline) then d else space) :: strip_py (pstring q) s''
            | [] => [space]
            end
          else if bool_decide (c = q) then c :: strip_py pcode s'
          else space :: strip_py (pstring q) s'
      | ptriple q =>
          match s' with
          | d :: e :: s'' =>
              if bool_decide (c = q) && bool_decide (d = q) && bool_decide (e = q) then
                c :: d :: e :: strip_py pcode s''
              else (if bool_decide (c = newline) then c else space) :: strip_py (ptriple q) s'
          | _ => (if bool_decide (c = newline) then c else space) :: strip_py (ptriple q) s'
          end
      end
  end.

Definition stripPython (src : bytes) : bytes := strip_py pcode src.

(** [Strip] *)
Definition Strip (lang src : bytes) : bytes :=
  if bool_decide (lang = bs "python") then stripPython src
  else if bool_decide (lang = bs "go") || bool_decide (lang = bs "java")
          || bool_decide (lang = bs "typescript") then stripCLike src
  else src.

(** ** Lines *)

(** [lineOf] *)
Fixpoint lineOf (src : bytes) (pos : nat) : nat :=
  match src, pos with
  | c :: src, S pos => (if bool_decide (c = newline) then 1 else 0) + lineOf src pos
  | _, _ => 1
  end.

(** [newLineIndex]: the starts after the byte at offset [i]. *)
Fixpoint line_starts (i : nat) (src : bytes) : list nat :=
  match src with
  | [] => []
  | c :: src => if bool_decide (c = newline) then S i :: line_starts (S i) src else line_starts (S i) src
  end.
Definition newLineIndex (src : bytes) : list nat := 0 :: line_starts 0 src.

(** The loop of [line]: [hi - lo] decreases. *)
Fixpoint line_loop (fuel : nat) (li : list nat) (pos lo hi : nat) : option nat :=
  match fuel with
  | O => None
  | S fuel =>
      if lo <? hi then
        let mid := (lo + hi + 1) / 2 in
        m ← li !! mid;
        if m <=? pos then line_loop fuel li pos mid hi else line_loop fuel li pos lo (mid - 1)
      else Some (lo + 1)
  end.

(** [line] *)
Definition line (li : list nat) (pos : nat) : option nat := line_loop (length li) li pos 0 (length li - 1).

(** ** Bytes of identifiers *)

(** [isIdentByte] *)
Definition isIdentByte (c : byte) : bool :=
  bool_decide (c = x5f) || in_range 97 122 c || in_range 65 90 c || in_range 48 57 c.

(** The spaces [skipSpace] skips. *)
Definition is_space (c : byte) : bool :=
  bool_decide (c = x20) || bool_decide (c = x09) || bool_decide (c = x0a) || bool_decide (c = x0d).

(** The number of leading bytes that satisfy [P]. *)
Fixpoint span_len (P : byte → bool) (s : bytes) : nat :=
  match s with
  | c :: s => if P c then S (span_len P s) else 0
  | [] => 0
  end.

(** [skipSpace] *)
Definition skipSpace (s : bytes) (i : nat) : nat := i + span_len is_space (drop i s).

(** ** Blanking *)

(** A blanked source: every byte is kept or, unless it is a newline, blanked. *)
Definition blanked : bytes → bytes → Prop := Forall2 (λ a b, b = a ∨ (b = space ∧ a ≠ newline)).

Lemma blanked_keep c s t : blanked s t → blanked (c :: s) (c :: t).
Proof. intros. constructor; [by left|done]. Qed.
Lemma blanked_space c s t : c ≠ newline → blanked s t → blanked (c :: s) (space :: t).
Proof. intros. constructor; [by right|done]. Qed.
Lemma blanked_if c s t :
  blanked s t → blanked (c :: s) ((if bool_decide (c = newline) then c else space) :: t).
Proof. intros. case_bool_decide; [by apply blanked_keep|by apply blanked_space]. Qed.
Lemma blanked_nil : blanked [] [].
Proof. constructor. Qed.
#[export] Hint Resolve blanked_keep blanked_if blanked_nil : gcgrep.

(** The goals left by a case of a scanner. *)
Ltac blank := repeat (case_match || case_bool_decide || simplify_eq/=);
  repeat (apply blanked_keep || apply blanked_if || (apply blanked_space; [done|])); auto.

Lemma strip_c_blanked state s : blanked s (strip_c state s).
Proof.
  remember (length s) as n eqn:Hn. revert state s Hn.
  induction (lt_wf n) as [n _ IH]. intros state s ->.
  assert (∀ st t, length t < length s → blanked t (strip_c st t)) as IH' by eauto. clear IH.
  destruct s as [|c s]; [constructor|]. cbn [length] in IH'.
  assert (∀ st, blanked s (strip_c st s)) as IH1 by (intros; apply IH'; lia).
  destruct state; cbn [strip_c].
  - repeat case_bool_decide; cbn [andb orb]; simplify_eq; auto with gcgrep;
      apply blanked_space; done.
  - case_bool_decide; [by auto with gcgrep|by apply blanked_space].
  - destruct s as [|d s]; [by auto with gcgrep|].
    case_bool_decide; cbn [andb]; [|by auto with gcgrep].
    case_bool_decide; cbn [andb]; [|by auto with gcgrep].
    subst. do 2 (apply blanked_space; [done|]). apply IH'. simpl. lia.
  - destruct s as [|d s].
    + case_bool_decide; cbn [orb]; [by auto with gcgrep|].
      case_bool_decide; [by auto with gcgrep|by apply blanked_space, blanked_nil].
    + case_bool_decide; [subst; apply blanked_space; [done|]; apply blanked_if, IH'; simpl; lia|].
      case_bool_decide; cbn [orb]; [by auto with gcgrep|].
      case_bool_decide; [by auto with gcgrep|by apply blanked_space].
  - case_bool_decide; auto with gcgrep.
Qed.

Lemma strip_py_blanked state s : blanked s (strip_py state s).
Proof.
  remember (length s) as n eqn:Hn. revert state s Hn.
  induction (lt_wf n) as [n _ IH]. intros state s ->.
  assert (∀ st t, length t < length s → blanked t (strip_py st t)) as IH' by eauto. clear IH.
  destruct s as [|c s]; [constructor|]. cbn [length] in IH'.
  assert (∀ st, blanked s (strip_py st s)) as IH1 by (intros; apply IH'; lia).
  destruct state; cbn [strip_py].
  - case_bool_decide; [subst; by apply blanked_space|].
    case_match; [|by auto with gcgrep].
    destruct s as [|d [|e s]]; [by auto with gcgrep..|].
    case_match; [|by auto with gcgrep].
    do 3 apply blanked_keep. apply IH'. simpl. lia.
  - case_bool_decide; [by auto with gcgrep|by apply blanked_space].
  - case_bool_decide; [by auto with gcgrep|].
    case_bool_decide.
    + destruct s as [|d s]; [by apply blanked_space, blanked_nil|].
      apply blanked_space; [done|]. apply blanked_if, IH'. simpl. lia.
    + case_bool_decide; [by auto with gcgrep|by apply blanked_space].
  - destruct s as [|d [|e s]]; [by auto with gcgrep..|].
    case_match; [|by auto with gcgrep]. do 3 apply blanked_keep. apply IH'. simpl. lia.
Qed.

Lemma Strip_blanked lang src : blanked src (Strip lang src).
Proof.
  unfold Strip, stripPython, stripCLike. case_match; [apply strip_py_blanked|].
  case_match; [apply strip_c_blanked|]. induction src; auto with gcgrep.
Qed.

Lemma blanked_length s t : blanked s t → length t = length s.
Proof. intros H. symmetry. by apply Forall2_length in H. Qed.

Lemma blanked_newline a b :
  (b = a ∨ (b = space ∧ a ≠ newline)) → bool_decide (b = newline) = bool_decide (a = newline).
Proof. intros [->|[-> Hn]]; [done|]. by rewrite (bool_decide_eq_false_2 _ Hn). Qed.

Lemma blanked_starts i s t : blanked s t → line_starts i t = line_starts i s.
Proof.
  intros H. revert i. induction H as [|a b s t Hab _ IH]; intros i; [done|]. cbn [line_starts].
  by rewrite (blanked_newline a b Hab), IH.
Qed.

Lemma blanked_lineOf s t pos : blanked s t → lineOf t pos = lineOf s pos.
Proof.
  intros H. revert pos. induction H as [|a b s t Hab _ IH]; intros [|pos]; try done. cbn [lineOf].
  by rewrite (blanked_newline a b Hab), IH.
Qed.

(** ** The line of an offset *)

Lemma lineOf_pos src pos : 1 ≤ lineOf src pos.
Proof. revert pos. induction src as [|c src IH]; intros [|pos]; simpl; [lia..|]. specialize (IH pos). lia. Qed.

Lemma line_starts_gt i src m : m ∈ line_starts i src → i < m.
Proof.
  revert i. induction src as [|c src IH]; intros i; cbn [line_starts]; [by intros ?%elem_of_nil|].
  case_bool_decide; [|by intros ?%IH; lia]. intros [->|Hm%IH]%elem_of_cons; lia.
Qed.

Lemma starts_le i src pos k :
  (∃ m, line_starts i src !! k = Some m ∧ m ≤ i + pos) ↔ S k < lineOf src pos.
Proof.
  revert i pos k. induction src as [|c src IH]; intros i pos k.
  { split; [by intros (m & Hm & _)|]. simpl. lia. }
  destruct pos as [|pos].
  { split; [|simpl; lia]. intros (m & Hm%list_elem_of_lookup_2%line_starts_gt & ?). lia. }
  cbn [line_starts lineOf]. rewrite Nat.add_succ_r, <-Nat.add_succ_l. case_bool_decide.
  - pose proof (lineOf_pos src pos). destruct k as [|k].
    + split; [lia|]. intros _. exists (S i). split; [done|lia].
    + change ((S i :: line_starts (S i) src) !! S k) with (line_starts (S i) src !! k).
      rewrite IH. lia.
  - rewrite IH. lia.
Qed.

Lemma index_le src pos k :
  (∃ m, newLineIndex src !! k = Some m ∧ m ≤ pos) ↔ k < lineOf src pos.
Proof.
  destruct k as [|k].
  - pose proof (lineOf_pos src pos). split; [lia|]. intros _. exists 0. split; [done|lia].
  - apply (starts_le 0).
Qed.

Lemma line_loop_spec src pos fuel lo hi :
  lo < lineOf src pos ≤ S hi → hi < length (newLineIndex src) → hi - lo < fuel →
  line_loop fuel (newLineIndex src) pos lo hi = Some (lineOf src pos).
Proof.
  revert lo hi. induction fuel as [|fuel IH]; intros lo hi Hb Hh Hf; [lia|]. cbn [line_loop].
  destruct (Nat.ltb_spec lo hi) as [Hlt|Hge]; [|f_equal; lia].
  assert (lo < (lo + hi + 1) / 2 ≤ hi) as Hmid.
  { split; [apply Nat.div_le_lower_bound|apply Nat.div_le_upper_bound]; lia. }
  set (mid := (lo + hi + 1) / 2) in *.
  destruct (lookup_lt_is_Some_2 (newLineIndex src) mid) as [m Hm]; [lia|]. rewrite Hm.
  cbn [mbind option_bind]. pose proof (index_le src pos mid) as Hi.
  destruct (Nat.leb_spec m pos) as [Hle|Hgt].
  - apply IH; [|lia..]. split; [|lia]. apply Hi. by exists m.
  - apply IH; [|lia..]. split; [lia|]. destruct (decide (mid < lineOf src pos)) as [Hc|]; [|lia].
    apply Hi in Hc as (m' & Hm' & ?). simplify_eq. lia.
Qed.

Lemma line_spec src pos : line (newLineIndex src) pos = Some (lineOf src pos).
Proof.
  unfold line. apply line_loop_spec; [|simpl; lia|simpl; lia].
  pose proof (lineOf_pos src pos). split; [lia|].
  destruct (proj2 (index_le src pos (lineOf src pos - 1))) as (m & Hm%lookup_lt_Some & _); lia.
Qed.

(** ** Properties *)

(** Stripping preserves positions: whatever the language, every byte of the
    result is the byte of the source or a blank, newlines stay where they are, so
    the lengths agree, the line index of the stripped source is that of the source,
    and the binary search over it gives the line of every offset of the source. *)
Theorem Strip_positions lang src pos :
  blanked src (Strip lang src) ∧ length (Strip lang src) = length src ∧
  newLineIndex (Strip lang src) = newLineIndex src ∧
  line (newLineIndex (Strip lang src)) pos = Some (lineOf src pos).
Proof.
  pose proof (Strip_blanked lang src) as Hb. split_and!; [done|by apply blanked_length| |].
  - unfold newLineIndex. by rewrite (blanked_starts 0 _ _ Hb).
  - rewrite line_spec. by rewrite (blanked_lineOf _ _ pos Hb).
Qed.

(** The scanner of C comments takes the star of the opening for that of the closing:
    a comment that starts with [/*/] ends there, and what it comments out is kept. *)
Theorem strip_c_short_comment :
  stripCLike (bs "/*/ f() */ g()") = bs "    f() */ g()" ∧
  stripCLike (bs "/* / f() */ g()") = bs "            g()".
Proof. split; vm_compute; reflexivity. Qed.
