(* ===== verification/Extract.v ===== *)
(** * Symbol extraction: internal/symbol

    [Language] picks an extractor by the extension of the file; the extractors of
    java.go, python.go and typescript.go scan the stripped source, that of golang.go
    walks the tree of Go's parser.  Go's parser and the TypeScript expressions are
    interfaces; the Java and Python expressions are matched by the functions
    below.  [None] is a panic. *)

From S2P Require Import Prelude GoBytes Text Lines Symbol Strip.

(** ** Languages *)

(** [filepath.Ext] *)
Definition Ext (path : bytes) : bytes :=
  match last_index_byte path x2e with
  | Some i => let e := drop i path in if bool_decide (slash ∈ e) then [] else e
  | None => []
  end.

(** [Language]; [[]] when the file has no symbol support. *)
Definition Language `{UnicodeCase} (path : bytes) : bytes :=
  let e := ToLower (Ext path) in
  if bool_decide (e = bs ".go") then bs "go"
  else if bool_decide (e = bs ".java") then bs "java"
  else if bool_decide (e = bs ".py") then bs "python"
  else if bool_decide (e ∈ [bs ".ts"; bs ".tsx"; bs ".js"; bs ".jsx"; bs ".mjs"]) then bs "typescript"
  else [].

(** ** Declarations and their braces *)

Record typeRange := mkRange { tr_name : bytes; tr_kind : bytes; tr_open : Z; tr_close : Z }.

(** The offset of the first [{] from [i], unless a [;] comes before. *)
Fixpoint find_open (s : bytes) (i : nat) : option nat :=
  match s with
  | [] => None
  | c :: s =>
      if bool_decide (c = x7b) then Some i
      else if bool_decide (c = x3b) then None
      else find_open s (S i)
  end.

(** The offset past the brace that brings the depth back to 0. *)
Fixpoint find_close (s : bytes) (i : nat) (depth : Z) : option nat :=
  match s with
  | [] => None
  | c :: s =>
      let depth := (depth + (if bool_decide (c = x7b) then 1 else 0)
                          - (if bool_decide (c = x7d) then 1 else 0))%Z in
      if bool_decide (c = x7d) && bool_decide (depth = 0%Z) then Some (S i)
      else find_close s (S i) depth
  end.

(** [braceRange] *)
Definition braceRange (s : bytes) (pos : nat) : Z * Z :=
  match find_open (drop pos s) pos with
  | None => (-1, -1)%Z
  | Some o => (Z.of_nat o, match find_close (drop o s) o 0 with
                           | Some c => Z.of_nat c
                           | None => len s
                           end)
  end.

(** The test of [innermost]. *)
Definition encloses (pos : Z) (t : typeRange) : bool :=
  (0 <=? tr_open t)%Z && (tr_open t <? pos)%Z && (pos <? tr_close t)%Z.

Definition innermost_step (pos : Z) (best : option typeRange) (t : typeRange) : option typeRange :=
  if encloses pos t then
    match best with
    | None => Some t
    | Some b => if (tr_open b <? tr_open t)%Z then Some t else best
    end
  else best.

(** [innermost] *)
Definition innermost (types : list typeRange) (pos : Z) : option typeRange :=
  foldl (innermost_step pos) None types.

(** [containerAt] *)
Definition containerAt (types : list typeRange) (pos : Z) : bytes :=
  match innermost types pos with Some t => tr_name t | None => [] end.

(** ** Method candidates *)

Definition notDefPreceders : list bytes :=
  map bs ["if"; "for"; "while"; "switch"; "catch"; "return"; "new"; "else"; "do"; "throw";
    "case"; "assert"; "yield"; "await"; "typeof"; "in"; "of"; "delete"; "synchronized"; "try";
    "finally"; "record"]%string.

Record methodCandidate := mkCand { c_name : bytes; c_namePos : nat; c_hasBody : bool }.

(** The bytes before a name that make it a call. *)
Definition call_context : bytes := bs ".(,=+-!&|:?{;<*/".
(** Other bytes that may come before a name. *)
Definition type_end : bytes := bs ">]};@".

(** The length of a balanced parameter list. *)
Fixpoint paren_len (depth : Z) (s : bytes) : nat :=
  match s with
  | [] => 0
  | c :: s =>
      if bool_decide (c = x28) then S (paren_len (depth + 1) s)
      else if bool_decide (c = x29) then
        if bool_decide (depth - 1 = 0)%Z then 1 else S (paren_len (depth - 1) s)
      else S (paren_len depth s)
  end.

(** What comes before a name, reversed: [None] when it makes the name no
    definition, else the word that precedes it. *)
Definition preceding (before : bytes) : option bytes :=
  match drop (span_len is_space before) before with
  | [] => None
  | c :: rest =>
      if bool_decide (c ∈ call_context) then None
      else
        let word := reverse (take (span_len isIdentByte (c :: rest)) (c :: rest)) in
        if isIdentByte c || bool_decide (c ∈ type_end) then
          if bool_decide (word ∈ notDefPreceders) then None else Some word
        else None
  end.

(** The candidate whose name is [s[start:i]]. *)
Definition candidate_at (s : bytes) (start i : nat) : option methodCandidate :=
  let name := take (i - start) (drop start s) in
  let j := skipSpace s i in
  if bool_decide (s !! j = Some x28) && negb (bool_decide (name ∈ notDefPreceders)) then
    prevWord ← preceding (reverse (take start s));
    let k := skipSpace s (j + paren_len 0 (drop j s)) in
    let k := if has_prefix (drop k s) (bs "throws")
             then k + span_len (λ c, negb (bool_decide (c = x7b) || bool_decide (c = x3b))) (drop k s)
             else k in
    match s !! k with
    | Some c =>
        if bool_decide (c = x7b) then Some (mkCand name start true)
        else if bool_decide (c = x3b) && bool_decide (prevWord ≠ []) then Some (mkCand name start false)
        else None
    | None => None
    end
  else None.

(** The loop of [methodCandidates]: [i] is the offset of the rest, [prev] the byte before it. *)
Fixpoint candidates_from (fuel : nat) (s : bytes) (i : nat) : list methodCandidate :=
  match fuel with
  | O => []
  | S fuel =>
      match s !! i with
      | None => []
      | Some c =>
          if negb (isIdentByte c) || (bool_decide (0 < i) && match s !! (i - 1) with
                                        | Some p => isIdentByte p | None => false end)
          then candidates_from fuel s (S i)
          else
            let e := i + span_len isIdentByte (drop i s) in
            match candidate_at s i e with
            | Some c => c :: candidates_from fuel s (S e)
            | None => candidates_from fuel s (S e)
            end
      end
  end.

(** [methodCandidates] *)
Definition methodCandidates (s : bytes) : list methodCandidate := candidates_from (S (length s)) s 0.

(** ** Java *)

(** [\s] *)
Definition re_space (c : byte) : bool :=
  bool_decide (c ∈ [x09; x0a; x0c; x0d; x20]).

(** [[A-Za-z_]\w*] at the start of [s]: its length, 0 when there is none. *)
Definition ident_len (s : bytes) : nat :=
  match s with
  | c :: _ => if isIdentByte c && negb (in_range 48 57 c) then span_len isIdentByte s else 0
  | [] => 0
  end.

Definition java_keywords : list bytes := map bs ["class"; "interface"; "enum"; "record"]%string.

(** [javaTypeRe] at the start of [s], after a word boundary: the keyword, and the
    offset and text of the name. *)
Definition java_type (s : bytes) : option (bytes * nat * bytes) :=
  kw ← head (filter (λ kw, has_prefix s kw = true) java_keywords);
  let n := span_len re_space (drop (length kw) s) in
  let o := length kw + n in
  let m := ident_len (drop o s) in
  if bool_decide (0 < n) && bool_decide (0 < m) then Some (kw, o, take m (drop o s)) else None.

(** [javaTypeRe.FindAllSubmatchIndex(s, -1)]: the offset, the keyword, the name and
    the end of each match. *)
Fixpoint java_types (fuel : nat) (s : bytes) (i : nat) : list (nat * bytes * bytes * nat) :=
  match fuel with
  | O => []
  | S fuel =>
      if length s <=? i then []
      else
        let boundary := negb (bool_decide (0 < i) && match s !! (i - 1) with
                                 | Some p => isIdentByte p | None => false end) in
        match (if boundary then java_type (drop i s) else None) with
        | Some (kw, o, name) =>
            (i, kw, name, i + o + length name) :: java_types fuel s (i + o + length name)
        | None => java_types fuel s (S i)
        end
  end.

(** One match of the loop over the types. *)
Definition java_type_step (s : bytes) (li : list nat) (st : option (list typeRange * list Def))
    (m : nat * bytes * bytes * nat) : option (list typeRange * list Def) :=
  '(types, defs) ← st;
  let '(m0, kind, name, m1) := m in
  let '(o, c) := braceRange s m1 in
  ln ← line li m0;
  Some (types ++ [mkRange name kind o c],
        defs ++ [mkDef name kind (containerAt types (Z.of_nat m0)) (Z.of_nat ln)]).

(** The definition of a candidate, if it is one. *)
Definition java_method (li : list nat) (types : list typeRange) (c : methodCandidate)
  : option (option Def) :=
  match innermost types (Z.of_nat (c_namePos c)) with
  | None => Some None
  | Some tr =>
      if negb (c_hasBody c) && negb (bool_decide (tr_kind tr = bs "interface")) then Some None
      else ln ← line li (c_namePos c);
           Some (Some (mkDef (c_name c) (bs "method") (tr_name tr) (Z.of_nat ln)))
  end.

(** [extractJava] *)
Definition extractJava (src : bytes) : option (list Def) :=
  let s := stripCLike src in
  let li := newLineIndex s in
  '(types, defs) ← foldl (java_type_step s li) (Some ([], [])) (java_types (S (length s)) s 0);
  methods ← mapM (java_method li types) (methodCandidates s);
  Some (defs ++ omap id methods).

(** ** Python *)

Definition blank (c : byte) : bool := bool_decide (c = x20) || bool_decide (c = x09).

(** [async[ \t]+], optional. *)
Definition skip_async (s : bytes) : bytes :=
  if has_prefix s (bs "async") then
    let n := span_len blank (drop 5 s) in if 0 <? n then drop (5 + n) s else s
  else s.

(** [pyDefRe.FindSubmatch]: the indentation, the keyword and the name. *)
Definition py_def (l : bytes) : option (nat * bytes * bytes) :=
  let indent := span_len blank l in
  let s := skip_async (drop indent l) in
  kw ← head (filter (λ kw, has_prefix s kw = true) [bs "def"; bs "class"]);
  let n := span_len blank (drop (length kw) s) in
  let r := drop (length kw + n) s in
  if bool_decide (0 < n) && bool_decide (0 < ident_len r) then Some (indent, kw, take (ident_len r) r)
  else None.

Record frame := mkFrame { f_name : bytes; f_indent : nat; f_class : bool }.

(** The stack without the frames indented as much or more; its top comes first. *)
Fixpoint pop_frames (stack : list frame) (indent : nat) : list frame :=
  match stack with
  | f :: stack' => if indent <=? f_indent f then pop_frames stack' indent else stack
  | [] => []
  end.

(** One line of the loop. *)
Definition py_line (st : list frame * list Def * nat) (l : bytes) : list frame * list Def * nat :=
  let '(stack, defs, lineNo) := st in
  match py_def l with
  | None => (stack, defs, S lineNo)
  | Some (indent, kw, name) =>
      let stack := pop_frames stack indent in
      let class := bool_decide (kw = bs "class") in
      let kind := if class then bs "class"
                  else match head stack with
                       | Some f => if f_class f then bs "method" else bs "func"
                       | None => bs "func"
                       end in
      let container := match head stack with Some f => f_name f | None => [] end in
      (mkFrame name indent class :: stack,
       defs ++ [mkDef name kind container (Z.of_nat (lineNo + 1))], S lineNo)
  end.

(** [extractPython] *)
Definition extractPython (src : bytes) : list Def :=
  (foldl py_line ([], [], 0) (lines (stripPython src))).1.2.

(** ** Go *)

(** The trees of [go/ast] that the extractor looks at. *)
Inductive go_expr :=
  | Ident (name : bytes)
  | StarExpr (x : go_expr)
  | IndexExpr (x : go_expr)
  | IndexListExpr (x : go_expr)
  | OtherExpr.

Inductive go_type := StructType | InterfaceType | OtherType.

Inductive go_spec :=
  | TypeSpec (name : bytes) (type : go_type) (ln : Z)
  | OtherSpec.

Inductive go_decl :=
  | FuncDecl (name : bytes) (recv : list go_expr) (ln : Z)
  | GenDecl (is_type : bool) (specs : list go_spec)
  | OtherDecl.

(** [parser.ParseFile], with the lines of the positions: [None] when there is no tree. *)
Class GoParser := { ParseFile : bytes → option (list go_decl) }.

(** [recvTypeName] *)
Fixpoint recvTypeName (e : go_expr) : bytes :=
  match e with
  | Ident name => name
  | StarExpr x | IndexExpr x | IndexListExpr x => recvTypeName x
  | OtherExpr => []
  end.

Definition go_spec_defs (spec : go_spec) : list Def :=
  match spec with
  | TypeSpec name t ln =>
      [mkDef name (match t with StructType => bs "struct" | InterfaceType => bs "interface"
                              | OtherType => bs "type" end) [] ln]
  | OtherSpec => []
  end.

Definition go_decl_defs (d : go_decl) : list Def :=
  match d with
  | FuncDecl name [] ln => [mkDef name (bs "func") [] ln]
  | FuncDecl name (r :: _) ln => [mkDef name (bs "method") (recvTypeName r) ln]
  | GenDecl true specs => concat (map go_spec_defs specs)
  | GenDecl false _ | OtherDecl => []
  end.

(** [extractGo] *)
Definition extractGo `{GoParser} (src : bytes) : list Def :=
  match ParseFile src with
  | None => []
  | Some decls => concat (map go_decl_defs decls)
  end.

(** ** TypeScript *)

(** [FindAllSubmatchIndex(s, -1)] of the expressions of typescript.go: the offsets
    of each match and of its groups. *)
Class TSRegexps := {
  tsTypeRe : bytes → list (list Z);
  tsFuncRe : bytes → list (list Z);
  tsAliasRe : bytes → list (list Z);
  tsArrowRe : bytes → list (list Z);
  tsMethodRe : bytes → list (list Z);
}.

Definition tsNotMethods : list bytes :=
  map bs ["if"; "for"; "while"; "switch"; "catch"; "function"; "return"; "with"; "do"; "else";
    "new"; "typeof"; "await"; "yield"; "case"]%string.

(** [s[m[i]:m[i+1]]] *)
Definition group (s : bytes) (m : list Z) (i : nat) : option bytes :=
  lo ← m !! i; hi ← m !! S i; slice s lo hi.

(** [li.line(m[i])] *)
Definition line_at (li : list nat) (m : list Z) (i : nat) : option Z :=
  p ← m !! i; ln ← line li (Z.to_nat p); Some (Z.of_nat ln).

Definition ts_type (s : bytes) (li : list nat) (m : list Z) : option (typeRange * Def) :=
  kind ← group s m 2; name ← group s m 4; m1 ← m !! 1;
  let '(o, c) := braceRange s (Z.to_nat m1) in
  ln ← line_at li m 0;
  Some (mkRange name kind o c, mkDef name kind [] ln).

(** A function, alias or arrow: its name is the first group. *)
Definition ts_named (s : bytes) (li : list nat) (kind : bytes) (m : list Z) : option Def :=
  name ← group s m 2; ln ← line_at li m 0; Some (mkDef name kind [] ln).

Definition ts_method (s : bytes) (li : list nat) (classes : list typeRange) (m : list Z)
  : option (option Def) :=
  name ← group s m 2;
  if bool_decide (name ∈ tsNotMethods) then Some None
  else
    p ← m !! 2;
    match innermost classes p with
    | None => Some None
    | Some tr =>
        if bool_decide (tr_kind tr = bs "class") then
          ln ← line_at li m 2; Some (Some (mkDef name (bs "method") (tr_name tr) ln))
        else Some None
    end.

(** [extractTS] *)
Definition extractTS `{TSRegexps} (src : bytes) : option (list Def) :=
  let s := stripCLike src in
  let li := newLineIndex s in
  types ← mapM (ts_type s li) (tsTypeRe s);
  funcs ← mapM (ts_named s li (bs "func")) (tsFuncRe s);
  aliases ← mapM (ts_named s li (bs "type")) (tsAliasRe s);
  arrows ← mapM (ts_named s li (bs "func")) (tsArrowRe s);
  methods ← mapM (ts_method s li types.*1) (tsMethodRe s);
  Some (types.*2 ++ funcs ++ aliases ++ arrows ++ omap id methods).

(** ** [Extract] *)

Section Extract.
Context `{UnicodeCase} `{GoParser} `{TSRegexps}.

(** [Extract]: [None] is a panic. *)
Definition extract (path src : bytes) : option (list Def) :=
  let lang := Language path in
  if bool_decide (lang = bs "go") then Some (extractGo src)
  else if bool_decide (lang = bs "java") then extractJava src
  else if bool_decide (lang = bs "python") then Some (extractPython src)
  else if bool_decide (lang = bs "typescript") then extractTS src
  else Some [].
End Extract.

(** ** The enclosing type *)

(** The [k]-th type encloses the position, none that encloses it opens later, and
    none before it opens at the same place. *)
Definition is_innermost (types : list typeRange) (pos : Z) (t : typeRange) : Prop :=
  ∃ k, types !! k = Some t ∧ encloses pos t = true ∧
    ∀ j u, types !! j = Some u → encloses pos u = true →
      (tr_open u < tr_open t)%Z ∨ (tr_open u = tr_open t ∧ k ≤ j).

Lemma innermost_app types t pos :
  innermost (types ++ [t]) pos = innermost_step pos (innermost types pos) t.
Proof. unfold innermost. by rewrite foldl_app. Qed.

Lemma innermost_none types pos :
  innermost types pos = None ↔ ∀ t, t ∈ types → encloses pos t = false.
Proof.
  induction types as [|t types IH] using rev_ind.
  - split; [|done]. by intros _ t ?%elem_of_nil.
  - rewrite innermost_app. unfold innermost_step. split.
    + destruct (encloses pos t) eqn:E; [repeat case_match; done|].
      intros Hn u [Hu| ->%list_elem_of_singleton]%elem_of_app; [by apply IH|done].
    + intros H. rewrite (H t) by (apply elem_of_app; right; by apply list_elem_of_singleton).
      apply IH. intros u Hu. apply H, elem_of_app. by left.
Qed.

Lemma innermost_sound types pos t : innermost types pos = Some t → is_innermost types pos t.
Proof.
  revert t. induction types as [|u types IH] using rev_ind; intros t; [done|].
  rewrite innermost_app. unfold innermost_step.
  assert (∀ t, is_innermost types pos t →
    (encloses pos u = true → (tr_open u ≤ tr_open t)%Z) → is_innermost (types ++ [u]) pos t) as Hold.
  { intros x (k & Hk & He & Hj) Hu. pose proof (lookup_lt_Some _ _ _ Hk) as Hl. exists k.
    split; [by rewrite lookup_app_l|]. split; [done|]. intros j v Hv Hev.
    apply lookup_app_Some in Hv as [Hv|[Hlj Hv]]; [by eapply Hj|].
    destruct (j - length types) as [|n] eqn:En; [|done]. injection Hv as <-.
    specialize (Hu Hev). lia. }
  destruct (encloses pos u) eqn:E; [|intros Ht; apply Hold; [by apply IH|done]].
  destruct (innermost types pos) as [b|] eqn:Eb.
  - destruct (Z.ltb_spec (tr_open b) (tr_open u)); intros [= ->]; [|apply Hold; [by apply IH|lia]].
    exists (length types). split; [by rewrite lookup_app_r, Nat.sub_diag|]. split; [done|].
    destruct (IH b eq_refl) as (k & Hk & He & Hj). intros j v Hv Hev. 
    apply lookup_app_Some in Hv as [Hv|[Hlj Hv]]; [|destruct (j - length types); [|done]; injection Hv as <-; lia].
    destruct (Hj j v Hv Hev); lia.
  - intros [= ->]. exists (length types). split; [by rewrite lookup_app_r, Nat.sub_diag|].
    split; [done|]. intros j v Hv Hev.
    apply lookup_app_Some in Hv as [Hv|[Hlj Hv]]; [|destruct (j - length types); [|done]; injection Hv as <-; lia].
    apply list_elem_of_lookup_2 in Hv. rewrite (proj1 (innermost_none types pos) Eb v Hv) in Hev. done.
Qed.

Lemma is_innermost_inj types pos t u : is_innermost types pos t → is_innermost types pos u → t = u.
Proof.
  intros (k & Hk & He & Hj) (k' & Hk' & He' & Hj').
  destruct (Hj _ _ Hk' He'), (Hj' _ _ Hk He); try lia. assert (k = k') as -> by lia. congruence.
Qed.

Lemma innermost_spec types pos t : innermost types pos = Some t ↔ is_innermost types pos t.
Proof.
  split; [apply innermost_sound|]. intros Ht.
  destruct (innermost types pos) as [u|] eqn:E.
  - f_equal. eapply is_innermost_inj; [by apply innermost_sound|done].
  - destruct Ht as (k & Hk%list_elem_of_lookup_2 & He & _).
    rewrite (proj1 (innermost_none _ _) E _ Hk) in He. done.
Qed.

(** ** Braces *)

(** The depth of the braces after [s]. *)
Definition brace_depth (s : bytes) : Z :=
  (Z.of_nat (length (filter (λ c, c = x7b) s)) - Z.of_nat (length (filter (λ c, c = x7d) s)))%Z.

Lemma brace_depth_cons c s :
  brace_depth (c :: s) = ((if bool_decide (c = x7b) then 1 else 0)
    - (if bool_decide (c = x7d) then 1 else 0) + brace_depth s)%Z.
Proof.
  unfold brace_depth. rewrite !filter_cons. repeat case_bool_decide; repeat case_decide; subst; simpl; lia || done.
Qed.

Lemma find_open_spec s i o :
  find_open s i = Some o →
  i ≤ o ∧ s !! (o - i) = Some x7b ∧ ∀ k c, k < o - i → s !! k = Some c → c ≠ x7b ∧ c ≠ x3b.
Proof.
  revert i. induction s as [|a s IH]; intros i; cbn [find_open]; [done|].
  case_bool_decide as Ho; [intros [= ->]; rewrite Nat.sub_diag; subst; split; [lia|]; split; [done|]; lia|].
  case_bool_decide as Hs; [done|]. intros (Hle & Hb & Hk)%IH. 
  replace (o - i) with (S (o - S i)) by lia. split; [lia|]. split; [done|].
  intros [|k] c Hlt; cbn; [by intros [= <-]|]. apply Hk. lia.
Qed.

Lemma find_close_spec s i d c :
  (0 ≤ d)%Z → (d = 0%Z → head s = Some x7b) → find_close s i d = Some c →
  ∃ n, c = i + n ∧ 0 < n ≤ length s ∧ (d + brace_depth (take n s) = 0)%Z ∧
    ∀ k, 0 < k < n → (0 < d + brace_depth (take k s))%Z.
Proof.
  revert i d. induction s as [|a s IH]; intros i d Hd Hh; cbn [find_close]; [done|].
  set (d' := (d + _ - _)%Z). 
  assert (∀ n, (d + brace_depth (take (S n) (a :: s)) = d' + brace_depth (take n s))%Z) as Hstep.
  { intros n. simpl take. rewrite brace_depth_cons. unfold d'. lia. }
  assert (brace_depth (take 0 s) = 0%Z) as H0 by done.
  assert (a = x7d → d ≠ 0%Z) as Ha by (intros -> ->; by specialize (Hh eq_refl)).
  destruct (bool_decide (a = x7d) && bool_decide (d' = 0%Z)) eqn:E.
  - apply andb_prop in E as [E1%bool_decide_eq_true E2%bool_decide_eq_true]. intros [= <-].
    exists 1. rewrite Hstep, H0. split; [lia|]. split; [simpl; lia|]. split; [lia|]. lia.
  - intros Hf. assert (0 < d')%Z as Hd'.
    { apply andb_false_iff in E as [E%bool_decide_eq_false|E%bool_decide_eq_false].
      - unfold d'. rewrite (bool_decide_eq_false_2 _ E). case_bool_decide; [lia|].
        destruct (decide (d = 0%Z)) as [->|]; [specialize (Hh eq_refl); by injection Hh|lia].
      - unfold d' in *. revert E. repeat case_bool_decide; lia. }
    apply IH in Hf as (n & -> & Hn & Hz & Hk); [|lia|lia].
    exists (S n). rewrite Hstep. split; [lia|]. split; [simpl; lia|]. split; [done|].
    intros [|k] Hlt; [lia|]. rewrite Hstep. destruct k; [rewrite H0; lia|apply Hk; lia].
Qed.

(** The body found for a declaration that ends at [pos] starts at the first brace after it,
    before any semicolon, and ends just past the brace that closes it, the first point where
    the braces balance; an unclosed body extends to the end of the source. *)
Theorem braceRange_matches s pos o c :
  braceRange s pos = (o, c) → o ≠ (-1)%Z →
  ∃ n, o = Z.of_nat (pos + n) ∧ s !! (pos + n) = Some x7b ∧
    (∀ k b, k < n → s !! (pos + k) = Some b → b ≠ x7b ∧ b ≠ x3b) ∧
    let body := drop (pos + n) s in
    ((∃ m, c = (o + Z.of_nat m)%Z ∧ 0 < m ≤ length body ∧ brace_depth (take m body) = 0%Z ∧
       ∀ k, 0 < k < m → (0 < brace_depth (take k body))%Z) ∨
     (c = len s ∧ find_close body (pos + n) 0 = None)).
Proof.
  unfold braceRange. destruct (find_open _ _) as [p|] eqn:Ho; [|intros [= <- <-]; done].
  apply find_open_spec in Ho as (Hle & Hb & Hk). intros [= <- <-] _.
  rewrite lookup_drop in Hb. replace (pos + (p - pos)) with p in Hb by lia.
  exists (p - pos). replace (pos + (p - pos)) with p by lia. split; [done|]. split; [done|].
  split; [intros k b Hlt Hs; eapply (Hk k); [done|by rewrite lookup_drop]|].
  cbv zeta. destruct (find_close _ p 0) as [c|] eqn:Hc; [left|by right].
  apply find_close_spec in Hc as (m & -> & Hm & Hz & Hpos); [|done|by rewrite head_lookup, lookup_drop, Nat.add_0_r].
  exists m. rewrite Nat2Z.inj_add. repeat split; [lia|lia|done|]. intros k Hlt. by apply Hpos.
Qed.

Lemma braceRange_matches_witness :
  braceRange (bs "class A { f() { } } class B") 7 = (8, 19)%Z ∧ (8 ≠ -1)%Z ∧
  (bs "class A { f() { } } class B") !! 8 = Some x7b.
Proof.
  assert (braceRange (bs "class A { f() { } } class B") 7 = (8, 19)%Z) as H by (vm_compute; reflexivity).
  split; [done|]. split; [done|].
  destruct (braceRange_matches _ _ _ _ H ltac:(lia)) as (n & Hn & Hs & _).
  by replace 8 with (7 + n) by lia.
Defined.

(** ** Java *)

(** The body of each declaration. *)
Definition java_range (s : bytes) (m : nat * bytes * bytes * nat) : typeRange :=
  let '(_, kind, name, m1) := m in
  let '(o, c) := braceRange s m1 in mkRange name kind o c.

(** The definition of the declaration after those of [types]. *)
Definition java_type_def (s : bytes) (types : list typeRange) (m : nat * bytes * bytes * nat) : Def :=
  let '(m0, kind, name, _) := m in
  mkDef name kind (containerAt types (Z.of_nat m0)) (Z.of_nat (lineOf s m0)).

Lemma java_types_fold s ms types defs :
  foldl (java_type_step s (newLineIndex s)) (Some (types, defs)) ms =
  Some (types ++ map (java_range s) ms,
        defs ++ imap (λ k m, java_type_def s (types ++ take k (map (java_range s) ms)) m) ms).
Proof.
  revert types defs. induction ms as [|m ms IH]; intros types defs; simpl foldl; [by rewrite !app_nil_r|].
  destruct m as [[[m0 kind] name] m1] eqn:Em. cbn [mbind option_bind java_type_step].
  destruct (braceRange s m1) as [o c] eqn:Eb. rewrite line_spec. cbn [mbind option_bind].
  rewrite IH. simpl map. rewrite Eb, <-!app_assoc. simpl. rewrite app_nil_r. do 3 f_equal. f_equal.
  apply imap_ext. intros k x _. simpl. by rewrite <-app_assoc.
Qed.

(** The definition of a method found at a candidate. *)
Definition is_method (s : bytes) (types : list typeRange) (d : Def) (c : methodCandidate) : Prop :=
  ∃ t, is_innermost types (Z.of_nat (c_namePos c)) t ∧
    (c_hasBody c = true ∨ tr_kind t = bs "interface") ∧
    d = mkDef (c_name c) (bs "method") (tr_name t) (Z.of_nat (lineOf s (c_namePos c))).

Lemma java_method_spec s types c :
  ∃ r, java_method (newLineIndex s) types c = Some r ∧ ∀ d, r = Some d ↔ is_method s types d c.
Proof.
  unfold java_method, is_method. destruct (innermost types _) as [t|] eqn:E.
  - apply innermost_sound in E.
    assert (∀ u, is_innermost types (Z.of_nat (c_namePos c)) u → u = t) as Hu
      by (intros; by eapply is_innermost_inj).
    destruct (decide (c_hasBody c = true ∨ tr_kind t = bs "interface")) as [Hk|Hk].
    + replace (negb _ && negb _) with false; [rewrite line_spec; cbn [mbind option_bind]; eexists; split; [done|]|].
      * intros d. split; [intros [= <-]; eauto|]. by intros (u & ->%Hu & _ & ->).
      * destruct Hk as [->|Hk]; [done|]. rewrite (bool_decide_eq_true_2 _ Hk). by destruct (c_hasBody c).
    + apply Decidable.not_or in Hk as [Hb Hk]. rewrite (bool_decide_eq_false_2 _ Hk).
      apply not_true_is_false in Hb as Hb'. rewrite Hb'. exists None. split; [done|]. intros d.
      split; [done|]. by intros (u & ->%Hu & [|] & _).
  - exists None. split; [done|]. intros d. split; [done|]. intros (t & Ht%innermost_spec & _). congruence.
Qed.

Lemma java_methods s types cs :
  ∃ ms : list (option Def), mapM (java_method (newLineIndex s) types) cs = Some ms ∧
    ∀ d, d ∈ omap id ms ↔ ∃ c, c ∈ cs ∧ is_method s types d c.
Proof.
  induction cs as [|c cs (ms & IH & Hms)].
  - exists []. split; [done|]. intros d. split; [by intros ?%elem_of_nil|]. by intros (? & ?%elem_of_nil & _).
  - destruct (java_method_spec s types c) as (r & Hr & Hd). exists (r :: ms).
    split; [simpl; by rewrite Hr, IH|]. intros d.
    rewrite list_elem_of_omap. setoid_rewrite elem_of_cons. split.
    + intros (x & [->|Hx] & Hid); [apply Hd in Hid; eauto|].
      assert (d ∈ omap id ms) as (c' & ? & ?)%Hms by (apply list_elem_of_omap; eauto). eauto.
    + intros (c' & [->|Hc] & Hm); [apply Hd in Hm; eauto|].
      assert (d ∈ omap id ms) as (x & ? & ?)%list_elem_of_omap by (apply Hms; eauto). eauto.
Qed.

(** C29. [extractJava] never panics.  Its definitions are one per declaration the expression
    finds, in order, named with its line and with the innermost of the declarations before it
    that enclose it, then the methods: exactly the candidates inside a declaration, with a body
    unless the innermost one is an interface, attributed to that innermost declaration and to
    the line of their name in the original source. *)
Theorem extractJava_spec src :
  let s := stripCLike src in
  let ms := java_types (S (length s)) s 0 in
  let types := map (java_range s) ms in
  ∃ methods,
    extractJava src = Some (imap (λ k m, java_type_def src (take k types) m) ms ++ methods) ∧
    ∀ d, d ∈ methods ↔ ∃ c, c ∈ methodCandidates s ∧ is_method src types d c.
Proof.
  intros s ms types. assert (∀ p, lineOf s p = lineOf src p) as Hline
    by (intros; apply blanked_lineOf, strip_c_blanked).
  unfold extractJava. fold s. fold ms. rewrite java_types_fold. cbn [mbind option_bind app]. fold types.
  destruct (java_methods s types (methodCandidates s)) as (rs & -> & Hrs).
  exists (omap id rs). simpl. split.
  - do 2 f_equal. apply imap_ext. intros k [[[m0 kind] name] m1] _. simpl. by rewrite Hline.
  - intros d. rewrite Hrs. unfold is_method. by setoid_rewrite Hline.
Qed.
