(* ===== verification/Refs.v ===== *)
(** * References: internal/symbol/refs.go

    [Refs] looks for the occurrences of a name between identifier boundaries in
    the stripped source and reports one reference a line, except on the lines that
    define the name.  The loop advances past each occurrence, so it needs a
    non-empty name. *)

From S2P Require Import Prelude GoBytes Text Lines Regexp Symbol Strip Extract.

(** [Ref] *)
Record Ref := mkRef { r_Line : nat; r_IsCall : bool }.

#[export] Instance ref_eq_dec : EqDecision Ref.
Proof. solve_decision. Defined.

(** An identifier byte at an offset, or before it. *)
Definition ident_at (s : bytes) (i : nat) : bool :=
  match s !! i with Some c => isIdentByte c | None => false end.
Definition ident_before (s : bytes) (i : nat) : bool :=
  match i with O => false | S i => ident_at s i end.

(** The occurrence of the name in [s[pos:off]] is a call: a parenthesis follows or [new] precedes. *)
Definition is_call (s : bytes) (pos off : nat) : bool :=
  bool_decide (s !! skipSpace s off = Some x28) ||
  let before := reverse (take pos s) in
  has_prefix (drop (span_len blank before) before) (reverse (bs "new")).

(** The loop of [Refs]; [seen] is [seenLine], [None] for -1.  The result is [None] when the
    fuel ends. *)
Fixpoint refs_loop (fuel : nat) (s needle : bytes) (li : list nat) (defLines : list Z)
    (off : nat) (seen : option nat) : option (list Ref) :=
  match fuel with
  | O => None
  | S fuel =>
      match index (drop off s) needle with
      | None => Some []
      | Some i =>
          let pos := off + i in
          let off := pos + length needle in
          if ident_before s pos || ident_at s off
          then refs_loop fuel s needle li defLines off seen
          else
            ln ← line li pos;
            if bool_decide (Z.of_nat ln ∈ defLines) || bool_decide (seen = Some ln)
            then refs_loop fuel s needle li defLines off seen
            else
              refs ← refs_loop fuel s needle li defLines off (Some ln);
              Some (mkRef ln (is_call s pos off) :: refs)
      end
  end.

(** The lines of the definitions of [name]. *)
Definition def_lines (name : bytes) (defs : list Def) : list Z :=
  d_Line <$> filter (λ d, d_Name d = name) defs.

Section Refs.
Context `{UnicodeCase} `{GoParser} `{TSRegexps}.

(** [Refs], with fuel for its loop. *)
Definition Refs (fuel : nat) (path src name : bytes) : option (list Ref) :=
  let s := Strip (Language path) src in
  defs ← extract path src;
  refs_loop fuel s name (newLineIndex s) (def_lines name defs) 0 None.
End Refs.

(** ** What is reported *)

(** [name] occurs at [pos] between identifier boundaries. *)
Definition word_at (s name : bytes) (pos : nat) : Prop :=
  occurs_at s name pos ∧ ident_before s pos = false ∧ ident_at s (pos + length name) = false.

(** The first occurrence on its line, from [off], on a line that is not excluded. *)
Definition first_word (s name : bytes) (defLines : list Z) (off : nat) (seen : option nat) (pos : nat) : Prop :=
  off ≤ pos ∧ word_at s name pos ∧ (Z.of_nat (lineOf s pos) ∉ defLines) ∧ seen ≠ Some (lineOf s pos) ∧
  ∀ p, off ≤ p < pos → word_at s name p → lineOf s p ≠ lineOf s pos.

Definition ref_at (s name : bytes) (pos : nat) : Ref :=
  mkRef (lineOf s pos) (is_call s pos (pos + length name)).

Lemma lineOf_mono s p q : p ≤ q → lineOf s p ≤ lineOf s q.
Proof.
  revert p q. induction s as [|c s IH]; intros p q Hle; [by destruct p, q|].
  destruct p as [|p], q as [|q]; simpl; try lia.
  - pose proof (lineOf_pos s q). lia.
  - specialize (IH p q). lia.
Qed.

Lemma occurs_at_drop s sub off i : off ≤ length s → (occurs_at (drop off s) sub i ↔ occurs_at s sub (off + i)).
Proof. intros Hl. unfold occurs_at. rewrite length_drop, drop_drop. split; intros [? ?]; (split; [lia|done]). Qed.

(** Occurrences of a name made of identifier bytes at boundaries do not overlap others. *)
Lemma word_no_overlap s name p q :
  Forall (λ c, isIdentByte c = true) name → occurs_at s name p → p < q < p + length name → ¬ word_at s name q.
Proof.
  intros Hn (_ & post & Hp) Hq (_ & Hb & _). destruct q as [|q]; [lia|].
  unfold ident_before, ident_at in Hb.
  assert (s !! q = name !! (q - p)) as Heq.
  { replace q with (p + (q - p)) at 1 by lia. rewrite <-lookup_drop, Hp. apply lookup_app_l. lia. }
  destruct (lookup_lt_is_Some_2 name (q - p) ltac:(lia)) as [c Hc].
  rewrite Heq, Hc in Hb. rewrite Forall_forall in Hn.
  specialize (Hn c (list_elem_of_lookup_2 _ _ _ Hc)). congruence.
Qed.

Section Loop.
Context (s name : bytes) (defLines : list Z).
Hypothesis Hname : Forall (λ c, isIdentByte c = true) name.
Hypothesis Hnil : name ≠ [].

Let li := newLineIndex s.

Lemma name_pos : 0 < length name.
Proof. destruct name; [done|simpl; lia]. Qed.

(** No occurrence at a boundary lies between [off] and the end of the first one, but itself. *)
Lemma first_index off i p :
  off ≤ length s → index (drop off s) name = Some i → off ≤ p < off + i + length name → word_at s name p →
  p = off + i.
Proof.
  intros Hl [Ho Hm]%index_Some Hp Hw. apply occurs_at_drop in Ho; [|done].
  destruct (decide (p < off + i)) as [Hlt|Hge].
  - destruct Hw as (Hw & _). exfalso. apply (Hm (p - off)); [lia|].
    apply occurs_at_drop; [done|]. by replace (off + (p - off)) with p by lia.
  - destruct (decide (p = off + i)) as [|Hne]; [done|].
    exfalso. by apply (word_no_overlap s name (off + i) p Hname Ho ltac:(lia)).
Qed.

(** Skipping an occurrence that is not reported. *)
Lemma first_word_skip off i seen pos :
  off ≤ length s → index (drop off s) name = Some i →
  (word_at s name (off + i) →
     Z.of_nat (lineOf s (off + i)) ∈ defLines ∨ seen = Some (lineOf s (off + i))) →
  first_word s name defLines off seen pos ↔
  first_word s name defLines (off + i + length name) seen pos.
Proof.
  intros Hl Hi Hskip. split.
  - intros (Hle & Hw & Hd & Hs & Hf). destruct (decide (pos < off + i + length name)) as [Hlt|Hge].
    + assert (pos = off + i) as -> by (apply first_index; (done || lia)).
      destruct (Hskip Hw); [done|congruence].
    + split_and!; try done; [lia|]. intros p ?. apply Hf. lia.
  - intros (Hle & Hw & Hd & Hs & Hf). split_and!; try done; [lia|]. intros p Hp Hwp Heq.
    destruct (decide (p < off + i + length name)) as [Hlt|Hge]; [|apply (Hf p); [lia|done..]].
    assert (p = off + i) as -> by (apply first_index; (done || lia)).
    destruct (Hskip Hwp); congruence.
Qed.

(** Reporting one. *)
Lemma first_word_take off i seen pos :
  off ≤ length s → index (drop off s) name = Some i →
  word_at s name (off + i) → Z.of_nat (lineOf s (off + i)) ∉ defLines → seen ≠ Some (lineOf s (off + i)) →
  (∀ q, off + i ≤ q → word_at s name q → seen ≠ Some (lineOf s q)) →
  first_word s name defLines off seen pos ↔
  pos = off + i ∨ first_word s name defLines (off + i + length name) (Some (lineOf s (off + i))) pos.
Proof.
  intros Hl Hi Hw Hd Hs Hlater. split.
  - intros (Hle & Hwp & Hdp & Hsp & Hf). destruct (decide (pos < off + i + length name)) as [Hlt|Hge].
    + left. by apply first_index.
    + right. split_and!; try done; [lia| |intros p ?; apply Hf; lia].
      intros [= Heq]. pose proof name_pos. by apply (Hf (off + i)); [lia|..].
  - intros [->|(Hle & Hwp & Hdp & Hsp & Hf)].
    + split_and!; try done; [lia|]. intros p Hp Hwp.
      pose proof name_pos. pose proof (first_index off i p Hl Hi ltac:(lia) Hwp). lia.
    + split_and!; try done; [lia|apply Hlater; [lia|done]|]. intros p Hp Hwp' Heq.
      destruct (decide (p < off + i + length name)) as [Hlt|Hge]; [|apply (Hf p); [lia|done..]].
      assert (p = off + i) as -> by (apply first_index; (done || lia)). congruence.
Qed.

Lemma refs_loop_spec fuel off seen :
  off ≤ length s → length s - off < fuel → (∀ l, seen = Some l → l ≤ lineOf s off) →
  ∃ refs, refs_loop fuel s name li defLines off seen = Some refs ∧
    StronglySorted lt (r_Line <$> refs) ∧
    ∀ r, r ∈ refs ↔ ∃ pos, first_word s name defLines off seen pos ∧ r = ref_at s name pos.
Proof.
  revert off seen. induction fuel as [|fuel IH]; intros off seen Hl Hf Hseen; [lia|]. cbn [refs_loop].
  destruct (index (drop off s) name) as [i|] eqn:Hi.
  - assert (occurs_at s name (off + i)) as Ho
      by (apply index_Some in Hi as [Ho _]; by apply occurs_at_drop in Ho).
    pose proof (occurs_at_bound _ _ _ Ho) as Hb.
    pose proof name_pos as Hpos.
    assert (∀ p, off ≤ p → lineOf s off ≤ lineOf s p) as Hmono by (intros; by apply lineOf_mono).
    assert (lineOf s off ≤ lineOf s (off + i + length name)) as Hm' by (apply Hmono; lia).
    assert ((word_at s name (off + i) →
        Z.of_nat (lineOf s (off + i)) ∈ defLines ∨ seen = Some (lineOf s (off + i))) →
      ∃ refs, refs_loop fuel s name li defLines (off + i + length name) seen = Some refs ∧
        StronglySorted lt (r_Line <$> refs) ∧
        ∀ r, r ∈ refs ↔ ∃ pos, first_word s name defLines off seen pos ∧ r = ref_at s name pos) as Hskip.
    { intros Hs. destruct (IH (off + i + length name) seen) as (refs & Hr & Hsort & Hin); [lia..| |].
      - intros l Hls. specialize (Hseen l Hls). lia.
      - exists refs. split; [done|]. split; [done|]. intros r. rewrite Hin.
        by setoid_rewrite (first_word_skip off i seen _ Hl Hi Hs). }
    destruct (ident_before s (off + i) || ident_at s (off + i + length name)) eqn:Eb.
    + apply Hskip. intros (_ & H1 & H2). by rewrite H1, H2 in Eb.
    + apply orb_false_iff in Eb as [Eb1 Eb2]. unfold li. rewrite line_spec. cbn [mbind option_bind].
      destruct (bool_decide (Z.of_nat _ ∈ defLines) || _) eqn:Ed.
      * apply Hskip. intros _. apply orb_true_iff in Ed.
        by rewrite !bool_decide_eq_true in Ed.
      * apply orb_false_iff in Ed as [Ed1%bool_decide_eq_false Ed2%bool_decide_eq_false].
        destruct (IH (off + i + length name) (Some (lineOf s (off + i)))) as (refs & Hr & Hsort & Hin); [lia..| |].
        { intros l [= <-]. apply lineOf_mono. lia. }
        fold li. rewrite Hr. cbn [mbind option_bind]. eexists. split; [done|]. split.
        -- cbn [fmap list_fmap r_Line]. apply StronglySorted_cons. split; [|done].
           apply Forall_forall. intros l (r & -> & (pos & (Hle & _ & _ & Hne & _) & ->)%Hin)%list_elem_of_fmap.
           cbn [ref_at r_Line]. pose proof (lineOf_mono s (off + i) pos ltac:(lia)). 
           assert (lineOf s (off + i) ≠ lineOf s pos) by congruence. lia.
        -- intros r. rewrite elem_of_cons, Hin.
           assert (∀ q, off + i ≤ q → word_at s name q → seen ≠ Some (lineOf s q)) as Hlater.
           { intros q Hq _ ->. pose proof (Hseen _ eq_refl).
             pose proof (Hmono (off + i) ltac:(lia)). pose proof (lineOf_mono s (off + i) q Hq).
             apply Ed2. f_equal. lia. }
           setoid_rewrite (first_word_take off i seen _ Hl Hi (conj Ho (conj Eb1 Eb2)) Ed1 Ed2 Hlater).
           unfold ref_at at 2. naive_solver.
  - exists []. split; [done|]. split; [constructor|]. intros r. split; [by intros ?%elem_of_nil|].
    intros (pos & (Hle & (Ho & _) & _) & _). exfalso.
    apply (proj1 (index_None _ _) Hi (pos - off)). apply occurs_at_drop; [done|].
    by replace (off + (pos - off)) with pos by lia.
Qed.
End Loop.

Section Spec.
Context `{UnicodeCase} `{GoParser} `{TSRegexps}.

(** C28. For a non-empty name made of identifier bytes, [Refs] ends once its fuel exceeds the
    length of the source.  It reports lines in increasing order, each once, and exactly these:
    the first occurrence of the name between identifier boundaries on a line of the stripped
    source, unless a definition of that name starts on the line; the reference is a call when
    that first occurrence is. *)
Theorem Refs_exact path src name defs fuel :
  Forall (λ c, isIdentByte c = true) name → name ≠ [] →
  extract path src = Some defs → length src < fuel →
  let s := Strip (Language path) src in
  ∃ refs, Refs fuel path src name = Some refs ∧ StronglySorted lt (r_Line <$> refs) ∧
    ∀ r, r ∈ refs ↔ ∃ pos, word_at s name pos ∧ r_Line r = lineOf src pos ∧
      r_IsCall r = is_call s pos (pos + length name) ∧
      (∀ d, d ∈ defs → d_Name d = name → d_Line d ≠ Z.of_nat (lineOf src pos)) ∧
      (∀ p, p < pos → word_at s name p → lineOf src p ≠ lineOf src pos).
Proof.
  intros Hid Hne He Hf s.
  assert (length s = length src) as Hlen by (eapply blanked_length, Strip_blanked).
  assert (∀ p, lineOf s p = lineOf src p) as Hline by (intros; eapply blanked_lineOf, Strip_blanked).
  unfold Refs. rewrite He. cbn [mbind option_bind]. fold s.
  destruct (refs_loop_spec s name (def_lines name defs) Hid Hne fuel 0 None) as (refs & -> & Hsort & Hin);
    [lia..|done|].
  exists refs. split; [done|]. split; [done|]. intros r. rewrite Hin. unfold first_word, def_lines, ref_at.
  split.
  - intros (pos & (_ & Hw & Hd & _ & Hp) & ->). exists pos. cbn. rewrite Hline in *.
    split_and!; [done..| |intros p ?; rewrite <-(Hline p); apply Hp; lia].
    intros d Hin' Hn Hl. apply Hd. rewrite <-Hl. apply list_elem_of_fmap_2, list_elem_of_filter. done.
  - intros (pos & Hw & Hl & Hc & Hd & Hp). exists pos. rewrite Hline.
    split; [|destruct r; cbn in *; congruence]. split_and!; [lia|done| |done|].
    + intros (d & Heq & [Hn Hin']%list_elem_of_filter)%list_elem_of_fmap. by apply (Hd d).
    + intros p Hlt. rewrite Hline. apply Hp. lia.
Qed.

(** With an empty name the offset never advances: no fuel is enough, the loop of the source
    does not end. *)
Theorem Refs_empty_name fuel path src : Refs fuel path src [] = None.
Proof.
  unfold Refs. destruct (extract path src) as [defs|]; [|done]. cbn [mbind option_bind].
  generalize (Strip (Language path) src) as s. intros s. generalize (@None nat) as seen.
  assert (∀ (t : bytes), index t [] = Some 0) as Hi.
  { intros t. apply index_Some. split; [split; [lia|apply prefix_nil]|lia]. }
  induction fuel as [|fuel IH]; intros seen; [done|]. cbn [refs_loop]. rewrite Hi. cbn [length Nat.add].
  rewrite line_spec. cbn [mbind option_bind].
  destruct (ident_before _ _ || _); [apply IH|]. destruct (bool_decide _ || _); [apply IH|].
  by rewrite IH.
Qed.
End Spec.

Lemma Refs_exact_witness :
  ∃ (_ : UnicodeCase) (_ : GoParser) (_ : TSRegexps),
  let src := bs "def f(x): return 1" ++ [newline] ++ bs "y = f(2) + f(3) # f(4)" ++ [newline] ++ bs "g(f)" in
  ∃ refs, Refs 100 (bs "a.py") src (bs "f") = Some refs ∧ refs = [mkRef 2 true; mkRef 3 false] ∧
    StronglySorted lt (r_Line <$> refs).
Proof.
  exists latin1_case, {| ParseFile := λ _, None |},
    {| tsTypeRe := λ _, []; tsFuncRe := λ _, []; tsAliasRe := λ _, []; tsArrowRe := λ _, [];
       tsMethodRe := λ _, [] |}.
  intros src.
  destruct (Refs_exact (H := latin1_case) (H0 := {| ParseFile := λ _, None |})
    (H1 := {| tsTypeRe := λ _, []; tsFuncRe := λ _, []; tsAliasRe := λ _, []; tsArrowRe := λ _, [];
       tsMethodRe := λ _, [] |}) (bs "a.py") src (bs "f")
    [mkDef (bs "f") (bs "func") [] 1] 100) as (refs & Hr & Hs & _).
  - by repeat constructor.
  - done.
  - vm_compute. reflexivity.
  - vm_compute. lia.
  - exists refs. split; [done|]. split; [|done].
    assert (Refs (H := latin1_case) (H0 := {| ParseFile := λ _, None |})
    (H1 := {| tsTypeRe := λ _, []; tsFuncRe := λ _, []; tsAliasRe := λ _, []; tsArrowRe := λ _, [];
       tsMethodRe := λ _, [] |}) 100 (bs "a.py") src (bs "f") = Some [mkRef 2 true; mkRef 3 false]) as E
      by (vm_compute; reflexivity).
    congruence.
Defined.
