(* ===== verification/Index.v ===== *)
(** * The in-memory engine: internal/index/index.go

    [Index] keeps file entries in insertion order; an update tombstones the
    old entry and appends a new one, and compaction rebuilds everything.
    [contents] is the abstract state, a map from paths to live entries: the
    operations refine insertion, deletion and filtering of that map
    ([AddWithKeys_refines] and the others), and [Search] answers as a scan of that map. *)

From S2P Require Import Prelude GoBytes Trigram Text Lines Regexp Literal Symbol.

Definition compactMinDead : Z := 64.
Definition compactDeadRatio : Z := 4.

Record FileMeta := mkMeta { Path : bytes; Size : Z; MtimeNS : Z }.

(** [fileEntry] *)
Record fileEntry := mkEntry {
  e_meta : FileMeta;
  e_content : bytes;
  e_defs : list Def;
  e_dead : bool;
}.

(** [Index]; [nDead] is its field [dead]. *)
Record Index := mkIndex {
  ix_root : bytes;
  files : list fileEntry;
  byPath : gmap bytes Z;
  tri : gmap Z (list Z);
  nDead : Z;
}.

(** [New] *)
Definition New (root : bytes) : Index := mkIndex root [] ∅ ∅ 0.

Definition set_dead (f : fileEntry) : fileEntry :=
  mkEntry (e_meta f) (e_content f) (e_defs f) true.

(** [tri[k] = append(tri[k], id)] *)
Definition postings (tr : gmap Z (list Z)) (k : Z) : list Z := default [] (tr !! k).
Definition add_posting (id : Z) (tr : gmap Z (list Z)) (k : Z) : gmap Z (list Z) :=
  <[k := postings tr k ++ [id]]> tr.

Section Index.
Context `{MapOrder}.

(** ** Updates *)

(** [removeLocked] *)
Definition removeLocked (ix : Index) (path : bytes) : option Index :=
  match byPath ix !! path with
  | None => Some ix
  | Some id =>
      f ← idx (files ix) id;
      Some (mkIndex (ix_root ix) (<[Z.to_nat id := set_dead f]> (files ix))
              (delete path (byPath ix)) (tri ix) (nDead ix + 1))
  end.

(** The loop of [maybeCompactLocked] over the live files, from index [id]. *)
Fixpoint rebuild_loop (id : nat) (fs : list fileEntry) (bp : gmap bytes Z)
    (tr : gmap Z (list Z)) : gmap bytes Z * gmap Z (list Z) :=
  match fs with
  | [] => (bp, tr)
  | f :: fs' =>
      rebuild_loop (S id) fs' (<[Path (e_meta f) := u32 (Z.of_nat id)]> bp)
        (foldl (add_posting (u32 (Z.of_nat id))) tr
           (range_set (trigramsOf (e_content f) ∅)))
  end.

(** [maybeCompactLocked] *)
Definition maybeCompactLocked (ix : Index) : Index :=
  if (nDead ix <? compactMinDead)%Z
     || (nDead ix * compactDeadRatio <? len (files ix) - nDead ix)%Z then ix
  else
    let fs := filter (λ f, e_dead f = false) (files ix) in
    let '(bp, tr) := rebuild_loop 0 fs ∅ ∅ in
    mkIndex (ix_root ix) fs bp tr 0.

(** [AddWithKeys] *)
Definition AddWithKeys (ix : Index) (meta : FileMeta) (content : bytes)
    (keys : list Z) (defs : list Def) : option Index :=
  ix ← removeLocked ix (Path meta);
  let id := u32 (len (files ix)) in
  Some (maybeCompactLocked
    (mkIndex (ix_root ix) (files ix ++ [mkEntry meta content defs false])
       (<[Path meta := id]> (byPath ix)) (foldl (add_posting id) (tri ix) keys) (nDead ix))).

(** [Add] *)
Definition Add `{SymbolExtractor} (ix : Index) (meta : FileMeta) (content : bytes)
  : option Index :=
  AddWithKeys ix meta content (TrigramKeys content) (Extract (Path meta) content).

(** [Remove] *)
Definition Remove (ix : Index) (path : bytes) : option Index :=
  ix ← removeLocked ix path;
  Some (maybeCompactLocked ix).

(** The test [p == dir || len(p) > len(prefix) && p[:len(prefix)] == prefix]. *)
Definition under_dir (dir p : bytes) : bool :=
  let prefix := dir ++ [slash] in
  bool_decide (p = dir) || ((len prefix <? len p)%Z && bool_decide (take (length prefix) p = prefix)).

(** [RemovePrefix]: entries are deleted from the map while it is ranged over. *)
Definition RemovePrefix (ix : Index) (dir : bytes) : option Index :=
  ix ← foldl (λ ix p, ix ← ix; if under_dir dir p then removeLocked ix p else Some ix)
         (Some ix) (range (byPath ix)).*1;
  Some (maybeCompactLocked ix).
End Index.

(** ** The invariant and the abstract state *)

(** [live fs n f]: [f] is the entry at position [n] and not a tombstone. *)
Definition live (fs : list fileEntry) (n : nat) (f : fileEntry) : Prop :=
  fs !! n = Some f ∧ e_dead f = false.

(** [byPath] holds exactly the live entries, each under its path; the postings
    of a trigram are the increasing positions of the entries, tombstones
    included, whose content has it. *)
Record core_ok (fs : list fileEntry) (bp : gmap bytes Z) (tr : gmap Z (list Z)) : Prop := {
  core_bp p id : bp !! p = Some id ↔ ∃ n f, id = Z.of_nat n ∧ live fs n f ∧ Path (e_meta f) = p;
  core_inc k : increasing (postings tr k);
  core_tri k id : id ∈ postings tr k ↔
    ∃ n f, id = Z.of_nat n ∧ fs !! n = Some f ∧ has_tri (e_content f) k;
}.

Definition dead_count (fs : list fileEntry) : nat := length (filter (λ f, e_dead f = true) fs).

Record index_ok (ix : Index) : Prop := {
  ok_core : core_ok (files ix) (byPath ix) (tri ix);
  ok_dead : nDead ix = Z.of_nat (dead_count (files ix));
  ok_len : (len (files ix) ≤ 2 ^ 32)%Z;
}.

(** The abstract state: the live entry of each path. *)
Definition contents (ix : Index) : gmap bytes fileEntry := omap (idx (files ix)) (byPath ix).

Lemma contents_Some ix p f :
  index_ok ix →
  contents ix !! p = Some f ↔ ∃ n, live (files ix) n f ∧ Path (e_meta f) = p.
Proof.
  intros [Hc _ _]. unfold contents. rewrite lookup_omap_Some. split.
  - intros (id & Hf & (n & g & -> & [Hg Hd] & Hp)%(core_bp _ _ _ Hc)).
    rewrite idx_nat in Hf. simplify_eq. exists n. by split.
  - intros (n & [Hf Hd] & Hp). exists (Z.of_nat n). rewrite idx_nat. split; [done|].
    apply (core_bp _ _ _ Hc). exists n, f. by split_and!.
Qed.

Lemma byPath_contents ix p id :
  index_ok ix → byPath ix !! p = Some id →
  ∃ n f, id = Z.of_nat n ∧ files ix !! n = Some f ∧ contents ix !! p = Some f.
Proof.
  intros Hok Hp. pose proof Hok as [Hc _ _].
  apply (core_bp _ _ _ Hc) in Hp as (n & f & -> & [Hf Hd] & Hpf).
  exists n, f. split_and!; [done..|]. apply contents_Some; [done|]. exists n. by split.
Qed.

Lemma byPath_None ix p : index_ok ix → byPath ix !! p = None ↔ contents ix !! p = None.
Proof.
  intros Hok. unfold contents. rewrite lookup_omap. destruct (byPath ix !! p) as [id|] eqn:E; simpl.
  - destruct (byPath_contents ix p id Hok E) as (n & f & -> & Hf & _). by rewrite idx_nat, Hf.
  - done.
Qed.

(** ** Postings *)

Lemma postings_insert tr k l k' :
  postings (<[k := l]> tr) k' = if decide (k = k') then l else postings tr k'.
Proof.
  unfold postings. destruct (decide (k = k')) as [->|]; [by rewrite lookup_insert_eq|].
  by rewrite lookup_insert_ne.
Qed.

Lemma postings_fold id keys tr k :
  NoDup keys →
  postings (foldl (add_posting id) tr keys) k =
    postings tr k ++ (if decide (k ∈ keys) then [id] else []).
Proof.
  revert tr. induction keys as [|k0 keys IH]; intros tr Hnd; simpl.
  { by rewrite app_nil_r. }
  apply NoDup_cons in Hnd as [Hk0 Hnd]. rewrite IH by done. unfold add_posting at 1.
  rewrite postings_insert. destruct (decide (k ∈ k0 :: keys)) as [Hin|Hin];
    destruct (decide (k0 = k)) as [->|Hne]; destruct (decide (k ∈ keys)) as [Hk|Hk];
    rewrite ?app_nil_r; set_solver.
Qed.

(** Appending a live entry under a path that has none. *)
Lemma core_snoc fs bp tr f keys :
  core_ok fs bp tr → e_dead f = false → bp !! Path (e_meta f) = None →
  NoDup keys → (∀ k, k ∈ keys ↔ has_tri (e_content f) k) →
  core_ok (fs ++ [f]) (<[Path (e_meta f) := len fs]> bp)
    (foldl (add_posting (len fs)) tr keys).
Proof.
  intros [Hb Hi Ht] Hd Hnone Hnd Hk. split.
  - intros p id. destruct (decide (Path (e_meta f) = p)) as [<-|Hne].
    + rewrite lookup_insert_eq. split.
      * intros [= <-]. exists (length fs), f. split_and!; [done| |done].
        split; [|done]. by rewrite lookup_app_r, Nat.sub_diag by done.
      * intros (n & g & -> & [Hg Hgd] & Hp).
        apply lookup_snoc_Some in Hg as [[Hn Hg]|[-> <-]]; [|done].
        assert (bp !! Path (e_meta f) = Some (Z.of_nat n)); [|congruence].
        apply Hb. exists n, g. by split_and!.
    + rewrite lookup_insert_ne by done. rewrite Hb. unfold live.
      setoid_rewrite lookup_snoc_Some. split.
      * intros (n & g & -> & [Hg ?] & ?). exists n, g. split_and!; [done| |done|done].
        left. split; [by eapply lookup_lt_Some|done].
      * intros (n & g & -> & [[[? ?]|[-> ->]] ?] & ?); [|done]. exists n, g. by split_and!.
  - intros k. rewrite postings_fold by done. destruct (decide (k ∈ keys)).
    + apply increasing_snoc; [done|].
      intros y (n & g & -> & Hg%lookup_lt_Some & _)%Ht. unfold len. lia.
    + by rewrite app_nil_r.
  - intros k id. rewrite postings_fold by done. rewrite elem_of_app, Ht.
    setoid_rewrite lookup_snoc_Some. split.
    + intros [(n & g & -> & Hg & ?)|Hid].
      * exists n, g. split_and!; [done| |done]. left. split; [by eapply lookup_lt_Some|done].
      * destruct (decide (k ∈ keys)) as [Hkk|]; [|by apply elem_of_nil in Hid].
        apply list_elem_of_singleton in Hid as ->. exists (length fs), f.
        split_and!; [done|by right|by apply Hk].
    + intros (n & g & -> & [[? ?]|[-> <-]] & Hg); [left; by exists n, g|right].
      rewrite decide_True by by apply Hk. by left.
Qed.

Lemma core_live_inj fs bp tr n m f g :
  core_ok fs bp tr → live fs n f → live fs m g → Path (e_meta f) = Path (e_meta g) → n = m.
Proof.
  intros [Hb _ _] Hf Hg Hp.
  apply Nat2Z.inj, (inj Some). rewrite <-(proj2 (Hb (Path (e_meta f)) (Z.of_nat n))).
  - apply Hb. exists m, g. by rewrite Hp.
  - by exists n, f.
Qed.

(** Tombstoning the entry of a path. *)
Lemma core_remove fs bp tr n f :
  core_ok fs bp tr → live fs n f →
  core_ok (<[n := set_dead f]> fs) (delete (Path (e_meta f)) bp) tr.
Proof.
  intros Hc [Hf Hd]. pose proof Hc as [Hb Hi Ht]. pose proof (lookup_lt_Some _ _ _ Hf) as Hlt.
  assert (∀ m g, <[n := set_dead f]> fs !! m = Some g ↔
            (m = n ∧ g = set_dead f) ∨ (m ≠ n ∧ fs !! m = Some g)) as Hl.
  { intros m g. rewrite list_lookup_insert_Some. naive_solver. }
  split; [|done|].
  - intros p id. rewrite lookup_delete_Some, Hb. unfold live. setoid_rewrite Hl. split.
    + intros (Hp & m & g & -> & [Hg Hgd] & Hpg). exists m, g. split_and!; [done| |done|done].
      right. split; [|done]. intros ->. congruence.
    + intros (m & g & -> & [[[-> ->]|[Hm Hg]] Hgd] & Hpg); [done|]. split.
      * intros <-. apply Hm. by eapply (core_live_inj fs bp tr m n g f).
      * exists m, g. by split_and!.
  - intros k id. rewrite Ht. setoid_rewrite Hl. split.
    + intros (m & g & -> & Hg & Hk). destruct (decide (m = n)) as [->|].
      * exists n, (set_dead f). simplify_eq. split_and!; [done|by left|done].
      * exists m, g. split_and!; [done|by right|done].
    + intros (m & g & -> & [[-> ->]|[? ?]] & Hk); [by exists n, f|by exists m, g].
Qed.

Lemma core_empty : core_ok [] ∅ ∅.
Proof.
  split; [|intros k; constructor|]; unfold live, postings; intros p id.
  - rewrite lookup_empty. naive_solver.
  - rewrite lookup_empty. simpl. set_solver.
Qed.

(** ** Compaction *)

Abbreviation live_list := (filter (λ f, e_dead f = false)).

Lemma live_elem fs f : (∃ n, live fs n f) ↔ f ∈ live_list fs.
Proof. unfold live. rewrite list_elem_of_filter, list_elem_of_lookup. naive_solver. Qed.

Lemma contents_elem ix p f :
  index_ok ix → contents ix !! p = Some f ↔ f ∈ live_list (files ix) ∧ Path (e_meta f) = p.
Proof. intros Hok. rewrite contents_Some, <-live_elem by done. naive_solver. Qed.

Lemma live_dead_length fs : length (live_list fs) + dead_count fs = length fs.
Proof.
  unfold dead_count. induction fs as [|f fs IH]; [done|]. rewrite !filter_cons.
  destruct (e_dead f); simpl; lia.
Qed.

Lemma live_inj_NoDup fs :
  (∀ n m f g, live fs n f → live fs m g → Path (e_meta f) = Path (e_meta g) → n = m) →
  NoDup (map (λ f, Path (e_meta f)) (live_list fs)).
Proof.
  induction fs as [|f fs IH]; intros Hinj; [constructor|].
  assert (NoDup (map (λ f, Path (e_meta f)) (live_list fs))) as Hnd.
  { apply IH. intros n m g h Hg Hh Hp. by specialize (Hinj (S n) (S m) g h Hg Hh Hp) as [= ->]. }
  rewrite filter_cons. destruct (decide (e_dead f = false)) as [Hd|]; [|done].
  simpl. constructor; [|done]. intros (g & Hp & [n Hg]%live_elem)%list_elem_of_fmap.
  specialize (Hinj 0 (S n) f g). unfold live in Hinj. naive_solver.
Qed.

Lemma core_paths_NoDup fs bp tr :
  core_ok fs bp tr → NoDup (map (λ f, Path (e_meta f)) (live_list fs)).
Proof. intros Hc. apply live_inj_NoDup. intros n m f g. by eapply core_live_inj. Qed.

Section Updates.
Context `{MapOrder}.

Lemma rebuild_spec pre fs bp tr :
  core_ok pre bp tr → (len (pre ++ fs) ≤ 2 ^ 32)%Z →
  Forall (λ f, e_dead f = false) fs →
  Forall (λ f, bp !! Path (e_meta f) = None) fs →
  NoDup (map (λ f, Path (e_meta f)) fs) →
  let '(bp', tr') := rebuild_loop (length pre) fs bp tr in core_ok (pre ++ fs) bp' tr'.
Proof.
  revert pre bp tr. induction fs as [|f fs IH]; intros pre bp tr Hc Hlen Hd Hn Hnd; simpl.
  { by rewrite app_nil_r. }
  apply Forall_cons in Hd as [Hdf Hd]. apply Forall_cons in Hn as [Hnf Hn].
  apply NoDup_cons in Hnd as [Hpf Hnd]. rewrite <-app_cons_snoc in *.
  rewrite u32_small by (unfold len in Hlen; rewrite !length_app in Hlen; simpl in Hlen; lia).
  replace (S (length pre)) with (length (pre ++ [f])) by (rewrite length_app; simpl; lia).
  apply IH; [|done|done| |done].
  - apply (core_snoc pre bp tr f (TrigramKeys (e_content f)));
      [done|done|done|apply TrigramKeys_NoDup|intros; apply TrigramKeys_spec].
  - rewrite Forall_forall in Hn |- *. intros g Hg.
    rewrite lookup_insert_ne; [by apply Hn|].
    intros Heq. apply Hpf. apply list_elem_of_fmap. by exists g.
Qed.

Lemma maybeCompactLocked_spec ix :
  index_ok ix →
  index_ok (maybeCompactLocked ix) ∧ contents (maybeCompactLocked ix) = contents ix ∧
  length (files (maybeCompactLocked ix)) ≤ length (files ix).
Proof.
  intros Hok. pose proof Hok as [Hc Hnd Hlen]. unfold maybeCompactLocked.
  destruct (_ || _); [done|].
  pose proof (live_dead_length (files ix)) as Hll.
  pose proof (rebuild_spec [] (live_list (files ix)) ∅ ∅ core_empty) as Hr.
  simpl in Hr. destruct (rebuild_loop 0 _ ∅ ∅) as [bp tr].
  assert (index_ok (mkIndex (ix_root ix) (live_list (files ix)) bp tr 0)) as Hok'.
  { split; simpl.
    - apply Hr.
      + unfold len in *. lia.
      + apply Forall_forall. by intros f [? _]%list_elem_of_filter.
      + apply Forall_forall. intros. apply lookup_empty.
      + by eapply core_paths_NoDup.
    - destruct (dead_count (live_list (files ix))) eqn:E; [done|]. exfalso.
      unfold dead_count in E. destruct (filter _ (live_list _)) as [|f l] eqn:Ef; [done|].
      assert (f ∈ f :: l) as Hf by by left. rewrite <-Ef, !list_elem_of_filter in Hf.
      destruct Hf as (? & ? & _). congruence.
    - unfold len in *. lia. }
  split_and!; [done| |simpl; lia].
  apply map_eq. intros p. apply option_eq. intros f.
  rewrite !contents_elem by done. simpl. rewrite !list_elem_of_filter. naive_solver.
Qed.

Lemma removeLocked_spec ix p :
  index_ok ix →
  ∃ ix', removeLocked ix p = Some ix' ∧ index_ok ix' ∧ contents ix' = delete p (contents ix)
         ∧ length (files ix') = length (files ix) ∧ byPath ix' = delete p (byPath ix).
Proof.
  intros Hok. pose proof Hok as [Hc Hnd Hlen]. unfold removeLocked.
  destruct (byPath ix !! p) as [id|] eqn:Hp.
  2:{ exists ix. split_and!; [done..| |done|].
      - apply byPath_None in Hp; [|done]. by rewrite delete_id.
      - by rewrite delete_id. }
  pose proof Hp as (n & f & -> & [Hf Hd] & <-)%(core_bp _ _ _ Hc).
  rewrite idx_nat, Hf. cbn [mbind option_bind]. rewrite Nat2Z.id.
  pose proof (lookup_lt_Some _ _ _ Hf) as Hlt.
  eexists. split; [reflexivity|].
  assert (index_ok (mkIndex (ix_root ix) (<[n := set_dead f]> (files ix))
     (delete (Path (e_meta f)) (byPath ix)) (tri ix) (nDead ix + 1))) as Hok'.
  { split; simpl.
    - by apply core_remove.
    - rewrite Hnd. unfold dead_count.
      pose proof (take_drop_middle _ _ _ Hf) as Htd. rewrite <-Htd at 1.
      rewrite insert_take_drop by done.
      rewrite !filter_app, !filter_cons, Hd. simpl. rewrite !length_app. simpl. lia.
    - unfold len in *. by rewrite length_insert. }
  split_and!; [done| |simpl; apply length_insert|done].
  apply map_eq. intros q. apply option_eq. intros g.
  rewrite lookup_delete_Some, !contents_Some by done. simpl. unfold live.
  setoid_rewrite list_lookup_insert_Some. split.
  - intros (m & [[(<- & <- & _)|[Hm Hg]] Hgd] & <-); [done|]. split; [|by exists m].
    intros Heq. apply Hm. by eapply (core_live_inj _ _ _ n m f g).
  - intros (Hq & m & [Hg Hgd] & <-). exists m. split_and!; [|done|done].
    right. split; [|done]. intros ->. congruence.
Qed.
Lemma maybeCompactLocked_bound ix :
  let ix' := maybeCompactLocked ix in
  (nDead ix' < compactMinDead)%Z ∨
  (nDead ix' * compactDeadRatio < len (files ix') - nDead ix')%Z.
Proof.
  unfold maybeCompactLocked. destruct (_ || _) eqn:E.
  - apply orb_true_iff in E. rewrite !Z.ltb_lt in E. done.
  - destruct (rebuild_loop 0 _ ∅ ∅) as [bp tr]. by left.
Qed.

Lemma AddWithKeys_spec ix meta content keys defs :
  index_ok ix → (len (files ix) < 2 ^ 32)%Z →
  NoDup keys → (∀ k, k ∈ keys ↔ has_tri content k) →
  ∃ ix', AddWithKeys ix meta content keys defs = Some ix' ∧ index_ok ix' ∧
    contents ix' = <[Path meta := mkEntry meta content defs false]> (contents ix) ∧
    length (files ix') ≤ S (length (files ix)).
Proof.
  intros Hok Hlen Hnd Hk. unfold AddWithKeys.
  destruct (removeLocked_spec ix (Path meta) Hok) as (ix1 & -> & Hok1 & Hc1 & Hl1 & Hb1).
  cbn [mbind option_bind]. unfold len. rewrite Hl1.
  rewrite u32_small by (unfold len in Hlen; lia).
  set (f := mkEntry meta content defs false). set (ix2 := mkIndex _ _ _ _ _).
  pose proof Hok1 as [Hcore Hd _].
  assert (index_ok ix2) as Hok2.
  { split; simpl.
    - rewrite <-Hl1. apply (core_snoc _ _ _ f keys); try done.
      simpl. rewrite Hb1. apply lookup_delete_eq.
    - rewrite Hd. unfold dead_count. rewrite filter_app. simpl. rewrite length_app. simpl. lia.
    - unfold len in *. rewrite length_app. simpl. lia. }
  destruct (maybeCompactLocked_spec ix2 Hok2) as (Hok3 & Hc3 & Hl3).
  eexists. split_and!; [done|done| |].
  - rewrite Hc3, <-insert_delete_eq, <-Hc1.
    apply map_eq. intros q. apply option_eq. intros g.
    rewrite contents_Some by done. unfold live. simpl. setoid_rewrite lookup_snoc_Some.
    destruct (decide (Path meta = q)) as [<-|Hq].
    + rewrite lookup_insert_eq. split.
      * intros (n & [[[_ Hg]|[_ ->]] Hgd] & Hp); [|done]. exfalso.
        assert (contents ix1 !! Path meta = Some g) as Hm.
        { apply contents_Some; [done|]. by exists n. }
        by rewrite Hc1, lookup_delete_eq in Hm.
      * intros [= <-]. exists (length (files ix1)). split_and!; [by right|done|done].
    + rewrite lookup_insert_ne, contents_Some by done. unfold live. split.
      * intros (n & [[[_ Hg]|[_ <-]] Hgd] & Hp); [by exists n|done].
      * intros (n & [Hg Hgd] & Hp). exists n. split_and!; [|done|done].
        left. split; [by eapply lookup_lt_Some|done].
  - etrans; [exact Hl3|]. simpl. rewrite length_app. simpl. lia.
Qed.

Lemma Remove_spec ix p :
  index_ok ix →
  ∃ ix', Remove ix p = Some ix' ∧ index_ok ix' ∧ contents ix' = delete p (contents ix) ∧
    length (files ix') ≤ length (files ix).
Proof.
  intros Hok. unfold Remove.
  destruct (removeLocked_spec ix p Hok) as (ix1 & -> & Hok1 & <- & <- & _).
  destruct (maybeCompactLocked_spec ix1 Hok1) as (? & ? & ?).
  eexists. by split_and!.
Qed.

Lemma remove_loop_spec dir ps ix :
  index_ok ix →
  ∃ ix', foldl (λ ix p, ix ← ix; if under_dir dir p then removeLocked ix p else Some ix)
           (Some ix) ps = Some ix' ∧ index_ok ix' ∧
    (∀ q f, contents ix' !! q = Some f ↔
       contents ix !! q = Some f ∧ ¬ (q ∈ ps ∧ under_dir dir q = true)) ∧
    length (files ix') = length (files ix).
Proof.
  revert ix. induction ps as [|p ps IH]; intros ix Hok; simpl.
  { exists ix. split_and!; [done..|set_solver|done]. }
  cbn [mbind option_bind]. destruct (under_dir dir p) eqn:E.
  - destruct (removeLocked_spec ix p Hok) as (ix1 & -> & Hok1 & Hc1 & Hl1 & _).
    destruct (IH ix1 Hok1) as (ix' & -> & Hok' & Hc' & Hl'). exists ix'.
    split_and!; [done..| |congruence]. intros q f.
    rewrite Hc', Hc1, lookup_delete_Some, elem_of_cons. naive_solver.
  - destruct (IH ix Hok) as (ix' & -> & Hok' & Hc' & Hl'). exists ix'.
    split_and!; [done..| |congruence]. intros q f.
    rewrite Hc', elem_of_cons. naive_solver congruence.
Qed.
End Updates.

Lemma under_dir_spec dir p :
  under_dir dir p = true ↔ p = dir ∨ ∃ r, r ≠ [] ∧ p = dir ++ slash :: r.
Proof.
  unfold under_dir. rewrite orb_true_iff, andb_true_iff, !bool_decide_eq_true, Z.ltb_lt.
  unfold len. split; intros [->|H]; [by left|right|by left|right].
  - destruct H as [Hl Ht]. exists (drop (length (dir ++ [slash])) p). split.
    + intros Hd. apply (f_equal length) in Hd. rewrite length_drop in Hd. simpl in Hd. lia.
    + rewrite <-(take_drop (length (dir ++ [slash])) p) at 1. by rewrite Ht, <-app_assoc.
  - destruct H as (r & Hr & ->). rewrite (app_assoc dir [slash] r : dir ++ slash :: r = _).
    split; [|by rewrite take_app_length]. destruct r; [done|]. rewrite !length_app. simpl. lia.
Qed.

Lemma RemovePrefix_spec `{MapOrder} ix dir :
  index_ok ix →
  ∃ ix', RemovePrefix ix dir = Some ix' ∧ index_ok ix' ∧
    contents ix' = filter (λ pf, under_dir dir pf.1 = false) (contents ix) ∧
    length (files ix') ≤ length (files ix).
Proof.
  intros Hok. unfold RemovePrefix.
  destruct (remove_loop_spec dir (range (byPath ix)).*1 ix Hok) as (ix1 & -> & Hok1 & Hc1 & Hl1).
  cbn [mbind option_bind]. destruct (maybeCompactLocked_spec ix1 Hok1) as (Hok2 & Hc2 & Hl2).
  eexists. split_and!; [done|done| |lia]. rewrite Hc2.
  apply map_eq. intros q. apply option_eq. intros f.
  rewrite Hc1, map_lookup_filter_Some. simpl. split; intros [Hq Hu]; (split; [done|]).
  - destruct (under_dir dir q) eqn:E; [|done]. destruct Hu. split; [|done].
    destruct (byPath ix !! q) as [id|] eqn:Hb; [|apply byPath_None in Hb; [congruence|done]].
    apply list_elem_of_fmap. exists (q, id). split; [done|]. by apply elem_of_range.
  - intros [_ Hu']. congruence.
Qed.

Lemma map_fst_NoDup {V} `{MapOrder} (m : gmap bytes V) : NoDup (range m).*1.
Proof. rewrite range_perm. apply NoDup_fst_map_to_list. Qed.

Lemma byPath_size ix : index_ok ix → size (byPath ix) = length (live_list (files ix)).
Proof.
  intros Hok. pose proof Hok as [Hc _ _].
  rewrite <-length_map_to_list, <-(length_fmap fst), <-(length_map (λ f, Path (e_meta f)) (live_list _)).
  apply Permutation_length, NoDup_Permutation;
    [apply NoDup_fst_map_to_list|by eapply core_paths_NoDup|].
  intros p. rewrite !list_elem_of_fmap. split.
  - intros ([q id] & -> & Hq%elem_of_map_to_list). simpl.
    destruct (byPath_contents ix q id Hok Hq) as (n & f & _ & _ & Hf).
    apply contents_elem in Hf as [Hf <-]; [|done]. by exists f.
  - intros (f & -> & [n Hf]%live_elem). exists (Path (e_meta f), Z.of_nat n). split; [done|].
    apply elem_of_map_to_list, (core_bp _ _ _ Hc). by exists n, f.
Qed.

(** ** Histories of updates *)

(** The updates the store sends, and their meaning on the abstract state. *)
Inductive update :=
  | UAdd (meta : FileMeta) (content : bytes)
  | URemove (path : bytes)
  | URemovePrefix (dir : bytes).

Definition run_update `{MapOrder} `{SymbolExtractor} (ix : Index) (u : update) : option Index :=
  match u with
  | UAdd meta content => Add ix meta content
  | URemove path => Remove ix path
  | URemovePrefix dir => RemovePrefix ix dir
  end.

Definition spec_update `{SymbolExtractor} (m : gmap bytes fileEntry) (u : update)
  : gmap bytes fileEntry :=
  match u with
  | UAdd meta content =>
      <[Path meta := mkEntry meta content (Extract (Path meta) content) false]> m
  | URemove path => delete path m
  | URemovePrefix dir => filter (λ pf, under_dir dir pf.1 = false) m
  end.

Definition run_updates `{MapOrder} `{SymbolExtractor} (ix : Index) (us : list update) : option Index :=
  foldl (λ ix u, ix ← ix; run_update ix u) (Some ix) us.

Lemma run_update_spec `{MapOrder} `{SymbolExtractor} ix u :
  index_ok ix → (len (files ix) < 2 ^ 32)%Z →
  ∃ ix', run_update ix u = Some ix' ∧ index_ok ix' ∧
    contents ix' = spec_update (contents ix) u ∧ length (files ix') ≤ S (length (files ix)).
Proof.
  intros Hok Hlen. destruct u as [meta content|p|dir]; simpl.
  - apply AddWithKeys_spec; [done|done|apply TrigramKeys_NoDup|intros; apply TrigramKeys_spec].
  - destruct (Remove_spec ix p Hok) as (ix' & ? & ? & ? & ?). exists ix'. split_and!; try done. lia.
  - destruct (RemovePrefix_spec ix dir Hok) as (ix' & ? & ? & ? & ?). exists ix'.
    split_and!; try done. lia.
Qed.

Lemma run_updates_spec `{MapOrder} `{SymbolExtractor} ix us :
  index_ok ix → (len (files ix) + len us ≤ 2 ^ 32)%Z →
  ∃ ix', run_updates ix us = Some ix' ∧ index_ok ix' ∧
    contents ix' = foldl spec_update (contents ix) us.
Proof.
  revert ix. induction us as [|u us IH]; intros ix Hok Hlen; [by exists ix|].
  unfold len in Hlen. simpl in Hlen.
  destruct (run_update_spec ix u Hok) as (ix1 & H1 & Hok1 & Hc1 & Hl1); [unfold len; lia|].
  destruct (IH ix1 Hok1) as (ix' & H' & Hok' & Hc'); [unfold len; lia|].
  exists ix'. split_and!; [|done|by rewrite Hc', Hc1].
  unfold run_updates in *. simpl. by rewrite H1.
Qed.

Lemma New_ok root : index_ok (New root).
Proof. split; simpl; [apply core_empty|done|unfold len; simpl; lia]. Qed.

#[export] Hint Resolve New_ok TrigramKeys_NoDup : gcgrep.

(** An extractor without definitions, for the concrete evaluations. *)
Definition no_symbols : SymbolExtractor := {| Extract _ _ := [] |}.

(** ** Properties *)

(** C3. Refinement: over any history of at most 2^32 adds, removals and directory
    removals from [New], the index never panics, keeps its invariant (tombstones,
    postings, ids and the dead counter agree, through every compaction), and its
    contents are those of a plain map from paths to files under insertion,
    deletion and filtering. *)
Theorem index_history_refines `{MapOrder} `{SymbolExtractor} root us :
  (len us ≤ 2 ^ 32)%Z →
  ∃ ix, run_updates (New root) us = Some ix ∧ index_ok ix ∧
        contents ix = foldl spec_update ∅ us.
Proof. intros Hlen. apply run_updates_spec; [go|]. unfold len in *. simpl. lia. Qed.

Lemma index_history_refines_witness :
  let us := [UAdd (mkMeta (bs "a/x") 3 1) (bs "one"); UAdd (mkMeta (bs "b") 5 1) (bs "three");
             URemovePrefix (bs "a")] in
  (ix ← @run_updates tree_order no_symbols (New (bs "/r")) us;
   Some (map_to_list (byPath ix)).*1) = Some [bs "b"] ∧
  ∃ ix, @run_updates tree_order no_symbols (New (bs "/r")) us = Some ix ∧ index_ok ix ∧
        contents ix = foldl (@spec_update no_symbols) ∅ us.
Proof.
  intros us. split.
  - vm_compute. reflexivity.
  - apply (@index_history_refines tree_order no_symbols (bs "/r") us). vm_compute. discriminate.
Defined.

(** [RemovePrefix] deletes the file named by the directory and every file below
    it, and nothing else: a sibling whose name only starts like the directory stays. *)
Theorem RemovePrefix_exact `{MapOrder} ix dir :
  index_ok ix →
  ∃ ix', RemovePrefix ix dir = Some ix' ∧ index_ok ix' ∧
    ∀ p f, contents ix' !! p = Some f ↔
      contents ix !! p = Some f ∧ p ≠ dir ∧ ∀ r, r ≠ [] → p ≠ dir ++ slash :: r.
Proof.
  intros Hok. destruct (RemovePrefix_spec ix dir Hok) as (ix' & H1 & H2 & H3 & _).
  exists ix'. split_and!; [done..|]. intros p f. rewrite H3, map_lookup_filter_Some. simpl.
  pose proof (under_dir_spec dir p) as Hu. destruct (under_dir dir p); naive_solver.
Qed.

Lemma RemovePrefix_exact_witness :
  ∃ ix, @run_updates tree_order no_symbols (New (bs "/r"))
          [UAdd (mkMeta (bs "a/x") 3 1) (bs "one"); UAdd (mkMeta (bs "ab") 3 1) (bs "two")] = Some ix ∧
  ∃ ix', @RemovePrefix tree_order ix (bs "a") = Some ix' ∧ index_ok ix' ∧
    ∀ p f, contents ix' !! p = Some f ↔
      contents ix !! p = Some f ∧ p ≠ bs "a" ∧ ∀ r, r ≠ [] → p ≠ bs "a" ++ slash :: r.
Proof.
  destruct (@run_updates_spec tree_order no_symbols (New (bs "/r"))
    [UAdd (mkMeta (bs "a/x") 3 1) (bs "one"); UAdd (mkMeta (bs "ab") 3 1) (bs "two")])
    as (ix & Hix & Hok & _); [go|vm_compute; discriminate|].
  exists ix. split; [done|]. apply (@RemovePrefix_exact tree_order ix (bs "a")), Hok.
Defined.

(** Compaction bounds the garbage: after an add of a file, fewer than 64
    entries are tombstones, or fewer than a quarter of the number of live files. *)
Theorem compaction_bounds_tombstones `{MapOrder} ix meta content keys defs ix' :
  index_ok ix → (len (files ix) < 2 ^ 32)%Z →
  NoDup keys → (∀ k, k ∈ keys ↔ has_tri content k) →
  AddWithKeys ix meta content keys defs = Some ix' →
  length (files ix') - size (byPath ix') < 64 ∨
  4 * (length (files ix') - size (byPath ix')) < size (byPath ix').
Proof.
  intros Hok Hlen Hnd Hk Hadd.
  destruct (AddWithKeys_spec ix meta content keys defs Hok Hlen Hnd Hk) as (ix1 & H1 & Hok1 & _).
  rewrite Hadd in H1. simplify_eq. rewrite byPath_size by done.
  pose proof (live_dead_length (files ix1)). pose proof (ok_dead _ Hok1) as Hd.
  unfold AddWithKeys in Hadd. destruct (removeLocked _ _); [|done].
  cbn [mbind option_bind] in Hadd. injection Hadd as Hadd.
  pose proof (maybeCompactLocked_bound (mkIndex (ix_root i) (files i ++ [mkEntry meta content defs false])
     (<[Path meta := u32 (len (files i))]> (byPath i))
     (foldl (add_posting (u32 (len (files i)))) (tri i) keys) (nDead i))) as Hb.
  cbv zeta in Hb. rewrite Hadd in Hb. unfold compactMinDead, compactDeadRatio, len in Hb. lia.
Qed.

Lemma compaction_bounds_tombstones_witness :
  ∃ ix', @AddWithKeys tree_order (New (bs "/r")) (mkMeta (bs "a") 2 1) (bs "ab") [] [] = Some ix' ∧
    (length (files ix') - size (byPath ix') < 64 ∨
     4 * (length (files ix') - size (byPath ix')) < size (byPath ix')).
Proof.
  eexists. split; [vm_compute; reflexivity|].
  apply (@compaction_bounds_tombstones tree_order (New (bs "/r")) (mkMeta (bs "a") 2 1)
           (bs "ab") [] []).
  - go.
  - vm_compute. reflexivity.
  - constructor.
  - intros k. split; [by intros ?%elem_of_nil|].
    intros (pre & a & b & c & post & Hs & _). apply (f_equal length) in Hs.
    rewrite length_app in Hs. simpl in Hs. lia.
  - vm_compute. reflexivity.
Defined.
