(* ===== verification/IndexSearch.v ===== *)
(** * The in-memory engine, queries: internal/index/index.go

    [Search], [FilesContaining], [Defs] and the lookups over the state of
    Index.v.  [candidatesLocked] prunes by trigrams; the theorems say that the
    pruned answers are those of a scan of the abstract contents. *)

From S2P Require Import Prelude GoBytes Trigram Text Lines Regexp Literal Symbol Index.

Section Query.
Context `{MapOrder}.

(** ** Queries *)

(** [Meta] *)
Definition Meta (ix : Index) (path : bytes) : option (option FileMeta) :=
  match byPath ix !! path with
  | Some id => f ← idx (files ix) id; Some (Some (e_meta f))
  | None => Some None
  end.

(** [Paths], [NumFiles] and [Snapshot] *)
Definition Paths (ix : Index) : list bytes := (range (byPath ix)).*1.
Definition NumFiles (ix : Index) : nat := size (byPath ix).
Definition Snapshot (ix : Index) : list (FileMeta * bytes * list Def) :=
  map (λ f, (e_meta f, e_content f, e_defs f)) (filter (λ f, e_dead f = false) (files ix)).

(** [DefHit] *)
Record DefHit := mkHit { h_Path : bytes; h_Def : Def; h_Text : bytes }.

Definition entry_hits (f : fileEntry) (keep : Def → bool) : list DefHit :=
  map (λ d, mkHit (Path (e_meta f)) d (LineText (e_content f) (d_Line d)))
    (filter (λ d, keep d = true) (e_defs f)).

Definition path_ok (pathMatch : option (bytes → bool)) (p : bytes) : bool :=
  match pathMatch with Some pm => pm p | None => true end.

(** The name test of [Defs]. *)
Definition def_named `{UnicodeCase} (name : bytes) (fold : bool) (d : Def) : bool :=
  bool_decide ((if fold then ToLower (d_Name d) else d_Name d)
               = (if fold then ToLower name else name)).

(** [Defs] *)
Definition Defs `{UnicodeCase} (ix : Index) (name : bytes) (fold : bool)
    (pathMatch : option (bytes → bool)) : list DefHit :=
  concat (map (λ f,
    if e_dead f || bool_decide (e_defs f = []) then []
    else if negb (path_ok pathMatch (Path (e_meta f))) then []
    else entry_hits f (def_named name fold)) (files ix)).

(** [FileDefs]: [Some None] is [(nil, false)]. *)
Definition FileDefs (ix : Index) (path : bytes) : option (option (list DefHit)) :=
  match byPath ix !! path with
  | None => Some None
  | Some id =>
      f ← idx (files ix) id;
      Some (Some (map (λ d, mkHit path d (LineText (e_content f) (d_Line d))) (e_defs f)))
  end.

(** The position of the first shortest list. *)
Definition shortest_of (lists : list (list Z)) : option nat :=
  foldl (λ (best : option nat) (il : nat * list Z),
           b ← best; bl ← lists !! b;
           Some (if length il.2 <? length bl then il.1 else b))
    (Some 0) (imap pair lists).

(** The intersection loop of [candidatesLocked]. *)
Fixpoint intersect_loop (shortest i : nat) (ls : list (list Z)) (out : list Z) : list Z :=
  match ls with
  | [] => out
  | l :: ls' =>
      if bool_decide (i = shortest) then intersect_loop shortest (S i) ls' out
      else
        let out := intersectSorted out l in
        if bool_decide (out = []) then [] else intersect_loop shortest (S i) ls' out
  end.

(** [candidatesLocked]: the ids of the files that may contain [lit]. *)
Definition candidatesLocked (ix : Index) (lit : bytes) : option (list Z) :=
  if length lit <? 3 then Some (range (byPath ix)).*2
  else
    match mapM (λ k, tri ix !! k) (range_set (trigramsOf lit ∅)) with
    | None => Some []
    | Some lists =>
        shortest ← shortest_of lists;
        out ← lists !! shortest;
        Some (intersect_loop shortest 0 lists out)
    end.

(** [FilesContaining] *)
Definition FilesContaining `{UnicodeCase} (ix : Index) (lit : bytes)
    (pathMatch : option (bytes → bool)) : option (list (bytes * bytes)) :=
  ids ← candidatesLocked ix (ToLower lit);
  fs ← mapM (idx (files ix)) ids;
  Some (concat (map (λ f,
    if e_dead f || negb (path_ok pathMatch (Path (e_meta f))) then []
    else if contains (e_content f) lit then [(Path (e_meta f), e_content f)] else []) fs)).

(** [SearchOpts] and [SearchResult] *)
Record SearchOpts := mkOpts {
  o_Literal : bytes;
  o_PathMatch : option (bytes → bool);
  o_FilesOnly : bool;
  o_Limit : Z;
  o_PlainLiteral : bytes;
  o_FoldCase : bool;
  o_MaxColumns : Z;
  o_MaxFileSize : Z;
}.

Record SearchResult := mkResult {
  Matches : list Match;
  FileCounts : gmap bytes nat;
  Truncated : bool;
}.

(** The filters on an entry. *)
Definition entry_passes (opts : SearchOpts) (f : fileEntry) : bool :=
  negb ((0 <? o_MaxFileSize opts)%Z && (o_MaxFileSize opts <? Size (e_meta f))%Z)
  && path_ok (o_PathMatch opts) (Path (e_meta f)).

(** The spans of a content: the literal fast path, or the regular expression. *)
Definition content_locs `{RegexpEngine} (re : Regex) (opts : SearchOpts) (content : bytes)
  : option (list (nat * nat)) :=
  if bool_decide (o_PlainLiteral opts = []) then Some (re_FindAllIndex re content)
  else literalFindAll content (o_PlainLiteral opts) (o_FoldCase opts).

(** The loop of [Search] over the candidates. *)
Fixpoint search_loop `{RegexpEngine} (fs : list fileEntry) (re : Regex) (opts : SearchOpts)
    (ids : list Z) (res : SearchResult) : option SearchResult :=
  match ids with
  | [] => Some res
  | id :: ids' =>
      f ← idx fs id;
      if e_dead f || negb (entry_passes opts f) then search_loop fs re opts ids' res
      else
        locs ← content_locs re opts (e_content f);
        if bool_decide (locs = []) then search_loop fs re opts ids' res
        else
          let path := Path (e_meta f) in
          let counts := <[path := length locs]> (FileCounts res) in
          if o_FilesOnly opts then
            search_loop fs re opts ids' (mkResult (Matches res) counts (Truncated res))
          else
            ms ← appendLineMatches path (e_content f) locs (o_Limit opts)
                   (o_MaxColumns opts) (Matches res);
            if (0 <? o_Limit opts)%Z && (o_Limit opts <=? len ms)%Z
            then Some (mkResult ms counts true)
            else search_loop fs re opts ids' (mkResult ms counts (Truncated res))
  end.

(** [Search] *)
Definition Search `{RegexpEngine} (ix : Index) (re : Regex) (opts : SearchOpts)
  : option SearchResult :=
  ids ← candidatesLocked ix (o_Literal opts);
  search_loop (files ix) re opts ids (mkResult [] ∅ false).
End Query.

(** ** Candidates *)

Lemma shortest_of_Some lists : lists ≠ [] → ∃ b l, shortest_of lists = Some b ∧ lists !! b = Some l.
Proof.
  intros Hne. unfold shortest_of.
  assert (∀ ils b l, (∀ i m, (i, m) ∈ ils → lists !! i = Some m) → lists !! b = Some l →
    ∃ b' l', foldl (λ (best : option nat) (il : nat * list Z),
        b ← best; bl ← lists !! b; Some (if length il.2 <? length bl then il.1 else b))
      (Some b) ils = Some b' ∧ lists !! b' = Some l') as Hgen.
  { induction ils as [|[i m] ils IH]; intros b l Hils Hb; [by exists b, l|].
    simpl. rewrite Hb. simpl. assert (lists !! i = Some m) by (apply Hils; by left).
    assert (∀ j k, (j, k) ∈ ils → lists !! j = Some k) by (intros; apply Hils; by right).
    destruct (length m <? length l); eauto. }
  destruct lists as [|l0 lists]; [done|]. apply (Hgen _ 0 l0); [|done].
  intros i m Hi. apply list_elem_of_lookup in Hi as [j Hj].
  rewrite list_lookup_imap in Hj. destruct ((l0 :: lists) !! j) eqn:E; simpl in Hj; congruence.
Qed.

Lemma intersect_loop_spec sh i ls out :
  increasing out → Forall increasing ls →
  increasing (intersect_loop sh i ls out) ∧
  ∀ x, x ∈ intersect_loop sh i ls out ↔
    x ∈ out ∧ ∀ j l, ls !! j = Some l → i + j ≠ sh → x ∈ l.
Proof.
  revert i out. induction ls as [|l ls IH]; intros i out Ho Hls; cbn [intersect_loop].
  { split; [done|]. intros x. split; [|naive_solver]. intros ?. split; [done|]. intros j l Hj. by rewrite lookup_nil in Hj. }
  apply Forall_cons in Hls as [Hl Hls].
  assert (∀ x (P : Prop), (P ↔ (i ≠ sh → x ∈ l)) →
    (P ∧ ∀ j m, ls !! j = Some m → S i + j ≠ sh → x ∈ m) ↔
    (∀ j m, (l :: ls) !! j = Some m → i + j ≠ sh → x ∈ m)) as Hcons.
  { intros x P HP. split.
    - intros [Hp Hr] [|j] m Hj; simpl in Hj; simplify_eq.
      + rewrite Nat.add_0_r. by apply HP.
      + intros ?. eapply Hr; [done|lia].
    - intros Hr. split.
      + apply HP. intros. apply (Hr 0 l); [done|lia].
      + intros j m Hj ?. apply (Hr (S j) m); [done|lia]. }
  case_bool_decide as Hsh.
  - destruct (IH (S i) out Ho Hls) as [I1 I2]. split; [done|]. intros x.
    rewrite I2, <-(Hcons x True); naive_solver.
  - pose proof (intersectSorted_increasing out l Ho Hl) as Hi.
    pose proof (intersectSorted_elem out l) as He.
    case_bool_decide as Hemp.
    + split; [constructor|]. intros x. split; [by intros ?%elem_of_nil|].
      intros [Hx Hr]. rewrite <-Hemp. apply He; [done..|]. split; [done|].
      apply (Hr 0 l); [done|lia].
    + destruct (IH (S i) _ Hi Hls) as [I1 I2]. split; [done|]. intros x.
      rewrite I2, He, <-(Hcons x (x ∈ l)) by naive_solver. naive_solver.
Qed.

Lemma has_tri_long s k : has_tri s k → 3 ≤ length s.
Proof. intros (pre & a & b & c & post & -> & _). rewrite length_app. simpl. lia. Qed.

Lemma long_has_tri s : 3 ≤ length s → ∃ k, has_tri s k.
Proof.
  destruct s as [|a [|b [|c s]]]; simpl; [lia..|]. intros _.
  eexists. by exists [], a, b, c, s.
Qed.

(** The candidates are positions of entries; they hold every live entry whose
    content has the trigrams of the literal. *)
Lemma candidatesLocked_spec `{MapOrder} ix lit :
  index_ok ix →
  ∃ ids, candidatesLocked ix lit = Some ids ∧ NoDup ids ∧
    ∀ id, id ∈ ids ↔ ∃ n f, id = Z.of_nat n ∧ files ix !! n = Some f ∧
      (if length lit <? 3 then e_dead f = false
       else ∀ k, has_tri lit k → has_tri (e_content f) k).
Proof.
  intros Hok. pose proof Hok as [Hc _ _]. unfold candidatesLocked.
  destruct (Nat.ltb_spec (length lit) 3) as [Hlt|Hge].
  - eexists. split; [done|]. split.
    + apply NoDup_fmap_2_strong; [|rewrite range_perm; apply NoDup_map_to_list].
      intros [p id] [q id'] Hp%elem_of_range Hq%elem_of_range Heq. simpl in Heq. subst id'.
      apply (core_bp _ _ _ Hc) in Hp as (n & f & -> & [Hf _] & <-).
      apply (core_bp _ _ _ Hc) in Hq as (m & g & ?%Nat2Z.inj & [Hg _] & <-). naive_solver.
    + intros id. rewrite list_elem_of_fmap. split.
      * intros ([p id'] & -> & Hp%elem_of_range). simpl.
        apply (core_bp _ _ _ Hc) in Hp as (n & f & -> & [Hf Hd] & _). by exists n, f.
      * intros (n & f & -> & Hf & Hd). exists (Path (e_meta f), Z.of_nat n). split; [done|].
        apply elem_of_range, (core_bp _ _ _ Hc). by exists n, f.
  - destruct (long_has_tri lit Hge) as [k0 Hk0]. fold (TrigramKeys lit).
    destruct (mapM _ (TrigramKeys lit)) as [lists|] eqn:E.
    + apply mapM_Some_1 in E.
      assert (∀ l, l ∈ lists → ∃ k, has_tri lit k ∧ l = postings (tri ix) k) as Hl.
      { intros l (i & Hi)%list_elem_of_lookup.
        destruct (Forall2_lookup_r _ _ _ _ _ E Hi) as (k & Hk & Ht).
        exists k. split; [by eapply TrigramKeys_spec, list_elem_of_lookup_2|].
        unfold postings. by rewrite Ht. }
      assert (∀ k, has_tri lit k → postings (tri ix) k ∈ lists) as Hk.
      { intros k (i & Hi)%TrigramKeys_spec%list_elem_of_lookup.
        destruct (Forall2_lookup_l _ _ _ _ _ E Hi) as (l & Hl' & Ht).
        unfold postings. rewrite Ht. by eapply list_elem_of_lookup_2. }
      destruct (shortest_of_Some lists) as (b & l & -> & Hb).
      { intros ->. specialize (Hk k0 Hk0). by apply elem_of_nil in Hk. }
      cbn [mbind option_bind]. rewrite Hb. cbn [mbind option_bind].
      assert (Forall increasing lists) as Hinc.
      { apply Forall_forall. intros m (k & _ & ->)%Hl. apply (core_inc _ _ _ Hc). }
      destruct (intersect_loop_spec b 0 lists l) as [I1 I2]; [|done|].
      { rewrite Forall_lookup in Hinc. by eapply Hinc. }
      eexists. split; [done|]. split; [by apply increasing_NoDup|].
      intros id. rewrite I2.
      assert ((id ∈ l ∧ ∀ j m, lists !! j = Some m → 0 + j ≠ b → id ∈ m) ↔
              ∀ k, has_tri lit k → id ∈ postings (tri ix) k) as ->.
      { split.
        - intros [Hid Hr] k (j & Hj)%Hk%list_elem_of_lookup.
          destruct (decide (j = b)) as [->|]; [by simplify_eq|]. by eapply Hr.
        - intros Hr. split; [|intros j m Hm%list_elem_of_lookup_2 _].
          + apply list_elem_of_lookup_2, Hl in Hb as (k & ? & ->). by apply Hr.
          + apply Hl in Hm as (k & ? & ->). by apply Hr. }
      split.
      * intros Hr. destruct (proj1 (core_tri _ _ _ Hc k0 id) (Hr k0 Hk0)) as (n & f & -> & Hf & _).
        exists n, f. split_and!; [done..|]. intros k Hkk.
        destruct (proj1 (core_tri _ _ _ Hc k _) (Hr k Hkk)) as (m & g & ?%Nat2Z.inj & Hg & ?).
        naive_solver.
      * intros (n & f & -> & Hf & Hr) k Hkk. apply (core_tri _ _ _ Hc). exists n, f. eauto.
    + exists []. split; [done|]. split; [constructor|]. intros id. rewrite elem_of_nil.
      split; [done|]. intros (n & f & -> & Hf & Hr).
      apply mapM_None_1, Exists_exists in E as (k & Hk%TrigramKeys_spec & Ht).
      assert (Z.of_nat n ∈ postings (tri ix) k) as Hp.
      { apply (core_tri _ _ _ Hc). exists n, f. eauto. }
      unfold postings in Hp. rewrite Ht in Hp. by apply elem_of_nil in Hp.
Qed.

(** ** The loop of [Search] *)

Lemma capped_stop {A} limit (l k : list A) :
  (0 < limit)%Z → (limit ≤ len (capped limit l))%Z → capped limit (l ++ k) = capped limit l.
Proof.
  unfold capped, len. intros Hl. rewrite (proj2 (Z.ltb_lt _ _)) by done.
  rewrite length_take. intros H. rewrite take_app_le by lia. done.
Qed.

Lemma capped_under {A} limit (l : list A) :
  (0 < limit)%Z → (len (capped limit l) < limit)%Z → capped limit l = l.
Proof.
  unfold capped, len. intros Hl. rewrite (proj2 (Z.ltb_lt _ _)) by done.
  rewrite length_take. intros H. apply take_ge. lia.
Qed.

Lemma capped_none {A} limit (l : list A) : (limit ≤ 0)%Z → capped limit l = l.
Proof. intros. apply capped_small. by left. Qed.

Section Loop.
Context `{RegexpEngine} (re : Regex) (opts : SearchOpts).

(** The spans of every content are found without a panic and lie inside it,
    in order. *)
Definition locs_ok : Prop :=
  ∀ c, ∃ locs, content_locs re opts c = Some locs ∧ valid_locs c locs.

(** What an entry contributes: nothing for a tombstone or a filtered file. *)
Definition hit_locs (f : fileEntry) : list (nat * nat) :=
  if e_dead f || negb (entry_passes opts f) then []
  else default [] (content_locs re opts (e_content f)).

Definition entry_out (f : fileEntry) : list Match :=
  line_matches (Path (e_meta f)) (e_content f) (o_MaxColumns opts) (hit_locs f) None.

Definition count_hit (m : gmap bytes nat) (f : fileEntry) : gmap bytes nat :=
  if bool_decide (hit_locs f = []) then m else <[Path (e_meta f) := length (hit_locs f)]> m.

Lemma hit_locs_skip f : e_dead f || negb (entry_passes opts f) = true → hit_locs f = [].
Proof. unfold hit_locs. by intros ->. Qed.

Lemma hit_locs_run f locs :
  e_dead f || negb (entry_passes opts f) = false →
  content_locs re opts (e_content f) = Some locs → hit_locs f = locs.
Proof. unfold hit_locs. by intros -> ->. Qed.

Hypothesis Hlocs : locs_ok.

Lemma search_loop_files fs ids es res :
  mapM (idx fs) ids = Some es → o_FilesOnly opts = true →
  search_loop fs re opts ids res =
    Some (mkResult (Matches res) (foldl count_hit (FileCounts res) es) (Truncated res)).
Proof.
  intros E%mapM_Some_1 Hfo. revert res. induction E as [|id f ids es Hid E IH]; intros res.
  { by destruct res. }
  cbn [search_loop]. rewrite Hid. cbn [mbind option_bind foldl].
  unfold count_hit at 2. destruct (_ || _) eqn:Ep; [rewrite hit_locs_skip by done; apply IH|].
  destruct (Hlocs (e_content f)) as (locs & Hl & Hv). rewrite (hit_locs_run f locs), Hl by done.
  cbn [mbind option_bind]. case_bool_decide; [apply IH|].
  rewrite Hfo. apply (IH (mkResult _ _ _)).
Qed.

Lemma search_loop_matches fs ids es res :
  mapM (idx fs) ids = Some es → o_FilesOnly opts = false →
  (o_Limit opts ≤ 0)%Z ∨ (len (Matches res) < o_Limit opts)%Z →
  ∃ res', search_loop fs re opts ids res = Some res' ∧
    Matches res' = capped (o_Limit opts) (Matches res ++ concat (map entry_out es)) ∧
    Truncated res' = (Truncated res ||
      (0 <? o_Limit opts)%Z && (o_Limit opts <=? len (Matches res'))%Z) ∧
    ((o_Limit opts ≤ 0)%Z → FileCounts res' = foldl count_hit (FileCounts res) es).
Proof.
  intros E%mapM_Some_1 Hfo. revert res. induction E as [|id f ids es Hid E IH]; intros res Hlim.
  { exists res. simpl. rewrite app_nil_r, capped_small by done. split_and!; [done..| |done].
    destruct (Z.ltb_spec 0 (o_Limit opts)), (Z.leb_spec (o_Limit opts) (len (Matches res)));
      rewrite ?orb_false_r; try done; lia. }
  cbn [search_loop]. rewrite Hid. cbn [mbind option_bind foldl map concat].
  unfold count_hit at 2, entry_out at 1.
  destruct (_ || _) eqn:Ep; [rewrite hit_locs_skip by done; by apply IH|].
  destruct (Hlocs (e_content f)) as (locs & Hl & Hv). rewrite (hit_locs_run f locs), Hl by done.
  cbn [mbind option_bind]. case_bool_decide as Hne; [subst locs; by apply IH|]. rewrite Hfo.
  rewrite appendLineMatches_spec by done. cbn [mbind option_bind].
  set (out := line_matches _ _ _ locs None). rewrite (app_assoc (Matches res)).
  destruct (Z.ltb_spec 0 (o_Limit opts)) as [Hpos|Hpos]; cbn [andb].
  - destruct (Z.leb_spec (o_Limit opts) (len (capped (o_Limit opts) (Matches res ++ out)))) as [Hf|Hf].
    + eexists. split; [done|]. cbn [Matches Truncated FileCounts].
      rewrite (capped_stop _ (Matches res ++ out)) by done. split_and!; [done| |lia].
      rewrite (proj2 (Z.leb_le _ _) Hf). by rewrite orb_true_r.
    + rewrite capped_under by done. rewrite capped_under in Hf by done.
      apply (IH (mkResult _ _ _)). by right.
  - rewrite capped_none by done.
    destruct (IH (mkResult (Matches res ++ out)
      (<[Path (e_meta f) := length locs]> (FileCounts res)) (Truncated res))) as (r & ? & ? & Ht & ?);
      [by left|].
    by exists r.
Qed.
End Loop.

(** The spans of the literal path. *)
Lemma literalFindAll_valid c lit fold :
  lit ≠ [] → ∃ locs, literalFindAll c lit fold = Some locs ∧ valid_locs c locs.
Proof.
  intros Hne. destruct (literalFindAll_spec c lit fold Hne) as (locs & -> & H1 & H2 & _).
  exists locs. split; [done|]. split.
  - apply Forall_forall. intros [a b] Hab. destruct (H1 a b Hab) as (_ & -> & ? & _). simpl. lia.
  - assert (Forall (λ l : nat * nat, l.1 ≤ l.2) locs) as Hle.
    { apply Forall_forall. intros [a b] Hab. destruct (H1 a b Hab) as (_ & -> & _). simpl. lia. }
    clear H1. induction H2 as [|l locs Hs IH Hf]; [constructor|].
    apply Forall_cons in Hle as [Hl Hle]. constructor; [by apply IH|].
    eapply Forall_impl; [exact Hf|]. simpl. lia.
Qed.

Lemma literal_locs_ok `{RegexpEngine} re opts :
  o_PlainLiteral opts ≠ [] → locs_ok re opts.
Proof.
  intros Hne c. unfold content_locs. rewrite bool_decide_eq_false_2 by done.
  by apply literalFindAll_valid.
Qed.

Lemma regexp_locs_ok `{RegexpEngine} re opts :
  o_PlainLiteral opts = [] → (∀ c, valid_locs c (re_FindAllIndex re c)) → locs_ok re opts.
Proof.
  intros Hne Hv c. exists (re_FindAllIndex re c). split; [|done].
  unfold content_locs. by rewrite bool_decide_eq_true_2.
Qed.

(** ** Candidates and contents *)

Lemma mapM_live_NoDup ix ids es :
  index_ok ix → NoDup ids → mapM (idx (files ix)) ids = Some es →
  NoDup (map (λ f, Path (e_meta f)) (live_list es)).
Proof.
  intros [Hc _ _] Hnd E%mapM_Some_1.
  induction E as [|id f ids es Hid E IH]; [constructor|].
  apply NoDup_cons in Hnd as [Hni Hnd]. specialize (IH Hnd). rewrite filter_cons.
  destruct (decide (e_dead f = false)) as [Hd|]; [|done]. simpl. constructor; [|done].
  intros (g & Hp & [Hgd Hg]%list_elem_of_filter)%list_elem_of_fmap.
  apply list_elem_of_lookup in Hg as [j Hj].
  destruct (Forall2_lookup_r _ _ _ _ _ E Hj) as (id' & Hid' & Hg').
  apply idx_Some in Hid as (n & -> & Hf). apply idx_Some in Hg' as (m & -> & Hg).
  assert (n = m) as -> by by eapply (core_live_inj _ _ _ n m f g).
  by apply Hni, (list_elem_of_lookup_2 _ _ _ Hid').
Qed.

Lemma map_inj_elem (l : list fileEntry) f g :
  NoDup (map (λ f, Path (e_meta f)) l) → f ∈ l → g ∈ l →
  Path (e_meta f) = Path (e_meta g) → f = g.
Proof.
  intros Hnd (i & Hi)%list_elem_of_lookup (j & Hj)%list_elem_of_lookup Hp.
  assert (i = j) as ->; [|congruence].
  eapply NoDup_lookup; [exact Hnd| |]; rewrite list_lookup_fmap.
  - by rewrite Hi.
  - rewrite Hj. simpl. by rewrite Hp.
Qed.

Lemma candidates_entries `{MapOrder} ix lit :
  index_ok ix →
  ∃ ids es, candidatesLocked ix lit = Some ids ∧ mapM (idx (files ix)) ids = Some es ∧
    NoDup (map (λ f, Path (e_meta f)) (live_list es)) ∧
    ∀ f, e_dead f = false →
      f ∈ es ↔ contents ix !! Path (e_meta f) = Some f ∧
               (length lit < 3 ∨ ∀ k, has_tri lit k → has_tri (e_content f) k).
Proof.
  intros Hok. destruct (candidatesLocked_spec ix lit Hok) as (ids & Hids & Hnd & Hin).
  destruct (mapM_is_Some_2 (idx (files ix)) ids) as [es Hes].
  { apply Forall_forall. intros id (n & f & -> & Hf & _)%Hin. simpl.
    rewrite idx_nat, Hf. by eexists. }
  exists ids, es. split_and!; [done..|by eapply mapM_live_NoDup|]. intros f Hd.
  apply mapM_Some_1 in Hes. split.
  - intros (j & Hj)%list_elem_of_lookup.
    destruct (Forall2_lookup_r _ _ _ _ _ Hes Hj) as (id & Hid & Hf).
    apply list_elem_of_lookup_2, Hin in Hid as (n & g & -> & Hg & Hk).
    rewrite idx_nat in Hf. simplify_eq. split.
    + apply contents_Some; [done|]. by exists n.
    + destruct (Nat.ltb_spec (length lit) 3); [by left|by right].
  - intros [(n & [Hf _] & _)%contents_Some Hk]; [|done].
    assert (Z.of_nat n ∈ ids) as (j & Hj)%list_elem_of_lookup.
    { apply Hin. exists n, f. split_and!; [done..|].
      destruct (Nat.ltb_spec (length lit) 3); [done|]. destruct Hk; [lia|done]. }
    destruct (Forall2_lookup_l _ _ _ _ _ Hes Hj) as (g & Hgj & Hg).
    rewrite idx_nat in Hg. simplify_eq. by eapply list_elem_of_lookup_2.
Qed.

Definition files_of (m : gmap bytes fileEntry) : list fileEntry := (map_to_list m).*2.

Lemma elem_of_files_of ix f :
  index_ok ix → f ∈ files_of (contents ix) ↔ contents ix !! Path (e_meta f) = Some f.
Proof.
  intros Hok. unfold files_of. rewrite list_elem_of_fmap. split.
  - intros ([p g] & -> & Hp%elem_of_map_to_list). simpl.
    by pose proof (proj1 (contents_elem ix p g Hok) Hp) as [_ ->].
  - intros Hf. exists (Path (e_meta f), f). split; [done|]. by apply elem_of_map_to_list.
Qed.

Lemma NoDup_files_of ix : index_ok ix → NoDup (files_of (contents ix)).
Proof.
  intros Hok. apply NoDup_fmap_2_strong; [|apply NoDup_map_to_list].
  intros [p f] [q g] Hp%elem_of_map_to_list Hq%elem_of_map_to_list Heq. simpl in Heq. subst g.
  apply contents_elem in Hp as [_ <-]; [|done]. by apply contents_elem in Hq as [_ <-].
Qed.

(** Pruning keeps what matters: the entries [P] selects among the candidates
    are those it selects among all the files. *)
Lemma filter_candidates ix (es : list fileEntry) (P : fileEntry → Prop) `{∀ f, Decision (P f)} :
  index_ok ix →
  NoDup (map (λ f, Path (e_meta f)) (live_list es)) →
  (∀ f, P f → e_dead f = false) →
  (∀ f, P f → f ∈ es ↔ contents ix !! Path (e_meta f) = Some f) →
  filter P es ≡ₚ filter P (files_of (contents ix)).
Proof.
  intros Hok Hnd Hd Hin. apply NoDup_Permutation.
  - assert (filter P es = filter P (live_list es)) as ->.
    { rewrite list_filter_filter. apply list_filter_iff. naive_solver. }
    apply NoDup_filter. by eapply NoDup_fmap_1.
  - by apply NoDup_filter, NoDup_files_of.
  - intros f. rewrite !list_elem_of_filter, elem_of_files_of by done. naive_solver.
Qed.

Section Outputs.
Context `{RegexpEngine} (re : Regex) (opts : SearchOpts).

Abbreviation is_hit := (λ f, hit_locs re opts f ≠ []).

Lemma hit_live f : hit_locs re opts f ≠ [] → e_dead f = false.
Proof. unfold hit_locs. by destruct (e_dead f). Qed.

Lemma concat_out_hits es :
  concat (map (entry_out re opts) es) = concat (map (entry_out re opts) (filter is_hit es)).
Proof.
  induction es as [|f es IH]; [done|]. rewrite filter_cons.
  destruct (decide (is_hit f)) as [Hf|Hf%dec_stable]; simpl; rewrite IH; [done|].
  unfold entry_out at 1. by rewrite Hf.
Qed.

Lemma count_hits es m p n :
  (∀ f g, f ∈ es → g ∈ es → is_hit f → is_hit g →
     Path (e_meta f) = Path (e_meta g) → f = g) →
  foldl (count_hit re opts) m es !! p = Some n ↔
    (∃ f, f ∈ es ∧ is_hit f ∧ Path (e_meta f) = p ∧ n = length (hit_locs re opts f)) ∨
    (¬ ∃ f, f ∈ es ∧ is_hit f ∧ Path (e_meta f) = p) ∧ m !! p = Some n.
Proof.
  revert m. induction es as [|f es IH]; intros m Hinj; simpl; [set_solver|].
  rewrite IH by (intros; apply Hinj; set_solver). clear IH.
  unfold count_hit. case_bool_decide as Hf.
  { setoid_rewrite elem_of_cons. naive_solver. }
  setoid_rewrite elem_of_cons. rewrite lookup_insert_Some.
  assert (∀ g, g ∈ es → is_hit g → Path (e_meta f) = Path (e_meta g) → f = g) as Hu.
  { intros g ? ?. apply Hinj; set_solver. }
  clear Hinj. split.
  - intros [?|[Hn [[<- <-]|[Hp Hm]]]]; [naive_solver|left; by exists f; eauto|].
    right. naive_solver.
  - intros [(g & [->|Hg] & Hh & <- & ->)|[Hn Hm]]; [|naive_solver|naive_solver].
    destruct (decide (Exists (λ g, is_hit g ∧ Path (e_meta g) = Path (e_meta f)) es)) as [He|He].
    + apply Exists_exists in He as (g & Hg & Hh' & Hpg). left. exists g.
      by rewrite (Hu g Hg Hh').
    + right. split; [|by left]. intros (g & ?). apply He, Exists_exists. by exists g.
Qed.
End Outputs.

(** The literal given to [Search] prunes soundly: a file with a hit has its trigrams. *)
Definition prunes_soundly `{RegexpEngine} (ix : Index) (re : Regex) (opts : SearchOpts) : Prop :=
  ∀ p f, contents ix !! p = Some f → hit_locs re opts f ≠ [] →
    ∀ k, has_tri (o_Literal opts) k → has_tri (e_content f) k.

Lemma entries_hits `{MapOrder} `{RegexpEngine} ix re opts :
  index_ok ix → prunes_soundly ix re opts →
  ∃ ids es, candidatesLocked ix (o_Literal opts) = Some ids ∧
    mapM (idx (files ix)) ids = Some es ∧
    NoDup (map (λ f, Path (e_meta f)) (live_list es)) ∧
    ∀ f, hit_locs re opts f ≠ [] → f ∈ es ↔ contents ix !! Path (e_meta f) = Some f.
Proof.
  intros Hok Hs. destruct (candidates_entries ix (o_Literal opts) Hok)
    as (ids & es & Hids & Hes & Hnd & Hin).
  exists ids, es. split_and!; [done..|]. intros f Hh.
  rewrite Hin by by eapply hit_live. split; [naive_solver|]. intros Hf. split; [done|].
  right. by eapply Hs.
Qed.

Lemma search_counts `{RegexpEngine} ix re opts es p n :
  index_ok ix →
  NoDup (map (λ f, Path (e_meta f)) (live_list es)) →
  (∀ f, hit_locs re opts f ≠ [] → f ∈ es ↔ contents ix !! Path (e_meta f) = Some f) →
  foldl (count_hit re opts) ∅ es !! p = Some n ↔
    ∃ f, contents ix !! p = Some f ∧ hit_locs re opts f ≠ [] ∧ n = length (hit_locs re opts f).
Proof.
  intros Hok Hnd Hin. rewrite count_hits.
  - rewrite lookup_empty. split.
    + intros [(f & Hf & Hh & <- & ->)|[_ ?]]; [|done]. exists f. by rewrite <-Hin.
    + intros (f & Hf & Hh & ->). left. exists f.
      pose proof (proj1 (contents_elem ix p f Hok) Hf) as [_ Hp].
      rewrite Hin by done. rewrite Hp. done.
  - intros f g Hf Hg Hhf Hhg. apply (map_inj_elem (live_list es)); [done|..];
      apply list_elem_of_filter; (split; [by eapply hit_live|done]).
Qed.

Lemma Search_spec `{MapOrder} `{RegexpEngine} ix re opts :
  index_ok ix → locs_ok re opts → prunes_soundly ix re opts → (o_Limit opts ≤ 0)%Z ∨ o_FilesOnly opts = true →
  ∃ res, Search ix re opts = Some res ∧ Truncated res = false ∧
    (∀ p n, FileCounts res !! p = Some n ↔
       ∃ f, contents ix !! p = Some f ∧ hit_locs re opts f ≠ [] ∧
            n = length (hit_locs re opts f)) ∧
    Matches res ≡ₚ (if o_FilesOnly opts then []
                    else concat (map (entry_out re opts) (files_of (contents ix)))).
Proof.
  intros Hok Hl Hs Hlim. destruct (entries_hits ix re opts Hok Hs)
    as (ids & es & Hids & Hes & Hnd & Hin).
  unfold Search. rewrite Hids. cbn [mbind option_bind].
  destruct (o_FilesOnly opts) eqn:Efo.
  - eexists. split; [by apply search_loop_files|]. split_and!; [done| |done].
    intros p n. by apply search_counts.
  - destruct Hlim as [Hlim|]; [|done]. destruct (search_loop_matches re opts Hl (files ix) ids es (mkResult [] ∅ false) Hes Efo)
      as (res & Hr & Hm & Ht & Hc); [by left|].
    exists res. split_and!; [done| | |].
    + rewrite Ht. simpl. by rewrite (proj2 (Z.ltb_ge _ _) Hlim).
    + intros p n. rewrite Hc by done. by apply search_counts.
    + rewrite Hm, capped_none by done. simpl.
      rewrite concat_out_hits, (concat_out_hits re opts (files_of _)).
      rewrite (filter_candidates ix es); [done|done|done| |done].
      intros f. apply hit_live.
Qed.

Lemma literal_prunes_soundly `{UnicodeCase} `{RegexpEngine} ix re opts :
  o_PlainLiteral opts ≠ [] → ascii (o_PlainLiteral opts) →
  o_Literal opts = ToLower (o_PlainLiteral opts) → prunes_soundly ix re opts.
Proof.
  intros Hne Ha HL p f _ Hh k. rewrite HL, ToLower_ascii, has_tri_fold by done.
  apply trigrams_fold_sub. unfold hit_locs, content_locs in Hh.
  rewrite bool_decide_eq_false_2 in Hh by done. destruct (_ || _); [done|].
  destruct (literalFindAll_spec (e_content f) (o_PlainLiteral opts) (o_FoldCase opts) Hne)
    as (locs & Hl & H1 & _). rewrite Hl in Hh. simpl in Hh.
  destruct locs as [|[a b] locs]; [done|]. destruct (H1 a b) as (_ & _ & _ & Hm); [by left|].
  by eapply match_at_fold_contains.
Qed.

(** ** Concrete inputs for the witnesses

    An index of three files after a removal, and an engine whose expressions are
    literals. *)
Definition demo_updates : list update :=
  [UAdd (mkMeta (bs "a.txt") 11 1) (bs "Hello world"); UAdd (mkMeta (bs "b.txt") 7 1) (bs "goodbye");
   UAdd (mkMeta (bs "c.txt") 11 1) (bs "hello" ++ newline :: bs "hello");
   UAdd (mkMeta (bs "d.txt") 5 1) (bs "hello"); URemove (bs "d.txt")].

Definition literal_engine (lit : bytes) : RegexpEngine :=
  {| Regex := unit; regexp_Compile _ := Some tt; re_FindIndex _ _ := None;
     re_FindAllIndex _ c := default [] (literalFindAll c lit false);
     syntax_Parse _ := None; syntax_Simplify re := re |}.

Lemma demo_index :
  ∃ ix, @run_updates tree_order no_symbols (New (bs "/r")) demo_updates = Some ix ∧ index_ok ix.
Proof.
  destruct (@run_updates_spec tree_order no_symbols (New (bs "/r")) demo_updates)
    as (ix & H1 & H2 & _); [apply New_ok|vm_compute; discriminate|exact (ex_intro _ ix (conj H1 H2))].
Qed.

(** ** Properties *)

(** C2. A literal search is exact.  With an ASCII literal on the fast path, its
    lowering as the pruning literal and no limit, [Search] never panics and its
    counts are those of a scan of the whole contents: exactly the live files that
    pass the filters and hold the literal (up to case when [FoldCase]), each with
    the number of its greedy occurrences; the matches are those of that scan. *)
Theorem Search_literal_exact `{MapOrder} `{UnicodeCase} `{RegexpEngine} ix re opts :
  index_ok ix →
  o_PlainLiteral opts ≠ [] → ascii (o_PlainLiteral opts) →
  o_Literal opts = ToLower (o_PlainLiteral opts) → (o_Limit opts ≤ 0)%Z →
  ∃ res, Search ix re opts = Some res ∧ Truncated res = false ∧
    (∀ p n, FileCounts res !! p = Some n ↔
       ∃ f locs, contents ix !! p = Some f ∧ entry_passes opts f = true ∧
         literalFindAll (e_content f) (o_PlainLiteral opts) (o_FoldCase opts) = Some locs ∧
         locs ≠ [] ∧ n = length locs) ∧
    Matches res ≡ₚ (if o_FilesOnly opts then []
                    else concat (map (entry_out re opts) (files_of (contents ix)))).
Proof.
  intros Hok Hne Ha HL Hlim.
  destruct (Search_spec ix re opts) as (res & Hr & Ht & Hc & Hm);
    [done|by apply literal_locs_ok|by apply literal_prunes_soundly|by left|].
  exists res. split_and!; [done..| |done]. intros p n. rewrite Hc.
  unfold hit_locs, content_locs. rewrite bool_decide_eq_false_2 by done.
  split.
  - intros (f & Hf & Hh & ->).
    destruct (literalFindAll_spec (e_content f) (o_PlainLiteral opts) (o_FoldCase opts) Hne)
      as (locs & Hl & _). rewrite Hl in *. simpl in *.
    destruct (e_dead f), (entry_passes opts f) eqn:Ep; simpl in *; try done. by exists f, locs.
  - intros (f & locs & Hf & Hp & Hl & Hn & ->). exists f. split; [done|].
    apply contents_elem in Hf as [[Hd _]%list_elem_of_filter _]; [|done].
    by rewrite Hd, Hp, Hl.
Qed.

Lemma Search_literal_exact_witness :
  let opts := mkOpts (bs "hello") None false 0 (bs "Hello") true 0 0 in
  (ix ← @run_updates tree_order no_symbols (New (bs "/r")) demo_updates;
   res ← @Search tree_order (one_engine hello_re) ix tt opts;
   Some (map_to_list (FileCounts res))) = Some [(bs "c.txt", 2); (bs "a.txt", 1)] ∧
  ∃ ix res, @Search tree_order (one_engine hello_re) ix tt opts = Some res ∧
    Truncated res = false.
Proof.
  intros opts. split.
  - vm_compute. reflexivity.
  - destruct demo_index as (ix & _ & Hok). exists ix.
    destruct (@Search_literal_exact tree_order latin1_case (one_engine hello_re) ix tt opts)
      as (res & Hr & Ht & _); [exact Hok|done| |vm_compute; reflexivity|done|exact (ex_intro _ res (conj Hr Ht))].
    repeat (constructor; [done|]). constructor.
Defined.

(** A regular-expression search is exact when its required literal prunes
    soundly: with no limit, [Search] reports exactly the live files that pass the
    filters and in which the expression matches, with their numbers of matches. *)
Theorem Search_regexp_exact `{MapOrder} `{RegexpEngine} ix re opts :
  index_ok ix →
  o_PlainLiteral opts = [] → (∀ c, valid_locs c (re_FindAllIndex re c)) →
  (∀ p f, contents ix !! p = Some f → re_FindAllIndex re (e_content f) ≠ [] →
     ∀ k, has_tri (o_Literal opts) k → has_tri (e_content f) k) →
  (o_Limit opts ≤ 0)%Z →
  ∃ res, Search ix re opts = Some res ∧ Truncated res = false ∧
    ∀ p n, FileCounts res !! p = Some n ↔
      ∃ f, contents ix !! p = Some f ∧ entry_passes opts f = true ∧
        re_FindAllIndex re (e_content f) ≠ [] ∧ n = length (re_FindAllIndex re (e_content f)).
Proof.
  intros Hok Hne Hv Hs Hlim.
  assert (∀ f, hit_locs re opts f =
    if e_dead f || negb (entry_passes opts f) then [] else re_FindAllIndex re (e_content f)) as Hh.
  { intros f. unfold hit_locs, content_locs. by rewrite bool_decide_eq_true_2. }
  destruct (Search_spec ix re opts) as (res & Hr & Ht & Hc & _);
    [done|by apply regexp_locs_ok| |by left|].
  { intros p f Hf Hn. apply (Hs p f Hf). rewrite Hh in Hn. by destruct (_ || _). }
  exists res. split_and!; [done..|]. intros p n. rewrite Hc. split.
  - intros (f & Hf & Hn & ->). rewrite Hh in *.
    destruct (e_dead f), (entry_passes opts f) eqn:Ep; simpl in *; try done. by exists f.
  - intros (f & Hf & Hp & Hn & ->). exists f. split; [done|]. rewrite Hh.
    apply contents_elem in Hf as [[Hd _]%list_elem_of_filter _]; [|done].
    by rewrite Hd, Hp.
Qed.

Lemma Search_regexp_exact_witness :
  let opts := mkOpts (bs "hello") None true 0 [] false 0 0 in
  ∃ ix res, @Search tree_order (literal_engine (bs "hello")) ix tt opts = Some res ∧
    Truncated res = false.
Proof.
  intros opts. destruct demo_index as (ix & _ & Hok). exists ix.
  destruct (@Search_regexp_exact tree_order (literal_engine (bs "hello")) ix tt opts)
    as (res & Hr & Ht & _); [exact Hok|done| | |done|exact (ex_intro _ res (conj Hr Ht))].
  - intros c. cbn [re_FindAllIndex literal_engine].
    by destruct (literalFindAll_valid c (bs "hello") false) as (locs & -> & ?).
  - intros p f _ Hne k. cbn [re_FindAllIndex literal_engine o_Literal opts] in *.
    destruct (literalFindAll_spec (e_content f) (bs "hello") false) as (locs & Hl & H1 & _); [done|].
    rewrite Hl in Hne. simpl in Hne. destruct locs as [|[a b] locs]; [done|].
    destruct (H1 a b) as (_ & _ & _ & Hm); [by left|].
    by eapply trigrams_fold_sub, match_at_fold_contains.
Defined.

Definition set_limit (opts : SearchOpts) (n : Z) : SearchOpts :=
  mkOpts (o_Literal opts) (o_PathMatch opts) (o_FilesOnly opts) n (o_PlainLiteral opts)
    (o_FoldCase opts) (o_MaxColumns opts) (o_MaxFileSize opts).

(** A limit only cuts: the matches of a search with a positive limit are the
    first ones of the search without it, and the result says [Truncated] exactly
    when the limit is reached. *)
Theorem Search_limit_prefix `{MapOrder} `{RegexpEngine} ix re opts n :
  index_ok ix → locs_ok re opts → o_FilesOnly opts = false → (0 < n)%Z →
  ∃ all res, Search ix re (set_limit opts 0) = Some all ∧
    Search ix re (set_limit opts n) = Some res ∧
    Matches res = take (Z.to_nat n) (Matches all) ∧
    (Truncated res = true ↔ len (Matches res) = n).
Proof.
  intros Hok Hl Hfo Hn.
  destruct (candidates_entries ix (o_Literal opts) Hok) as (ids & es & Hids & Hes & _).
  assert (∀ m, locs_ok re (set_limit opts m)) as Hl' by by intros m c; apply Hl.
  destruct (search_loop_matches re (set_limit opts 0) (Hl' 0%Z) (files ix) ids es
    (mkResult [] ∅ false) Hes Hfo) as (all & Ha & Hma & _); [by left|].
  destruct (search_loop_matches re (set_limit opts n) (Hl' n) (files ix) ids es
    (mkResult [] ∅ false) Hes Hfo) as (res & Hr & Hmr & Ht & _); [by right|].
  exists all, res. unfold Search. cbn [o_Literal set_limit]. rewrite !Hids. cbn [mbind option_bind].
  split_and!; [done|done| |].
  - rewrite Hma, Hmr, (capped_none (o_Limit (set_limit opts 0))) by done. unfold capped. simpl.
    by rewrite (proj2 (Z.ltb_lt _ _) Hn).
  - rewrite Ht. simpl. rewrite (proj2 (Z.ltb_lt _ _) Hn). simpl.
    rewrite Z.leb_le. enough (len (Matches res) ≤ n)%Z by lia.
    rewrite Hmr. unfold capped, len. simpl. rewrite (proj2 (Z.ltb_lt _ _) Hn), length_take. lia.
Qed.

Lemma Search_limit_prefix_witness :
  let opts := mkOpts (bs "hello") None false 0 (bs "hello") true 0 0 in
  ∃ ix all res, @Search tree_order (one_engine hello_re) ix tt (set_limit opts 0) = Some all ∧
    @Search tree_order (one_engine hello_re) ix tt (set_limit opts 2) = Some res ∧
    Matches res = take 2 (Matches all) ∧ (Truncated res = true ↔ len (Matches res) = 2%Z).
Proof.
  intros opts. destruct demo_index as (ix & _ & Hok). exists ix.
  apply (@Search_limit_prefix tree_order (one_engine hello_re) ix tt opts 2);
    [exact Hok|by apply literal_locs_ok|done|done].
Defined.

Lemma live_files_of ix : index_ok ix → live_list (files ix) ≡ₚ files_of (contents ix).
Proof.
  intros Hok. apply NoDup_Permutation.
  - pose proof Hok as [Hc _ _]. by eapply NoDup_fmap_1, core_paths_NoDup.
  - by apply NoDup_files_of.
  - intros f. rewrite elem_of_files_of, contents_elem by done. naive_solver.
Qed.

(** What [Defs] lists for a file. *)
Definition file_defs `{UnicodeCase} (name : bytes) (fold : bool)
    (pathMatch : option (bytes → bool)) (f : fileEntry) : list DefHit :=
  if path_ok pathMatch (Path (e_meta f)) then entry_hits f (def_named name fold) else [].

Lemma concat_live {B} (g : fileEntry → list B) fs :
  concat (map (λ f, if e_dead f then [] else g f) fs) = concat (map g (live_list fs)).
Proof.
  induction fs as [|f fs IH]; [done|]. rewrite filter_cons. simpl. rewrite IH.
  by destruct (e_dead f).
Qed.

(** [Defs] lists, for every live file that passes the path filter, each of its
    definitions of that name (up to case when [fold]) with its source line, as
    often as the file defines it, and nothing else. *)
Theorem Defs_exact `{UnicodeCase} ix name fold pathMatch :
  index_ok ix →
  Defs ix name fold pathMatch ≡ₚ
    concat (map (file_defs name fold pathMatch) (files_of (contents ix))).
Proof.
  intros Hok. rewrite <-live_files_of by done. rewrite <-concat_live.
  unfold Defs, file_defs, entry_hits. apply reflexive_eq. f_equal. apply map_ext. intros f.
  destruct (e_dead f); [done|]. simpl. case_bool_decide as Hd; [rewrite Hd|].
  - by destruct (path_ok _ _).
  - by destruct (path_ok _ _).
Qed.

Lemma Defs_exact_witness :
  let main_at_2 := {| Extract _ _ := [mkDef (bs "Main") (bs "func") [] 2] |} in
  let us := [UAdd (mkMeta (bs "a.go") 11 1) (bs "x" ++ newline :: bs "func Main()")] in
  (ix ← @run_updates tree_order main_at_2 (New (bs "/r")) us;
   Some (map h_Text (@Defs latin1_case ix (bs "main") true None))) = Some [bs "func Main()"] ∧
  ∃ ix, @run_updates tree_order main_at_2 (New (bs "/r")) us = Some ix ∧
    @Defs latin1_case ix (bs "main") true None ≡ₚ
      concat (map (@file_defs latin1_case (bs "main") true None) (files_of (contents ix))).
Proof.
  intros ext us. split; [vm_compute; reflexivity|].
  destruct (@run_updates_spec tree_order ext (New (bs "/r")) us) as (ix & Hix & Hok & _);
    [apply New_ok|vm_compute; discriminate|].
  exists ix. split; [exact Hix|]. apply (@Defs_exact latin1_case ix (bs "main") true None), Hok.
Defined.

(** [FilesContaining] with an ASCII literal never panics and returns exactly the
    live files that pass the path filter and contain the literal, once each. *)
Theorem FilesContaining_exact `{MapOrder} `{UnicodeCase} ix lit pathMatch :
  index_ok ix → ascii lit →
  ∃ out, FilesContaining ix lit pathMatch = Some out ∧ NoDup out.*1 ∧
    ∀ p c, (p, c) ∈ out ↔ ∃ f, contents ix !! p = Some f ∧ e_content f = c ∧
      path_ok pathMatch p = true ∧ contains c lit = true.
Proof.
  intros Hok Ha. destruct (candidates_entries ix (ToLower lit) Hok)
    as (ids & es & Hids & Hes & Hnd & Hin).
  unfold FilesContaining. rewrite Hids. cbn [mbind option_bind]. rewrite Hes.
  cbn [mbind option_bind].
  set (keep := λ f, path_ok pathMatch (Path (e_meta f)) = true ∧ contains (e_content f) lit = true).
  assert (concat (map (λ f, if e_dead f || negb (path_ok pathMatch (Path (e_meta f))) then []
      else if contains (e_content f) lit then [(Path (e_meta f), e_content f)] else []) es)
    = map (λ f, (Path (e_meta f), e_content f)) (filter keep (live_list es))) as ->.
  { clear Hin Hes Hnd. induction es as [|f es IH]; [done|]. rewrite filter_cons. simpl. rewrite IH.
    destruct (e_dead f); [done|]. simpl. rewrite filter_cons.
    destruct (decide (keep f)) as [[-> ->]|Hk]; [done|]. unfold keep in Hk.
    destruct (path_ok _ _), (contains _ _); naive_solver. }
  eexists. split; [done|]. split.
  - change ((map (λ f, (Path (e_meta f), e_content f)) (filter keep (live_list es))).*1)
      with (fst <$> ((λ f, (Path (e_meta f), e_content f)) <$> filter keep (live_list es))).
    rewrite <-list_fmap_compose.
    eapply sublist_NoDup; [exact Hnd|]. apply fmap_sublist, sublist_filter.
  - intros p c. rewrite list_elem_of_fmap. setoid_rewrite list_elem_of_filter.
    setoid_rewrite list_elem_of_filter. unfold keep. split.
    + intros (f & [= -> ->] & (Hp & Hc) & Hd & Hf). exists f.
      apply Hin in Hf as [Hf _]; [|done]. by split_and!.
    + intros (f & Hf & <- & Hp & Hc).
      pose proof (proj1 (contents_elem ix p f Hok) Hf) as [[Hd _]%list_elem_of_filter <-].
      exists f. split_and!; [done..|]. apply Hin; [done|]. split; [done|]. right.
      intros k. rewrite ToLower_ascii, has_tri_fold by done. apply trigrams_fold_sub.
      apply contains_spec in Hc as (pre & post & ->). by exists pre, lit, post.
Qed.

Lemma FilesContaining_exact_witness :
  ∃ ix, @run_updates tree_order no_symbols (New (bs "/r")) demo_updates = Some ix ∧
  ∃ out, @FilesContaining tree_order latin1_case ix (bs "hello") None = Some out ∧ NoDup out.*1 ∧
    ∀ p c, (p, c) ∈ out ↔ ∃ f, contents ix !! p = Some f ∧ e_content f = c ∧
      path_ok None p = true ∧ contains c (bs "hello") = true.
Proof.
  destruct demo_index as (ix & Hix & Hok). exists ix. split; [exact Hix|].
  apply (@FilesContaining_exact tree_order latin1_case ix (bs "hello") None); [exact Hok|].
  repeat (constructor; [done|]). constructor.
Defined.
