(* ===== verification/Codec.v ===== *)
(** * Binary encodings: internal/shard/varint.go and [encoding/binary]

    Little-endian integers, unsigned varints, checked writes into a buffer, and
    binary search.  A read or write outside the buffer panics ([None]). *)

From S2P Require Import Prelude.

(** ** Little-endian integers *)

(** The [n] bytes [binary.LittleEndian.PutUint*] stores. *)
Fixpoint le_put (n : nat) (z : Z) : bytes :=
  match n with
  | O => []
  | S n => z2b z :: le_put n (z / 256)
  end.

Fixpoint le_get (b : bytes) : Z :=
  match b with
  | [] => 0%Z
  | x :: b => (b2z x + 256 * le_get b)%Z
  end.

(** [binary.LittleEndian.Uint*(data[off:])]: [n] bytes. *)
Definition get_le (n : nat) (data : bytes) (off : Z) : option Z :=
  b ← slice data off (off + Z.of_nat n); Some (le_get b).

(** [copy(out[off:], src)] *)
Definition copy_at (out : bytes) (off : Z) (src : bytes) : option bytes :=
  check! (0 <=? off)%Z && (off <=? len out)%Z;
  let o := Z.to_nat off in
  Some (take o out ++ take (length out - o) src ++ drop (o + length src) out).

(** [binary.LittleEndian.PutUint*(out[off:], z)] *)
Definition put_le (n : nat) (out : bytes) (off z : Z) : option bytes :=
  check! (off + Z.of_nat n <=? len out)%Z; copy_at out off (le_put n z).

(** ** Varints *)

(** The loop of [binary.PutUvarint]; a [uint64] takes at most ten bytes. *)
Fixpoint put_uvarint (fuel : nat) (x : Z) : bytes :=
  match fuel with
  | O => []
  | S fuel =>
      if (x <? 128)%Z then [z2b x]
      else z2b (Z.lor (b2z (z2b x)) 128) :: put_uvarint fuel (Z.shiftr x 7)
  end.

Definition MaxVarintLen64 : nat := 10.
#[global] Arguments MaxVarintLen64 : simpl never.

(** [appendUvarint] *)
Definition appendUvarint (b : bytes) (x : Z) : bytes := b ++ put_uvarint MaxVarintLen64 x.

(** The loop of [binary.Uvarint] at byte [i]: the value and the number of bytes
    read, zero when the buffer is too short and negative on overflow. *)
Fixpoint uvarint_loop (i : nat) (s x : Z) (buf : bytes) : Z * Z :=
  match buf with
  | [] => (0, 0)%Z
  | b :: buf =>
      if i =? MaxVarintLen64 then (0, - (Z.of_nat i + 1))%Z
      else if (b2z b <? 128)%Z then
        if (i =? MaxVarintLen64 - 1) && (1 <? b2z b)%Z then (0, - (Z.of_nat i + 1))%Z
        else (Z.lor x (u64 (Z.shiftl (b2z b) s)), Z.of_nat i + 1)%Z
      else uvarint_loop (S i) (s + 7)
             (Z.lor x (u64 (Z.shiftl (Z.land (b2z b) 127) s))) buf
  end.

(** [readUvarint] *)
Definition readUvarint (data : bytes) (pos : Z) : option (Z * Z) :=
  check! (0 <=? pos)%Z && (pos <=? len data)%Z;
  let '(v, n) := uvarint_loop 0 0 0 (drop (Z.to_nat pos) data) in
  Some (v, (pos + n)%Z).

(** ** Binary search *)

(** The loop of [sort.Search], also written out in [Shard.posting]: the least
    index of [lo, hi) at which [f] holds, or [hi]. *)
Fixpoint search_loop (fuel : nat) (f : Z → option bool) (lo hi : Z) : option Z :=
  if (lo <? hi)%Z then
    match fuel with
    | O => None
    | S fuel =>
        let mid := (lo + (hi - lo) / 2)%Z in
        match f mid with
        | None => None
        | Some true => search_loop fuel f lo mid
        | Some false => search_loop fuel f (mid + 1)%Z hi
        end
    end
  else Some lo.

(** An interval of [int]s halves at most 63 times. *)
Definition sort_Search (n : Z) (f : Z → option bool) : option Z := search_loop 64 f 0 n.

(** ** Laws of the integers *)

Lemma length_le_put n z : length (le_put n z) = n.
Proof. revert z. induction n; intros z; simpl; auto. Qed.

Lemma le_get_range b : (0 ≤ le_get b < 256 ^ Z.of_nat (length b))%Z.
Proof.
  induction b as [|x b IH]; [done|]. pose proof (b2z_range x).
  replace (Z.of_nat (length (x :: b))) with (Z.succ (Z.of_nat (length b))) by (simpl; lia).
  rewrite Z.pow_succ_r by lia. cbn [le_get]. nia.
Qed.

Lemma le_get_put n z : le_get (le_put n z) = (z mod 256 ^ Z.of_nat n)%Z.
Proof.
  revert z. induction n as [|n IH]; intros z; [by rewrite Z.mod_1_r|].
  cbn [le_put le_get]. rewrite IH, b2z_z2b.
  replace (Z.of_nat (S n)) with (Z.succ (Z.of_nat n)) by lia.
  rewrite Z.pow_succ_r by lia.
  assert (0 < 256 ^ Z.of_nat n)%Z by (apply Z.pow_pos_nonneg; lia).
  rewrite Z.rem_mul_r by lia. lia.
Qed.

Lemma get_le_app n (a b c : bytes) z off :
  off = len a → b = le_put n z → (0 ≤ z < 256 ^ Z.of_nat n)%Z → get_le n (a ++ b ++ c) off = Some z.
Proof.
  intros -> -> Hz. unfold get_le. rewrite slice_app; [|done|by unfold len; rewrite length_le_put].
  cbn [mbind option_bind]. by rewrite le_get_put, Z.mod_small.
Qed.

Lemma get_le_Some n data off z :
  get_le n data off = Some z → (0 ≤ off)%Z ∧ (off + Z.of_nat n ≤ len data)%Z ∧
    (0 ≤ z < 256 ^ Z.of_nat n)%Z.
Proof.
  unfold get_le, slice. destruct (_ && _ && _) eqn:E; [|done]. simpl. intros [= <-].
  rewrite !andb_true_iff, !Z.leb_le in E. unfold len in *. split_and!; [lia..|apply le_get_range|].
  eapply Z.lt_le_trans; [apply le_get_range|]. apply Z.pow_le_mono_r; [lia|].
  rewrite length_take. lia.
Qed.

(** ** Writes into a zeroed buffer *)

Definition zeros (n : nat) : bytes := replicate n x00.

Lemma copy_at_app (a o c src : bytes) off :
  off = len a → length src = length o → copy_at (a ++ o ++ c) off src = Some (a ++ src ++ c).
Proof.
  intros -> Hl. unfold copy_at, len. rewrite !length_app.
  rewrite !(proj2 (Z.leb_le _ _)) by lia. simpl. rewrite Nat2Z.id. f_equal.
  rewrite take_app_length, (take_ge src) by lia. do 2 f_equal.
  rewrite (app_assoc a o c), drop_app_length'; [done|]. rewrite length_app. lia.
Qed.

Lemma put_le_app n (a o c : bytes) off z :
  off = len a → length o = n → put_le n (a ++ o ++ c) off z = Some (a ++ le_put n z ++ c).
Proof.
  intros -> Hl. unfold put_le. rewrite (proj2 (Z.leb_le _ _)).
  - apply copy_at_app; [done|]. by rewrite length_le_put.
  - unfold len. rewrite !length_app. lia.
Qed.

(** ** Laws of the varints *)

Lemma bor_128 b : b2z (z2b (Z.lor (b2z b) 128)) = (b2z b mod 128 + 128)%Z.
Proof.
  pose proof (byte_forall (λ b, b2z (z2b (Z.lor (b2z b) 128)) =? b2z b mod 128 + 128)%Z
    ltac:(vm_compute; reflexivity) b) as H. by apply Z.eqb_eq.
Qed.

Lemma land_127 z : (0 ≤ z)%Z → Z.land z 127 = (z mod 128)%Z.
Proof. intros. change 127%Z with (Z.ones 7). by rewrite Z.land_ones. Qed.

Lemma lor_add x y s :
  (0 ≤ s)%Z → (0 ≤ x < 2 ^ s)%Z → (0 ≤ y)%Z → (y * 2 ^ s < 2 ^ 64)%Z →
  Z.lor x (u64 (Z.shiftl y s)) = (x + y * 2 ^ s)%Z.
Proof.
  intros Hs Hx Hy Hb. rewrite u64_small by (rewrite Z.shiftl_mul_pow2 by done; nia).
  rewrite Z.lor_comm, lor_shiftl by lia. lia.
Qed.

Lemma uvarint_put (fuel i : nat) x v post :
  i + fuel = 10 → 0 < fuel →
  (0 ≤ x < 2 ^ (7 * Z.of_nat i))%Z → (0 ≤ v)%Z → (v * 2 ^ (7 * Z.of_nat i) < 2 ^ 64)%Z →
  uvarint_loop i (7 * Z.of_nat i) x (put_uvarint fuel v ++ post) =
    ((x + v * 2 ^ (7 * Z.of_nat i))%Z, Z.of_nat (i + length (put_uvarint fuel v))).
Proof.
  revert i x v. induction fuel as [|fuel IH]; intros i x v Hi Hf Hx Hv Hb; [lia|].
  cbn [put_uvarint].
  assert (0 < 2 ^ (7 * Z.of_nat i))%Z as Hpos by (apply Z.pow_pos_nonneg; lia).
  assert ((i =? MaxVarintLen64) = false) as Hi10 by (apply Nat.eqb_neq; unfold MaxVarintLen64; lia).
  destruct (Z.ltb_spec v 128) as [Hlt|Hge].
  - cbn [app uvarint_loop]. rewrite Hi10, b2z_z2b, Z.mod_small by lia.
    rewrite (proj2 (Z.ltb_lt v 128)) by done.
    assert (((i =? MaxVarintLen64 - 1) && (1 <? v)%Z) = false) as ->.
    { destruct (Nat.eqb_spec i (MaxVarintLen64 - 1)) as [->|]; [|done]. simpl.
      apply Z.ltb_ge. simpl in Hb. lia. }
    rewrite lor_add by lia. f_equal. simpl. lia.
  - destruct fuel as [|fuel].
    { assert (i = 9) as -> by lia. simpl in Hb. lia. }
    cbn [app uvarint_loop]. rewrite Hi10, bor_128, b2z_z2b.
    rewrite (proj2 (Z.ltb_ge _ 128)) by lia.
    replace (7 * Z.of_nat i + 7)%Z with (7 * Z.of_nat (S i))%Z by lia.
    assert (2 ^ (7 * Z.of_nat (S i)) = 128 * 2 ^ (7 * Z.of_nat i))%Z as Hpow.
    { replace (7 * Z.of_nat (S i))%Z with (7 + 7 * Z.of_nat i)%Z by lia.
      rewrite Z.pow_add_r by lia. done. }
    rewrite land_127 by lia.
    replace ((v mod 256 mod 128 + 128) mod 128)%Z with (v mod 128)%Z by lia.
    pose proof (Z.mod_pos_bound v 128 ltac:(lia)).
    pose proof (Z.div_mod v 128 ltac:(lia)) as Hdm.
    rewrite lor_add by nia. rewrite Z.shiftr_div_pow2 by lia. change (2 ^ 7)%Z with 128%Z.
    rewrite IH; [|lia|lia|nia|apply Z.div_pos; lia|nia].
    f_equal; [nia|]. simpl. lia.
Qed.

Lemma readUvarint_app (a post : bytes) v pos :
  pos = len a → (0 ≤ v < 2 ^ 64)%Z →
  readUvarint (a ++ put_uvarint MaxVarintLen64 v ++ post) pos
    = Some (v, (len a + len (put_uvarint MaxVarintLen64 v))%Z).
Proof.
  intros -> Hv. unfold readUvarint, len. rewrite !length_app.
  rewrite !(proj2 (Z.leb_le _ _)) by lia. cbn [andb].
  rewrite Nat2Z.id, drop_app_length.
  pose proof (uvarint_put MaxVarintLen64 0 0 v post) as Hu.
  change (7 * Z.of_nat 0)%Z with 0%Z in Hu. rewrite Hu by (unfold MaxVarintLen64; lia).
  by rewrite Z.mul_1_r.
Qed.

Lemma put_uvarint_nonempty v : 0 < length (put_uvarint MaxVarintLen64 v).
Proof.
  unfold MaxVarintLen64. generalize 9. intros n. cbn [put_uvarint].
  destruct (v <? 128)%Z; cbn [length]; lia.
Qed.

(** ** Law of the binary search *)

(** [f] answers on [lo, hi) and turns true once. *)
Definition monotone_on (f : Z → option bool) (P : Z → Prop) (lo hi : Z) : Prop :=
  (∀ i, lo ≤ i < hi → ∃ b, f i = Some b ∧ (b = true ↔ P i))%Z ∧
  (∀ i j, lo ≤ i → i ≤ j → j < hi → P i → P j)%Z.

Lemma search_loop_spec fuel f P lo hi :
  monotone_on f P lo hi → (lo ≤ hi)%Z → (hi - lo < 2 ^ Z.of_nat fuel)%Z →
  ∃ r, search_loop fuel f lo hi = Some r ∧ (lo ≤ r ≤ hi)%Z ∧
       (∀ i, lo ≤ i < r → ¬ P i)%Z ∧ ((r < hi)%Z → P r).
Proof.
  revert lo hi. induction fuel as [|fuel IH]; intros lo hi [Hf Hm] Hle Hfuel; cbn [search_loop].
  { simpl in Hfuel. assert (hi = lo) as -> by lia. rewrite Z.ltb_irrefl.
    exists lo. split_and!; [done|lia..]. }
  destruct (Z.ltb_spec lo hi); [|exists lo; split_and!; [done|lia..]].
  replace (Z.of_nat (S fuel)) with (Z.succ (Z.of_nat fuel)) in Hfuel by lia.
  rewrite Z.pow_succ_r in Hfuel by lia.
  set (mid := (lo + (hi - lo) / 2)%Z). assert (lo ≤ mid < hi)%Z as Hmid by lia.
  destruct (Hf mid Hmid) as (b & -> & Hb). destruct b.
  - destruct (IH lo mid) as (r & -> & ? & Hlt & Hr); [split|lia|lia|].
    + intros i ?. apply Hf. lia.
    + intros i j ???. apply Hm; lia.
    + exists r. split_and!; [done|lia|lia|done|].
      intros _. destruct (decide (r < mid)%Z); [by apply Hr|].
      assert (r = mid) as -> by lia. by apply Hb.
  - assert (¬ P mid) as Hn by (intros HP; apply Hb in HP; done).
    destruct (IH (mid + 1)%Z hi) as (r & -> & ? & Hlt & Hr); [split|lia|lia|].
    + intros i ?. apply Hf. lia.
    + intros i j ???. apply Hm; lia.
    + exists r. split_and!; [done|lia|lia| |done].
      intros i Hi HP. destruct (decide (i ≤ mid)%Z).
      * apply Hn. by apply (Hm i mid); [lia..|].
      * apply (Hlt i); [lia|done].
Qed.

Lemma sort_Search_spec n f P :
  monotone_on f P 0 n → (0 ≤ n < 2 ^ 64)%Z →
  ∃ r, sort_Search n f = Some r ∧ (0 ≤ r ≤ n)%Z ∧ (∀ i, 0 ≤ i < r → ¬ P i)%Z ∧ ((r < n)%Z → P r).
Proof. intros Hm Hn. apply search_loop_spec; [done|lia..]. Qed.
