(* ===== verification/Shard.v ===== *)
(** * Shard files: internal/shard/build.go (Builder) and internal/shard/shard.go

    [Write] serialises the files, trigrams, symbols and inlined contents of a
    [Builder]; [Open] and [Load] parse a shard file, and the accessors read it
    back.  The file system is left out: [Write] returns the bytes it installs at
    its path, and [Open], [Load] and [Mmap] take the bytes found there. *)

From S2P Require Import Prelude Trigram Symbol Index Codec.

(** ["GCSHARD1"] *)
Definition magic : bytes := bs "GCSHARD1".
Definition headerSize : Z := 64.
Definition fileEntryLen : Z := 32.
Definition formatVer : Z := 3.
Definition noContent : Z := 4294967295.

(** ** The builder *)

Record buildFile := mkBuildFile {
  bf_path : bytes;
  bf_size : Z;
  bf_mtimeNS : Z;
  bf_defs : list Def;
  bf_content : option bytes;
}.

Record Builder := mkBuilder {
  b_files : list buildFile;
  b_tris : gmap Z (list Z);
  b_inlineKB : Z;
}.

Definition NewBuilder (inlineKB : Z) : Builder := mkBuilder [] ∅ inlineKB.

Definition AddWithDefs `{MapOrder} (b : Builder) (path : bytes) (size mtimeNS : Z)
    (content : bytes) (defs : list Def) : Builder :=
  let id := u32 (len (b_files b)) in
  let stored := if (0 <? b_inlineKB b)%Z && (len content <=? b_inlineKB b * 1024)%Z
                then Some content else None in
  mkBuilder (b_files b ++ [mkBuildFile path size mtimeNS defs stored])
    (foldl (add_posting id) (b_tris b) (range_set (trigramsOf content ∅)))
    (b_inlineKB b).

(** ** [Write] *)

(** The path blob and the reference (offset, length) of each path. *)
Definition path_step (st : bytes * list (Z * Z)) (f : buildFile) : bytes * list (Z * Z) :=
  let '(blob, refs) := st in
  (blob ++ bf_path f, refs ++ [(len blob, len (bf_path f))]).

(** The ids of a posting, as deltas of [uint32]s. *)
Fixpoint put_deltas (prev : Z) (ids : list Z) (postData : bytes) : bytes :=
  match ids with
  | [] => postData
  | id :: ids => put_deltas id ids (appendUvarint postData (u32 (id - prev)))
  end.

(** One trigram: its offset and its posting. *)
Definition post_step (tris : gmap Z (list Z)) (st : bytes * list Z) (k : Z) : bytes * list Z :=
  let '(postData, postOffsets) := st in
  let ids := merge_sort Z.le (postings tris k) in
  (put_deltas 0 ids (appendUvarint postData (len ids)), postOffsets ++ [u32 (len postData)]).

(** A length-prefixed string. *)
Definition append_str (data s : bytes) : bytes := appendUvarint data (len s) ++ s.

Definition sym_def (data : bytes) (d : Def) : bytes :=
  appendUvarint (append_str (append_str (append_str data (d_Name d)) (d_Kind d)) (d_Container d))
    (u64 (d_Line d)).

(** The symbols of a file; the second component counts definitions. *)
Definition sym_step (st : bytes * Z) (f : buildFile) : bytes * Z :=
  let '(symData, numSyms) := st in
  (foldl sym_def (appendUvarint symData (len (bf_defs f))) (bf_defs f),
   u32 (numSyms + len (bf_defs f))).

(** The content blob and the reference of each file. *)
Definition content_step (st : bytes * list (Z * Z)) (f : buildFile) : bytes * list (Z * Z) :=
  let '(blob, refs) := st in
  match bf_content f with
  | Some c => (blob ++ c, refs ++ [(u32 (len blob), u32 (len c))])
  | None => (blob, refs ++ [(noContent, 0%Z)])
  end.

(** The file table: entry [i] at [fileTblOff + i*fileEntryLen]. *)
Fixpoint put_entries (out : bytes) (off : Z) (fs : list buildFile)
    (pathRefs contentRefs : list (Z * Z)) : option bytes :=
  match fs, pathRefs, contentRefs with
  | f :: fs, pr :: pathRefs, cr :: contentRefs =>
      out ← put_le 4 out off (u32 pr.1);
      out ← put_le 2 out (off + 4) (u16 pr.2);
      out ← put_le 8 out (off + 8) (u64 (bf_size f));
      out ← put_le 8 out (off + 16) (u64 (bf_mtimeNS f));
      out ← put_le 4 out (off + 24) cr.1;
      out ← put_le 4 out (off + 28) cr.2;
      put_entries out (off + fileEntryLen) fs pathRefs contentRefs
  | _, _, _ => Some out
  end.

(** An array of [uint32]s from offset [off]. *)
Fixpoint put_u32s (out : bytes) (off : Z) (xs : list Z) : option bytes :=
  match xs with
  | [] => Some out
  | x :: xs => out ← put_le 4 out off x; put_u32s out (off + 4) xs
  end.

(** [Write]: the bytes of the shard file. *)
Definition Write `{MapOrder} (b : Builder) : option bytes :=
  let triKeys := merge_sort Z.le (range (b_tris b)).*1 in
  let '(pathBlob, pathRefs) := foldl path_step ([], []) (b_files b) in
  let '(postData, postOffsets) := foldl (post_step (b_tris b)) ([], []) triKeys in
  let '(symData, numSyms) := foldl sym_step ([], 0%Z) (b_files b) in
  let '(contentBlob, contentRefs) := foldl content_step ([], []) (b_files b) in
  let numFiles := u32 (len (b_files b)) in
  let numTri := u32 (len triKeys) in
  let fileTblOff := headerSize in
  let triIdxOff := u64 (fileTblOff + numFiles * fileEntryLen + len pathBlob) in
  let triIdxSize := (numTri * 4 * 2)%Z in
  let postOff := u64 (triIdxOff + triIdxSize) in
  let symOff := u64 (postOff + len postData) in
  let ctOff := if (0 <? len contentBlob)%Z then u64 (symOff + len symData) else 0%Z in
  let totalSize := (i64 symOff + len symData + len contentBlob)%Z in
  check! (0 <=? totalSize)%Z;
  let out := zeros (Z.to_nat totalSize) in
  out ← copy_at out 0 magic;
  out ← put_le 4 out 8 formatVer;
  out ← put_le 4 out 12 numFiles;
  out ← put_le 4 out 16 numTri;
  out ← put_le 4 out 20 numSyms;
  out ← put_le 8 out 24 fileTblOff;
  out ← put_le 8 out 32 triIdxOff;
  out ← put_le 8 out 40 postOff;
  out ← put_le 8 out 48 symOff;
  out ← put_le 8 out 56 ctOff;
  out ← put_entries out fileTblOff (b_files b) pathRefs contentRefs;
  out ← copy_at out (fileTblOff + numFiles * fileEntryLen) pathBlob;
  out ← put_u32s out (i64 triIdxOff) triKeys;
  out ← put_u32s out (i64 triIdxOff + numTri * 4) postOffsets;
  out ← copy_at out (i64 postOff) postData;
  out ← copy_at out (i64 symOff) symData;
  if (0 <? ctOff)%Z then copy_at out (i64 ctOff) contentBlob else Some out.

(** ** Opening *)

(** The errors of [Open] and [Load]. *)
Inductive shard_err :=
  | TooSmall (size : Z)
  | ReadHeader
  | BadMagic
  | UnsupportedVersion (ver : Z)
  | ReadPathMin
  | ReadPathMax
  | ReadTrigramKeys.

(** [Shard]; [refs] counts the users of the mapping [sdata] ([[]] when unmapped). *)
Record Shard := mkShard {
  s_path : bytes;
  s_size : Z;
  pathMin : bytes;
  pathMax : bytes;
  numFiles : Z;
  numTri : Z;
  numSyms : Z;
  fileTbl : Z;
  pathBlob : Z;
  triIdx : Z;
  s_postings : Z;
  symbolOff : Z;
  contentOff : Z;
  triKeys : list Z;
  sdata : bytes;
  refs : Z;
}.

(** A function that may panic ([None]) and may return an error. *)
Definition fallible (A : Type) : Type := option (shard_err + A).
Definition fail {A} (e : shard_err) : fallible A := Some (inl e).
Definition ok {A} (x : A) : fallible A := Some (inr x).
Definition fbind {A B} (m : fallible A) (k : A → fallible B) : fallible B :=
  match m with Some (inr x) => k x | Some (inl e) => Some (inl e) | None => None end.
Notation "x '<-?' e ; k" := (fbind e (λ x, k))
  (at level 20, e at level 100, k at level 200, right associativity) : go_scope.

(** An error the caller replaces by its own. *)
Definition or_fail {A} (m : option A) (e : shard_err) : fallible A :=
  match m with Some x => ok x | None => fail e end.
Definition panics {A} (m : option A) : fallible A := inr <$> m.

(** [f.ReadAt(buf, off)] into [n] bytes: [None] is an error. *)
Definition ReadAt (file : bytes) (n : nat) (off : Z) : option bytes :=
  if (off <? 0)%Z then None
  else if n =? 0 then Some []
  else slice file off (off + Z.of_nat n).

(** The header, parsed the same way by [Open] and [Load].  Offsets are [int]s
    converted from [uint64]; a sum of offsets that overflows an [int] is
    negative, out of range like the exact sum, so sums are exact here. *)
Definition parse_header (path : bytes) (size : Z) (hdr : bytes) : fallible Shard :=
  if negb (bool_decide (take 8 hdr = magic)) then fail BadMagic
  else
    ver <-? panics (get_le 4 hdr 8);
    if negb (ver =? formatVer)%Z then fail (UnsupportedVersion ver)
    else
      nf <-? panics (get_le 4 hdr 12);
      nt <-? panics (get_le 4 hdr 16);
      ns <-? panics (get_le 4 hdr 20);
      ft <-? panics (get_le 8 hdr 24);
      ti <-? panics (get_le 8 hdr 32);
      po <-? panics (get_le 8 hdr 40);
      so <-? panics (get_le 8 hdr 48);
      co <-? panics (get_le 8 hdr 56);
      ok (mkShard path size [] [] nf nt ns (i64 ft) (i64 ft + nf * fileEntryLen) (i64 ti)
            (i64 po) (i64 so) (i64 co) [] [] 0).

Definition set_paths (s : Shard) (mn mx : bytes) : Shard :=
  mkShard (s_path s) (s_size s) mn mx (numFiles s) (numTri s) (numSyms s) (fileTbl s)
    (pathBlob s) (triIdx s) (s_postings s) (symbolOff s) (contentOff s) (triKeys s)
    (sdata s) (refs s).
Definition set_keys (s : Shard) (keys : list Z) : Shard :=
  mkShard (s_path s) (s_size s) (pathMin s) (pathMax s) (numFiles s) (numTri s) (numSyms s)
    (fileTbl s) (pathBlob s) (triIdx s) (s_postings s) (symbolOff s) (contentOff s) keys
    (sdata s) (refs s).
Definition set_mapping (s : Shard) (data : bytes) (n : Z) : Shard :=
  mkShard (s_path s) (s_size s) (pathMin s) (pathMax s) (numFiles s) (numTri s) (numSyms s)
    (fileTbl s) (pathBlob s) (triIdx s) (s_postings s) (symbolOff s) (contentOff s)
    (triKeys s) data n.

(** [readPathAt]: [None] is an error. *)
Definition readPathAt (s : Shard) (file : bytes) (i : Z) : option bytes :=
  ent ← ReadAt file 6 (fileTbl s + i * fileEntryLen);
  let pOff := le_get (take 4 ent) in
  let pLen := le_get (drop 4 ent) in
  ReadAt file (Z.to_nat pLen) (pathBlob s + pOff).

(** The [n] integers of [uint32] at [off], [off+4], ... *)
Fixpoint get_u32s (n : nat) (data : bytes) (off : Z) : option (list Z) :=
  match n with
  | O => Some []
  | S n => x ← get_le 4 data off; xs ← get_u32s n data (off + 4)%Z; Some (x :: xs)
  end.

(** [Open] *)
Definition Open (path : bytes) (file : bytes) : fallible Shard :=
  let size := len file in
  if (size <? headerSize)%Z then fail (TooSmall size)
  else
    hdr <-? or_fail (ReadAt file (Z.to_nat headerSize) 0) ReadHeader;
    s <-? parse_header path size hdr;
    s <-? (if (0 <? numFiles s)%Z then
             mn <-? or_fail (readPathAt s file 0) ReadPathMin;
             mx <-? or_fail (readPathAt s file (numFiles s - 1)) ReadPathMax;
             ok (set_paths s mn mx)
           else ok s);
    if (0 <? numTri s)%Z then
      keyBytes <-? or_fail (ReadAt file (Z.to_nat (u32 (numTri s * 4))) (triIdx s)) ReadTrigramKeys;
      keys <-? panics (get_u32s (Z.to_nat (numTri s)) keyBytes 0);
      ok (set_keys s keys)
    else ok s.

(** ** Reading the mapped data *)

(** [File] *)
Definition File (s : Shard) (i : Z) : option FileMeta :=
  let off := (fileTbl s + i * fileEntryLen)%Z in
  pOff ← get_le 4 (sdata s) off;
  pLen ← get_le 2 (sdata s) (off + 4);
  path ← slice (sdata s) (pathBlob s + pOff) (pathBlob s + pOff + pLen);
  size ← get_le 8 (sdata s) (off + 8);
  mtime ← get_le 8 (sdata s) (off + 16);
  Some (mkMeta path (i64 size) (i64 mtime)).

(** [FileContent]: the inner [None] is [nil]. *)
Definition FileContent (s : Shard) (i : Z) : option (option bytes) :=
  if (contentOff s =? 0)%Z then Some None
  else
    let off := (fileTbl s + i * fileEntryLen)%Z in
    cOff ← get_le 4 (sdata s) (off + 24);
    cLen ← get_le 4 (sdata s) (off + 28);
    if (cOff =? noContent)%Z || (cLen =? 0)%Z then Some None
    else
      let base := (contentOff s + cOff)%Z in
      c ← slice (sdata s) base (base + cLen); Some (Some c).

(** [Files] *)
Definition Files (s : Shard) : option (list FileMeta) :=
  mapM (λ i, File s (Z.of_nat i)) (seq 0 (Z.to_nat (numFiles s))).

(** [Load]: the whole file in memory, for good. *)
Definition Load (path : bytes) (data : bytes) : fallible Shard :=
  if (len data <? headerSize)%Z then fail (TooSmall (len data))
  else
    s <-? parse_header path (len data) data;
    let s := set_mapping s data 1 in
    s <-? (if (0 <? numFiles s)%Z then
             mn <-? panics (File s 0);
             mx <-? panics (File s (numFiles s - 1));
             ok (set_paths s (Path mn) (Path mx))
           else ok s);
    if (0 <? numTri s)%Z then
      keys <-? panics (get_u32s (Z.to_nat (numTri s)) data (triIdx s));
      ok (set_keys s keys)
    else ok s.

(** A length-prefixed string of the symbol table and the position after it. *)
Definition read_str (data : bytes) (pos : Z) : option (bytes * Z) :=
  '(n, p) ← readUvarint data pos;
  str ← slice data p (p + i64 n);
  Some (str, (p + i64 n)%Z).

(** A container is sliced only when its length is positive. *)
Definition read_container (data : bytes) (pos : Z) : option (bytes * Z) :=
  '(n, p) ← readUvarint data pos;
  str ← (if (0 <? n)%Z then slice data p (p + i64 n) else Some []);
  Some (str, (p + i64 n)%Z).

(** [n] definitions from position [pos]. *)
Fixpoint read_defs (n : nat) (data : bytes) (pos : Z) : option (list Def) :=
  match n with
  | O => Some []
  | S n =>
      '(name, p) ← read_str data pos;
      '(kind, p2) ← read_str data p;
      '(container, p3) ← read_container data p2;
      '(line, p4) ← readUvarint data p3;
      ds ← read_defs n data p4;
      Some (mkDef name kind container (i64 line) :: ds)
  end.

(** The position after [n] definitions. *)
Fixpoint skip_defs (n : nat) (data : bytes) (pos : Z) : option Z :=
  match n with
  | O => Some pos
  | S n =>
      '(nameLen, p) ← readUvarint data pos;
      '(kindLen, p2) ← readUvarint data (p + i64 nameLen)%Z;
      '(containerLen, p3) ← readUvarint data (p2 + i64 kindLen)%Z;
      '(_, p4) ← readUvarint data (p3 + i64 containerLen)%Z;
      skip_defs n data p4
  end.

(** The walk of [FileDefs] over the files before [fileID]. *)
Fixpoint walk_defs (fileID : nat) (data : bytes) (pos : Z) : option (list Def) :=
  '(numDefs, next) ← readUvarint data pos;
  match fileID with
  | O => read_defs (Z.to_nat numDefs) data next
  | S fileID => pos ← skip_defs (Z.to_nat numDefs) data next; walk_defs fileID data pos
  end.

(** [FileDefs] *)
Definition FileDefs (s : Shard) (fileID : nat) : option (list Def) :=
  if (symbolOff s =? 0)%Z || (numSyms s =? 0)%Z then Some []
  else walk_defs fileID (sdata s) (symbolOff s).

(** The deltas of a posting, summed as [uint32]s. *)
Fixpoint read_deltas (n : nat) (data : bytes) (pos prev : Z) : option (list Z) :=
  match n with
  | O => Some []
  | S n =>
      '(delta, next) ← readUvarint data pos;
      let prev := u32 (prev + u32 delta) in
      ids ← read_deltas n data next prev;
      Some (prev :: ids)
  end.

(** [posting]: the inner [None] is [nil], a trigram the shard does not have. *)
Definition posting (s : Shard) (tri : Z) : option (option (list Z)) :=
  let keysOff := triIdx s in
  let n := numTri s in
  lo ← search_loop 64 (λ mid, k ← get_le 4 (sdata s) (keysOff + mid * 4)%Z; Some (negb (k <? tri)%Z)) 0 n;
  if (n <=? lo)%Z then Some None
  else
    k ← get_le 4 (sdata s) (keysOff + lo * 4);
    if negb (k =? tri)%Z then Some None
    else
      o ← get_le 4 (sdata s) (keysOff + n * 4 + lo * 4);
      '(numDocs, pos) ← readUvarint (sdata s) (o + s_postings s)%Z;
      ids ← read_deltas (Z.to_nat numDocs) (sdata s) pos 0;
      Some (Some ids).

(** The loop of [Candidates] after the first trigram. *)
Fixpoint candidates_loop (s : Shard) (tris : list Z) (result : list Z) : option (list Z) :=
  match tris with
  | [] => Some result
  | tri :: tris =>
      ids ← posting s tri;
      match ids with
      | None => Some []
      | Some ids =>
          let result := intersectSorted result ids in
          if bool_decide (result = []) then Some [] else candidates_loop s tris result
      end
  end.

(** [Candidates] *)
Definition Candidates (s : Shard) (literal : bytes) : option (list Z) :=
  if length literal <? 3 then Some (map Z.of_nat (seq 0 (Z.to_nat (numFiles s))))
  else
    match trigramsOfLit literal with
    | [] => Some []
    | tri :: tris =>
        ids ← posting s tri;
        match ids with
        | None => Some []
        | Some ids => candidates_loop s tris ids
        end
    end.

(** [HasTrigrams] over the keys in memory. *)
Fixpoint has_keys (keys : list Z) (tris : list Z) : option bool :=
  match tris with
  | [] => Some true
  | tri :: tris =>
      i ← sort_Search (len keys) (λ j, k ← idx keys j; Some (tri <=? k)%Z);
      if (len keys <=? i)%Z then Some false
      else
        k ← idx keys i;
        if negb (k =? tri)%Z then Some false else has_keys keys tris
  end.

Definition HasTrigrams (s : Shard) (literal : bytes) : option bool :=
  if length literal <? 3 then Some true else has_keys (triKeys s) (trigramsOfLit literal).

(** [ContainsPath] *)
Definition ContainsPath (s : Shard) (path : bytes) : bool :=
  bytes_leb (pathMin s) path && bytes_leb path (pathMax s).

(** ** The mapping *)

(** [Mmap]: [mapped] is what opening and mapping the file yields, [None] for an
    error; the result is the new state and whether the call succeeded. *)
Definition Mmap (s : Shard) (mapped : option bytes) : Shard * bool :=
  if (0 <? refs s)%Z then (set_mapping s (sdata s) (refs s + 1), true)
  else match mapped with
       | None => (s, false)
       | Some data => (set_mapping s data 1, true)
       end.

(** [Munmap] *)
Definition Munmap (s : Shard) : Shard :=
  if (refs s <=? 0)%Z then s
  else
    let n := (refs s - 1)%Z in
    if (n =? 0)%Z then set_mapping s [] n else set_mapping s (sdata s) n.
