(* ===== verification/ShardLayout.v ===== *)
(** * The layout of a shard file

    The bytes [Write] produces are the concatenation of the sections documented
    in internal/shard/shard.go ([Write_layout]): the header, the file table, the
    path blob, the trigram keys and offsets, the postings, the symbol table and
    the content blob, each in closed form. *)

From S2P Require Import Prelude Trigram Symbol Index Codec Shard.

(** ** Fields: little-endian integers one after the other *)

Definition put_fields (fs : list (nat * Z)) : bytes := concat (map (λ f, le_put f.1 f.2) fs).
Definition fields_len (fs : list (nat * Z)) : Z := Z.of_nat (sum_list_with fst fs).

Lemma length_put_fields fs : length (put_fields fs) = sum_list_with fst fs.
Proof.
  induction fs as [|[n z] fs IH]; [done|].
  unfold put_fields in *. simpl. by rewrite length_app, length_le_put, IH.
Qed.

Lemma put_fields_app a b : put_fields (a ++ b) = put_fields a ++ put_fields b.
Proof. unfold put_fields. by rewrite map_app, concat_app. Qed.

Lemma get_field pre fs post i n z off :
  fs !! i = Some (n, z) → (0 ≤ z < 256 ^ Z.of_nat n)%Z →
  off = (len pre + fields_len (take i fs))%Z →
  get_le n (pre ++ put_fields fs ++ post) off = Some z.
Proof.
  intros Hi Hz ->. rewrite <-(take_drop_middle _ _ _ Hi), put_fields_app.
  replace (put_fields ((n, z) :: drop (S i) fs)) with (le_put n z ++ put_fields (drop (S i) fs)) by done.
  rewrite <-!app_assoc, (app_assoc pre). apply get_le_app; [|done|done].
  unfold len, fields_len. rewrite length_app, length_put_fields.
  rewrite take_app_le, take_take, Nat.min_id by (rewrite length_take; apply lookup_lt_Some in Hi; lia).
  lia.
Qed.

(** An array of [uint32]s. *)
Definition u32s (xs : list Z) : list (nat * Z) := map (pair 4) xs.

Lemma fields_len_u32s xs : fields_len (u32s xs) = (4 * len xs)%Z.
Proof.
  unfold fields_len, len, u32s.
  enough (sum_list_with fst (map (pair 4) xs) = 4 * length xs) as -> by lia.
  induction xs as [|x xs IH]; [done|]. simpl. lia.
Qed.

Lemma get_u32 pre xs post i x off :
  xs !! i = Some x → (0 ≤ x < 2 ^ 32)%Z → off = (len pre + 4 * Z.of_nat i)%Z →
  get_le 4 (pre ++ put_fields (u32s xs) ++ post) off = Some x.
Proof.
  intros Hi Hx ->. apply (get_field _ _ _ i); [|done|].
  - unfold u32s. by rewrite list_lookup_fmap, Hi.
  - unfold u32s. rewrite <-fmap_take. fold (u32s (take i xs)). rewrite fields_len_u32s.
    unfold len. rewrite length_take. apply lookup_lt_Some in Hi. lia.
Qed.

(** ** Writing a zeroed buffer from left to right *)

Lemma zeros_split n m : n ≤ m → zeros m = zeros n ++ zeros (m - n).
Proof. intros. unfold zeros. rewrite <-replicate_add. f_equal. lia. Qed.

Lemma copy_next d m src off :
  off = len d → length src ≤ m →
  copy_at (d ++ zeros m) off src = Some ((d ++ src) ++ zeros (m - length src)).
Proof.
  intros -> Hm. rewrite (zeros_split (length src) m) by done.
  rewrite copy_at_app; [by rewrite app_assoc|done|]. unfold zeros. by rewrite length_replicate.
Qed.

Lemma put_next n d m off z :
  off = len d → n ≤ m →
  put_le n (d ++ zeros m) off z = Some ((d ++ le_put n z) ++ zeros (m - n)).
Proof.
  intros -> Hm. rewrite (zeros_split n m) by done.
  rewrite put_le_app; [by rewrite app_assoc|done|]. unfold zeros. by rewrite length_replicate.
Qed.

Lemma skip_next n d m : n ≤ m → d ++ zeros m = (d ++ zeros n) ++ zeros (m - n).
Proof. intros. by rewrite <-app_assoc, <-zeros_split. Qed.

(** ** The sections in closed form *)

Definition path_blob (fs : list buildFile) : bytes := concat (map bf_path fs).
Definition content_blob (fs : list buildFile) : bytes :=
  concat (map (λ f, default [] (bf_content f)) fs).

Fixpoint path_refs (off : Z) (fs : list buildFile) : list (Z * Z) :=
  match fs with
  | [] => []
  | f :: fs => (off, len (bf_path f)) :: path_refs (off + len (bf_path f)) fs
  end.

Fixpoint content_refs (off : Z) (fs : list buildFile) : list (Z * Z) :=
  match fs with
  | [] => []
  | f :: fs =>
      match bf_content f with
      | Some c => (u32 off, u32 (len c)) :: content_refs (off + len c) fs
      | None => (noContent, 0%Z) :: content_refs off fs
      end
  end.

Definition uv (x : Z) : bytes := put_uvarint MaxVarintLen64 x.
Definition str_bytes (s : bytes) : bytes := uv (len s) ++ s.
Definition def_bytes (d : Def) : bytes :=
  str_bytes (d_Name d) ++ str_bytes (d_Kind d) ++ str_bytes (d_Container d) ++ uv (u64 (d_Line d)).
Definition file_syms (f : buildFile) : bytes :=
  uv (len (bf_defs f)) ++ concat (map def_bytes (bf_defs f)).
Definition sym_table (fs : list buildFile) : bytes := concat (map file_syms fs).
Definition num_defs (fs : list buildFile) : Z := Z.of_nat (sum_list_with (length ∘ bf_defs) fs).

Fixpoint deltas (prev : Z) (ids : list Z) : bytes :=
  match ids with
  | [] => []
  | id :: ids => uv (u32 (id - prev)) ++ deltas id ids
  end.
Definition posting_bytes (ids : list Z) : bytes := uv (len ids) ++ deltas 0 ids.
Definition ids_of (tr : gmap Z (list Z)) (k : Z) : list Z := merge_sort Z.le (postings tr k).
Definition post_data (tr : gmap Z (list Z)) (ks : list Z) : bytes :=
  concat (map (λ k, posting_bytes (ids_of tr k)) ks).

Fixpoint post_offsets (tr : gmap Z (list Z)) (off : Z) (ks : list Z) : list Z :=
  match ks with
  | [] => []
  | k :: ks => u32 off :: post_offsets tr (off + len (posting_bytes (ids_of tr k))) ks
  end.

(** One entry of the file table, its two bytes of padding included. *)
Definition entry_fields (f : buildFile) (pr cr : Z * Z) : list (nat * Z) :=
  [(4, u32 pr.1); (2, u16 pr.2); (2, 0%Z); (8, u64 (bf_size f)); (8, u64 (bf_mtimeNS f));
   (4, cr.1); (4, cr.2)].

Fixpoint table (fs : list buildFile) (prs crs : list (Z * Z)) : bytes :=
  match fs, prs, crs with
  | f :: fs, pr :: prs, cr :: crs => put_fields (entry_fields f pr cr) ++ table fs prs crs
  | _, _, _ => []
  end.

Section Keys.
Context `{MapOrder}.

Definition keys_of (b : Builder) : list Z := merge_sort Z.le (range (b_tris b)).*1.

(** The offsets of the sections. *)
Definition path_off (b : Builder) : Z := (64 + 32 * len (b_files b))%Z.
Definition tri_off (b : Builder) : Z := (path_off b + len (path_blob (b_files b)))%Z.
Definition offs_off (b : Builder) : Z := (tri_off b + 4 * len (keys_of b))%Z.
Definition post_off (b : Builder) : Z := (offs_off b + 4 * len (keys_of b))%Z.
Definition sym_off (b : Builder) : Z := (post_off b + len (post_data (b_tris b) (keys_of b)))%Z.
Definition content_off (b : Builder) : Z :=
  if (0 <? len (content_blob (b_files b)))%Z then (sym_off b + len (sym_table (b_files b)))%Z else 0%Z.

Definition header_fields (b : Builder) : list (nat * Z) :=
  [(4, formatVer); (4, len (b_files b)); (4, len (keys_of b)); (4, num_defs (b_files b));
   (8, headerSize); (8, tri_off b); (8, post_off b); (8, sym_off b); (8, content_off b)].

Definition table_of (b : Builder) : bytes :=
  table (b_files b) (path_refs 0 (b_files b)) (content_refs 0 (b_files b)).

Definition shard_bytes (b : Builder) : bytes :=
  (magic ++ put_fields (header_fields b)) ++ table_of b ++ path_blob (b_files b) ++
  put_fields (u32s (keys_of b)) ++ put_fields (u32s (post_offsets (b_tris b) 0 (keys_of b))) ++
  post_data (b_tris b) (keys_of b) ++ sym_table (b_files b) ++ content_blob (b_files b).

(** The sizes the format can represent: 32-bit counts and section offsets,
    16-bit path lengths, 64-bit integers. *)
Record fits (b : Builder) : Prop := {
  fits_files : (len (b_files b) < 2 ^ 32)%Z;
  fits_paths : Forall (λ f, len (bf_path f) < 2 ^ 16)%Z (b_files b);
  fits_meta : Forall (λ f, - 2 ^ 63 ≤ bf_size f < 2 ^ 63 ∧ - 2 ^ 63 ≤ bf_mtimeNS f < 2 ^ 63)%Z (b_files b);
  fits_lines : Forall (λ f, Forall (λ d, - 2 ^ 63 ≤ d_Line d < 2 ^ 63)%Z (bf_defs f)) (b_files b);
  fits_blob : (len (path_blob (b_files b)) < 2 ^ 32)%Z;
  fits_post : (len (post_data (b_tris b) (keys_of b)) < 2 ^ 32)%Z;
  fits_defs : (num_defs (b_files b) < 2 ^ 32)%Z;
  fits_content : (len (content_blob (b_files b)) < 2 ^ 32)%Z;
  fits_total : (len (shard_bytes b) < 2 ^ 63)%Z;
}.

(** The trigrams of a builder: keys of 24 bits, with non-empty postings of
    increasing ids of its files. *)
Record tris_ok (b : Builder) : Prop := {
  tris_keys k : k ∈ keys_of b ↔ postings (b_tris b) k ≠ [];
  tris_range k : k ∈ keys_of b → (0 ≤ k < 2 ^ 24)%Z;
  tris_inc k : increasing (postings (b_tris b) k);
  tris_ids k id : id ∈ postings (b_tris b) k → (0 ≤ id < len (b_files b))%Z;
}.
End Keys.

(** ** The loops of [Write] *)

Lemma len_app {A} (a b : list A) : len (a ++ b) = (len a + len b)%Z.
Proof. unfold len. rewrite length_app. lia. Qed.

Lemma path_loop fs blob rs :
  foldl path_step (blob, rs) fs = (blob ++ path_blob fs, rs ++ path_refs (len blob) fs).
Proof.
  revert blob rs. induction fs as [|f fs IH]; intros blob rs; simpl; [by rewrite !app_nil_r|].
  rewrite IH, len_app. by rewrite <-!app_assoc.
Qed.

Lemma content_loop fs blob rs :
  foldl content_step (blob, rs) fs
    = (blob ++ content_blob fs, rs ++ content_refs (len blob) fs).
Proof.
  revert blob rs. induction fs as [|f fs IH]; intros blob rs; simpl; [by rewrite !app_nil_r|].
  unfold content_blob in *. simpl.
  destruct (bf_content f) as [c|]; simpl; rewrite IH, ?len_app; by rewrite <-!app_assoc.
Qed.

Lemma sym_defs_loop data ds : foldl sym_def data ds = data ++ concat (map def_bytes ds).
Proof.
  revert data. induction ds as [|d ds IH]; intros data; simpl; [by rewrite app_nil_r|].
  rewrite IH. unfold sym_def, append_str, appendUvarint, def_bytes, str_bytes, uv.
  by rewrite <-!app_assoc.
Qed.

Lemma num_defs_cons f fs : num_defs (f :: fs) = (len (bf_defs f) + num_defs fs)%Z.
Proof. unfold num_defs, len. simpl. lia. Qed.

Lemma sym_loop fs data n :
  (0 ≤ n)%Z → (n + num_defs fs < 2 ^ 32)%Z →
  foldl sym_step (data, n) fs = (data ++ sym_table fs, (n + num_defs fs)%Z).
Proof.
  revert data n. induction fs as [|f fs IH]; intros data n Hn Hb.
  { cbn. by rewrite app_nil_r, Z.add_0_r. }
  cbn [foldl sym_step].
  rewrite num_defs_cons in *.
  assert (0 ≤ num_defs fs)%Z by (unfold num_defs; lia). assert (0 ≤ len (bf_defs f))%Z by (unfold len; lia).
  rewrite u32_small, IH by lia. rewrite sym_defs_loop. unfold sym_table, appendUvarint, file_syms.
  cbn [map concat]. rewrite <-!app_assoc. f_equal. lia.
Qed.

Lemma put_deltas_loop prev ids data : put_deltas prev ids data = data ++ deltas prev ids.
Proof.
  revert prev data. induction ids as [|id ids IH]; intros prev data; simpl; [by rewrite app_nil_r|].
  rewrite IH. unfold appendUvarint. by rewrite <-app_assoc.
Qed.

Lemma post_loop tr ks data os :
  foldl (post_step tr) (data, os) ks = (data ++ post_data tr ks, os ++ post_offsets tr (len data) ks).
Proof.
  revert data os. induction ks as [|k ks IH]; intros data os; [cbn; by rewrite !app_nil_r|].
  cbn [foldl post_step post_offsets]. rewrite put_deltas_loop. unfold appendUvarint. rewrite <-(app_assoc data).
  fold (uv (len (merge_sort Z.le (postings tr k)))). fold (ids_of tr k).
  fold (posting_bytes (ids_of tr k)). rewrite IH, len_app. unfold post_data. cbn [map concat].
  by rewrite <-!app_assoc.
Qed.

Lemma length_entry f pr cr : length (put_fields (entry_fields f pr cr)) = 32.
Proof. by rewrite length_put_fields. Qed.

Lemma length_path_refs off fs : length (path_refs off fs) = length fs.
Proof. revert off. induction fs; intros off; simpl; auto. Qed.

Lemma length_content_refs off fs : length (content_refs off fs) = length fs.
Proof.
  revert off. induction fs as [|f fs IH]; intros off; simpl; [done|].
  destruct (bf_content f); simpl; auto.
Qed.

Lemma length_post_offsets tr off ks : length (post_offsets tr off ks) = length ks.
Proof. revert off. induction ks; intros off; simpl; auto. Qed.

Lemma length_table fs prs crs :
  length prs = length fs → length crs = length fs → length (table fs prs crs) = 32 * length fs.
Proof.
  revert prs crs. induction fs as [|f fs IH]; intros [|pr prs] [|cr crs]; try done. intros [=] [=].
  cbn [table]. rewrite length_app, length_entry, IH by done. simpl. lia.
Qed.

Lemma put_entries_spec fs prs crs d m off :
  length prs = length fs → length crs = length fs → off = len d → 32 * length fs ≤ m →
  put_entries (d ++ zeros m) off fs prs crs =
    Some ((d ++ table fs prs crs) ++ zeros (m - 32 * length fs)).
Proof.
  revert prs crs d m off. induction fs as [|f fs IH]; intros [|pr prs] [|cr crs] d m off; try done.
  { intros _ _ _ _. simpl. by rewrite app_nil_r, Nat.sub_0_r. }
  intros [=] [=] -> Hm. cbn [length] in Hm. cbn [put_entries].
  rewrite put_next by lia. cbn [mbind option_bind].
  rewrite put_next by (rewrite ?len_app; unfold len; rewrite ?length_le_put; lia).
  cbn [mbind option_bind]. rewrite (skip_next 2) by lia.
  do 4 (rewrite put_next by
    (rewrite ?len_app; unfold len; rewrite ?length_le_put; unfold zeros; rewrite ?length_replicate; lia);
    cbn [mbind option_bind]).
  rewrite IH; [|done|done| |lia].
  - f_equal. f_equal; [|f_equal; cbn [length]; lia]. cbn [table].
    unfold put_fields at 1, entry_fields. cbn [map concat fst snd].
    rewrite app_nil_r, <-!app_assoc. do 3 f_equal.
  - rewrite !len_app. unfold len. rewrite !length_le_put. unfold zeros, fileEntryLen.
    rewrite length_replicate. lia.
Qed.

Lemma put_u32s_spec xs d m off :
  off = len d → 4 * length xs ≤ m →
  put_u32s (d ++ zeros m) off xs = Some ((d ++ put_fields (u32s xs)) ++ zeros (m - 4 * length xs)).
Proof.
  revert d m off. induction xs as [|x xs IH]; intros d m off -> Hm.
  { cbn. by rewrite app_nil_r, Nat.sub_0_r. }
  cbn [length] in Hm. cbn [put_u32s]. rewrite put_next by lia. cbn [mbind option_bind].
  rewrite IH; [|unfold len; rewrite length_app, length_le_put; lia|lia].
  f_equal. f_equal; [|f_equal; cbn [length]; lia]. by rewrite <-app_assoc.
Qed.

(** ** [Write] *)

Lemma NoDup_Z_bound (l : list Z) n :
  NoDup l → (0 ≤ n)%Z → (∀ x, x ∈ l → 0 ≤ x < n)%Z → (len l ≤ n)%Z.
Proof.
  intros Hnd Hn Hr. unfold len.
  assert (length l ≤ length (seqZ 0 n)) as Hl; [|rewrite length_seqZ in Hl; lia].
  apply submseteq_length, NoDup_submseteq; [done|].
  intros x Hx. apply elem_of_seqZ. specialize (Hr x Hx). lia.
Qed.

Section Layout.
Context `{MapOrder} (b : Builder) (Hfits : fits b) (Htris : tris_ok b).

Lemma keys_NoDup : NoDup (keys_of b).
Proof.
  unfold keys_of. rewrite merge_sort_Permutation, range_perm. apply NoDup_fst_map_to_list.
Qed.

Lemma keys_count : (len (keys_of b) ≤ 2 ^ 24)%Z.
Proof. apply NoDup_Z_bound; [apply keys_NoDup|done|]. apply (tris_range _ Htris). Qed.

Lemma len_header : len (magic ++ put_fields (header_fields b)) = 64%Z.
Proof. unfold len. by rewrite length_app, length_put_fields. Qed.

Lemma len_table : len (table_of b) = (32 * len (b_files b))%Z.
Proof.
  unfold len, table_of. rewrite length_table; [lia|apply length_path_refs|apply length_content_refs].
Qed.

Lemma len_u32s xs : len (put_fields (u32s xs)) = (4 * len xs)%Z.
Proof.
  unfold len at 1. rewrite length_put_fields. fold (fields_len (u32s xs)). apply fields_len_u32s.
Qed.

Lemma len_nonneg {A} (l : list A) : (0 ≤ len l)%Z.
Proof. unfold len. lia. Qed.

Lemma len_shard : len (shard_bytes b) = (sym_off b + len (sym_table (b_files b)) + len (content_blob (b_files b)))%Z.
Proof.
  unfold shard_bytes. rewrite len_app, len_header. rewrite !len_app, len_table, !len_u32s.
  unfold sym_off, post_off, offs_off, tri_off, path_off.
  unfold len at 4. rewrite length_post_offsets. fold (len (keys_of b)). lia.
Qed.

Lemma offsets_bounds :
  (64 ≤ path_off b ∧ path_off b ≤ tri_off b ∧ tri_off b ≤ offs_off b ∧ offs_off b ≤ post_off b ∧
   post_off b ≤ sym_off b ∧ sym_off b < 2 ^ 63 ∧ 0 ≤ content_off b < 2 ^ 63)%Z.
Proof.
  pose proof (fits_total _ Hfits) as Ht. rewrite len_shard in Ht.
  pose proof (len_nonneg (sym_table (b_files b))). pose proof (len_nonneg (content_blob (b_files b))).
  pose proof (len_nonneg (b_files b)). pose proof (len_nonneg (path_blob (b_files b))).
  pose proof (len_nonneg (keys_of b)). pose proof (len_nonneg (post_data (b_tris b) (keys_of b))).
  unfold content_off, sym_off, post_off, offs_off, tri_off, path_off in *.
  destruct (Z.ltb_spec 0 (len (content_blob (b_files b)))); lia.
Qed.

Lemma Write_layout : Write b = Some (shard_bytes b).
Proof.
  pose proof offsets_bounds as (B1 & B2 & B3 & B4 & B5 & B6 & B7 & B8).
  pose proof keys_count as Hkc. pose proof (fits_files _ Hfits) as Hff.
  pose proof (len_nonneg (b_files b)) as P1. pose proof (len_nonneg (keys_of b)) as P2.
  pose proof (len_nonneg (sym_table (b_files b))) as P3.
  pose proof (len_nonneg (content_blob (b_files b))) as P4.
  pose proof (fits_total _ Hfits) as Ht. rewrite len_shard in Ht.
  unfold Write. cbv zeta. fold (keys_of b).
  rewrite path_loop, post_loop, sym_loop, content_loop; [|done|by apply fits_defs].
  cbn [app]. change (len (@nil byte)) with 0%Z. cbv zeta.
  rewrite !(u32_small (len _)) by lia.
  unfold headerSize, fileEntryLen.
  replace (u64 (64 + len (b_files b) * 32 + len (path_blob (b_files b)))) with (tri_off b)
    by (rewrite u64_small; unfold tri_off, path_off in *; lia).
  replace (u64 (tri_off b + len (keys_of b) * 4 * 2)) with (post_off b)
    by (rewrite u64_small; unfold post_off, offs_off in *; lia).
  replace (u64 (post_off b + len (post_data (b_tris b) (keys_of b)))) with (sym_off b)
    by (rewrite u64_small; unfold sym_off in *; lia).
  rewrite (i64_small (sym_off b)), (i64_small (tri_off b)), (i64_small (post_off b)) by lia.
  rewrite (proj2 (Z.leb_le 0 _)) by lia.
  replace (if (0 <? len (content_blob (b_files b)))%Z then _ else 0%Z) with (content_off b).
  2:{ unfold content_off in *. destruct (Z.ltb_spec 0 (len (content_blob (b_files b)))); [|done].
      rewrite u64_small; lia. }
  set (N := Z.to_nat _).
  assert (Z.of_nat N = (sym_off b + len (sym_table (b_files b)) + len (content_blob (b_files b)))%Z)
    as HN by (unfold N; lia). clearbody N.
  rewrite <-(app_nil_l (zeros N)).
  rewrite copy_next by (first [done|change (length magic) with 8; lia]). cbn [mbind option_bind].
  change (length magic) with 8.
  do 9 (rewrite put_next by
    (first [lia|rewrite ?len_app; unfold len; rewrite ?length_le_put; reflexivity]);
    cbn [mbind option_bind]).
  match goal with |- context [put_entries (?d ++ zeros ?m)] =>
    assert (d = magic ++ put_fields (header_fields b)) as -> by
      (unfold put_fields, header_fields; cbn [map concat fst snd];
       rewrite app_nil_r, <-!app_assoc; reflexivity);
    replace m with (N - 64) by lia
  end.
  set (hd := magic ++ put_fields (header_fields b)).
  pose proof len_header as Hhd. fold hd in Hhd.
  rewrite put_entries_spec; [|apply length_path_refs|apply length_content_refs|done|].
  2:{ unfold sym_off, post_off, offs_off, tri_off, path_off, len in *. lia. }
  cbn [mbind option_bind]. fold (table_of b).
  rewrite copy_next; [|rewrite len_app, len_table; lia|].
  2:{ unfold sym_off, post_off, offs_off, tri_off, path_off, len in *. lia. }
  cbn [mbind option_bind].
  rewrite put_u32s_spec; [|rewrite !len_app, len_table; unfold tri_off, path_off; lia|].
  2:{ unfold sym_off, post_off, offs_off, tri_off, path_off, len in *. lia. }
  cbn [mbind option_bind].
  rewrite put_u32s_spec;
    [|rewrite !len_app, len_table, len_u32s; unfold tri_off, path_off; lia|].
  2:{ rewrite length_post_offsets. unfold sym_off, post_off, offs_off, tri_off, path_off, len in *. lia. }
  cbn [mbind option_bind]. rewrite length_post_offsets.
  assert (len (post_offsets (b_tris b) 0 (keys_of b)) = len (keys_of b)) as Hpo
    by (unfold len; by rewrite length_post_offsets).
  rewrite copy_next;
    [|rewrite !len_app, len_table, !len_u32s; unfold post_off, offs_off, tri_off, path_off; lia|].
  2:{ unfold sym_off, post_off, offs_off, tri_off, path_off, len in *. lia. }
  cbn [mbind option_bind].
  rewrite copy_next;
    [|rewrite !len_app, len_table, !len_u32s; unfold sym_off, post_off, offs_off, tri_off, path_off; lia|].
  2:{ unfold sym_off, post_off, offs_off, tri_off, path_off, len in *. lia. }
  cbn [mbind option_bind].
  match goal with |- context [zeros ?m] =>
    replace m with (length (content_blob (b_files b))) by
      (unfold sym_off, post_off, offs_off, tri_off, path_off, len in *; lia)
  end.
  unfold shard_bytes. fold hd. unfold content_off.
  destruct (Z.ltb_spec 0 (len (content_blob (b_files b)))) as [Hc|Hc].
  - unfold content_off in B7, B8. rewrite (proj2 (Z.ltb_lt _ _) Hc) in B7, B8.
    rewrite (proj2 (Z.ltb_lt _ _)) by lia. rewrite i64_small by lia.
    rewrite copy_next; [|rewrite !len_app, len_table, !len_u32s;
      unfold sym_off, post_off, offs_off, tri_off, path_off; lia|lia].
    rewrite Nat.sub_diag, app_nil_r. by rewrite <-!app_assoc.
  - change (0 <? 0)%Z with false.
    destruct (content_blob (b_files b)) as [|x l] eqn:E; [|unfold len in Hc; simpl in Hc; lia].
    cbn [length zeros replicate]. by rewrite <-!app_assoc, !app_nil_r.
Qed.
End Layout.
