(* ===== verification/ShardRead.v ===== *)
(** * Reading a shard back: internal/shard/shard.go against [Write]

    On a shard whose data are the bytes of [Write], the accessors return what the
    builder was given ([File_spec], [FileContent_spec], [FileDefs_spec]), the
    postings are those of the builder, and [Candidates] and [HasTrigrams] answer
    from the trigram sets of the contents. *)

From S2P Require Import Prelude Trigram Symbol Index Codec Shard ShardLayout.

(** The ranges of the stored integers. *)

Lemma u16_range z : (0 ≤ u16 z < 256 ^ Z.of_nat 2)%Z.
Proof. apply (Z.mod_pos_bound z (2 ^ 16)). done. Qed.
Lemma u32_range z : (0 ≤ u32 z < 256 ^ Z.of_nat 4)%Z.
Proof. apply (Z.mod_pos_bound z (2 ^ 32)). done. Qed.
Lemma u64_range z : (0 ≤ u64 z < 256 ^ Z.of_nat 8)%Z.
Proof. apply (Z.mod_pos_bound z (2 ^ 64)). done. Qed.

(** The parts of the file table. *)

Lemma table_split fs prs crs i f pr cr :
  fs !! i = Some f → prs !! i = Some pr → crs !! i = Some cr →
  ∃ a c, table fs prs crs = a ++ put_fields (entry_fields f pr cr) ++ c ∧ length a = 32 * i.
Proof.
  revert prs crs i. induction fs as [|g fs IH]; intros [|q prs] [|d crs] [|i]; try done.
  - intros [= ->] [= ->] [= ->]. exists [], (table fs prs crs). by split.
  - cbn [lookup list_lookup]. intros Hf Hp Hc.
    destruct (IH prs crs i Hf Hp Hc) as (a & c & Ha & Hl).
    exists (put_fields (entry_fields g q d) ++ a), c. cbn [table]. rewrite Ha. split.
    + by rewrite <-app_assoc.
    + rewrite length_app, length_entry. lia.
Qed.

(** The fields of entry [i]. *)
Definition path_ref (fs : list buildFile) (i : nat) (f : buildFile) : Z * Z :=
  (len (path_blob (take i fs)), len (bf_path f)).
Definition content_ref (fs : list buildFile) (i : nat) (f : buildFile) : Z * Z :=
  match bf_content f with
  | Some c => (u32 (len (content_blob (take i fs))), u32 (len c))
  | None => (noContent, 0%Z)
  end.
Definition fields_at (fs : list buildFile) (i : nat) (f : buildFile) : list (nat * Z) :=
  entry_fields f (path_ref fs i f) (content_ref fs i f).

Lemma path_refs_lookup off fs i f :
  fs !! i = Some f →
  path_refs off fs !! i = Some ((off + len (path_blob (take i fs)))%Z, len (bf_path f)).
Proof.
  revert off i. induction fs as [|g fs IH]; intros off [|i]; try done.
  - intros [= ->]. simpl. change (len (path_blob [])) with 0%Z. by rewrite Z.add_0_r.
  - cbn [lookup list_lookup path_refs take]. intros Hf. rewrite (IH _ i Hf).
    change (path_blob (g :: take i fs)) with (bf_path g ++ path_blob (take i fs)).
    rewrite len_app. do 2 f_equal. lia.
Qed.

Lemma path_blob_split fs i f :
  fs !! i = Some f →
  path_blob fs = path_blob (take i fs) ++ bf_path f ++ path_blob (drop (S i) fs).
Proof.
  intros Hf. rewrite <-(take_drop_middle _ _ _ Hf) at 1. unfold path_blob.
  by rewrite map_app, concat_app.
Qed.

Lemma content_refs_lookup off fs i f :
  fs !! i = Some f →
  content_refs off fs !! i = Some
    match bf_content f with
    | Some c => (u32 (off + len (content_blob (take i fs))), u32 (len c))
    | None => (noContent, 0%Z)
    end.
Proof.
  revert off i. induction fs as [|g fs IH]; intros off [|i]; try done.
  - intros [= ->]. simpl. change (len (content_blob [])) with 0%Z. rewrite Z.add_0_r.
    by destruct (bf_content f).
  - cbn [lookup list_lookup content_refs take]. intros Hf.
    assert (len (content_blob (g :: take i fs)) =
      (len (default [] (bf_content g)) + len (content_blob (take i fs)))%Z) as ->
      by (by rewrite <-len_app).
    destruct (bf_content g) as [c|]; cbn [lookup list_lookup]; rewrite (IH _ i Hf);
      destruct (bf_content f); cbn; change (len (@nil byte)) with 0%Z;
      by rewrite ?Z.add_assoc, ?Z.add_0_r.
Qed.

Lemma content_blob_split fs i f c :
  fs !! i = Some f → bf_content f = Some c →
  content_blob fs = content_blob (take i fs) ++ c ++ content_blob (drop (S i) fs).
Proof.
  intros Hf Hc. rewrite <-(take_drop_middle _ _ _ Hf) at 1. unfold content_blob.
  rewrite map_app, concat_app. cbn [map concat]. by rewrite Hc.
Qed.

Lemma len_take_le {A} (l : list A) i : (len (take i l) ≤ len l)%Z.
Proof. unfold len. rewrite length_take. lia. Qed.

(** The sections and their offsets. *)
Section Split.
Context `{MapOrder} (b : Builder).

Lemma split_keys :
  ∃ pre post, shard_bytes b = pre ++ put_fields (u32s (keys_of b)) ++ post ∧ len pre = tri_off b.
Proof.
  pose proof (len_header b) as Hh. pose proof (len_table b) as Ht. unfold shard_bytes.
  revert Hh Ht. generalize (magic ++ put_fields (header_fields b)) (table_of b). intros hd tb Hh Ht.
  exists (hd ++ tb ++ path_blob (b_files b)). eexists. rewrite <-!app_assoc. split; [done|].
  rewrite !len_app, Hh, Ht. unfold tri_off, path_off. lia.
Qed.

Lemma split_offs :
  ∃ pre post, shard_bytes b = pre ++ put_fields (u32s (post_offsets (b_tris b) 0 (keys_of b))) ++ post
    ∧ len pre = offs_off b.
Proof.
  pose proof (len_header b) as Hh. pose proof (len_table b) as Ht.
  pose proof (len_u32s (keys_of b)) as Hk. unfold shard_bytes.
  revert Hh Ht Hk. generalize (magic ++ put_fields (header_fields b)) (table_of b)
    (put_fields (u32s (keys_of b))). intros hd tb ks Hh Ht Hk.
  exists (hd ++ tb ++ path_blob (b_files b) ++ ks). eexists. rewrite <-!app_assoc. split; [done|].
  rewrite !len_app, Hh, Ht, Hk. unfold offs_off, tri_off, path_off. lia.
Qed.

Lemma split_post :
  ∃ pre post, shard_bytes b = pre ++ post_data (b_tris b) (keys_of b) ++ post ∧ len pre = post_off b.
Proof.
  pose proof (len_u32s (post_offsets (b_tris b) 0 (keys_of b))) as Ho. revert Ho.
  assert (len (post_offsets (b_tris b) 0 (keys_of b)) = len (keys_of b)) as ->
    by (unfold len; by rewrite length_post_offsets).
  pose proof (len_header b) as Hh. pose proof (len_table b) as Ht.
  pose proof (len_u32s (keys_of b)) as Hk. revert Hh Ht Hk. unfold shard_bytes.
  generalize (magic ++ put_fields (header_fields b)) (table_of b)
    (put_fields (u32s (keys_of b))) (put_fields (u32s (post_offsets (b_tris b) 0 (keys_of b)))).
  intros hd tb ks os Hh Ht Hk Ho.
  exists (hd ++ tb ++ path_blob (b_files b) ++ ks ++ os). eexists. rewrite <-!app_assoc.
  split; [done|]. rewrite !len_app, Hh, Ht, Hk, Ho. unfold post_off, offs_off, tri_off, path_off. lia.
Qed.

Lemma split_sym :
  ∃ pre, shard_bytes b = pre ++ sym_table (b_files b) ++ content_blob (b_files b) ∧ len pre = sym_off b.
Proof.
  pose proof (len_u32s (post_offsets (b_tris b) 0 (keys_of b))) as Ho. revert Ho.
  assert (len (post_offsets (b_tris b) 0 (keys_of b)) = len (keys_of b)) as ->
    by (unfold len; by rewrite length_post_offsets).
  pose proof (len_header b) as Hh. pose proof (len_table b) as Ht.
  pose proof (len_u32s (keys_of b)) as Hk. revert Hh Ht Hk. unfold shard_bytes.
  generalize (magic ++ put_fields (header_fields b)) (table_of b)
    (put_fields (u32s (keys_of b))) (put_fields (u32s (post_offsets (b_tris b) 0 (keys_of b)))).
  intros hd tb ks os Hh Ht Hk Ho.
  exists (hd ++ tb ++ path_blob (b_files b) ++ ks ++ os ++ post_data (b_tris b) (keys_of b)).
  rewrite <-!app_assoc. split; [done|]. rewrite !len_app, Hh, Ht, Hk, Ho.
  unfold sym_off, post_off, offs_off, tri_off, path_off. lia.
Qed.
End Split.

(** A shard over the bytes of [Write]. *)
Record laid_out `{MapOrder} (b : Builder) (s : Shard) : Prop := {
  lo_data : sdata s = shard_bytes b;
  lo_files : numFiles s = len (b_files b);
  lo_tri : numTri s = len (keys_of b);
  lo_syms : numSyms s = num_defs (b_files b);
  lo_tbl : fileTbl s = headerSize;
  lo_blob : pathBlob s = path_off b;
  lo_idx : triIdx s = tri_off b;
  lo_post : s_postings s = post_off b;
  lo_sym : symbolOff s = sym_off b;
  lo_content : contentOff s = content_off b;
}.

Section Read.
Context `{MapOrder} (b : Builder) (Hfits : fits b) (Htris : tris_ok b).

Lemma get_entry i f j n z o off :
  b_files b !! i = Some f →
  fields_at (b_files b) i f !! j = Some (n, z) → (0 ≤ z < 256 ^ Z.of_nat n)%Z →
  fields_len (take j (fields_at (b_files b) i f)) = o →
  off = (64 + 32 * Z.of_nat i + o)%Z →
  get_le n (shard_bytes b) off = Some z.
Proof.
  intros Hf Hj Hz <- ->.
  pose proof (path_refs_lookup 0 _ _ _ Hf) as Hp. pose proof (content_refs_lookup 0 _ _ _ Hf) as Hc.
  rewrite Z.add_0_l in Hp, Hc.
  destruct (table_split _ _ _ i f _ _ Hf Hp Hc) as (a & c & Ht & Ha).
  fold (path_ref (b_files b) i f) (content_ref (b_files b) i f) (fields_at (b_files b) i f) in Ht.
  unfold shard_bytes, table_of. rewrite Ht, <-!(app_assoc a), (app_assoc _ a).
  rewrite <-(app_assoc (put_fields (fields_at _ _ _))).
  apply (get_field _ _ _ j); [done|done|].
  rewrite len_app, len_header. unfold len. rewrite Ha. lia.
Qed.

Context (s : Shard) (Hs : laid_out b s).

Lemma u64_i64 z : (- 2 ^ 63 ≤ z < 2 ^ 63)%Z → i64 (u64 z) = z.
Proof. intros. by rewrite i64_u64, i64_small. Qed.

Lemma File_spec i f :
  b_files b !! i = Some f →
  File s (Z.of_nat i) = Some (mkMeta (bf_path f) (bf_size f) (bf_mtimeNS f)).
Proof.
  intros Hf. pose proof (path_blob_split _ _ _ Hf) as Hblob.
  assert (len (path_blob (take i (b_files b))) < 2 ^ 32)%Z as Hoff.
  { pose proof (fits_blob _ Hfits) as Hb. rewrite Hblob, len_app in Hb.
    pose proof (len_nonneg (bf_path f ++ path_blob (drop (S i) (b_files b)))). lia. }
  pose proof (len_nonneg (path_blob (take i (b_files b)))).
  pose proof (Forall_lookup_1 _ _ _ _ (fits_paths _ Hfits) Hf) as Hlen. cbv beta in Hlen.
  pose proof (Forall_lookup_1 _ _ _ _ (fits_meta _ Hfits) Hf) as [Hsz Hmt].
  pose proof (len_nonneg (bf_path f)).
  unfold File. rewrite (lo_data _ _ Hs), (lo_tbl _ _ Hs), (lo_blob _ _ Hs).
  unfold headerSize, fileEntryLen.
  rewrite (get_entry i f 0 4 (u32 (len (path_blob (take i (b_files b))))) 0);
    [|done|done|apply u32_range|done|lia].
  cbn [mbind option_bind].
  rewrite (get_entry i f 1 2 (u16 (len (bf_path f))) 4); [|done|done|apply u16_range|done|lia].
  cbn [mbind option_bind]. rewrite u32_small by lia. unfold u16. rewrite Z.mod_small by lia.
  assert (slice (shard_bytes b) (path_off b + len (path_blob (take i (b_files b))))
    (path_off b + len (path_blob (take i (b_files b))) + len (bf_path f)) = Some (bf_path f)) as ->.
  { unfold shard_bytes. rewrite Hblob, <-!(app_assoc (path_blob _)), <-!(app_assoc (bf_path f)).
    rewrite (app_assoc (table_of b)), (app_assoc (magic ++ _)).
    apply slice_app; rewrite len_app, len_header, len_app, len_table; unfold path_off; lia. }
  cbn [mbind option_bind].
  rewrite (get_entry i f 3 8 (u64 (bf_size f)) 8 (64 + Z.of_nat i * 32 + 8)); [|done|done|apply u64_range|done|lia].
  cbn [mbind option_bind].
  rewrite (get_entry i f 4 8 (u64 (bf_mtimeNS f)) 16 (64 + Z.of_nat i * 32 + 16)); [|done|done|apply u64_range|done|lia].
  cbn [mbind option_bind]. by rewrite !u64_i64.
Qed.
Lemma FileContent_spec i f :
  b_files b !! i = Some f →
  FileContent s (Z.of_nat i) = Some
    match bf_content f with
    | Some c => if bool_decide (c = []) then None else Some c
    | None => None
    end.
Proof.
  intros Hf. unfold FileContent.
  rewrite (lo_content _ _ Hs), (lo_data _ _ Hs), (lo_tbl _ _ Hs). unfold headerSize, fileEntryLen.
  pose proof (fits_content _ Hfits) as Hcb. pose proof (offsets_bounds b Hfits) as Hb.
  destruct (Z.eqb_spec (content_off b) 0) as [E|E].
  { destruct (bf_content f) as [c|] eqn:Hc; [|done].
    rewrite bool_decide_eq_true_2; [done|].
    unfold content_off in E. pose proof (len_nonneg (sym_table (b_files b))).
    destruct (Z.ltb_spec 0 (len (content_blob (b_files b)))); [lia|].
    rewrite (content_blob_split _ _ _ _ Hf Hc), !len_app in *.
    pose proof (len_nonneg (content_blob (take i (b_files b)))).
    pose proof (len_nonneg (content_blob (drop (S i) (b_files b)))).
    destruct c; [done|]. unfold len in *. simpl in *. lia. }
  assert (content_off b = sym_off b + len (sym_table (b_files b)))%Z as Hco.
  { unfold content_off in *. by destruct (0 <? _)%Z. }
  rewrite (get_entry i f 5 4 (content_ref (b_files b) i f).1 24 (64 + Z.of_nat i * 32 + 24));
    [|done|done| |done|lia].
  2:{ unfold content_ref. destruct (bf_content f); [apply u32_range|]. split; [done|by vm_compute]. }
  cbn [mbind option_bind].
  rewrite (get_entry i f 6 4 (content_ref (b_files b) i f).2 28 (64 + Z.of_nat i * 32 + 28));
    [|done|done| |done|lia].
  2:{ unfold content_ref. destruct (bf_content f); [apply u32_range|]. split; [done|by vm_compute]. }
  cbn [mbind option_bind]. unfold content_ref.
  destruct (bf_content f) as [c|] eqn:Hc; cbn [fst snd]; [|done].
  rewrite (content_blob_split _ _ _ _ Hf Hc), !len_app in Hcb.
  pose proof (len_nonneg (content_blob (take i (b_files b)))).
  pose proof (len_nonneg (content_blob (drop (S i) (b_files b)))). pose proof (len_nonneg c).
  rewrite !u32_small by lia.
  case_bool_decide as Hne.
  { rewrite Hne. by rewrite orb_true_r. }
  assert (0 < len c)%Z as Hpos by (destruct c; [done|unfold len; simpl; lia]).
  rewrite (proj2 (Z.eqb_neq _ noContent)) by (unfold noContent; lia).
  rewrite (proj2 (Z.eqb_neq _ 0)) by lia. cbn [orb].
  assert (∀ pre, len pre = content_off b → slice (pre ++ content_blob (b_files b))
      (content_off b + len (content_blob (take i (b_files b))))
      (content_off b + len (content_blob (take i (b_files b))) + len c) = Some c) as Hsl.
  { intros pre Hpre. rewrite (content_blob_split _ _ _ _ Hf Hc), app_assoc.
    apply slice_app; rewrite len_app; lia. }
  unfold shard_bytes. rewrite !app_assoc. rewrite Hsl; [done|].
  rewrite Hco. rewrite <-!app_assoc, (app_assoc magic). rewrite len_app, len_header.
  rewrite !len_app, len_table, !len_u32s. unfold sym_off, post_off, offs_off, tri_off, path_off.
  unfold len at 4. rewrite length_post_offsets. fold (len (keys_of b)). lia.
Qed.
End Read.

(** ** Symbols *)

Lemma read_str_app (a s post : bytes) pos data :
  data = a ++ str_bytes s ++ post → pos = len a → (len data < 2 ^ 63)%Z →
  read_str data pos = Some (s, (len a + len (str_bytes s))%Z).
Proof.
  intros -> -> Hb. unfold str_bytes in *. rewrite !len_app in *.
  pose proof (len_nonneg a). pose proof (len_nonneg s). pose proof (len_nonneg post).
  pose proof (len_nonneg (uv (len s))).
  unfold read_str. rewrite <-app_assoc. unfold uv.
  rewrite readUvarint_app by (done || lia). cbn [mbind option_bind].
  rewrite i64_small by lia. rewrite (app_assoc a), slice_app; [|rewrite len_app; lia..].
  cbn [mbind option_bind]. by rewrite Z.add_assoc.
Qed.

Lemma read_container_app (a s post : bytes) pos data :
  data = a ++ str_bytes s ++ post → pos = len a → (len data < 2 ^ 63)%Z →
  read_container data pos = Some (s, (len a + len (str_bytes s))%Z).
Proof.
  intros Hd Hp Hb. pose proof (read_str_app a s post pos data Hd Hp Hb) as Hr.
  unfold read_str in Hr. unfold read_container.
  destruct (readUvarint data pos) as [[n p]|] eqn:E; [|done]. cbn [mbind option_bind] in *.
  destruct (Z.ltb_spec 0 n) as [|Hn]; [done|].
  assert (n = len s) as ->.
  { rewrite Hd, Hp in E. unfold str_bytes in E. rewrite <-app_assoc in E.
    rewrite readUvarint_app in E; [by simplify_eq|done|].
    rewrite Hd in Hb. unfold str_bytes in Hb. rewrite !len_app in Hb.
    pose proof (len_nonneg a). pose proof (len_nonneg s). pose proof (len_nonneg post).
    pose proof (len_nonneg (uv (len s))). lia. }
  assert (s = []) as -> by (destruct s; [done|unfold len in Hn; simpl in Hn; lia]).
  destruct (slice data p (p + i64 (len (@nil byte)))); [|done]. cbn [mbind option_bind] in *. congruence.
Qed.

Lemma skip_str_app (a s post : bytes) pos data :
  data = a ++ str_bytes s ++ post → pos = len a → (len data < 2 ^ 63)%Z →
  ∃ p, readUvarint data pos = Some (len s, p) ∧
       (p + i64 (len s) = len a + len (str_bytes s))%Z.
Proof.
  intros -> -> Hb. unfold str_bytes in *. rewrite !len_app in *.
  pose proof (len_nonneg a). pose proof (len_nonneg s). pose proof (len_nonneg post).
  pose proof (len_nonneg (uv (len s))).
  rewrite <-app_assoc. unfold uv. rewrite readUvarint_app by (done || lia).
  eexists. split; [done|]. rewrite i64_small by lia. lia.
Qed.

Section Defs.
Context (data : bytes) (Hb : (len data < 2 ^ 63)%Z).

Lemma read_defs_app ds (a post : bytes) pos :
  data = a ++ concat (map def_bytes ds) ++ post → pos = len a →
  Forall (λ d, - 2 ^ 63 ≤ d_Line d < 2 ^ 63)%Z ds →
  read_defs (length ds) data pos = Some ds.
Proof.
  intros Hd -> Hl. revert a Hd. induction Hl as [|d ds Hl Hls IH]; intros a Hd; [done|].
  cbn [map concat] in Hd. unfold def_bytes in Hd at 1. rewrite <-!app_assoc in Hd.
  set (a1 := a ++ str_bytes (d_Name d)). set (a2 := a1 ++ str_bytes (d_Kind d)).
  set (a3 := a2 ++ str_bytes (d_Container d)). set (a4 := a3 ++ uv (u64 (d_Line d))).
  cbn [length read_defs].
  rewrite (read_str_app a (d_Name d) _ _ data Hd) by done. cbn [mbind option_bind].
  rewrite <-len_app. fold a1. rewrite app_assoc in Hd. fold a1 in Hd.
  rewrite (read_str_app a1 (d_Kind d) _ _ data Hd) by done. cbn [mbind option_bind].
  rewrite <-len_app. fold a2. rewrite app_assoc in Hd. fold a2 in Hd.
  rewrite (read_container_app a2 (d_Container d) _ _ data Hd) by done. cbn [mbind option_bind].
  rewrite <-len_app. fold a3. rewrite app_assoc in Hd. fold a3 in Hd.
  rewrite Hd at 1. unfold uv at 1. rewrite readUvarint_app by (done || apply Z.mod_pos_bound; lia).
  cbn [mbind option_bind]. fold (uv (u64 (d_Line d))). rewrite <-len_app. fold a4.
  rewrite app_assoc in Hd. fold a4 in Hd. rewrite (IH a4 Hd). cbn [mbind option_bind].
  rewrite i64_u64, i64_small by done. by destruct d.
Qed.

Lemma skip_defs_app ds (a post : bytes) pos :
  data = a ++ concat (map def_bytes ds) ++ post → pos = len a →
  skip_defs (length ds) data pos = Some (len a + len (concat (map def_bytes ds)))%Z.
Proof.
  intros Hd ->. revert a Hd. induction ds as [|d ds IH]; intros a Hd.
  { cbn. change (len (@nil byte)) with 0%Z. by rewrite Z.add_0_r. }
  cbn [map concat] in *. assert (def_bytes d = str_bytes (d_Name d) ++ str_bytes (d_Kind d) ++
    str_bytes (d_Container d) ++ uv (u64 (d_Line d))) as Hdb by done. rewrite Hdb in *. rewrite <-!app_assoc in Hd.
  set (a1 := a ++ str_bytes (d_Name d)). set (a2 := a1 ++ str_bytes (d_Kind d)).
  set (a3 := a2 ++ str_bytes (d_Container d)). set (a4 := a3 ++ uv (u64 (d_Line d))).
  cbn [length skip_defs].
  destruct (skip_str_app a (d_Name d) _ (len a) data Hd) as (p & -> & Hp); [done..|].
  cbn [mbind option_bind]. rewrite Hp, <-len_app. fold a1.
  rewrite app_assoc in Hd. fold a1 in Hd.
  destruct (skip_str_app a1 (d_Kind d) _ (len a1) data Hd) as (p2 & -> & Hp2); [done..|].
  cbn [mbind option_bind]. rewrite Hp2, <-len_app. fold a2.
  rewrite app_assoc in Hd. fold a2 in Hd.
  destruct (skip_str_app a2 (d_Container d) _ (len a2) data Hd) as (p3 & -> & Hp3); [done..|].
  cbn [mbind option_bind]. rewrite Hp3, <-len_app. fold a3.
  rewrite app_assoc in Hd. fold a3 in Hd.
  rewrite Hd at 1. unfold uv at 1. rewrite readUvarint_app by (done || apply Z.mod_pos_bound; lia).
  cbn [mbind option_bind]. fold (uv (u64 (d_Line d))). rewrite <-len_app. fold a4.
  rewrite app_assoc in Hd. fold a4 in Hd. rewrite (IH a4 Hd). unfold a4, a3, a2, a1.
  rewrite <-!len_app. by rewrite <-!app_assoc.
Qed.

Lemma walk_defs_app fs i f (a post : bytes) pos :
  data = a ++ sym_table fs ++ post → pos = len a → fs !! i = Some f →
  Forall (λ d, - 2 ^ 63 ≤ d_Line d < 2 ^ 63)%Z (bf_defs f) →
  walk_defs i data pos = Some (bf_defs f).
Proof.
  intros Hd -> Hf Hl. revert i Hf a Hd. induction fs as [|g fs IH]; intros i Hf a Hd; [done|].
  change (sym_table (g :: fs)) with (file_syms g ++ sym_table fs) in Hd.
  unfold file_syms in Hd. rewrite <-!app_assoc in Hd.
  assert (readUvarint data (len a) = Some (len (bf_defs g), len (a ++ uv (len (bf_defs g))))) as Hr.
  { rewrite Hd at 1. unfold uv at 1. rewrite readUvarint_app; [by rewrite len_app|done|].
    pose proof (len_nonneg (bf_defs g)). split; [done|].
    assert (len (bf_defs g) ≤ len data)%Z; [|lia].
    rewrite Hd, !len_app. pose proof (len_nonneg a). pose proof (len_nonneg post).
    pose proof (len_nonneg (sym_table fs)). pose proof (len_nonneg (uv (len (bf_defs g)))).
    enough (len (bf_defs g) ≤ len (concat (map def_bytes (bf_defs g))))%Z by lia.
    unfold len. generalize (bf_defs g). intros ds. induction ds as [|d ds IHd]; [done|].
    cbn [map concat length]. rewrite length_app. unfold def_bytes at 1, str_bytes, uv.
    rewrite !length_app. pose proof (put_uvarint_nonempty (len (d_Name d))). lia. }
  rewrite app_assoc in Hd.
  destruct i as [|i]; cbn [walk_defs]; rewrite Hr; cbn [mbind option_bind];
    unfold len at 1; rewrite Nat2Z.id.
  - injection Hf as ->. by eapply read_defs_app.
  - rewrite (skip_defs_app _ _ _ _ Hd) by done. cbn [mbind option_bind].
    rewrite <-len_app. rewrite app_assoc in Hd. by apply IH.
Qed.
End Defs.

Lemma num_defs_zero fs i f : num_defs fs = 0%Z → fs !! i = Some f → bf_defs f = [].
Proof.
  revert i. induction fs as [|g fs IH]; intros i; [done|]. rewrite num_defs_cons.
  pose proof (len_nonneg (bf_defs g)). assert (0 ≤ num_defs fs)%Z by (unfold num_defs; lia).
  intros Hn. destruct i as [|i]; cbn [lookup list_lookup].
  - intros [= ->]. assert (len (bf_defs f) = 0)%Z as Hl by lia.
    unfold len in Hl. destruct (bf_defs f); [done|]. cbn [length] in Hl. lia.
  - apply IH. lia.
Qed.

Lemma FileDefs_spec `{MapOrder} b s i f :
  fits b → tris_ok b → laid_out b s → b_files b !! i = Some f → FileDefs s i = Some (bf_defs f).
Proof.
  intros Hfits Htris Hs Hf. unfold FileDefs.
  rewrite (lo_sym _ _ Hs), (lo_syms _ _ Hs), (lo_data _ _ Hs).
  pose proof (offsets_bounds b Hfits) as Hb. rewrite (proj2 (Z.eqb_neq _ 0)) by lia. cbn [orb].
  destruct (Z.eqb_spec (num_defs (b_files b)) 0) as [E|E].
  { by rewrite (num_defs_zero _ _ _ E Hf). }
  pose proof (fits_total _ Hfits) as Ht.
  destruct (split_sym b) as (pre & Hpre & Hlen).
  eapply (walk_defs_app (shard_bytes b) Ht (b_files b) i f); [exact Hpre|by rewrite Hlen|done|].
  - apply (Forall_lookup_1 _ _ _ _ (fits_lines _ Hfits) Hf).
Qed.

(** ** Postings *)

Lemma increasing_le l : increasing l → StronglySorted Z.le l.
Proof.
  induction l as [|x l IH]; [constructor|]. intros [Hl Hx]%increasing_cons.
  constructor; [by apply IH|]. apply Forall_forall. intros y Hy. specialize (Hx y Hy). lia.
Qed.

Lemma Zle_sort_sorted l : StronglySorted Z.le (merge_sort Z.le l).
Proof. apply Sorted_StronglySorted; [intros ???; lia|]. apply Sorted_merge_sort. intros ??; lia. Qed.

Lemma merge_sort_increasing l : increasing l → merge_sort Z.le l = l.
Proof.
  intros Hl. apply (StronglySorted_unique Z.le); [apply Zle_sort_sorted|by apply increasing_le|].
  apply merge_sort_Permutation.
Qed.

Lemma sorted_lookup (l : list Z) i j x y :
  StronglySorted Z.le l → i ≤ j → l !! i = Some x → l !! j = Some y → (x ≤ y)%Z.
Proof.
  intros Hs. revert i j. induction Hs as [|z l Hs IH Hz]; intros i j Hij Hi Hj; [done|].
  destruct i as [|i], j as [|j]; cbn in Hi, Hj; simplify_eq; [lia| |lia|].
  - rewrite Forall_forall in Hz. by eapply Hz, list_elem_of_lookup_2.
  - apply (IH i j); [lia|done|done].
Qed.

Lemma read_deltas_app data ids prev (a post : bytes) pos :
  data = a ++ deltas prev ids ++ post → pos = len a →
  Forall (λ id, 0 ≤ id < 2 ^ 32)%Z ids →
  read_deltas (length ids) data pos prev = Some ids.
Proof.
  intros Hd -> Hr. revert prev a Hd. induction Hr as [|id ids Hid Hr IH]; intros prev a Hd; [done|].
  cbn [deltas length read_deltas] in *. rewrite <-app_assoc in Hd. rewrite Hd at 1. unfold uv at 1.
  pose proof (Z.mod_pos_bound (id - prev) (2 ^ 32) ltac:(done)) as Hu. fold (u32 (id - prev)) in Hu.
  rewrite readUvarint_app by (done || lia). cbn [mbind option_bind].
  rewrite (u32_small (u32 _)) by lia.
  replace (u32 (prev + u32 (id - prev))) with id.
  2:{ unfold u32. rewrite Zplus_mod_idemp_r. replace (prev + (id - prev))%Z with id by lia.
      by rewrite Z.mod_small. }
  fold (uv (u32 (id - prev))). rewrite <-len_app. rewrite app_assoc in Hd. by rewrite (IH id _ Hd).
Qed.

Lemma post_offsets_lookup tr off ks i k :
  ks !! i = Some k →
  post_offsets tr off ks !! i = Some (u32 (off + len (post_data tr (take i ks)))).
Proof.
  revert off i. induction ks as [|k0 ks IH]; intros off [|i]; try done.
  - intros [= ->]. cbn. change (len (post_data tr [])) with 0%Z. by rewrite Z.add_0_r.
  - cbn [lookup list_lookup post_offsets take]. intros Hk. rewrite (IH _ i Hk).
    change (post_data tr (k0 :: take i ks)) with
      (posting_bytes (ids_of tr k0) ++ post_data tr (take i ks)).
    rewrite len_app. do 2 f_equal. lia.
Qed.

Lemma post_data_split tr ks i k :
  ks !! i = Some k →
  post_data tr ks = post_data tr (take i ks) ++ posting_bytes (ids_of tr k) ++ post_data tr (drop (S i) ks).
Proof.
  intros Hk. rewrite <-(take_drop_middle _ _ _ Hk) at 1. unfold post_data.
  by rewrite map_app, concat_app.
Qed.

Section Postings.
Context `{MapOrder} (b : Builder) (Hfits : fits b) (Htris : tris_ok b).
Context (s : Shard) (Hs : laid_out b s).

Lemma keys_sorted : StronglySorted Z.le (keys_of b).
Proof. apply Zle_sort_sorted. Qed.

Lemma keys_u32 i k : keys_of b !! i = Some k → (0 ≤ k < 2 ^ 32)%Z.
Proof. intros Hk%list_elem_of_lookup_2. pose proof (tris_range _ Htris k Hk). lia. Qed.

Lemma get_key i k off :
  keys_of b !! i = Some k → off = (tri_off b + Z.of_nat i * 4)%Z →
  get_le 4 (shard_bytes b) off = Some k.
Proof.
  intros Hk ->. destruct (split_keys b) as (pre & post & -> & Hl).
  apply (get_u32 _ _ _ i); [done|by eapply keys_u32|rewrite Hl; lia].
Qed.

(** The predicate of the binary searches: the key at [i] is at least [tri]. *)
Definition key_ge (tri i : Z) : Prop := ∃ k, keys_of b !! Z.to_nat i = Some k ∧ (tri ≤ k)%Z.

Lemma key_ge_monotone f tri :
  (∀ i k, keys_of b !! i = Some k → f (Z.of_nat i) = Some (tri <=? k)%Z) →
  monotone_on f (key_ge tri) 0 (len (keys_of b)).
Proof.
  intros Hf. split.
  - intros i Hi. destruct (lookup_lt_is_Some_2 (keys_of b) (Z.to_nat i)) as [k Hk].
    { unfold len in Hi. lia. }
    exists (tri <=? k)%Z. rewrite <-(Z2Nat.id i) by lia. rewrite (Hf _ _ Hk), Z.leb_le.
    split; [done|]. unfold key_ge. rewrite Nat2Z.id, Hk. naive_solver.
  - intros i j Hi Hij Hj (x & Hx & Hle).
    destruct (lookup_lt_is_Some_2 (keys_of b) (Z.to_nat j)) as [y Hy]; [unfold len in Hj; lia|].
    exists y. split; [done|].
    assert (Z.to_nat i ≤ Z.to_nat j) as Hn by lia.
    pose proof (sorted_lookup _ _ _ _ _ keys_sorted Hn Hx Hy). lia.
Qed.

(** Where a search for [tri] stops. *)
Lemma key_found tri r :
  (0 ≤ r ≤ len (keys_of b))%Z → (∀ i, 0 ≤ i < r → ¬ key_ge tri i)%Z →
  ((r < len (keys_of b))%Z → key_ge tri r) →
  tri ∈ keys_of b ↔ keys_of b !! Z.to_nat r = Some tri ∧ (r < len (keys_of b))%Z.
Proof.
  intros Hr Hlt Hge. split.
  - intros (i & Hi)%list_elem_of_lookup.
    pose proof (lookup_lt_Some _ _ _ Hi) as Hil.
    assert (r ≤ Z.of_nat i)%Z as Hri.
    { destruct (decide (r ≤ Z.of_nat i)%Z); [done|]. exfalso. apply (Hlt (Z.of_nat i)); [lia|].
      exists tri. rewrite Nat2Z.id. split; [done|lia]. }
    assert (r < len (keys_of b))%Z as Hrl by (unfold len; lia). split; [|done].
    destruct (Hge Hrl) as (k & Hk & Hle). rewrite Hk. f_equal.
    assert (Z.to_nat r ≤ i) as Hn by lia.
    pose proof (sorted_lookup _ _ _ _ _ keys_sorted Hn Hk Hi). lia.
  - intros [Hi _]. by eapply list_elem_of_lookup_2.
Qed.

Lemma posting_len k : (0 ≤ len (postings (b_tris b) k) < 2 ^ 32)%Z.
Proof.
  split; [apply len_nonneg|]. eapply Z.le_lt_trans; [|apply (fits_files _ Hfits)].
  apply NoDup_Z_bound; [apply increasing_NoDup, (tris_inc _ Htris)|apply len_nonneg|].
  apply (tris_ids _ Htris).
Qed.

Lemma posting_spec tri :
  posting s tri = Some (if decide (tri ∈ keys_of b) then Some (postings (b_tris b) tri) else None).
Proof.
  unfold posting. rewrite (lo_data _ _ Hs), (lo_idx _ _ Hs), (lo_tri _ _ Hs), (lo_post _ _ Hs).
  pose proof (keys_count b Htris) as Hkc. pose proof (len_nonneg (keys_of b)) as Hk0.
  destruct (search_loop_spec 64 (λ mid, k ← get_le 4 (shard_bytes b) (tri_off b + mid * 4)%Z;
    Some (negb (k <? tri)%Z)) (key_ge tri) 0 (len (keys_of b))) as (r & -> & Hr & Hlt & Hge);
    [|lia|lia|].
  { apply key_ge_monotone. intros i k Hk. rewrite (get_key i k) by done. cbn [mbind option_bind].
    f_equal. apply eq_true_iff_eq. rewrite negb_true_iff, Z.ltb_ge, Z.leb_le. done. }
  cbn [mbind option_bind]. pose proof (key_found tri r Hr Hlt Hge) as Hfound.
  destruct (Z.leb_spec (len (keys_of b)) r) as [Hend|Hlt'].
  { by rewrite decide_False by (intros [_ ?]%Hfound; lia). }
  destruct (Hge Hlt') as (k & Hk & Hle).
  rewrite (get_key (Z.to_nat r) k (tri_off b + r * 4)) by (done || lia). cbn [mbind option_bind].
  destruct (Z.eqb_spec k tri) as [->|Hne]; cbn [negb].
  2:{ rewrite decide_False; [done|]. intros [? _]%Hfound. congruence. }
  rewrite decide_True by (by apply Hfound).
  pose proof (post_offsets_lookup (b_tris b) 0 _ _ _ Hk) as Ho. rewrite Z.add_0_l in Ho.
  pose proof (post_data_split (b_tris b) _ _ _ Hk) as Hpd.
  pose proof (fits_post _ Hfits) as Hpf. rewrite Hpd, !len_app in Hpf.
  set (before := post_data (b_tris b) (take (Z.to_nat r) (keys_of b))) in *.
  pose proof (len_nonneg before). pose proof (len_nonneg (posting_bytes (ids_of (b_tris b) tri))).
  pose proof (len_nonneg (post_data (b_tris b) (drop (S (Z.to_nat r)) (keys_of b)))).
  assert (get_le 4 (shard_bytes b) (tri_off b + len (keys_of b) * 4 + r * 4) = Some (len before)) as ->.
  { destruct (split_offs b) as (pre & post & -> & Hl). rewrite <-(u32_small (len before)) by lia.
    apply (get_u32 _ _ _ (Z.to_nat r)); [done|apply u32_range|].
    rewrite Hl. unfold offs_off. lia. }
  cbn [mbind option_bind].
  destruct (split_post b) as (pre & post & Hsh & Hl). rewrite Hpd in Hsh.
  unfold ids_of in Hsh. rewrite (merge_sort_increasing _ (tris_inc _ Htris tri)) in Hsh.
  unfold posting_bytes in Hsh. rewrite <-!app_assoc, (app_assoc pre) in Hsh.
  pose proof (posting_len tri) as Hpl.
  rewrite Hsh at 1. unfold uv at 1. rewrite readUvarint_app; [|rewrite len_app; lia|lia].
  cbn [mbind option_bind]. fold (uv (len (postings (b_tris b) tri))). rewrite <-len_app.
  replace (Z.to_nat (len (postings (b_tris b) tri))) with (length (postings (b_tris b) tri))
    by (unfold len; lia).
  rewrite app_assoc in Hsh. erewrite read_deltas_app; [done|exact Hsh|done|].
  apply Forall_forall. intros id Hid. pose proof (tris_ids _ Htris tri id Hid).
  pose proof (fits_files _ Hfits). lia.
Qed.
End Postings.

(** ** [Open] and [Load] *)

(** The descriptor of a written shard, and the path range [Open] and [Load] read. *)
Definition base_shard `{MapOrder} (b : Builder) (path : bytes) (data : bytes) (n : Z) : Shard :=
  mkShard path (len (shard_bytes b)) [] [] (len (b_files b)) (len (keys_of b)) (num_defs (b_files b))
    headerSize (path_off b) (tri_off b) (post_off b) (sym_off b) (content_off b) [] data n.

Definition first_path (fs : list buildFile) : bytes := default [] (bf_path <$> head fs).
Definition last_path (fs : list buildFile) : bytes := default [] (bf_path <$> last fs).

Definition full_shard `{MapOrder} (b : Builder) (path : bytes) (data : bytes) (n : Z) : Shard :=
  set_keys (set_paths (base_shard b path data n) (first_path (b_files b)) (last_path (b_files b)))
    (keys_of b).

Section Open.
Context `{MapOrder} (b : Builder) (Hfits : fits b) (Htris : tris_ok b).

Lemma header_field rest i n z off :
  header_fields b !! i = Some (n, z) → (0 ≤ z < 256 ^ Z.of_nat n)%Z →
  (8 + fields_len (take i (header_fields b)))%Z = off →
  get_le n ((magic ++ put_fields (header_fields b)) ++ rest) off = Some z.
Proof. intros Hi Hz <-. rewrite <-app_assoc. by eapply get_field. Qed.

Lemma parse_header_spec path rest :
  parse_header path (len (shard_bytes b)) ((magic ++ put_fields (header_fields b)) ++ rest)
    = ok (base_shard b path [] 0).
Proof.
  pose proof (offsets_bounds b Hfits) as (B1 & B2 & B3 & B4 & B5 & B6 & B7 & B8).
  pose proof (keys_count b Htris) as Hkc. pose proof (fits_files _ Hfits) as Hff.
  pose proof (fits_defs _ Hfits) as Hfd.
  pose proof (len_nonneg (b_files b)) as P1. pose proof (len_nonneg (keys_of b)) as P2.
  assert (0 ≤ num_defs (b_files b))%Z as P3 by (unfold num_defs; lia).
  unfold parse_header. rewrite bool_decide_eq_true_2 by done. cbn [negb].
  rewrite (header_field rest 0 4 formatVer 8) by done. cbn [panics fmap option_fmap option_map fbind].
  change (formatVer =? formatVer)%Z with true. cbn [negb].
  rewrite (header_field rest 1 4 (len (b_files b)) 12); [|done|by change (256 ^ Z.of_nat 4)%Z with (2 ^ 32)%Z; lia|done].
  cbn [panics fmap option_fmap option_map fbind].
  rewrite (header_field rest 2 4 (len (keys_of b)) 16); [|done|by change (256 ^ Z.of_nat 4)%Z with (2 ^ 32)%Z; lia|done].
  cbn [panics fmap option_fmap option_map fbind].
  rewrite (header_field rest 3 4 (num_defs (b_files b)) 20); [|done|by change (256 ^ Z.of_nat 4)%Z with (2 ^ 32)%Z; lia|done].
  cbn [panics fmap option_fmap option_map fbind].
  rewrite (header_field rest 4 8 headerSize 24) by done.
  cbn [panics fmap option_fmap option_map fbind].
  rewrite (header_field rest 5 8 (tri_off b) 32); [|done|by change (256 ^ Z.of_nat 8)%Z with (2 ^ 64)%Z; lia|done].
  cbn [panics fmap option_fmap option_map fbind].
  rewrite (header_field rest 6 8 (post_off b) 40); [|done|by change (256 ^ Z.of_nat 8)%Z with (2 ^ 64)%Z; lia|done].
  cbn [panics fmap option_fmap option_map fbind].
  rewrite (header_field rest 7 8 (sym_off b) 48); [|done|by change (256 ^ Z.of_nat 8)%Z with (2 ^ 64)%Z; lia|done].
  cbn [panics fmap option_fmap option_map fbind].
  rewrite (header_field rest 8 8 (content_off b) 56); [|done|by change (256 ^ Z.of_nat 8)%Z with (2 ^ 64)%Z; lia|done].
  cbn [panics fmap option_fmap option_map fbind]. rewrite !i64_small by (unfold headerSize; lia).
  unfold base_shard. do 2 f_equal. unfold path_off, headerSize, fileEntryLen. lia.
Qed.

Lemma base_laid_out path n : laid_out b (base_shard b path (shard_bytes b) n).
Proof. by split. Qed.

Lemma get_keys_gen pre xs post off :
  Forall (λ x, 0 ≤ x < 2 ^ 32)%Z xs → off = len pre →
  get_u32s (length xs) (pre ++ put_fields (u32s xs) ++ post) off = Some xs.
Proof.
  intros Hx ->. revert pre. induction Hx as [|x xs Hx Hxs IH]; intros pre; [done|].
  cbn [length get_u32s].
  change (put_fields (u32s (x :: xs))) with (le_put 4 x ++ put_fields (u32s xs)).
  rewrite <-app_assoc. rewrite (get_le_app 4 pre (le_put 4 x) _ x) by done. cbn [mbind option_bind].
  rewrite app_assoc. replace (len pre + 4)%Z with (len (pre ++ le_put 4 x)) by (by rewrite len_app).
  by rewrite IH.
Qed.

Lemma keys_range : Forall (λ x, 0 ≤ x < 2 ^ 32)%Z (keys_of b).
Proof. apply Forall_forall. intros k Hk. pose proof (tris_range _ Htris k Hk). lia. Qed.

Lemma get_keys : get_u32s (length (keys_of b)) (shard_bytes b) (tri_off b) = Some (keys_of b).
Proof.
  destruct (split_keys b) as (pre & post & -> & Hl).
  apply get_keys_gen; [apply keys_range|done].
Qed.

Lemma first_last i : (0 < len (b_files b))%Z → i = (len (b_files b) - 1)%Z →
  ∃ f g, b_files b !! 0 = Some f ∧ b_files b !! Z.to_nat i = Some g ∧
    bf_path f = first_path (b_files b) ∧ bf_path g = last_path (b_files b).
Proof.
  intros Hn ->. unfold first_path, last_path. rewrite last_lookup.
  replace (Z.to_nat (len (b_files b) - 1)) with (pred (length (b_files b))) by (unfold len in *; lia).
  destruct (b_files b) as [|f fs] eqn:E; [done|]. rewrite <-E.
  destruct (lookup_lt_is_Some_2 (b_files b) (pred (length (b_files b)))) as [g Hg]; [rewrite E; simpl; lia|].
  exists f, g. rewrite Hg. by rewrite E.
Qed.

Lemma Load_spec path : Load path (shard_bytes b) = ok (full_shard b path (shard_bytes b) 1).
Proof.
  unfold Load. pose proof (len_nonneg (b_files b)) as P1. pose proof (len_nonneg (keys_of b)) as P2.
  assert (64 ≤ len (shard_bytes b))%Z as Hlen.
  { unfold shard_bytes. rewrite len_app, len_header. pose proof (len_nonneg (table_of b ++
      path_blob (b_files b) ++ put_fields (u32s (keys_of b)) ++
      put_fields (u32s (post_offsets (b_tris b) 0 (keys_of b))) ++ post_data (b_tris b) (keys_of b) ++
      sym_table (b_files b) ++ content_blob (b_files b))). lia. }
  rewrite (proj2 (Z.ltb_ge _ _)) by (unfold headerSize; lia).
  unfold shard_bytes at 2. rewrite parse_header_spec. cbn [ok fbind]. cbv zeta.
  replace (set_mapping (base_shard b path [] 0) (shard_bytes b) 1)
    with (base_shard b path (shard_bytes b) 1) by done.
  pose proof (base_laid_out path 1) as Hlo.
  change (numFiles (base_shard b path (shard_bytes b) 1)) with (len (b_files b)).
  assert ((if (0 <? len (b_files b))%Z then
      mn <-? panics (File (base_shard b path (shard_bytes b) 1) 0);
      mx <-? panics (File (base_shard b path (shard_bytes b) 1) (len (b_files b) - 1));
      ok (set_paths (base_shard b path (shard_bytes b) 1) (Path mn) (Path mx))
    else ok (base_shard b path (shard_bytes b) 1)) =
    ok (set_paths (base_shard b path (shard_bytes b) 1) (first_path (b_files b)) (last_path (b_files b))))
    as ->.
  { destruct (Z.ltb_spec 0 (len (b_files b))) as [Hpos|Hz].
    - destruct (first_last (len (b_files b) - 1)) as (f & g & Hf & Hg & <- & <-); [done..|].
      change 0%Z with (Z.of_nat 0). rewrite (File_spec b Hfits _ Hlo 0 f Hf). cbn [panics fmap option_fmap option_map fbind].
      rewrite <-(Z2Nat.id (len (b_files b) - 1)) by lia.
      by rewrite (File_spec b Hfits _ Hlo _ g Hg).
    - assert (b_files b = []) as -> by (destruct (b_files b); [done|unfold len in Hz; simpl in Hz; lia]).
      done. }
  cbn [fbind ok]. set (s := set_paths _ _ _).
  change (numTri s) with (len (keys_of b)). change (triIdx s) with (tri_off b).
  destruct (Z.ltb_spec 0 (len (keys_of b))) as [Hpos|Hz].
  - replace (Z.to_nat (len (keys_of b))) with (length (keys_of b)) by (unfold len; lia).
    by rewrite get_keys.
  - assert (keys_of b = []) as Hk by (destruct (keys_of b); [done|unfold len in Hz; simpl in Hz; lia]).
    unfold full_shard. by rewrite Hk.
Qed.
End Open.

(** [Open] reads through [ReadAt] what [Load] reads in memory. *)

Lemma slice_Some {A} (l : list A) lo hi r :
  slice l lo hi = Some r → (0 ≤ lo ≤ hi)%Z ∧ (hi ≤ len l)%Z ∧ len r = (hi - lo)%Z ∧
    r = take (Z.to_nat (hi - lo)) (drop (Z.to_nat lo) l).
Proof.
  unfold slice. destruct (_ && _ && _) eqn:E; [|done]. rewrite !andb_true_iff, !Z.leb_le in E.
  intros [= <-]. unfold len in *. rewrite length_take, length_drop. split_and!; [lia..|done].
Qed.

Lemma slice_Some_2 {A} (l : list A) lo hi :
  (0 ≤ lo ≤ hi)%Z → (hi ≤ len l)%Z →
  slice l lo hi = Some (take (Z.to_nat (hi - lo)) (drop (Z.to_nat lo) l)).
Proof.
  intros ? ?. unfold slice, len in *. by rewrite !(proj2 (Z.leb_le _ _)) by lia.
Qed.

(** A slice of a slice. *)
Lemma slice_slice {A} (l r : list A) lo hi lo' hi' :
  slice l lo hi = Some r → (0 ≤ lo' ≤ hi')%Z → (hi' ≤ hi - lo)%Z →
  slice r lo' hi' = slice l (lo + lo') (lo + hi').
Proof.
  intros (H1 & H2 & H3 & ->)%slice_Some Hl Hh. rewrite !slice_Some_2 by lia.
  f_equal. rewrite skipn_firstn_comm, take_take, drop_drop. f_equal; [lia|f_equal; lia].
Qed.

Lemma get_le_slice n data lo hi r off :
  slice data lo hi = Some r → (0 ≤ off)%Z → (off + Z.of_nat n ≤ hi - lo)%Z →
  get_le n r off = get_le n data (lo + off).
Proof.
  intros Hr Ho Hn. unfold get_le. rewrite (slice_slice data r lo hi) by (done || lia).
  by rewrite Z.add_assoc.
Qed.

Lemma get_u32s_slice n data lo hi r off :
  slice data lo hi = Some r → (0 ≤ off)%Z → (off + 4 * Z.of_nat n ≤ hi - lo)%Z →
  get_u32s n r off = get_u32s n data (lo + off).
Proof.
  intros Hr. revert off. induction n as [|n IH]; intros off Ho Hn; [done|].
  cbn [get_u32s]. rewrite (get_le_slice 4 data lo hi) by (done || lia).
  rewrite IH by lia. by rewrite Z.add_assoc.
Qed.

Lemma get_u32s_bounds n data off xs :
  get_u32s (S n) data off = Some xs → (0 ≤ off)%Z ∧ (off + 4 * Z.of_nat (S n) ≤ len data)%Z.
Proof.
  revert off xs. induction n as [|n IH]; intros off xs.
  - cbn [get_u32s]. destruct (get_le 4 data off) eqn:E; [|done]. apply get_le_Some in E. lia.
  - intros Hx. change (get_u32s (S (S n)) data off) with
      (x ← get_le 4 data off; xs ← get_u32s (S n) data (off + 4)%Z; Some (x :: xs)) in Hx.
    destruct (get_le 4 data off) eqn:E; [|done]. apply get_le_Some in E. cbn [mbind option_bind] in Hx.
    destruct (get_u32s (S n) data (off + 4)) eqn:E2; [|done]. apply IH in E2. lia.
Qed.

Lemma readPathAt_File s i m :
  File s i = Some m → readPathAt s (sdata s) i = Some (Path m).
Proof.
  unfold File, readPathAt. set (off := (fileTbl s + i * fileEntryLen)%Z).
  destruct (get_le 4 (sdata s) off) as [pOff|] eqn:E1; [|done].
  destruct (get_le 2 (sdata s) (off + 4)) as [pLen|] eqn:E2; [|done].
  cbn [mbind option_bind].
  destruct (slice (sdata s) (pathBlob s + pOff) (pathBlob s + pOff + pLen)) as [p|] eqn:E3; [|done].
  cbn [mbind option_bind].
  destruct (get_le 8 (sdata s) (off + 8)); [|done]. cbn [mbind option_bind].
  destruct (get_le 8 (sdata s) (off + 16)); [|done]. intros [= <-]. cbn [Path].
  pose proof (get_le_Some _ _ _ _ E1) as (B1 & _ & _).
  pose proof (get_le_Some _ _ _ _ E2) as (_ & B2 & B3 & _).
  change (ReadAt (sdata s) 6 off) with
    (if (off <? 0)%Z then None else slice (sdata s) off (off + Z.of_nat 6)).
  rewrite (proj2 (Z.ltb_ge _ _)) by lia.
  assert (∃ ent, slice (sdata s) off (off + Z.of_nat 6) = Some ent) as [ent He].
  { eexists. apply slice_Some_2; lia. }
  rewrite He. cbn [mbind option_bind].
  pose proof (slice_Some _ _ _ _ He) as (_ & _ & Hel & _).
  pose proof (get_le_slice 4 _ _ _ _ 0 He ltac:(lia) ltac:(lia)) as G1.
  pose proof (get_le_slice 2 _ _ _ _ 4 He ltac:(lia) ltac:(lia)) as G2.
  rewrite Z.add_0_r, E1 in G1. rewrite E2 in G2.
  unfold get_le in G1, G2. rewrite slice_Some_2 in G1, G2 by lia.
  cbn [mbind option_bind] in G1, G2. injection G1 as G1. injection G2 as G2.
  assert (le_get (take 4 ent) = pOff) as -> by exact G1.
  assert (le_get (drop 4 ent) = pLen) as ->.
  { rewrite <-G2. f_equal. symmetry. apply take_ge.
    change (Z.to_nat 4) with 4. rewrite length_drop. unfold len in Hel. lia. }
  pose proof (slice_Some _ _ _ _ E3) as (B4 & B5 & B6 & B7).
  unfold ReadAt. rewrite (proj2 (Z.ltb_ge _ _)) by lia.
  destruct (Nat.eqb_spec (Z.to_nat pLen) 0) as [Hz|Hz].
  - f_equal. destruct p; [done|]. unfold len in B6. cbn [length] in B6. lia.
  - rewrite Z2Nat.id by lia. done.
Qed.
