(* ===== verification/ShardSpec.v ===== *)
(** * What a shard promises: internal/shard/shard.go and internal/shard/build.go

    A shard built from a list of files and written returns them unchanged, and its
    candidates are exactly the files with the trigrams of the literal.  [Open] and
    [Load] agree, and the mapping is counted. *)

From S2P Require Import Prelude Trigram Symbol Index Codec Shard ShardLayout ShardRead.

(** ** The builder *)

(** A file given to [AddWithDefs]. *)
Record input := mkInput {
  in_meta : FileMeta;
  in_content : bytes;
  in_defs : list Def;
}.

Definition add_input `{MapOrder} (b : Builder) (f : input) : Builder :=
  AddWithDefs b (Path (in_meta f)) (Size (in_meta f)) (MtimeNS (in_meta f)) (in_content f) (in_defs f).

Definition build `{MapOrder} (inlineKB : Z) (ins : list input) : Builder :=
  foldl add_input (NewBuilder inlineKB) ins.

(** The content [AddWithDefs] keeps. *)
Definition inlined (inlineKB : Z) (c : bytes) : option bytes :=
  if (0 <? inlineKB)%Z && (len c <=? inlineKB * 1024)%Z then Some c else None.

Definition to_file (inlineKB : Z) (f : input) : buildFile :=
  mkBuildFile (Path (in_meta f)) (Size (in_meta f)) (MtimeNS (in_meta f)) (in_defs f)
    (inlined inlineKB (in_content f)).

(** The postings of the contents. *)
Record tri_of (ins : list input) (tr : gmap Z (list Z)) : Prop := {
  to_inc k : increasing (postings tr k);
  to_ids k id : id ∈ postings tr k ↔
    ∃ n f, id = Z.of_nat n ∧ ins !! n = Some f ∧ has_tri (in_content f) k;
  to_ne k : tr !! k ≠ Some [];
}.

Section Build.
Context `{MapOrder}.

Lemma fold_posting_ne id keys tr k :
  (∀ k, tr !! k ≠ Some []) → foldl (add_posting id) tr keys !! k ≠ Some [].
Proof.
  revert tr. induction keys as [|k0 keys IH]; intros tr Htr; simpl; [done|].
  apply IH. intros k'. unfold add_posting. rewrite lookup_insert. case_decide; [|done].
  destruct (postings tr k0); discriminate.
Qed.

Lemma tri_of_snoc ins tr f :
  tri_of ins tr →
  tri_of (ins ++ [f]) (foldl (add_posting (len ins)) tr (TrigramKeys (in_content f))).
Proof.
  intros [Hi Ht Hn]. split; [| |intros k; by apply fold_posting_ne].
  - intros k. rewrite postings_fold by apply TrigramKeys_NoDup. destruct (decide _).
    + apply increasing_snoc; [done|].
      intros y (n & g & -> & Hg%lookup_lt_Some & _)%Ht. unfold len. lia.
    + by rewrite app_nil_r.
  - intros k id. rewrite postings_fold by apply TrigramKeys_NoDup. rewrite elem_of_app, Ht.
    setoid_rewrite lookup_snoc_Some. split.
    + intros [(n & g & -> & Hg & ?)|Hid].
      * exists n, g. split_and!; [done| |done]. left. split; [by eapply lookup_lt_Some|done].
      * destruct (decide _) as [Hk|]; [|by apply elem_of_nil in Hid].
        apply list_elem_of_singleton in Hid as ->. exists (length ins), f.
        split_and!; [done|by right|by apply TrigramKeys_spec].
    + intros (n & g & -> & [[? ?]|[-> <-]] & Hg); [left; by exists n, g|right].
      rewrite decide_True by by apply TrigramKeys_spec. by left.
Qed.

Lemma build_loop_spec kb ins0 ins b :
  (len (ins0 ++ ins) ≤ 2 ^ 32)%Z → b_inlineKB b = kb →
  b_files b = map (to_file kb) ins0 → tri_of ins0 (b_tris b) →
  b_files (foldl add_input b ins) = map (to_file kb) (ins0 ++ ins) ∧
  tri_of (ins0 ++ ins) (b_tris (foldl add_input b ins)).
Proof.
  revert ins0 b. induction ins as [|f ins IH]; intros ins0 b Hlen Hkb Hf Ht; simpl.
  { by rewrite app_nil_r. }
  rewrite <-Lines.app_cons_snoc in *.
  assert (u32 (len (b_files b)) = len ins0) as Hid.
  { rewrite Hf. unfold len in *. rewrite length_map. rewrite !length_app in Hlen. simpl in Hlen.
    apply u32_small. lia. }
  apply IH; [done|done| |].
  - simpl. rewrite Hf, map_app. simpl. by rewrite Hkb.
  - simpl. rewrite Hid. by apply tri_of_snoc.
Qed.

Lemma build_spec kb ins :
  (len ins ≤ 2 ^ 32)%Z →
  b_files (build kb ins) = map (to_file kb) ins ∧ tri_of ins (b_tris (build kb ins)).
Proof.
  intros Hlen. apply (build_loop_spec kb [] ins); [done|done|done|].
  split; unfold postings; intros k; simpl; rewrite ?lookup_empty; [constructor| |done].
  intros id. simpl. split; [by intros ?%elem_of_nil|].
  by intros (n & f & _ & Hf & _).
Qed.

Lemma keys_of_elem b k :
  (∀ k, b_tris b !! k ≠ Some []) → k ∈ keys_of b ↔ postings (b_tris b) k ≠ [].
Proof.
  intros Hne. unfold keys_of, postings.
  rewrite merge_sort_Permutation, range_perm, list_elem_of_fmap. split.
  - intros ([k' l] & -> & Hl%elem_of_map_to_list). simpl. rewrite Hl. simpl.
    intros ->. by apply (Hne k').
  - intros Hl. destruct (b_tris b !! k) as [l|] eqn:E; [|done].
    exists (k, l). split; [done|]. by apply elem_of_map_to_list.
Qed.

Lemma has_tri_range s k : has_tri s k → (0 ≤ k < 2 ^ 24)%Z.
Proof. intros (pre & a & b & c & post & _ & ->). apply tri_key_range. Qed.

Lemma build_tris_ok kb ins : (len ins ≤ 2 ^ 32)%Z → tris_ok (build kb ins).
Proof.
  intros Hlen. destruct (build_spec kb ins Hlen) as [Hf [Hi Ht Hn]].
  assert (∀ k, k ∈ keys_of (build kb ins) → ∃ f, f ∈ ins ∧ has_tri (in_content f) k) as Hk.
  { intros k Hk%keys_of_elem; [|done]. destruct (postings _ k) as [|id l] eqn:E; [done|].
    destruct (proj1 (Ht k id)) as (n & f & _ & ? & ?); [rewrite E; by left|].
    exists f. split; [by eapply list_elem_of_lookup_2|done]. }
  split.
  - intros k. by apply keys_of_elem.
  - intros k (f & _ & Hf')%Hk. by eapply has_tri_range.
  - done.
  - intros k id (n & f & -> & Hl%lookup_lt_Some & _)%Ht. rewrite Hf. unfold len.
    rewrite length_map. lia.
Qed.
End Build.

(** ** Candidates *)

Section Candidates.
Context `{MapOrder} (b : Builder) (Hfits : fits b) (Htris : tris_ok b).
Context (s : Shard) (Hs : laid_out b s).

Lemma posting_cases tri :
  posting s tri = Some (Some (postings (b_tris b) tri)) ∨
  posting s tri = Some None ∧ postings (b_tris b) tri = [].
Proof.
  rewrite (posting_spec b Hfits Htris s Hs). pose proof (tris_keys _ Htris tri) as Hk.
  destruct (decide (tri ∈ keys_of b)); [by left|right].
  split; [done|]. apply dec_stable. naive_solver.
Qed.

Lemma candidates_loop_spec tris result :
  increasing result →
  ∃ ids, candidates_loop s tris result = Some ids ∧ increasing ids ∧
    ∀ id, id ∈ ids ↔ id ∈ result ∧ ∀ tri, tri ∈ tris → id ∈ postings (b_tris b) tri.
Proof.
  revert result. induction tris as [|tri tris IH]; intros result Hr.
  { exists result. split_and!; [done..|]. set_solver. }
  cbn [candidates_loop]. destruct (posting_cases tri) as [->|[-> He]]; cbn [mbind option_bind].
  - pose proof (tris_inc _ Htris tri) as Hp.
    pose proof (intersectSorted_elem result (postings (b_tris b) tri)) as Hel.
    case_bool_decide as Hemp.
    + exists []. split_and!; [done|constructor|]. intros id. split; [by intros ?%elem_of_nil|].
      intros [Hid Hall]. rewrite <-Hemp. apply Hel; [done..|]. split; [done|]. apply Hall. by left.
    + destruct (IH (intersectSorted result (postings (b_tris b) tri))) as (ids & Hc & Hi & Hids).
      { by apply intersectSorted_increasing. }
      exists ids. split_and!; [done..|]. intros id. rewrite Hids, Hel by done.
      setoid_rewrite elem_of_cons. naive_solver.
  - exists []. split_and!; [done|constructor|]. intros id. split; [by intros ?%elem_of_nil|].
    intros [_ Hall]. specialize (Hall tri ltac:(by left)). by rewrite He in Hall.
Qed.

Lemma Candidates_spec lit :
  ∃ ids, Candidates s lit = Some ids ∧ increasing ids ∧
    ∀ id, id ∈ ids ↔ (0 ≤ id < len (b_files b))%Z ∧
      (3 ≤ length lit → ∀ k, has_tri lit k → id ∈ postings (b_tris b) k).
Proof.
  unfold Candidates. destruct (Nat.ltb_spec (length lit) 3) as [Hlt|Hge].
  - eexists. split; [done|]. rewrite (lo_files _ _ Hs). unfold len. rewrite Nat2Z.id. split.
    + induction (length (b_files b)) as [|n IH]; [constructor|].
      rewrite seq_S, map_app. apply increasing_snoc; [done|].
      intros y (m & -> & Hm%elem_of_seq)%list_elem_of_fmap. lia.
    + intros id. rewrite list_elem_of_fmap. setoid_rewrite elem_of_seq. split.
      * intros (n & -> & Hn). lia.
      * intros [Hid _]. exists (Z.to_nat id). lia.
  - destruct (trigramsOfLit lit) as [|tri tris] eqn:E.
    { exfalso. destruct lit as [|x [|y [|z l]]]; simpl in Hge; try lia.
      assert (tri_key x y z ∈ trigramsOfLit (x :: y :: z :: l)) as Hk.
      { apply trigramsOfLit_spec. by exists [], x, y, z, l. }
      rewrite E in Hk. by apply elem_of_nil in Hk. }
    assert (∀ k, has_tri lit k ↔ k = tri ∨ k ∈ tris) as Hk.
    { intros k. by rewrite <-trigramsOfLit_spec, E, elem_of_cons. }
    destruct (posting_cases tri) as [->|[-> He]]; cbn [mbind option_bind].
    + destruct (candidates_loop_spec tris (postings (b_tris b) tri)) as (ids & -> & Hi & Hids);
        [apply (tris_inc _ Htris)|].
      exists ids. split_and!; [done..|]. intros id. rewrite Hids. setoid_rewrite Hk. split.
      * intros [Hid Hall]. split; [by eapply (tris_ids _ Htris)|]. naive_solver.
      * intros [_ Hall]. naive_solver.
    + exists []. split_and!; [done|constructor|]. intros id. split; [by intros ?%elem_of_nil|].
      intros [_ Hall]. specialize (Hall Hge tri). rewrite He in Hall. apply Hall, Hk. by left.
Qed.

Lemma has_keys_spec tris :
  has_keys (keys_of b) tris = Some (bool_decide (Forall (λ k, k ∈ keys_of b) tris)).
Proof.
  induction tris as [|tri tris IH]; [done|]. cbn [has_keys].
  pose proof (keys_count b Htris) as Hkc. pose proof (len_nonneg (keys_of b)) as Hk0.
  destruct (sort_Search_spec (len (keys_of b)) (λ j, k ← idx (keys_of b) j; Some (tri <=? k)%Z)
    (key_ge b tri)) as (r & -> & Hr & Hlt & Hge); [|lia|].
  { apply key_ge_monotone. intros i k Hk. by rewrite idx_nat, Hk. }
  cbn [mbind option_bind]. pose proof (key_found b tri r Hr Hlt Hge) as Hfound.
  destruct (Z.leb_spec (len (keys_of b)) r) as [Hend|Hlt'].
  { rewrite bool_decide_eq_false_2; [done|]. intros Hall%Forall_cons.
    destruct Hall as [[_ ?]%Hfound _]. lia. }
  destruct (Hge Hlt') as (k & Hk & Hle).
  rewrite <-(Z2Nat.id r) by lia. rewrite idx_nat, Hk. cbn [mbind option_bind].
  destruct (Z.eqb_spec k tri) as [->|Hne]; cbn [negb].
  - rewrite IH. f_equal. apply bool_decide_ext. rewrite Forall_cons.
    assert (tri ∈ keys_of b) by by apply Hfound. naive_solver.
  - rewrite bool_decide_eq_false_2; [done|]. intros Hall%Forall_cons.
    destruct Hall as [[? _]%Hfound _]. congruence.
Qed.
End Candidates.

(** ** [Open] and [Load] *)

Lemma get_le_take n m data off :
  (off + Z.of_nat n ≤ Z.of_nat m)%Z → m ≤ length data →
  get_le n (take m data) off = get_le n data off.
Proof.
  intros Hoff Hm. unfold get_le. f_equal. unfold slice.
  destruct (Z.leb_spec 0 off) as [H0|H0]; [|done]. cbn [andb].
  rewrite !(proj2 (Z.leb_le off _)) by lia. cbn [andb].
  rewrite !(proj2 (Z.leb_le _ (Z.of_nat _))) by (rewrite ?length_take; lia).
  rewrite skipn_firstn_comm, take_take. do 2 f_equal. lia.
Qed.

Lemma parse_header_take path size data :
  (64 ≤ len data)%Z → parse_header path size (take 64 data) = parse_header path size data.
Proof.
  intros Hl. unfold len in Hl. unfold parse_header. rewrite take_take. change (8 `min` 64) with 8.
  by rewrite !get_le_take by lia.
Qed.

Lemma parse_header_fresh path size hdr s :
  parse_header path size hdr = ok s → sdata s = [] ∧ refs s = 0%Z.
Proof.
  unfold parse_header. destruct (negb _); [done|].
  destruct (get_le 4 hdr 8); [|done]. cbn [panics fmap option_fmap option_map fbind].
  destruct (negb _); [done|].
  destruct (get_le 4 hdr 12); [|done]. cbn [panics fmap option_fmap option_map fbind].
  destruct (get_le 4 hdr 16); [|done]. cbn [panics fmap option_fmap option_map fbind].
  destruct (get_le 4 hdr 20); [|done]. cbn [panics fmap option_fmap option_map fbind].
  destruct (get_le 8 hdr 24); [|done]. cbn [panics fmap option_fmap option_map fbind].
  destruct (get_le 8 hdr 32); [|done]. cbn [panics fmap option_fmap option_map fbind].
  destruct (get_le 8 hdr 40); [|done]. cbn [panics fmap option_fmap option_map fbind].
  destruct (get_le 8 hdr 48); [|done]. cbn [panics fmap option_fmap option_map fbind].
  destruct (get_le 8 hdr 56); [|done]. cbn [panics fmap option_fmap option_map fbind].
  by intros [= <-].
Qed.

(** Reading the keys from the file and from memory. *)
Lemma ReadAt_keys n data off xs :
  (0 < n)%Z → (n < 2 ^ 30)%Z → get_u32s (Z.to_nat n) data off = Some xs →
  ∃ kb, ReadAt data (Z.to_nat (u32 (n * 4))) off = Some kb ∧ get_u32s (Z.to_nat n) kb 0 = Some xs.
Proof.
  intros Hn Hb Hx. destruct (Z.to_nat n) as [|m] eqn:Em; [lia|].
  pose proof (get_u32s_bounds m data off xs Hx) as [H0 H1].
  rewrite u32_small by lia. unfold ReadAt. rewrite (proj2 (Z.ltb_ge _ _)) by lia.
  rewrite (proj2 (Nat.eqb_neq _ _)) by lia.
  assert (∃ kb, slice data off (off + Z.of_nat (Z.to_nat (n * 4))) = Some kb) as [kb Hkb].
  { eexists. apply slice_Some_2; lia. }
  exists kb. split; [done|]. rewrite (get_u32s_slice (S m) data _ _ kb 0 Hkb) by lia.
  by rewrite Z.add_0_r.
Qed.

Definition open_paths (s : Shard) (file : bytes) : fallible Shard :=
  if (0 <? numFiles s)%Z then
    mn <-? or_fail (readPathAt s file 0) ReadPathMin;
    mx <-? or_fail (readPathAt s file (numFiles s - 1)) ReadPathMax;
    ok (set_paths s mn mx)
  else ok s.

Definition load_paths (s : Shard) : fallible Shard :=
  if (0 <? numFiles s)%Z then
    mn <-? panics (File s 0);
    mx <-? panics (File s (numFiles s - 1));
    ok (set_paths s (Path mn) (Path mx))
  else ok s.

Lemma open_load_paths s data s1 :
  sdata s = [] → refs s = 0%Z → load_paths (set_mapping s data 1) = ok s1 →
  ∃ s2, open_paths s data = ok s2 ∧ s1 = set_mapping s2 data 1 ∧ sdata s2 = [] ∧ refs s2 = 0%Z.
Proof.
  intros Hd Hr. unfold load_paths, open_paths.
  change (numFiles (set_mapping s data 1)) with (numFiles s).
  destruct (0 <? numFiles s)%Z; [|intros [= <-]; by exists s].
  destruct (File (set_mapping s data 1) 0) as [mn|] eqn:E1; [|done].
  destruct (File (set_mapping s data 1) (numFiles s - 1)) as [mx|] eqn:E2; [|done].
  apply readPathAt_File in E1, E2. intros [= <-].
  exists (set_paths s (Path mn) (Path mx)). split; [|done].
  change (readPathAt (set_mapping s data 1) (sdata (set_mapping s data 1)) 0)
    with (readPathAt s data 0) in E1.
  change (readPathAt (set_mapping s data 1) (sdata (set_mapping s data 1)) (numFiles s - 1))
    with (readPathAt s data (numFiles s - 1)) in E2.
  by rewrite E1, E2.
Qed.

(** ** A built, written and loaded shard *)

Lemma length_build `{MapOrder} ins b :
  length (b_files (foldl add_input b ins)) = length (b_files b) + length ins.
Proof.
  revert b. induction ins as [|f ins IH]; intros b; simpl; [lia|].
  rewrite IH. simpl. rewrite length_app. simpl. lia.
Qed.

Record built_ok `{MapOrder} (kb : Z) (ins : list input) (b : Builder) (s : Shard) : Prop := {
  bo_fits : fits b;
  bo_lo : laid_out b s;
  bo_tris : tris_ok b;
  bo_files : b_files b = map (to_file kb) ins;
  bo_tri : tri_of ins (b_tris b);
  bo_keys : triKeys s = keys_of b;
  bo_min : pathMin s = first_path (b_files b);
  bo_max : pathMax s = last_path (b_files b);
}.

Lemma built `{MapOrder} kb ins path :
  fits (build kb ins) →
  ∃ out s, Write (build kb ins) = Some out ∧ Load path out = ok s ∧
           built_ok kb ins (build kb ins) s.
Proof.
  intros Hfits. pose proof (fits_files _ Hfits) as Hlen.
  assert (len ins ≤ 2 ^ 32)%Z as Hins.
  { unfold build, len in Hlen. rewrite length_build in Hlen. unfold len. simpl in Hlen. lia. }
  destruct (build_spec kb ins Hins) as [Hf Ht]. pose proof (build_tris_ok kb ins Hins) as Htris.
  exists (shard_bytes (build kb ins)), (full_shard (build kb ins) path (shard_bytes (build kb ins)) 1).
  split_and!; [by apply Write_layout|by apply Load_spec|]. by split.
Qed.

Lemma built_file `{MapOrder} kb ins b s i f :
  built_ok kb ins b s → ins !! i = Some f → b_files b !! i = Some (to_file kb f).
Proof. intros Hb Hi. rewrite (bo_files _ _ _ _ Hb), list_lookup_fmap, Hi. done. Qed.

Lemma built_len `{MapOrder} kb ins b s : built_ok kb ins b s → len (b_files b) = len ins.
Proof. intros Hb. rewrite (bo_files _ _ _ _ Hb). unfold len. by rewrite length_map. Qed.

(** ** Concrete input for the witnesses *)

Definition demo_inputs : list input :=
  [mkInput (mkMeta (bs "a/x.go") 12 1700000000) (bs "func Main()" ++ [newline])
     [mkDef (bs "Main") (bs "func") [] 1];
   mkInput (mkMeta (bs "b.txt") 0 (-1)) [] [];
   mkInput (mkMeta (bs "c.txt") 8 5) (bs "FUNCtion") []].

Lemma demo_fits : @fits tree_order (@build tree_order 1 demo_inputs).
Proof.
  split; apply (bool_decide_unpack _); vm_compute; exact I.
Qed.

(** ** Properties *)

(** C1. Round trip of shard files.  Within the limits of the format, writing a
    builder and loading the bytes gives a shard that returns every file it was
    given: path, size, modification time, symbol definitions, and the content when
    it was inlined and is not empty. *)
Theorem shard_roundtrip `{MapOrder} kb ins path :
  fits (build kb ins) →
  ∃ out s, Write (build kb ins) = Some out ∧ Load path out = ok s ∧ numFiles s = len ins ∧
    ∀ i f, ins !! i = Some f →
      File s (Z.of_nat i) = Some (in_meta f) ∧
      FileDefs s i = Some (in_defs f) ∧
      FileContent s (Z.of_nat i) = Some
        (if bool_decide (in_content f = []) then None else inlined kb (in_content f)).
Proof.
  intros Hfits. destruct (built kb ins path Hfits) as (out & s & Hw & Hl & Hb).
  pose proof Hb as [_ Hlo Htris _ _ _ _ _].
  exists out, s. split_and!; [done..| |].
  { rewrite (lo_files _ _ Hlo). by eapply built_len. }
  intros i f Hi. pose proof (built_file _ _ _ _ _ _ Hb Hi) as Hbi. split_and!.
  - rewrite (File_spec _ Hfits _ Hlo i _ Hbi). simpl. by destruct (in_meta f).
  - by rewrite (FileDefs_spec _ _ i _ Hfits Htris Hlo Hbi).
  - rewrite (FileContent_spec _ Hfits _ Hlo i _ Hbi). unfold to_file, inlined. cbn [bf_content].
    destruct (_ && _); [done|]. by case_bool_decide.
Qed.

Lemma shard_roundtrip_witness :
  ∃ out s, @Write tree_order (@build tree_order 1 demo_inputs) = Some out ∧
    Load (bs "s.idx") out = ok s ∧ numFiles s = 3%Z ∧
    FileDefs s 0 = Some [mkDef (bs "Main") (bs "func") [] 1].
Proof.
  destruct (@shard_roundtrip tree_order 1 demo_inputs (bs "s.idx") demo_fits)
    as (out & s & Hw & Hl & Hn & Hf).
  exists out, s. split; [exact Hw|]. split; [exact Hl|]. split; [exact Hn|].
  exact (proj1 (proj2 (Hf 0 _ eq_refl))).
Defined.

(** C16. Candidates are exact: on a built shard [Candidates] never panics and lists,
    in increasing order, exactly the files whose content has every trigram of the
    literal (all the files when it is shorter than three bytes). *)
Theorem Candidates_exact `{MapOrder} kb ins path :
  fits (build kb ins) →
  ∃ out s, Write (build kb ins) = Some out ∧ Load path out = ok s ∧
    ∀ lit, ∃ ids, Candidates s lit = Some ids ∧ increasing ids ∧
      ∀ id, id ∈ ids ↔ ∃ n f, id = Z.of_nat n ∧ ins !! n = Some f ∧
        (3 ≤ length lit → ∀ k, has_tri lit k → has_tri (in_content f) k).
Proof.
  intros Hfits. destruct (built kb ins path Hfits) as (out & s & Hw & Hl & Hb).
  exists out, s. split_and!; [done..|]. intros lit. pose proof Hb as [_ Hlo Htris _ [_ Ht _] _ _ _].
  destruct (Candidates_spec _ Hfits Htris s Hlo lit) as (ids & Hc & Hi & Hids).
  exists ids. split_and!; [done..|]. intros id. rewrite Hids, (built_len _ _ _ _ Hb). split.
  - intros [Hr Hk]. destruct (lookup_lt_is_Some_2 ins (Z.to_nat id)) as [f Hf]; [unfold len in Hr; lia|].
    exists (Z.to_nat id), f. split_and!; [lia|done|]. intros Hlong k Hkk.
    destruct (proj1 (Ht k id) (Hk Hlong k Hkk)) as (n & g & -> & Hg & ?).
    rewrite Nat2Z.id in Hf. naive_solver.
  - intros (n & f & -> & Hf & Hk). pose proof (lookup_lt_Some _ _ _ Hf). unfold len.
    split; [lia|]. intros Hlong k Hkk. apply Ht. exists n, f. eauto.
Qed.

Lemma Candidates_exact_witness :
  ∃ out s, @Write tree_order (@build tree_order 1 demo_inputs) = Some out ∧
    Load (bs "s.idx") out = ok s ∧ ∃ ids, Candidates s (bs "func") = Some ids ∧ increasing ids.
Proof.
  destruct (@Candidates_exact tree_order 1 demo_inputs (bs "s.idx") demo_fits)
    as (out & s & Hw & Hl & Hc).
  destruct (Hc (bs "func")) as (ids & H1 & H2 & _).
  exists out, s. split; [exact Hw|]. split; [exact Hl|]. exists ids. split; [exact H1|exact H2].
Defined.

(** Skipping a shard is safe: on a built shard [HasTrigrams] never panics, and
    when it answers no, no file of the shard has all the trigrams of the literal
    ([Candidates] is empty). *)
Theorem HasTrigrams_safe `{MapOrder} kb ins path :
  fits (build kb ins) →
  ∃ out s, Write (build kb ins) = Some out ∧ Load path out = ok s ∧
    ∀ lit, ∃ r, HasTrigrams s lit = Some r ∧ (r = false → Candidates s lit = Some []).
Proof.
  intros Hfits. destruct (built kb ins path Hfits) as (out & s & Hw & Hl & Hb).
  exists out, s. split_and!; [done..|]. intros lit. pose proof Hb as [_ Hlo Htris _ _ Hk _ _].
  unfold HasTrigrams. destruct (Nat.ltb_spec (length lit) 3) as [|Hge]; [by exists true|].
  rewrite Hk, (has_keys_spec _ Htris). eexists. split; [done|]. intros Hno%bool_decide_eq_false.
  apply not_Forall_Exists in Hno; [|apply _].
  apply Exists_exists in Hno as (k & Hkl%trigramsOfLit_spec & Hkn).
  destruct (Candidates_spec _ Hfits Htris s Hlo lit) as (ids & -> & _ & Hids). f_equal.
  destruct ids as [|id ids]; [done|]. exfalso.
  destruct (proj1 (Hids id) ltac:(by left)) as [_ Hp]. specialize (Hp Hge k Hkl).
  apply Hkn, (tris_keys _ Htris). intros He. rewrite He in Hp. by apply elem_of_nil in Hp.
Qed.

Lemma HasTrigrams_safe_witness :
  ∃ out s, @Write tree_order (@build tree_order 1 demo_inputs) = Some out ∧
    Load (bs "s.idx") out = ok s ∧ ∃ r, HasTrigrams s (bs "absent") = Some r.
Proof.
  destruct (@HasTrigrams_safe tree_order 1 demo_inputs (bs "s.idx") demo_fits)
    as (out & s & Hw & Hl & Hc).
  destruct (Hc (bs "absent")) as (r & H1 & _).
  exists out, s. split; [exact Hw|]. split; [exact Hl|]. exists r. exact H1.
Defined.

(** [Open] reads what [Load] reads. *)
Lemma Open_Load path data :
  match Load path data with
  | Some (inl e) => Open path data = fail e
  | Some (inr s) => (numTri s < 2 ^ 30)%Z → Open path data = ok (set_mapping s [] 0)
  | None => True
  end.
Proof.
  unfold Load, Open. destruct (Z.ltb_spec (len data) headerSize) as [|Hsz]; [done|].
  unfold headerSize in Hsz. assert (ReadAt data (Z.to_nat headerSize) 0 = Some (take 64 data)) as ->.
  { unfold ReadAt. change (0 <? 0)%Z with false. change (Z.to_nat headerSize) with 64.
    cbn [Nat.eqb]. by rewrite slice_Some_2 by lia. }
  cbn [or_fail ok fbind]. rewrite parse_header_take by done.
  destruct (parse_header path (len data) data) as [[e|s0]|] eqn:Ep; cbn [fbind fail]; [done| |done].
  destruct (parse_header_fresh _ _ _ _ Ep) as [Hd0 Hr0].
  change (if (0 <? numFiles (set_mapping s0 data 1))%Z then _ else _)
    with (load_paths (set_mapping s0 data 1)) at 1.
  change (if (0 <? numFiles s0)%Z then _ else ok s0) with (open_paths s0 data).
  destruct (load_paths (set_mapping s0 data 1)) as [[e|s1]|] eqn:El; cbn [fbind]; [|..|done].
  { exfalso. unfold load_paths in El. destruct (0 <? _)%Z; [|done].
    destruct (File _ _); [|done]. cbn [panics fmap option_fmap option_map fbind] in El.
    by destruct (File _ _). }
  destruct (open_load_paths s0 data s1 Hd0 Hr0 El) as (s2 & -> & -> & Hd2 & Hr2).
  cbn [fbind ok]. change (numTri (set_mapping s2 data 1)) with (numTri s2).
  change (triIdx (set_mapping s2 data 1)) with (triIdx s2).
  destruct (Z.ltb_spec 0 (numTri s2)) as [Hpos|Hz].
  - destruct (get_u32s (Z.to_nat (numTri s2)) data (triIdx s2)) as [xs|] eqn:Ek;
      cbn [panics fmap option_fmap option_map fbind ok]; [|done].
    change (numTri (set_keys (set_mapping s2 data 1) xs)) with (numTri s2). intros Hb.
    destruct (ReadAt_keys (numTri s2) data (triIdx s2) xs) as (kb & -> & Hkb); [done..|].
    cbn [or_fail ok fbind]. rewrite Hkb. cbn [panics fmap option_fmap option_map fbind].
    unfold ok. do 2 f_equal. destruct s2; cbn in *. by subst.
  - intros _. unfold ok. do 2 f_equal. destruct s2; cbn in *. by subst.
Qed.

(** C39. [Load] accepts only version 3 shard files: a file shorter than the header,
    without the magic, or of another version is refused with the matching error. *)
Theorem Load_rejects path data :
  ((len data < headerSize)%Z → Load path data = fail (TooSmall (len data))) ∧
  ((headerSize ≤ len data)%Z → take 8 data ≠ magic → Load path data = fail BadMagic) ∧
  (∀ rest v, data = magic ++ le_put 4 v ++ rest → (headerSize ≤ len data)%Z →
     (0 ≤ v < 2 ^ 32)%Z → v ≠ formatVer → Load path data = fail (UnsupportedVersion v)).
Proof.
  unfold Load. split_and!.
  - intros Hl. by rewrite (proj2 (Z.ltb_lt _ _) Hl).
  - intros Hl Hm. rewrite (proj2 (Z.ltb_ge _ _) Hl). unfold parse_header.
    by rewrite bool_decide_eq_false_2.
  - intros rest v -> Hl Hv Hne. rewrite (proj2 (Z.ltb_ge _ _) Hl). unfold parse_header.
    rewrite bool_decide_eq_true_2 by done. cbn [negb].
    rewrite (get_le_app 4 magic (le_put 4 v) rest v 8) by done.
    cbn [panics fmap option_fmap option_map fbind]. by rewrite (proj2 (Z.eqb_neq _ _) Hne).
Qed.

Lemma Load_rejects_witness :
  Load [] [] = fail (TooSmall 0) ∧
  Load [] (magic ++ le_put 4 2 ++ zeros 52) = fail (UnsupportedVersion 2).
Proof.
  split.
  - apply (proj1 (Load_rejects [] [])). vm_compute. reflexivity.
  - apply (proj2 (proj2 (Load_rejects [] (magic ++ le_put 4 2 ++ zeros 52))) (zeros 52) 2%Z);
      [reflexivity|vm_compute; discriminate|lia|discriminate].
Defined.

(** Varints round trip: a [uint64] appended by [appendUvarint] is read back by
    [readUvarint] wherever it stands, and the position moves just past it. *)
Theorem readUvarint_appendUvarint b post v :
  (0 ≤ v < 2 ^ 64)%Z →
  readUvarint (appendUvarint b v ++ post) (len b) = Some (v, len (appendUvarint b v)).
Proof.
  intros Hv. unfold appendUvarint. rewrite <-app_assoc, len_app. by apply readUvarint_app.
Qed.

Lemma readUvarint_appendUvarint_witness :
  readUvarint (appendUvarint (bs "ab") (2 ^ 64 - 1) ++ bs "c") 2 = Some ((2 ^ 64 - 1)%Z, 12%Z) ∧
  readUvarint (appendUvarint (bs "ab") (2 ^ 64 - 1) ++ bs "c") (len (bs "ab"))
    = Some ((2 ^ 64 - 1)%Z, len (appendUvarint (bs "ab") (2 ^ 64 - 1))).
Proof.
  split; [vm_compute; reflexivity|].
  apply (readUvarint_appendUvarint (bs "ab") (bs "c") (2 ^ 64 - 1)). lia.
Defined.

(** ** The mapping *)

(** A use of the mapping: [true] maps, [false] unmaps. *)
Definition map_op (data : bytes) (s : Shard) (op : bool) : Shard :=
  if op then (Mmap s (Some data)).1 else Munmap s.

(** The number of open uses: an unmap without a map does nothing. *)
Definition open_uses (n : Z) (op : bool) : Z := if op then (n + 1)%Z else Z.max 0 (n - 1).

Lemma map_op_spec data s op :
  (0 ≤ refs s)%Z → sdata s = (if (0 <? refs s)%Z then data else []) →
  let s' := map_op data s op in
  refs s' = open_uses (refs s) op ∧ (0 ≤ refs s')%Z ∧
  sdata s' = (if (0 <? refs s')%Z then data else []).
Proof.
  intros Hr Hd. unfold map_op, Mmap, Munmap, open_uses.
  destruct op; destruct (Z.ltb_spec 0 (refs s)); cbn [fst].
  - cbn. rewrite Hd, (proj2 (Z.ltb_lt _ _)) by lia. split_and!; [done|lia|done].
  - cbn. split_and!; [lia|lia|done].
  - rewrite (proj2 (Z.leb_gt _ _)) by lia. destruct (Z.eqb_spec (refs s - 1) 0) as [E|E]; cbn.
    + rewrite E. split_and!; [lia|lia|done].
    + rewrite Hd, (proj2 (Z.ltb_lt _ _)) by lia. split_and!; [lia|lia|done].
  - rewrite (proj2 (Z.leb_le _ _)) by lia. split_and!; [lia|done|].
    rewrite Hd. by rewrite (proj2 (Z.ltb_ge _ _)) by lia.
Qed.

(** [Open] and [Load] agree on every file, well formed or not: where [Load]
    returns an error [Open] returns the same one, and where [Load] returns a shard
    (of fewer than 2^30 trigrams) [Open] returns its descriptor, not yet mapped. *)
Theorem Open_agrees_Load path data :
  match Load path data with
  | Some (inl e) => Open path data = fail e
  | Some (inr s) => (numTri s < 2 ^ 30)%Z → Open path data = ok (set_mapping s [] 0)
  | None => True
  end.
Proof. exact (Open_Load path data). Qed.

(** The mapping is shared and counted: from an unmapped shard, over any sequence
    of [Mmap]s and [Munmap]s, the data are mapped exactly while some use is open. *)
Theorem mapping_counted data s ops :
  refs s = 0%Z → sdata s = [] →
  let s' := foldl (map_op data) s ops in
  refs s' = foldl open_uses 0%Z ops ∧
  sdata s' = (if (0 <? foldl open_uses 0%Z ops)%Z then data else []).
Proof.
  intros Hr Hd.
  enough (∀ s, (0 ≤ refs s)%Z → sdata s = (if (0 <? refs s)%Z then data else []) →
    let s' := foldl (map_op data) s ops in
    refs s' = foldl open_uses (refs s) ops ∧ sdata s' = (if (0 <? refs s')%Z then data else [])) as Hgen.
  { destruct (Hgen s) as [H1 H2]; [lia|by rewrite Hr, Hd|]. cbv zeta. by rewrite H2, H1, Hr. }
  clear s Hr Hd. induction ops as [|op ops IH]; intros s Hr Hd; [done|]. simpl.
  destruct (map_op_spec data s op Hr Hd) as (H1 & H2 & H3). rewrite <-H1. by apply IH.
Qed.

Lemma mapping_counted_witness :
  let s := mkShard [] 0 [] [] 0 0 0 0 0 0 0 0 0 [] [] 0 in
  sdata (foldl (map_op (bs "x")) s [true; true; false]) = bs "x" ∧
  refs (foldl (map_op (bs "x")) s [true; true; false]) = foldl open_uses 0%Z [true; true; false] ∧
  sdata (foldl (map_op (bs "x")) s [true; true; false]) =
    (if (0 <? foldl open_uses 0%Z [true; true; false])%Z then bs "x" else []).
Proof.
  intros s. split; [reflexivity|].
  apply (mapping_counted (bs "x") s [true; true; false]); reflexivity.
Defined.

(** The path range covers the shard: when the files are added in path order, as
    [GroupByDirBoundary] sorts them, [ContainsPath] holds of the path of every file. *)
Theorem ContainsPath_covers `{MapOrder} kb ins path :
  fits (build kb ins) →
  StronglySorted bytes_le (map (λ f, Path (in_meta f)) ins) →
  ∃ out s, Write (build kb ins) = Some out ∧ Load path out = ok s ∧
    ∀ f, f ∈ ins → ContainsPath s (Path (in_meta f)) = true.
Proof.
  intros Hfits Hs. destruct (built kb ins path Hfits) as (out & s & Hw & Hl & Hb).
  exists out, s. split_and!; [done..|]. intros f Hf. unfold ContainsPath.
  rewrite (bo_min _ _ _ _ Hb), (bo_max _ _ _ _ Hb), (bo_files _ _ _ _ Hb).
  apply andb_true_iff. rewrite !bytes_leb_spec. unfold first_path, last_path.
  clear Hw Hl Hb. split.
  - destruct ins as [|g ins]; [by apply elem_of_nil in Hf|]. simpl.
    inversion Hs as [|? ? _ Hall]; subst. apply elem_of_cons in Hf as [->|Hf]; [done|].
    rewrite Forall_forall in Hall. apply Hall. by apply (list_elem_of_fmap_2 (λ f, Path (in_meta f))).
  - induction ins as [|g ins IH] using rev_ind; [by apply elem_of_nil in Hf|].
    rewrite map_app. cbn [map]. rewrite last_snoc. cbn [fmap option_fmap option_map default to_file bf_path].
    rewrite map_app in Hs. apply elem_of_app in Hf as [Hf|Hf%list_elem_of_singleton]; [|by subst].
    eapply StronglySorted_app_1_elem_of; [exact Hs| |by left].
    by apply (list_elem_of_fmap_2 (λ f, Path (in_meta f))).
Qed.

Lemma ContainsPath_covers_witness :
  ∃ out s, @Write tree_order (@build tree_order 1 demo_inputs) = Some out ∧
    Load (bs "s.idx") out = ok s ∧
    ∀ f, f ∈ demo_inputs → ContainsPath s (Path (in_meta f)) = true.
Proof.
  apply (@ContainsPath_covers tree_order 1 demo_inputs (bs "s.idx") demo_fits).
  repeat (constructor; [|repeat (constructor; [vm_compute; discriminate|]); constructor]).
  constructor.
Defined.
