(* ===== verification/Scan.v ===== *)
(** * Scanning file contents: internal/shard/engine.go, verifyFile and matchContent

    The disk engine matches line by line, through a buffered reader over an open
    file ([verifyFile]) or over the content inlined in a shard ([matchContent]).
    Both are one scan of the lines ([scan_lines]). *)

From S2P Require Import Prelude GoBytes Text Lines Regexp Literal Matcher IndexSearch.

(** [r.ReadBytes('\n')]: the bytes up to and including the delimiter, what is
    left, and whether the end of the file was reached. *)
Definition ReadBytes (r : bytes) : bytes * bytes * bool :=
  match index_byte r newline with
  | Some i => (take (S i) r, drop (S i) r, false)
  | None => (r, [], true)
  end.

(** [trimmed]: a line without its newline. *)
Definition trim_newline (line : bytes) : bytes :=
  match last line with
  | Some b => if bool_decide (b = newline) then take (length line - 1) line else line
  | None => line
  end.

Section Scan.
Context `{RegexpEngine} (rel : bytes) (mat : Matcher) (opts : SearchOpts).

(** The match of a line; both functions build it the same way. *)
Definition line_match (lineNo : nat) (line : bytes) (col : nat) : Match :=
  mkMatch rel lineNo
    (if (o_MaxColumns opts <=? 0)%Z || (len line <=? o_MaxColumns opts)%Z then line else [])
    col (length line).

(** The early returns after a match. *)
Definition scan_stop (matches : list Match) : bool :=
  o_FilesOnly opts || ((0 <? o_Limit opts)%Z && (o_Limit opts <=? len matches)%Z).

(** The loop of [matchContent]: each iteration consumes a byte at least. *)
Fixpoint matchContent_loop (fuel : nat) (content : bytes) (lineNo : nat) (matches : list Match)
  : option (list Match) :=
  match fuel with
  | O => None
  | S fuel =>
      if bool_decide (content = []) then Some matches
      else
        let lineNo := S lineNo in
        let '(line, content) :=
          match index_byte content newline with
          | Some i => (take i content, drop (S i) content)
          | None => (content, [])
          end in
        loc ← FindFirst mat line;
        match loc with
        | None => matchContent_loop fuel content lineNo matches
        | Some (a, _) =>
            let matches := matches ++ [line_match lineNo line a] in
            if scan_stop matches then Some matches
            else matchContent_loop fuel content lineNo matches
        end
  end.

(** [matchContent] *)
Definition matchContent (content : bytes) : option (list Match) :=
  if isBinary content then Some []
  else matchContent_loop (S (length content)) content 0 [].

(** The loop of [verifyFile] over the reader. *)
Fixpoint verifyFile_loop (fuel : nat) (r : bytes) (lineNo : nat) (matches : list Match)
  : option (list Match) :=
  match fuel with
  | O => None
  | S fuel =>
      let '(line, r, eof) := ReadBytes r in
      let next lineNo matches :=
        if eof then Some matches else verifyFile_loop fuel r lineNo matches in
      if bool_decide (line = []) then next lineNo matches
      else
        let lineNo := S lineNo in
        let trimmed := trim_newline line in
        loc ← FindFirst mat trimmed;
        match loc with
        | None => next lineNo matches
        | Some (a, _) =>
            let matches := matches ++ [line_match lineNo trimmed a] in
            if scan_stop matches then Some matches else next lineNo matches
        end
  end.

(** [verifyFile]: [file] is the file on disk, [None] when it cannot be opened, and
    [inline] the content the shard holds, if any. *)
Definition verifyFile (file inline : option bytes) : option (list Match) :=
  match inline with
  | Some content => matchContent content
  | None =>
      match file with
      | None => Some []
      | Some content =>
          if isBinary content then Some []
          else verifyFile_loop (S (length content)) content 0 []
      end
  end.

(** ** The reference scan *)

(** The lines of a content; an empty last line is not one. *)
Definition text_lines (content : bytes) : list bytes :=
  match content with
  | [] => []
  | _ => if bool_decide (last content = Some newline)
         then take (length (lines content) - 1) (lines content) else lines content
  end.

(** What [FindFirst] finds. *)
Definition finds (line : bytes) : option (nat * nat) := default None (FindFirst mat line).

(** The matches of the lines numbered from [n]. *)
Fixpoint hits_from (n : nat) (ls : list bytes) : list Match :=
  match ls with
  | [] => []
  | line :: ls =>
      match finds line with
      | Some (a, _) => line_match n line a :: hits_from (S n) ls
      | None => hits_from (S n) ls
      end
  end.

(** The cap of a scan: one match for [FilesOnly], [Limit] when positive. *)
Definition scan_cap (ms : list Match) : list Match :=
  if o_FilesOnly opts then take 1 ms else capped (o_Limit opts) ms.

Definition scan_lines (content : bytes) : list Match :=
  if isBinary content then [] else scan_cap (hits_from 1 (text_lines content)).
End Scan.

(** ** The loops against the reference *)

Lemma text_lines_eq s :
  s ≠ [] →
  text_lines s = if bool_decide (last s = Some newline)
                 then take (length (lines s) - 1) (lines s) else lines s.
Proof. by destruct s. Qed.

Lemma text_lines_app_newline a b :
  newline ∉ a → text_lines (a ++ newline :: b) = a :: text_lines b.
Proof.
  intros Ha. rewrite text_lines_eq, lines_app_newline by (done || by destruct a).
  rewrite last_app. destruct b as [|x b].
  - by rewrite bool_decide_eq_true_2.
  - rewrite text_lines_eq by done.
    assert (match last (newline :: x :: b) with Some y => Some y | None => last a end = last (x :: b)) as ->.
    { rewrite last_cons. by destruct (last (x :: b)) eqn:E; [|apply last_None in E]. }
    pose proof (lines_not_nil (x :: b)) as Hne.
    case_bool_decide; [|done]. destruct (lines (x :: b)) as [|l ls]; [done|].
    cbn [length]. by rewrite !Nat.sub_succ, !Nat.sub_0_r.
Qed.

Lemma text_lines_cons s i :
  index_byte s newline = Some i → text_lines s = take i s :: text_lines (drop (S i) s).
Proof.
  intros [Hs Hn]%index_byte_split. rewrite Nat.add_1_r in Hs. rewrite Hs at 1.
  by apply text_lines_app_newline.
Qed.

Lemma text_lines_one s : s ≠ [] → newline ∉ s → text_lines s = [s].
Proof.
  intros Hne Hn. rewrite text_lines_eq, lines_no_newline by done.
  rewrite bool_decide_eq_false_2; [done|]. intros Hl. apply Hn.
  apply last_Some in Hl as [l ->]. apply elem_of_app. right. by left.
Qed.

Section ScanSpec.
Context `{RegexpEngine} (rel : bytes) (mat : Matcher) (opts : SearchOpts).
Hypothesis Hmat : matcher_ok mat.

Lemma finds_total line : FindFirst mat line = Some (finds mat line).
Proof. unfold finds. rewrite (FindFirst_spec mat line Hmat). done. Qed.

(** A scan that has not stopped yet. *)
Definition scan_open (ms : list Match) : Prop :=
  if o_FilesOnly opts then ms = [] else (o_Limit opts ≤ 0)%Z ∨ (len ms < o_Limit opts)%Z.

Lemma scan_open_cap ms : scan_open ms → scan_cap opts ms = ms.
Proof.
  unfold scan_open, scan_cap. destruct (o_FilesOnly opts); [by intros ->|apply capped_small].
Qed.

Lemma scan_stop_cap ms m rest :
  scan_open ms →
  if scan_stop opts (ms ++ [m]) then scan_cap opts (ms ++ m :: rest) = ms ++ [m]
  else scan_open (ms ++ [m]).
Proof.
  unfold scan_open, scan_stop, scan_cap. destruct (o_FilesOnly opts); [by intros ->|]. cbn [orb].
  intros Ho. rewrite <-(app_cons_snoc ms rest m).
  assert (len (ms ++ [m]) = len ms + 1)%Z as Hl by (unfold len; rewrite length_app; simpl; lia).
  destruct (Z.ltb_spec 0 (o_Limit opts)) as [Hp|Hp]; cbn [andb]; [|by left].
  destruct (Z.leb_spec (o_Limit opts) (len (ms ++ [m]))).
  - apply capped_app_full; lia.
  - by right.
Qed.

Lemma matchContent_loop_spec fuel content n ms :
  length content < fuel → scan_open ms →
  matchContent_loop rel mat opts fuel content n ms =
    Some (scan_cap opts (ms ++ hits_from rel mat opts (S n) (text_lines content))).
Proof.
  revert content n ms. induction fuel as [|fuel IH]; intros content n ms Hf Ho; [lia|].
  cbn [matchContent_loop]. case_bool_decide as Hne.
  { subst content. simpl. by rewrite app_nil_r, scan_open_cap. }
  destruct (index_byte content newline) as [i|] eqn:Ei.
  - rewrite (text_lines_cons _ _ Ei). rewrite finds_total. cbn [mbind option_bind hits_from].
    apply index_byte_Some in Ei as [Hi _]. apply lookup_lt_Some in Hi.
    assert (length (drop (S i) content) < fuel) by (rewrite length_drop; lia).
    destruct (finds mat (take i content)) as [[a b]|]; [|by apply IH].
    pose proof (scan_stop_cap ms (line_match rel opts (S n) (take i content) a)
      (hits_from rel mat opts (S (S n)) (text_lines (drop (S i) content))) Ho) as Hs.
    destruct (scan_stop opts _); [by rewrite Hs|]. rewrite IH by done. by rewrite app_cons_snoc.
  - apply index_byte_None in Ei. rewrite (text_lines_one _ Hne Ei).
    rewrite finds_total. cbn [mbind option_bind hits_from].
    assert (0 < fuel) by (destruct content; [done|simpl in Hf; lia]).
    destruct (finds mat content) as [[a b]|].
    + pose proof (scan_stop_cap ms (line_match rel opts (S n) content a) [] Ho) as Hs.
      destruct (scan_stop opts _); [by rewrite Hs|]. rewrite IH by (simpl; lia || done). simpl.
      by rewrite app_nil_r.
    + by rewrite IH by (simpl; lia || done).
Qed.

Lemma matchContent_spec content :
  matchContent rel mat opts content = Some (scan_lines rel mat opts content).
Proof.
  unfold matchContent, scan_lines. destruct (isBinary content); [done|].
  rewrite matchContent_loop_spec; [done|lia|]. unfold scan_open.
  destruct (o_FilesOnly opts); [done|]. unfold len. simpl. lia.
Qed.

Lemma trim_newline_app a : trim_newline (a ++ [newline]) = a.
Proof.
  unfold trim_newline. rewrite last_snoc, bool_decide_eq_true_2 by done.
  rewrite length_app. simpl. by rewrite Nat.add_sub, take_app_length.
Qed.

Lemma trim_newline_none a : newline ∉ a → trim_newline a = a.
Proof.
  intros Hn. unfold trim_newline. destruct (last a) as [x|] eqn:E; [|done].
  case_bool_decide; [|done]. subst. apply last_Some in E as [l ->]. destruct Hn.
  apply elem_of_app. right. by left.
Qed.

Lemma verifyFile_loop_spec fuel content n ms :
  length content < fuel → scan_open ms →
  verifyFile_loop rel mat opts fuel content n ms =
    Some (scan_cap opts (ms ++ hits_from rel mat opts (S n) (text_lines content))).
Proof.
  revert content n ms. induction fuel as [|fuel IH]; intros content n ms Hf Ho; [lia|].
  cbn [verifyFile_loop]. unfold ReadBytes. destruct (index_byte content newline) as [i|] eqn:Ei.
  - rewrite (text_lines_cons _ _ Ei). pose proof (index_byte_split _ _ _ Ei) as [Hs Hn].
    apply index_byte_Some in Ei as [Hi _]. pose proof (lookup_lt_Some _ _ _ Hi) as Hil.
    rewrite (take_S_r _ _ _ Hi). rewrite bool_decide_eq_false_2 by (by destruct (take i content)).
    rewrite trim_newline_app, finds_total. cbn [mbind option_bind hits_from].
    assert (length (drop (S i) content) < fuel) by (rewrite length_drop; lia).
    destruct (finds mat (take i content)) as [[a b]|]; [|by apply IH].
    pose proof (scan_stop_cap ms (line_match rel opts (S n) (take i content) a)
      (hits_from rel mat opts (S (S n)) (text_lines (drop (S i) content))) Ho) as Hst.
    destruct (scan_stop opts _); [by rewrite Hst|]. rewrite IH by done. by rewrite app_cons_snoc.
  - apply index_byte_None in Ei. case_bool_decide as Hne.
    { subst content. simpl. by rewrite app_nil_r, scan_open_cap. }
    rewrite trim_newline_none, (text_lines_one _ Hne Ei), finds_total by done.
    cbn [mbind option_bind hits_from].
    destruct (finds mat content) as [[a b]|]; [|by rewrite app_nil_r, scan_open_cap].
    pose proof (scan_stop_cap ms (line_match rel opts (S n) content a) [] Ho) as Hst.
    destruct (scan_stop opts _); [by rewrite Hst|]. by rewrite scan_open_cap.
Qed.

Lemma verifyFile_spec file inline :
  verifyFile rel mat opts file inline = Some
    match inline, file with
    | Some c, _ => scan_lines rel mat opts c
    | None, Some c => scan_lines rel mat opts c
    | None, None => []
    end.
Proof.
  unfold verifyFile. destruct inline as [c|]; [apply matchContent_spec|].
  destruct file as [c|]; [|done]. unfold scan_lines. destruct (isBinary c); [done|].
  rewrite verifyFile_loop_spec; [done|lia|]. unfold scan_open.
  destruct (o_FilesOnly opts); [done|]. unfold len. simpl. lia.
Qed.
End ScanSpec.

(** ** Properties *)

(** Reading a file and scanning its inlined content are the same search: both
    loops terminate without a panic and give the reference scan, the matching
    lines in order up to the cap, and nothing for a binary content. *)
Theorem verifyFile_is_scan `{RegexpEngine} rel mat opts content :
  matcher_ok mat →
  verifyFile rel mat opts (Some content) None = Some (scan_lines rel mat opts content) ∧
  matchContent rel mat opts content = Some (scan_lines rel mat opts content).
Proof. intros Hm. split; [by apply (verifyFile_spec rel mat opts Hm)|by apply matchContent_spec]. Qed.

Lemma verifyFile_is_scan_witness :
  let mat := @mkMatcher (one_engine hello_re) None (bs "lo") false (chr "l") true in
  let opts := mkOpts [] None false 0 (bs "lo") false 0 0 in
  let c := bs "hello" ++ newline :: bs "x" ++ newline :: bs "low" in
  map m_Line <$> verifyFile (bs "f") mat opts (Some c) None = Some [1; 3] ∧
  verifyFile (bs "f") mat opts (Some c) None = Some (scan_lines (bs "f") mat opts c).
Proof.
  intros mat opts c. split; [vm_compute; reflexivity|].
  apply (@verifyFile_is_scan (one_engine hello_re) (bs "f") mat opts c).
  split; [|done]. intros _. left.
Defined.
