(* ===== verification/Engine.v ===== *)
(** * The disk engine, state and updates: internal/shard/engine.go, build.go, manifest.go

    [DiskEngine] keeps an ordered list of immutable shards and a dirty list of
    paths whose shard entry is stale; [rebuild] folds the dirty list into new
    shards.  The files of the repository and the shard directory are explicit
    state; a function that may panic has an [option] result. *)

From S2P Require Import Prelude GoBytes Trigram Text Lines Symbol Index Codec Shard.

(** ** The file system *)

(** The files under the root: contents, and size and modification time.  A path
    relative to the root stands for [filepath.Join(e.root, ...)]. *)
Record FS := mkFS {
  ReadFile : bytes → option bytes;
  Stat : bytes → option (Z * Z);
}.

(** The text indexed for a content: transcoded from UTF-16, [None] when binary. *)
Definition transcode (content : bytes) : bytes := default content (shard_decodeUTF16 content).
Definition text_of (content : bytes) : option bytes :=
  let content := transcode content in
  if isBinary content then None else Some content.

(** ** Batches: [GroupByDirBoundary] *)

Record ShardSizeConfig := mkSizes { TargetBytes : Z; MinBytes : Z; MaxBytes : Z }.
Record BuildFile := mkBF { Rel : bytes; bf_Size : Z; bf_MtimeNS : Z }.

Definition rel_le (a b : BuildFile) : Prop := bytes_le (Rel a) (Rel b).
#[export] Instance rel_le_dec : RelDecision rel_le.
Proof. intros a b. unfold rel_le. apply _. Defined.

(** The loop over the sorted files: the finished batches, the current one and its bytes. *)
Definition group_step (sc : ShardSizeConfig) (st : list (list BuildFile) * list BuildFile * Z)
    (f : BuildFile) : list (list BuildFile) * list BuildFile * Z :=
  let '(batches, cur, curBytes) := st in
  let cur := cur ++ [f] in
  let curBytes := (curBytes + bf_Size f)%Z in
  if (TargetBytes sc <=? curBytes)%Z then (batches ++ [cur], [], 0%Z) else (batches, cur, curBytes).

(** [batches[len(batches)-1] = append(batches[len(batches)-1], cur...)] *)
Definition append_last (batches : list (list BuildFile)) (cur : list BuildFile) : list (list BuildFile) :=
  match last batches with
  | Some b => take (length batches - 1) batches ++ [b ++ cur]
  | None => batches
  end.

Definition GroupByDirBoundary (files : list BuildFile) (sc : ShardSizeConfig) : list (list BuildFile) :=
  let files := merge_sort rel_le files in
  let '(batches, cur, curBytes) := foldl (group_step sc) ([], [], 0%Z) files in
  if bool_decide (cur = []) then batches
  else if bool_decide (batches ≠ []) && (curBytes <? MinBytes sc)%Z then append_last batches cur
  else batches ++ [cur].

(** ** The engine *)

Record DiskEngineConfig := mkCfg {
  ShardSize : ShardSizeConfig;
  RebuildThreshold : Z;
  SearchWorkers : Z;
  InlineKB : Z;
}.

Record ManifestShard := mkMS { ms_File : bytes; ms_PathMin : bytes; ms_PathMax : bytes }.
Record Manifest := mkManifest { Version : Z; SeqNo : Z; Shards : list ManifestShard }.

(** [engineSnapshot] *)
Record engineSnapshot := mkSnap { shards : list Shard; seqNo : Z }.

(** [DiskEngine] with the shard directory it owns: [idx] holds the shard files by
    name and [manifest] the manifest file.  [dirty] maps a path to its [deleted] flag. *)
Record DiskEngine := mkEngine {
  cfg : DiskEngineConfig;
  snapshot : engineSnapshot;
  totalFiles : Z;
  totalBytes : Z;
  dirty : gmap bytes bool;
  pending : list bytes;
  idx_files : gmap bytes bytes;
  manifest : option Manifest;
}.

(** [NewDiskEngine] *)
Definition NewDiskEngine (c : DiskEngineConfig) (idx : gmap bytes bytes) (m : option Manifest)
  : DiskEngine := mkEngine c (mkSnap [] 0) 0 0 ∅ [] idx m.

(** [shardForPath]: [None] is -1. *)
Definition shardForPath (snap : engineSnapshot) (path : bytes) : option (option Z) :=
  r ← sort_Search (len (shards snap)) (λ i, s ← idx (shards snap) i;
        Some (bytes_ltb path (pathMin s)));
  let i := (r - 1)%Z in
  if (i <? 0)%Z then Some None
  else
    s ← idx (shards snap) i;
    Some (if ContainsPath s path then Some i else None).

(** The loop of [shardsForPrefix] from index [i]. *)
Fixpoint shardsForPrefix_loop (prefix : bytes) (i : Z) (ss : list Shard) : list Z :=
  match ss with
  | [] => []
  | s :: ss =>
      if bytes_ltb (pathMax s) prefix then shardsForPrefix_loop prefix (i + 1) ss
      else if has_prefix (pathMin s) prefix || bytes_leb (pathMin s) prefix then
        i :: shardsForPrefix_loop prefix (i + 1) ss
      else []
  end.
Definition shardsForPrefix (snap : engineSnapshot) (prefix : bytes) : list Z :=
  shardsForPrefix_loop prefix 0 (shards snap).

(** Mapping a shard opens its file in the shard directory. *)
Definition mapped (e : DiskEngine) (s : Shard) : option Shard :=
  let '(s', ok) := Mmap s (idx_files e !! s_path s) in if ok then Some s' else None.

Definition set_dirty (e : DiskEngine) (d : gmap bytes bool) : DiskEngine :=
  mkEngine (cfg e) (snapshot e) (totalFiles e) (totalBytes e) d (pending e) (idx_files e) (manifest e).

(** [MarkDirty] and [MarkDeleted] *)
Definition MarkDirty (e : DiskEngine) (rel : bytes) : DiskEngine :=
  set_dirty e (<[rel := false]> (dirty e)).
Definition MarkDeleted (e : DiskEngine) (rel : bytes) : DiskEngine :=
  set_dirty e (<[rel := true]> (dirty e)).

(** The paths of a shard below a directory; a shard that cannot be mapped is skipped. *)
Definition paths_below (e : DiskEngine) (dir : bytes) (s : Shard) : option (list bytes) :=
  match mapped e s with
  | None => Some []
  | Some s =>
      fms ← Files s;
      Some (filter (λ p, bool_decide (p = dir) || has_prefix p (dir ++ [slash]) = true) (map Path fms))
  end.

(** [MarkDeletedPrefix] *)
Definition MarkDeletedPrefix (e : DiskEngine) (dir : bytes) : option DiskEngine :=
  ss ← mapM (idx (shards (snapshot e))) (shardsForPrefix (snapshot e) (dir ++ [slash]));
  toDelete ← mapM (paths_below e dir) ss;
  Some (set_dirty e (foldl (λ d p, <[p := true]> d) (dirty e) (concat toDelete))).

(** ** Writing shards *)

(** [fmt.Sprintf("shard-%04d.idx", seq)] *)
Fixpoint digits (fuel : nat) (z : Z) (acc : bytes) : bytes :=
  match fuel with
  | O => acc
  | S fuel =>
      let acc := z2b (48 + z mod 10) :: acc in
      if (z <? 10)%Z then acc else digits fuel (z / 10) acc
  end.
Definition pad4 (ds : bytes) : bytes := replicate (4 - length ds) (chr "0") ++ ds.
Definition shardPath (seq : Z) : bytes := bs "shard-" ++ pad4 (digits 20 seq []) ++ bs ".idx".

Section Build.
Context `{MapOrder} `{SymbolExtractor}.

(** A file of a batch: read, transcoded, extracted and added; the counters of
    files and bytes follow. *)
Definition add_file (fs : FS) (st : Builder * Z * Z) (f : BuildFile) : Builder * Z * Z :=
  let '(b, nf, nb) := st in
  match c ← ReadFile fs (Rel f); text_of c with
  | None => st
  | Some c =>
      (AddWithDefs b (Rel f) (bf_Size f) (bf_MtimeNS f) c (Extract (Rel f) c),
       (nf + 1)%Z, (nb + bf_Size f)%Z)
  end.

(** [b.Write(path)] then [Open(path)]: the bytes written, and the shard.  Writing to the shard
    directory succeeds. *)
Definition write_shard (name : bytes) (b : Builder) : option (bytes * (shard_err + Shard)) :=
  out ← Write b;
  r ← Open name out;
  Some (out, r).

Definition write_open (idx : gmap bytes bytes) (name : bytes) (b : Builder)
  : option (gmap bytes bytes * (shard_err + Shard)) :=
  '(out, r) ← write_shard name b;
  Some (<[name := out]> idx, r).

(** The loop of [FullBuild] over the batches: the shard directory, and the shards,
    files, bytes and sequence number, or the error of [Open]. *)
Fixpoint full_loop (kb : Z) (fs : FS) (batches : list (list BuildFile)) (idx : gmap bytes bytes)
    (ss : list Shard) (nf nb seq : Z)
  : option (gmap bytes bytes * (shard_err + (list Shard * Z * Z * Z))) :=
  match batches with
  | [] => Some (idx, inr (ss, nf, nb, seq))
  | batch :: batches =>
      let '(b, nf, nb) := foldl (add_file fs) (NewBuilder kb, nf, nb) batch in
      if bool_decide (b_files b = []) then full_loop kb fs batches idx ss nf nb seq
      else
        '(idx, r) ← write_open idx (shardPath seq) b;
        match r with
        | inl err => Some (idx, inl err)
        | inr s => full_loop kb fs batches idx (ss ++ [s]) nf nb (seq + 1)
        end
  end.

(** [ManifestFromShards] *)
Definition ManifestFromShards (ss : list Shard) (seq : Z) : Manifest :=
  mkManifest 1 seq (map (λ s, mkMS (s_path s) (pathMin s) (pathMax s)) ss).

(** [FullBuild]: the engine and the error, if any. *)
Definition FullBuild (e : DiskEngine) (fs : FS) (files : list BuildFile)
  : option (DiskEngine * option shard_err) :=
  let batches := GroupByDirBoundary files (ShardSize (cfg e)) in
  '(idx, r) ← full_loop (InlineKB (cfg e)) fs batches (idx_files e) [] 0 0 0;
  match r with
  | inl err =>
      Some (mkEngine (cfg e) (snapshot e) (totalFiles e) (totalBytes e) (dirty e) (pending e)
              idx (manifest e), Some err)
  | inr (ss, nf, nb, seq) =>
      Some (mkEngine (cfg e) (mkSnap ss seq) nf nb (dirty e) (pending e) idx
              (Some (ManifestFromShards ss seq)), None)
  end.

(** ** [Reconcile] *)

(** The shards of a manifest that open; the others are logged and left out. *)
Fixpoint open_shards (idx : gmap bytes bytes) (ms : list ManifestShard) : option (list Shard) :=
  match ms with
  | [] => Some []
  | m :: ms =>
      match idx !! ms_File m with
      | None => open_shards idx ms
      | Some data =>
          r ← Open (ms_File m) data;
          ss ← open_shards idx ms;
          Some (match r with inl _ => ss | inr s => s :: ss end)
      end
  end.

(** [CleanOrphans] *)
Definition CleanOrphans (idx : gmap bytes bytes) (m : option Manifest) : gmap bytes bytes :=
  let valid := match m with Some m => map ms_File (Shards m) | None => [] end in
  filter (λ nf, ¬ ((has_suffix nf.1 (bs ".idx") || has_suffix nf.1 (bs ".idx.tmp") = true)
                   ∧ nf.1 ∉ valid)) idx.

(** The check of one shard file against the disk: the paths seen, the bytes, the dirty list. *)
Definition check_file (onDisk : gmap bytes BuildFile) (st : gset bytes * Z * gmap bytes bool)
    (fm : FileMeta) : gset bytes * Z * gmap bytes bool :=
  let '(inShard, nb, d) := st in
  let inShard := {[Path fm]} ∪ inShard in
  let nb := (nb + Size fm)%Z in
  match onDisk !! Path fm with
  | None => (inShard, nb, <[Path fm := true]> d)
  | Some df =>
      if bool_decide (bf_Size df ≠ Size fm) || bool_decide (bf_MtimeNS df ≠ MtimeNS fm)
      then (inShard, nb, <[Path fm := false]> d) else (inShard, nb, d)
  end.

(** The loop over the shards; one that cannot be mapped is skipped. *)
Fixpoint check_shards (e : DiskEngine) (onDisk : gmap bytes BuildFile) (ss : list Shard)
    (st : gset bytes * Z * gmap bytes bool) : option (gset bytes * Z * gmap bytes bool) :=
  match ss with
  | [] => Some st
  | s :: ss =>
      match mapped e s with
      | None => check_shards e onDisk ss st
      | Some s => fms ← Files s; check_shards e onDisk ss (foldl (check_file onDisk) st fms)
      end
  end.

(** [Reconcile] *)
Definition Reconcile (e : DiskEngine) (diskFiles : list BuildFile) : option DiskEngine :=
  let seq := match manifest e with Some m => SeqNo m | None => 0%Z end in
  ss ← open_shards (idx_files e) (match manifest e with Some m => Shards m | None => [] end);
  let e := mkEngine (cfg e) (snapshot e) (totalFiles e) (totalBytes e) (dirty e) (pending e)
             (CleanOrphans (idx_files e) (manifest e)) (manifest e) in
  let onDisk := foldl (λ m f, <[Rel f := f]> m) (∅ : gmap bytes BuildFile) diskFiles in
  '(inShard, nb, d) ← check_shards e onDisk ss (∅, 0%Z, dirty e);
  let d := foldl (λ d f, if decide (Rel f ∈ inShard) then d else <[Rel f := false]> d) d diskFiles in
  Some (mkEngine (cfg e) (mkSnap ss seq) (Z.of_nat (size onDisk)) nb d (pending e)
          (idx_files e) (manifest e)).
End Build.
