(* ===== verification/Decimal.v ===== *)
(** * Decimal numbers

    What [fmt] prints for a number that is not negative, in the names of shards and
    barrier cookies and in the output of the client: the value of the digits and that different
    numbers print differently. *)

From S2P Require Import Prelude GoBytes Engine.

(** A number in decimal, as [%d] prints it; 20 digits hold every 64-bit number. *)
Definition dec (n : nat) : bytes := digits 20 (Z.of_nat n) [].

(** The value of a string of digits. *)
Definition dec_val (ds : bytes) : Z := foldl (λ n b, (10 * n + (b2z b - 48))%Z) 0%Z ds.

Lemma dec_val_from n ds :
  foldl (λ n b, (10 * n + (b2z b - 48))%Z) n ds = (n * 10 ^ len ds + dec_val ds)%Z.
Proof.
  unfold dec_val. revert n. induction ds as [|b ds IH]; intros n; cbn [foldl]; [unfold len; simpl; lia|].
  rewrite IH, (IH (10 * 0 + _)%Z). unfold len. cbn [length].
  rewrite Nat2Z.inj_succ, Z.pow_succ_r by lia. lia.
Qed.

Lemma dec_val_cons b ds : dec_val (b :: ds) = ((b2z b - 48) * 10 ^ len ds + dec_val ds)%Z.
Proof. unfold dec_val at 1. cbn [foldl]. rewrite dec_val_from. lia. Qed.

Lemma digits_val fuel z acc :
  (0 ≤ z < 10 ^ Z.of_nat fuel)%Z →
  dec_val (digits fuel z acc) = (z * 10 ^ len acc + dec_val acc)%Z.
Proof.
  revert z acc. induction fuel as [|fuel IH]; intros z acc Hz.
  { change (10 ^ Z.of_nat 0)%Z with 1%Z in Hz. assert (z = 0)%Z as -> by lia. done. }
  cbn [digits]. pose proof (Z.mod_pos_bound z 10 ltac:(lia)) as Hm.
  assert (dec_val (z2b (48 + z mod 10) :: acc) = (z mod 10 * 10 ^ len acc + dec_val acc)%Z) as Hc.
  { rewrite dec_val_cons, b2z_z2b, Z.mod_small by lia. f_equal. f_equal. lia. }
  destruct (Z.ltb_spec z 10).
  - rewrite Hc, Z.mod_small by lia. done.
  - rewrite Nat2Z.inj_succ, Z.pow_succ_r in Hz by lia. rewrite IH, Hc.
    + unfold len. cbn [length]. rewrite Nat2Z.inj_succ, Z.pow_succ_r by lia.
      pose proof (Z.div_mod z 10 ltac:(lia)). nia.
    + split; [apply Z.div_pos; lia|]. apply Z.div_lt_upper_bound; lia.
Qed.

Lemma pad4_val ds : dec_val (pad4 ds) = dec_val ds.
Proof.
  unfold pad4. unfold dec_val at 1. rewrite foldl_app. fold (dec_val (replicate (4 - length ds) (chr "0"))).
  assert (dec_val (replicate (4 - length ds) (chr "0")) = 0%Z) as ->; [|done].
  induction (4 - length ds) as [|n IH]; [done|]. cbn [replicate]. by rewrite dec_val_cons, IH.
Qed.

Lemma digits_range fuel z acc c :
  (0 ≤ z)%Z → c ∈ digits fuel z acc → c ∈ acc ∨ in_range 48 57 c = true.
Proof.
  revert z acc. induction fuel as [|fuel IH]; intros z acc Hz; [by left|]. cbn [digits].
  pose proof (Z.mod_pos_bound z 10 ltac:(lia)) as Hm.
  assert (in_range 48 57 (z2b (48 + z mod 10)) = true) as Hr.
  { unfold in_range. rewrite b2z_z2b, Z.mod_small, bool_decide_eq_true by lia. lia. }
  destruct (z <? 10)%Z.
  - intros [->|]%elem_of_cons; auto.
  - intros [[->|]%elem_of_cons|]%IH; auto. apply Z.div_pos; lia.
Qed.

Lemma digits_snoc fuel z acc : ∃ l, digits fuel z acc = l ++ acc ∧ (0 < fuel → l ≠ []).
Proof.
  revert z acc. induction fuel as [|fuel IH]; intros z acc; [exists []; split; [done|lia]|].
  cbn [digits]. destruct (z <? 10)%Z; [by exists [z2b (48 + z mod 10)]|].
  destruct (IH (z / 10)%Z (z2b (48 + z mod 10) :: acc)) as (l & -> & _).
  exists (l ++ [z2b (48 + z mod 10)]). split; [by rewrite <-app_assoc|]. intros _. by destruct l.
Qed.

Lemma dec_not_nil n : dec n ≠ [].
Proof.
  unfold dec. destruct (digits_snoc 20 (Z.of_nat n) []) as (l & -> & Hl). rewrite app_nil_r. apply Hl. lia.
Qed.

Lemma dec_inj a b : (Z.of_nat a < 10 ^ 20)%Z → (Z.of_nat b < 10 ^ 20)%Z → dec a = dec b → a = b.
Proof.
  intros Ha Hb E. assert (∀ n, (Z.of_nat n < 10 ^ 20)%Z → dec_val (dec n) = Z.of_nat n) as Hv.
  { intros n Hn. unfold dec. rewrite digits_val by (change (Z.of_nat 20) with 20%Z; lia). unfold dec_val, len. cbn [length foldl]. lia. }
  apply Nat2Z.inj. by rewrite <-(Hv a Ha), <-(Hv b Hb), E.
Qed.

Lemma dec_digit n c : c ∈ dec n → in_range 48 57 c = true.
Proof. intros [Hc|Hc]%digits_range; [by apply elem_of_nil in Hc|done|lia]. Qed.
