(* ===== verification/Rebuild.v ===== *)
(** * The disk engine, background rebuild: internal/shard/engine.go, rebuild

    One cycle of [rebuildLoop]: the dirty list is copied, the affected shards and
    one shard for the new files are written, the snapshot is replaced and the
    processed entries are cleared.  Marks made while the cycle runs arrive between
    the copy and the clearing.  Writing a shard or the manifest may fail, which the cycle
    logs and survives. *)

From S2P Require Import Prelude GoBytes Trigram Text Lines Symbol Index Codec Shard Engine.

(** ** What to rebuild *)

(** The dirty files of each shard, and the dirty files of no shard. *)
Definition count_dirty (fs : FS) (cur : engineSnapshot)
    (st : option (gmap Z Z * list BuildFile)) (pd : bytes * bool) : option (gmap Z Z * list BuildFile) :=
  '(perShard, newFiles) ← st;
  si ← shardForPath cur pd.1;
  Some match si with
       | Some si => (<[si := (default 0 (perShard !! si) + 1)%Z]> perShard, newFiles)
       | None =>
           if pd.2 then (perShard, newFiles)
           else match Stat fs pd.1 with
                | Some (size, mtime) => (perShard, newFiles ++ [mkBF pd.1 size mtime])
                | None => (perShard, newFiles)
                end
       end.

Section Rebuild.
Context `{MapOrder} `{SymbolExtractor}.

(** One shard with dirty files: affected, or its dirty paths are deferred. *)
Definition decide_shard (cur : engineSnapshot) (threshold : Z) (dirtySnap : gmap bytes bool)
    (st : option (gset Z * list bytes)) (sc : Z * Z) : option (gset Z * list bytes) :=
  '(affected, deferred) ← st;
  if (threshold <=? sc.2)%Z then Some ({[sc.1]} ∪ affected, deferred)
  else
    ps ← mapM (λ p, si ← shardForPath cur p; Some (p, si)) (range dirtySnap).*1;
    Some (affected, deferred ++ (filter (λ pi, pi.2 = Some sc.1) ps).*1).

(** The affected shards and the deferred paths. *)
Definition plan (fs : FS) (cur : engineSnapshot) (threshold : Z) (dirtySnap : gmap bytes bool)
  : option (gset Z * list bytes * list BuildFile) :=
  '(perShard, newFiles) ← foldl (count_dirty fs cur) (Some (∅, [])) (range dirtySnap);
  '(affected, deferred) ← foldl (decide_shard cur threshold dirtySnap) (Some (∅, [])) (range perShard);
  if (Z.of_nat (size dirtySnap) <=? threshold)%Z
  then Some (list_to_set (range perShard).*1 ∪ affected, [], newFiles)
  else Some (affected, deferred, newFiles).

(** ** Rebuilding a shard *)

(** One file of an affected shard: a dirty file is read again, or dropped when it
    was deleted, cannot be read or is binary; a clean one keeps its metadata and
    symbols. *)
Definition rebuild_file (fs : FS) (dirtySnap : gmap bytes bool) (s : Shard)
    (st : option (Builder * Z)) (i : nat) : option (Builder * Z) :=
  '(b, nb) ← st;
  fm ← File s (Z.of_nat i);
  match dirtySnap !! Path fm with
  | Some true => Some (b, nb)
  | Some false =>
      match content ← ReadFile fs (Path fm); st ← Stat fs (Path fm);
            c ← text_of content; Some (st, c) with
      | None => Some (b, nb)
      | Some ((size, mtime), c) =>
          Some (AddWithDefs b (Path fm) size mtime c (Extract (Path fm) c), (nb + size)%Z)
      end
  | None =>
      match ReadFile fs (Path fm) with
      | None => Some (b, nb)
      | Some content =>
          oldDefs ← FileDefs s i;
          Some (AddWithDefs b (Path fm) (Size fm) (MtimeNS fm) (transcode content) oldDefs,
                (nb + Size fm)%Z)
      end
  end.

(** The state of the loop over the old shards: the new ones, the files to remove later, the next
    sequence number, the bytes, and the shard files written so far. *)
Record progress := mkProgress {
  p_shards : list (option Shard);
  p_old : list bytes;
  p_seq : Z;
  p_bytes : Z;
  p_writes : list (bytes * bytes);
}.

Definition keep_shard (p : progress) (s : Shard) (nb : Z) : progress :=
  mkProgress (p_shards p ++ [Some s]) (p_old p) (p_seq p) nb (p_writes p).

(** Whether [Builder.Write] succeeds for the file of a name is an argument; every one does here. *)
Definition written (name : bytes) : bool := true.

(** One old shard.  Clean shards only count their bytes (the code counts them in a
    first loop; the sums are the same).  A shard whose new file cannot be written stays, and its
    bytes are added to those of the files that were read for the new one. *)
Definition rebuild_shard (wr : bytes → bool) (e : DiskEngine) (fs : FS) (dirtySnap : gmap bytes bool) (affected : gset Z)
    (p : progress) (js : Z * Shard) : option progress :=
  let '(si, s) := js in
  match mapped e s with
  | None => Some (keep_shard p s (p_bytes p))
  | Some m =>
      if decide (si ∈ affected) then
        '(b, nb) ← foldl (rebuild_file fs dirtySnap m) (Some (NewBuilder (InlineKB (cfg e)), p_bytes p))
                     (seq 0 (Z.to_nat (numFiles m)));
        if bool_decide (b_files b = []) then
          Some (mkProgress (p_shards p ++ [None]) (p_old p ++ [s_path s]) (p_seq p) nb (p_writes p))
        else
          '(out, r) ← write_shard (shardPath (p_seq p)) b;
          let writes := p_writes p ++ [(shardPath (p_seq p), out)] in
          if negb (wr (shardPath (p_seq p))) then
            fms ← Files m;
            Some (mkProgress (p_shards p ++ [Some s]) (p_old p) (p_seq p + 1)
                    (foldl (λ nb fm, nb + Size fm)%Z nb fms) (p_writes p))
          else
          match r with
          | inl _ => Some (mkProgress (p_shards p ++ [Some s]) (p_old p) (p_seq p + 1) nb writes)
          | inr ns => Some (mkProgress (p_shards p ++ [Some ns]) (p_old p ++ [s_path s])
                              (p_seq p + 1) nb writes)
          end
      else
        fms ← Files m;
        Some (keep_shard p s (foldl (λ nb fm, nb + Size fm)%Z (p_bytes p) fms))
  end.

Fixpoint rebuild_shards (wr : bytes → bool) (e : DiskEngine) (fs : FS) (dirtySnap : gmap bytes bool) (affected : gset Z)
    (p : progress) (ss : list (Z * Shard)) : option progress :=
  match ss with
  | [] => Some p
  | js :: ss => p ← rebuild_shard wr e fs dirtySnap affected p js; rebuild_shards wr e fs dirtySnap affected p ss
  end.

(** The shard of the new files; when it cannot be written there is none. *)
Definition build_new (wr : bytes → bool) (e : DiskEngine) (fs : FS) (newFiles : list BuildFile) (p : progress)
  : option progress :=
  if bool_decide (newFiles = []) then Some p
  else
    let '(b, _, nb) := foldl (add_file fs) (NewBuilder (InlineKB (cfg e)), 0%Z, p_bytes p)
                         (merge_sort rel_le newFiles) in
    if bool_decide (b_files b = []) then
      Some (mkProgress (p_shards p) (p_old p) (p_seq p) nb (p_writes p))
    else
      '(out, r) ← write_shard (shardPath (p_seq p)) b;
      if negb (wr (shardPath (p_seq p))) then
        Some (mkProgress (p_shards p) (p_old p) (p_seq p + 1) nb (p_writes p))
      else
      Some (mkProgress (p_shards p ++ match r with inr ns => [Some ns] | inl _ => [] end)
              (p_old p) (p_seq p + 1) nb (p_writes p ++ [(shardPath (p_seq p), out)])).

(** ** The cycle *)

Definition min_le (a b : Shard) : Prop := bytes_le (pathMin a) (pathMin b).
#[export] Instance min_le_dec : RelDecision min_le.
Proof. intros a b. unfold min_le. apply _. Defined.

(** [cleanPending]: files that cannot be removed stay pending. *)
Definition cleanPending (idx : gmap bytes bytes) (pending : list bytes) : gmap bytes bytes * list bytes :=
  foldl (λ (st : gmap bytes bytes * list bytes) p,
           if decide (is_Some (st.1 !! p)) then (delete p st.1, st.2) else (st.1, st.2 ++ [p]))
    (idx, []) pending.

(** Clearing the processed entries: those not deferred and unchanged since the copy. *)
Definition clear_dirty (dirtySnap : gmap bytes bool) (deferred : list bytes) (d : gmap bytes bool)
  : gmap bytes bool :=
  foldl (λ d p,
    if decide (p ∈ deferred) then d
    else if bool_decide (d !! p = dirtySnap !! p) then delete p d else d) d (range dirtySnap).*1.

(** The first half of [rebuild]: the deferred paths, and the shards once they are written. *)
Definition rebuild_build (wr : bytes → bool) (e : DiskEngine) (fs : FS) : option (list bytes * progress) :=
  let cur := snapshot e in
  '(affected, deferred, newFiles) ← plan fs cur (RebuildThreshold (cfg e)) (dirty e);
  p ← rebuild_shards wr e fs (dirty e) affected (mkProgress [] [] (seqNo cur) 0 [])
        (imap (λ i s, (Z.of_nat i, s)) (shards cur));
  p ← build_new wr e fs newFiles p;
  Some (deferred, p).

(** The shards of the new snapshot, in path order. *)
Definition compacted (p : progress) : list Shard := merge_sort min_le (omap id (p_shards p)).

Definition put_files (writes : list (bytes * bytes)) (idx : gmap bytes bytes) : gmap bytes bytes :=
  foldl (λ idx nd, <[nd.1 := nd.2]> idx) idx writes.

(** [rebuild]; [during] are the marks (path and [deleted] flag) made while it runs, [wr] and [mf] say
    whether the shards and the manifest can be written. *)
Definition rebuild_io (wr : bytes → bool) (mf : bool) (e : DiskEngine) (fs : FS) (during : list (bytes * bool)) : option DiskEngine :=
  if bool_decide (dirty e = ∅) then
    Some (set_dirty e (foldl (λ d pd, <[pd.1 := pd.2]> d) (dirty e) during))
  else
    '(deferred, p) ← rebuild_build wr e fs;
    let nf := foldl (λ n s, n + numFiles s)%Z 0%Z (compacted p) in
    let '(idx, remaining) := cleanPending (put_files (p_writes p) (idx_files e)) (pending e) in
    let d := foldl (λ d pd, <[pd.1 := pd.2]> d) (dirty e) during in
    Some (mkEngine (cfg e) (mkSnap (compacted p) (p_seq p)) nf (p_bytes p)
            (clear_dirty (dirty e) deferred d) (remaining ++ p_old p) idx
            (if mf then Some (ManifestFromShards (compacted p) (p_seq p)) else manifest e)).

(** A cycle in which every file can be written. *)
Definition rebuild : DiskEngine → FS → list (bytes * bool) → option DiskEngine := rebuild_io written true.
End Rebuild.
