(* ===== verification/EngineSearch.v ===== *)
(** * The disk engine, queries: internal/shard/engine.go

    [Search] runs the shards in parallel jobs, each into a slot of its own, merges
    the slots in shard order, then scans the dirty files from disk.  [Defs],
    [FilesContaining], [Meta] and [Paths] walk the shards in turn. *)

From S2P Require Import Prelude GoBytes Trigram Text Lines Regexp Literal Matcher Symbol Index.
From S2P Require Import IndexSearch Codec Shard Engine Scan.

(** [re.String()] *)
Class RegexpString `{RegexpEngine} := { re_String : Regex → bytes }.

(** [shardResult] *)
Record shardResult := mkSR { sr_matches : list Match; sr_counts : gmap bytes nat }.

Definition empty_result : shardResult := mkSR [] ∅.

Section Search.
Context `{MapOrder} `{RegexpEngine}.

(** The matcher of a search: the expression's, with the literal of the options. *)
Definition search_matcher `{RS : !RegexpString} (re : Regex) (opts : SearchOpts) : Matcher :=
  let mat := default zeroMatcher (MatcherFor (re_String re) false false) in
  if bool_decide (o_PlainLiteral opts ≠ []) then
    mkMatcher (Some re) (o_PlainLiteral opts) (o_FoldCase opts) (rareByte mat) (hasRare mat)
  else mat.

(** One candidate of a shard. *)
Definition search_file (fs : FS) (dirtySnap : gmap bytes bool) (mat : Matcher) (opts : SearchOpts)
    (s : Shard) (sr : shardResult) (id : Z) : option shardResult :=
  fm ← File s id;
  if bool_decide (is_Some (dirtySnap !! Path fm)) then Some sr
  else if (0 <? o_MaxFileSize opts)%Z && (o_MaxFileSize opts <? Size fm)%Z then Some sr
  else if negb (path_ok (o_PathMatch opts) (Path fm)) then Some sr
  else
    inline ← FileContent s id;
    matches ← verifyFile (Path fm) mat opts (ReadFile fs (Path fm)) inline;
    if bool_decide (matches = []) then Some sr
    else Some (mkSR (if o_FilesOnly opts then sr_matches sr else sr_matches sr ++ matches)
                 (<[Path fm := length matches]> (sr_counts sr))).

Fixpoint search_files (fs : FS) (dirtySnap : gmap bytes bool) (mat : Matcher) (opts : SearchOpts)
    (s : Shard) (ids : list Z) (sr : shardResult) : option shardResult :=
  match ids with
  | [] => Some sr
  | id :: ids =>
      sr ← search_file fs dirtySnap mat opts s sr id;
      search_files fs dirtySnap mat opts s ids sr
  end.

(** The job of a shard: an empty slot when it is skipped. *)
Definition search_job (e : DiskEngine) (fs : FS) (dirtySnap : gmap bytes bool) (mat : Matcher)
    (opts : SearchOpts) (s : Shard) : option shardResult :=
  has ← HasTrigrams s (o_Literal opts);
  if negb has then Some empty_result
  else
    match mapped e s with
    | None => Some empty_result
    | Some m =>
        ids ← Candidates m (o_Literal opts);
        search_files fs dirtySnap mat opts m ids empty_result
    end.

(** The workers take the jobs from a channel and finish them in some order: [order]
    lists the shards as their jobs complete, each writing its own slot. *)
Fixpoint run_jobs (job : Shard → option shardResult) (ss : list Shard) (order : list nat)
    (slots : list shardResult) : option (list shardResult) :=
  match order with
  | [] => Some slots
  | i :: order =>
      s ← ss !! i;
      sr ← job s;
      run_jobs job ss order (<[i := sr]> slots)
  end.

(** The merge in shard order; the result says whether the limit was reached. *)
Fixpoint merge_slots (opts : SearchOpts) (slots : list shardResult) (res : SearchResult)
  : SearchResult * bool :=
  match slots with
  | [] => (res, false)
  | sr :: slots =>
      let counts := sr_counts sr ∪ FileCounts res in
      let ms := if o_FilesOnly opts then Matches res else Matches res ++ sr_matches sr in
      if (0 <? o_Limit opts)%Z && (o_Limit opts <=? len ms)%Z
      then (mkResult (take (Z.to_nat (o_Limit opts)) ms) counts true, true)
      else merge_slots opts slots (mkResult ms counts (Truncated res))
  end.

(** The scan of the dirty files. *)
Fixpoint search_dirty (fs : FS) (mat : Matcher) (opts : SearchOpts) (paths : list bytes)
    (res : SearchResult) : option SearchResult :=
  match paths with
  | [] => Some res
  | rel :: paths =>
      if negb (path_ok (o_PathMatch opts) rel) then search_dirty fs mat opts paths res
      else
        match Stat fs rel with
        | None => search_dirty fs mat opts paths res
        | Some (size, _) =>
            if (0 <? o_MaxFileSize opts)%Z && (o_MaxFileSize opts <? size)%Z
            then search_dirty fs mat opts paths res
            else
              matches ← verifyFile rel mat opts (ReadFile fs rel) None;
              let res :=
                if bool_decide (matches = []) then res
                else mkResult (if o_FilesOnly opts then Matches res else Matches res ++ matches)
                       (<[rel := length matches]> (FileCounts res)) (Truncated res) in
              if (0 <? o_Limit opts)%Z && (o_Limit opts <=? len (Matches res))%Z
              then Some (mkResult (Matches res) (FileCounts res) true)
              else search_dirty fs mat opts paths res
        end
  end.

(** The dirty paths that are not deleted, sorted. *)
Definition dirty_paths (d : gmap bytes bool) : list bytes :=
  merge_sort bytes_le (filter (λ pd, pd.2 = false) (range d)).*1.

(** [Search], with the completion order of the jobs. *)
Definition Search `{RS : !RegexpString} (e : DiskEngine) (fs : FS) (re : Regex) (opts : SearchOpts)
    (order : list nat) : option SearchResult :=
  let dirtySnap := dirty e in
  let mat := search_matcher re opts in
  let ss := shards (snapshot e) in
  slots ← run_jobs (search_job e fs dirtySnap mat opts) ss order (replicate (length ss) empty_result);
  let '(res, done) := merge_slots opts slots (mkResult [] ∅ false) in
  if done then Some res else search_dirty fs mat opts (dirty_paths dirtySnap) res.

(** ** Symbols and files *)

(** [readLine] *)
Definition readLine (fs : FS) (rel : bytes) (line : Z) : bytes :=
  match ReadFile fs rel with Some c => LineText c line | None => [] end.

Context `{SymbolExtractor}.

(** The hits of one shard file. *)
Definition shard_file_hits `{UnicodeCase} (fs : FS) (name : bytes) (fold : bool)
    (pathMatch : option (bytes → bool)) (s : Shard) (i : nat) : option (list DefHit) :=
  fm ← File s (Z.of_nat i);
  if negb (path_ok pathMatch (Path fm)) then Some []
  else
    ds ← FileDefs s i;
    Some (map (λ d, mkHit (Path fm) d (readLine fs (Path fm) (d_Line d)))
            (filter (λ d, def_named name fold d = true) ds)).

(** The hits of a file read from disk. *)
Definition disk_file_hits `{UnicodeCase} (fs : FS) (name : bytes) (fold : bool) (path : bytes)
  : list DefHit :=
  match c ← ReadFile fs path; text_of c with
  | None => []
  | Some c =>
      map (λ d, mkHit path d (LineText c (d_Line d)))
        (filter (λ d, def_named name fold d = true) (Extract path c))
  end.

(** [Defs] *)
Definition Defs `{UnicodeCase} (e : DiskEngine) (fs : FS) (name : bytes) (fold : bool)
    (pathMatch : option (bytes → bool)) : option (list DefHit) :=
  hits ← mapM (λ s, match mapped e s with
                    | None => Some []
                    | Some m => hs ← mapM (shard_file_hits fs name fold pathMatch m)
                                       (seq 0 (Z.to_nat (numFiles m)));
                                Some (concat hs)
                    end) (shards (snapshot e));
  let dirtyPaths := (filter (λ pd, pd.2 = false ∧ path_ok pathMatch pd.1 = true) (range (dirty e))).*1 in
  Some (concat hits ++ concat (map (disk_file_hits fs name fold) dirtyPaths)).

(** [FileDefs]: the inner [None] is [(nil, false)]. *)
Definition FileDefs (fs : FS) (path : bytes) : option (list DefHit) :=
  content ← ReadFile fs path;
  c ← text_of content;
  Some (map (λ d, mkHit path d (LineText c (d_Line d))) (Extract path c)).

(** One candidate of [FilesContaining]; [seen] are the paths met so far. *)
Definition contain_step (fs : FS) (needle : bytes) (pathMatch : option (bytes → bool)) (s : Shard)
    (st : option (list (bytes * bytes) * gset bytes)) (id : Z)
  : option (list (bytes * bytes) * gset bytes) :=
  '(out, seen) ← st;
  fm ← File s id;
  if bool_decide (Path fm ∈ seen) || negb (path_ok pathMatch (Path fm)) then Some (out, seen)
  else
    Some (match ReadFile fs (Path fm) with
          | Some c => if contains c needle then out ++ [(Path fm, c)] else out
          | None => out
          end, {[Path fm]} ∪ seen).

Fixpoint contain_shards `{UnicodeCase} (e : DiskEngine) (fs : FS) (lit : bytes)
    (pathMatch : option (bytes → bool)) (ss : list Shard) (st : list (bytes * bytes) * gset bytes)
  : option (list (bytes * bytes) * gset bytes) :=
  match ss with
  | [] => Some st
  | s :: ss =>
      match mapped e s with
      | None => contain_shards e fs lit pathMatch ss st
      | Some m =>
          ids ← Candidates m (ToLower lit);
          st ← foldl (contain_step fs lit pathMatch m) (Some st) ids;
          contain_shards e fs lit pathMatch ss st
      end
  end.

(** [FilesContaining] *)
Definition FilesContaining `{UnicodeCase} (e : DiskEngine) (fs : FS) (lit : bytes)
    (pathMatch : option (bytes → bool)) : option (list (bytes * bytes)) :=
  '(out, seen) ← contain_shards e fs lit pathMatch (shards (snapshot e)) ([], ∅);
  let dirtyPaths := (filter (λ pd, pd.2 = false ∧ pd.1 ∉ seen) (range (dirty e))).*1 in
  Some (out ++ omap (λ p, if negb (path_ok pathMatch p) then None
                          else c ← ReadFile fs p; if contains c lit then Some (p, c) else None)
                 dirtyPaths).

(** ** Metadata *)

(** The loop of [Meta]. *)
Fixpoint find_meta (s : Shard) (path : bytes) (fids : list nat) : option (option FileMeta) :=
  match fids with
  | [] => Some None
  | i :: fids =>
      fm ← File s (Z.of_nat i);
      if bool_decide (Path fm = path) then Some (Some fm) else find_meta s path fids
  end.

(** [Meta]: the inner [None] is [(FileMeta{}, false)]. *)
Definition Meta (e : DiskEngine) (path : bytes) : option (option FileMeta) :=
  si ← shardForPath (snapshot e) path;
  match si with
  | None => Some None
  | Some si =>
      s ← idx (shards (snapshot e)) si;
      match mapped e s with
      | None => Some None
      | Some m => find_meta m path (seq 0 (Z.to_nat (numFiles m)))
      end
  end.

(** [Paths] *)
Definition Paths (e : DiskEngine) : option (list bytes) :=
  ps ← mapM (λ s, match mapped e s with
                  | None => Some []
                  | Some m => fms ← Files m; Some (map Path fms)
                  end) (shards (snapshot e));
  Some (concat ps).

(** [NumFiles], [TotalBytes], [NumShards] and [DirtyCount] *)
Definition NumFiles (e : DiskEngine) : Z := totalFiles e.
Definition TotalBytes (e : DiskEngine) : Z := totalBytes e.
Definition NumShards (e : DiskEngine) : Z := len (shards (snapshot e)).
Definition DirtyCount (e : DiskEngine) : nat := size (dirty e).
End Search.
