(* ===== verification/EngineSpec.v ===== *)
(** * Theorems on the disk engine: batches, shard lookup, scheduling

    Batches partition the files in path order, the binary search over the ordered
    shards finds the shard of a path, and a search does not depend on the order in
    which its parallel jobs finish. *)

From S2P Require Import Prelude GoBytes Trigram Text Lines Regexp Literal Matcher Symbol Index.
From S2P Require Import IndexSearch Codec Shard ShardLayout Engine Scan EngineSearch.

(** ** Batches *)

Definition batch_bytes (b : list BuildFile) : Z := foldr (λ f n, (bf_Size f + n)%Z) 0%Z b.

Lemma batch_bytes_app a b : batch_bytes (a ++ b) = (batch_bytes a + batch_bytes b)%Z.
Proof. unfold batch_bytes. induction a as [|f a IH]; simpl; [done|]. lia. Qed.

(** What the loop keeps: every finished batch is non-empty and reaches the target. *)
Definition full_batch (sc : ShardSizeConfig) (b : list BuildFile) : Prop :=
  b ≠ [] ∧ (TargetBytes sc ≤ batch_bytes b)%Z.

Lemma group_loop sc files batches cur :
  Forall (full_batch sc) batches →
  ∃ batches' cur', foldl (group_step sc) (batches, cur, batch_bytes cur) files
      = (batches', cur', batch_bytes cur') ∧
    Forall (full_batch sc) batches' ∧ concat batches' ++ cur' = concat batches ++ cur ++ files.
Proof.
  revert batches cur. induction files as [|f files IH]; intros batches cur Hb; simpl.
  { exists batches, cur. by rewrite app_nil_r. }
  assert (batch_bytes cur + bf_Size f = batch_bytes (cur ++ [f]))%Z as ->
    by (rewrite batch_bytes_app; simpl; lia).
  destruct (Z.leb_spec (TargetBytes sc) (batch_bytes (cur ++ [f]))).
  - destruct (IH (batches ++ [cur ++ [f]]) []) as (bs' & cur' & H1 & H2 & H3).
    { apply Forall_app. split; [done|]. constructor; [|constructor]. split; [by destruct cur|done]. }
    exists bs', cur'. split_and!; [done..|]. rewrite H3, concat_app. simpl.
    rewrite app_nil_r. by rewrite <-!app_assoc.
  - destruct (IH batches (cur ++ [f]) Hb) as (bs' & cur' & H1 & H2 & H3).
    exists bs', cur'. split_and!; [done..|]. rewrite H3. by rewrite <-!app_assoc.
Qed.

Lemma append_last_spec batches cur :
  batches ≠ [] → ∃ init b, batches = init ++ [b] ∧ append_last batches cur = init ++ [b ++ cur].
Proof.
  intros Hne. destruct batches as [|b init] using rev_ind; [done|]. exists init, b. split; [done|].
  unfold append_last. rewrite last_snoc, length_app. simpl. by rewrite Nat.add_sub, take_app_length.
Qed.

Lemma GroupByDirBoundary_spec files sc :
  concat (GroupByDirBoundary files sc) = merge_sort rel_le files ∧
  Forall (λ b, b ≠ []) (GroupByDirBoundary files sc) ∧
  ∀ init b, GroupByDirBoundary files sc = init ++ [b] →
    Forall (λ b, TargetBytes sc ≤ batch_bytes b)%Z init ∧
    (init ≠ [] → Forall (λ f, 0 ≤ bf_Size f)%Z files →
     (Z.min (TargetBytes sc) (MinBytes sc) ≤ batch_bytes b)%Z).
Proof.
  unfold GroupByDirBoundary.
  destruct (group_loop sc (merge_sort rel_le files) [] []) as (bs & cur & Hf & Hb & Hc); [constructor|].
  change (batch_bytes []) with 0%Z in Hf. rewrite Hf. simpl in Hc.
  assert (Forall (λ f, 0 ≤ bf_Size f)%Z files → (0 ≤ batch_bytes cur)%Z) as Hpos.
  { rewrite <-(merge_sort_Permutation rel_le files), <-Hc. intros [_ Hp]%Forall_app. clear -Hp.
    induction Hp; simpl; lia. }
  case_bool_decide as Hcur.
  { subst cur. rewrite app_nil_r in Hc. split_and!; [done| |].
    - eapply Forall_impl; [exact Hb|]. by intros b [? _].
    - intros init b ->. apply Forall_app in Hb as [Hi [[_ Hb] _]%Forall_cons]. split; [|lia].
      eapply Forall_impl; [exact Hi|]. by intros ? [_ ?]. }
  destruct (bool_decide (bs ≠ []) && (batch_bytes cur <? MinBytes sc)%Z) eqn:E.
  - apply andb_true_iff in E as [Hne%bool_decide_eq_true Hlt].
    destruct (append_last_spec bs cur Hne) as (init & b & -> & ->).
    apply Forall_app in Hb as [Hi [[Hbn Hb] _]%Forall_cons]. split_and!.
    + rewrite <-Hc, !concat_app. simpl. rewrite !app_nil_r. by rewrite <-app_assoc.
    + apply Forall_app. split; [eapply Forall_impl; [exact Hi|]; by intros ? [? _]|].
      constructor; [|constructor]. by destruct b.
    + intros init' b' [<- [= <-]]%app_inj_2; [|done]. split.
      * eapply Forall_impl; [exact Hi|]. by intros ? [_ ?].
      * intros _ Hp. specialize (Hpos Hp). rewrite batch_bytes_app. lia.
  - split_and!.
    + by rewrite <-Hc, concat_app, concat_cons, app_nil_r.
    + apply Forall_app. split; [eapply Forall_impl; [exact Hb|]; by intros ? [? _]|].
      by constructor.
    + intros init' b' [<- [= <-]]%app_inj_2; [|done]. split.
      * eapply Forall_impl; [exact Hb|]. by intros ? [_ ?].
      * intros Hne _. rewrite bool_decide_eq_true_2 in E by done. cbn [andb] in E.
        apply Z.ltb_ge in E. lia.
Qed.

(** ** Shard lookup *)

(** Shards in order of their path ranges, which do not overlap. *)
Definition ordered (ss : list Shard) : Prop :=
  Forall (λ s, bytes_le (pathMin s) (pathMax s)) ss ∧
  StronglySorted (λ a b, bytes_lt (pathMax a) (pathMin b)) ss.

Lemma bytes_le_lt a b c : bytes_le a b → bytes_lt b c → bytes_lt a c.
Proof. rewrite bytes_le_lteq. intros [H| ->]; [|done]. intros. by etrans. Qed.
Lemma bytes_lt_le a b c : bytes_lt a b → bytes_le b c → bytes_lt a c.
Proof. rewrite bytes_le_lteq. intros ? [H| ->]; [|done]. by etrans. Qed.

Lemma ContainsPath_spec s p :
  ContainsPath s p = true ↔ bytes_le (pathMin s) p ∧ bytes_le p (pathMax s).
Proof. unfold ContainsPath. by rewrite andb_true_iff, !bytes_leb_spec. Qed.

Lemma ordered_lookup ss i j a b :
  ordered ss → i < j → ss !! i = Some a → ss !! j = Some b → bytes_lt (pathMax a) (pathMin b).
Proof.
  intros [_ Hs]. revert i j. induction Hs as [|s ss Hs IH Hall]; intros i j Hij Hi Hj; [done|].
  destruct i as [|i], j as [|j]; [lia| |lia|]; cbn in Hi, Hj.
  - injection Hi as <-. rewrite Forall_forall in Hall. by eapply Hall, list_elem_of_lookup_2.
  - apply (IH i j); [lia|done|done].
Qed.

Lemma ordered_mins ss i j a b :
  ordered ss → i ≤ j → ss !! i = Some a → ss !! j = Some b → bytes_le (pathMin a) (pathMin b).
Proof.
  intros Ho Hij Ha Hb. destruct (decide (i = j)) as [->|]; [by simplify_eq|].
  pose proof (ordered_lookup ss i j a b Ho ltac:(lia) Ha Hb) as Hlt.
  destruct Ho as [Hm _]. rewrite Forall_lookup in Hm. specialize (Hm i a Ha).
  apply bytes_le_lteq. left. by eapply bytes_le_lt.
Qed.

Lemma shardForPath_spec snap path :
  ordered (shards snap) → (len (shards snap) < 2 ^ 63)%Z →
  ∃ r, shardForPath snap path = Some r ∧
    ∀ i, r = Some (Z.of_nat i) ↔ ∃ s, shards snap !! i = Some s ∧ ContainsPath s path = true.
Proof.
  intros Ho Hlen. set (ss := shards snap) in *. unfold shardForPath. fold ss.
  destruct (sort_Search_spec (len ss) (λ i, s ← idx ss i; Some (bytes_ltb path (pathMin s)))
    (λ i, ∃ s, ss !! Z.to_nat i = Some s ∧ bytes_lt path (pathMin s))) as (r & -> & Hr & Hlt & Hge);
    [|unfold len in *; lia|].
  { split.
    - intros i Hi. destruct (lookup_lt_is_Some_2 ss (Z.to_nat i)) as [s Hs]; [unfold len in Hi; lia|].
      exists (bytes_ltb path (pathMin s)). rewrite <-(Z2Nat.id i) at 1 by lia.
      rewrite idx_nat, Hs. split; [done|]. rewrite bytes_ltb_spec. naive_solver.
    - intros i j Hi Hij Hj (a & Ha & Hpa).
      destruct (lookup_lt_is_Some_2 ss (Z.to_nat j)) as [b Hb]; [unfold len in Hj; lia|].
      exists b. split; [done|]. eapply bytes_lt_le; [exact Hpa|].
      assert (Z.to_nat i ≤ Z.to_nat j) by lia. by eapply (ordered_mins ss). }
  cbn [mbind option_bind].
  assert (∀ i s, ss !! i = Some s → ContainsPath s path = true → Z.of_nat i = (r - 1)%Z) as Hin.
  { intros i s Hs [Hmin Hmax]%ContainsPath_spec. pose proof (lookup_lt_Some _ _ _ Hs) as Hil.
    destruct (decide (Z.of_nat i < r)%Z) as [Hir|Hir].
    - destruct (decide (Z.of_nat i = r - 1)%Z) as [|Hne]; [done|exfalso].
      apply (Hlt (Z.of_nat (S i))); [lia|]. rewrite Nat2Z.id.
      destruct (lookup_lt_is_Some_2 ss (S i)) as [t Ht]; [unfold len in Hr; lia|].
      exists t. split; [done|]. eapply bytes_le_lt; [exact Hmax|]. apply (ordered_lookup ss i (S i)); [done|lia|done|done].
    - exfalso. destruct (Hge ltac:(unfold len; lia)) as (t & Ht & Hpt).
      assert (Z.to_nat r ≤ i) as Hri by lia.
      pose proof (ordered_mins ss _ _ _ _ Ho Hri Ht Hs) as Hle.
      apply (StrictOrder_Irreflexive path). eapply bytes_lt_le; [exact Hpt|].
      etrans; [exact Hle|exact Hmin]. }
  destruct (Z.ltb_spec (r - 1) 0) as [Hneg|Hpos].
  - eexists. split; [done|]. intros i. split; [done|]. intros (s & Hs & Hc).
    specialize (Hin i s Hs Hc). lia.
  - destruct (lookup_lt_is_Some_2 ss (Z.to_nat (r - 1))) as [s Hs]; [unfold len in Hr; lia|].
    assert (idx ss (r - 1) = Some s) as ->.
    { rewrite <-(Z2Nat.id (r - 1)) by lia. by rewrite idx_nat. }
    cbn [mbind option_bind].
    eexists. split; [done|]. intros i. destruct (ContainsPath s path) eqn:Ec.
    + split.
      * intros [= Hi]. exists s. split; [|done]. rewrite <-Hs. f_equal. lia.
      * intros (t & Ht & Hct). f_equal. symmetry. by apply (Hin i t).
    + split; [done|]. intros (t & Ht & Hct). specialize (Hin i t Ht Hct).
      assert (i = Z.to_nat (r - 1)) as -> by lia. naive_solver congruence.
Qed.

Lemma has_prefix_le p prefix : has_prefix p prefix = true → bytes_le prefix p.
Proof.
  intros Hp. apply has_prefix_spec in Hp as [r ->]. unfold bytes_le.
  induction prefix as [|c prefix IH]; simpl; [by destruct r|]. by rewrite Z.compare_refl.
Qed.

(** A path with the prefix at or after a longer bound has it as a prefix too. *)
Lemma prefix_between prefix p m :
  has_prefix p prefix = true → bytes_le m p → ¬ bytes_le m prefix → has_prefix m prefix = true.
Proof.
  intros Hp. apply has_prefix_spec in Hp as [r ->]. unfold bytes_le. revert m.
  induction prefix as [|c prefix IH]; intros m Hm Hn; [by destruct m|].
  destruct m as [|d m]; simpl in *; [done|].
  destruct (Z.compare_spec (b2z d) (b2z c)) as [E|?|?]; try done.
  apply b2z_inj in E as ->. rewrite bool_decide_eq_true_2 by done. by apply IH.
Qed.

Lemma shardsForPrefix_complete snap prefix i s p :
  ordered (shards snap) → shards snap !! i = Some s → ContainsPath s p = true →
  has_prefix p prefix = true → Z.of_nat i ∈ shardsForPrefix snap prefix.
Proof.
  intros Ho Hs Hc Hp. unfold shardsForPrefix.
  enough (∀ ss k i, ordered ss → ss !! i = Some s → (k + Z.of_nat i)%Z ∈ shardsForPrefix_loop prefix k ss)
    as Hgen by (apply (Hgen _ 0%Z); done).
  clear snap i Ho Hs. apply ContainsPath_spec in Hc as [Hmin Hmax].
  induction ss as [|t ss IH]; intros k i Ho Hi; [done|]. cbn [shardsForPrefix_loop].
  assert (ordered ss) as Ho'.
  { destruct Ho as [[_ ?]%Forall_cons Hst]. split; [done|]. by inversion Hst. }
  assert (bytes_le (pathMin t) p) as Htp.
  { etrans; [|exact Hmin]. by apply (ordered_mins (t :: ss) 0 i t s Ho ltac:(lia)). }
  assert (∀ j, i = S j → (k + Z.of_nat i)%Z ∈ shardsForPrefix_loop prefix (k + 1) ss) as Hrest.
  { intros j ->. replace (k + Z.of_nat (S j))%Z with (k + 1 + Z.of_nat j)%Z by lia. by apply IH. }
  destruct (bytes_ltb (pathMax t) prefix) eqn:E1.
  - apply bytes_ltb_spec in E1. destruct i as [|j]; [|by eapply Hrest].
    injection Hi as ->. exfalso. apply (StrictOrder_Irreflexive prefix).
    eapply bytes_le_lt; [|exact E1]. etrans; [by apply has_prefix_le|exact Hmax].
  - destruct (has_prefix (pathMin t) prefix || bytes_leb (pathMin t) prefix) eqn:E2.
    + destruct i as [|j]; [rewrite Z.add_0_r; by left|]. right. by eapply Hrest.
    + exfalso. apply orb_false_iff in E2 as [E2 E3].
      rewrite (prefix_between prefix p (pathMin t)) in E2; [done|done|done|].
      rewrite <-bytes_leb_spec. congruence.
Qed.

(** ** Jobs *)

Section Jobs.
Context (job : Shard → option shardResult) (ss : list Shard).

(** The slots once the jobs of [order] are done. *)
Definition slot_after (order : list nat) (slots : list shardResult) (i : nat) : option shardResult :=
  if decide (i ∈ order) then s ← ss !! i; job s else slots !! i.

Lemma run_jobs_Some order slots slots' :
  NoDup order → length slots = length ss → run_jobs job ss order slots = Some slots' →
  length slots' = length ss ∧ (∀ i, i < length ss → slots' !! i = slot_after order slots i) ∧
  ∀ i, i ∈ order → ∃ s sr, ss !! i = Some s ∧ job s = Some sr.
Proof.
  revert slots. induction order as [|j order IH]; intros slots Hnd Hl; cbn [run_jobs].
  { intros [= <-]. split_and!; [done| |set_solver]. intros i _. unfold slot_after.
    by rewrite decide_False by set_solver. }
  apply NoDup_cons in Hnd as [Hj Hnd].
  destruct (ss !! j) as [s|] eqn:Es; [|done]. cbn [mbind option_bind].
  destruct (job s) as [sr|] eqn:Ej; [|done]. cbn [mbind option_bind]. intros Hr.
  destruct (IH (<[j := sr]> slots) Hnd) as (H1 & H2 & H3); [by rewrite length_insert|done|].
  split_and!; [done| |].
  - intros i Hi. rewrite H2 by done. unfold slot_after.
    destruct (decide (i = j)) as [->|Hne].
    + rewrite decide_False, decide_True by set_solver.
      rewrite Es. cbn [mbind option_bind]. rewrite Ej. apply list_lookup_insert_eq. lia.
    + destruct (decide (i ∈ order)).
      * by rewrite decide_True by set_solver.
      * rewrite decide_False by set_solver. by rewrite list_lookup_insert_ne.
  - intros i [->|Hi]%elem_of_cons; [by exists s, sr|by apply H3].
Qed.

Lemma run_jobs_is_Some order slots :
  (∀ i, i ∈ order → ∃ s sr, ss !! i = Some s ∧ job s = Some sr) →
  is_Some (run_jobs job ss order slots).
Proof.
  revert slots. induction order as [|j order IH]; intros slots Hj; [by eexists|].
  destruct (Hj j) as (s & sr & Hs & Hsr); [by left|]. cbn [run_jobs]. rewrite Hs.
  cbn [mbind option_bind]. rewrite Hsr. cbn [mbind option_bind]. apply IH.
  intros i Hi. apply Hj. by right.
Qed.

Lemma run_jobs_schedule o1 o2 slots :
  NoDup o1 → o1 ≡ₚ o2 → length slots = length ss →
  run_jobs job ss o1 slots = run_jobs job ss o2 slots.
Proof.
  intros Hnd Hp Hl. assert (NoDup o2) as Hnd2 by by rewrite <-Hp.
  assert (∀ o o', NoDup o → NoDup o' → o ≡ₚ o' → ∀ r, run_jobs job ss o slots = Some r →
            run_jobs job ss o' slots = Some r) as Hdir.
  { intros o o' Hno Hno' Hpo r Hr.
    destruct (run_jobs_Some o slots r Hno Hl Hr) as (H1 & H2 & H3).
    destruct (run_jobs_is_Some o' slots) as [r' Hr'].
    { intros i Hi. apply H3. by rewrite Hpo. }
    rewrite Hr'. f_equal.
    destruct (run_jobs_Some o' slots r' Hno' Hl Hr') as (H1' & H2' & _).
    apply list_eq. intros i. destruct (decide (i < length ss)) as [Hi|Hi].
    - rewrite H2, H2' by done. unfold slot_after.
      destruct (decide (i ∈ o)) as [Ho|Ho], (decide (i ∈ o')) as [Ho'|Ho']; try done;
        rewrite Hpo in Ho; done.
    - rewrite !lookup_ge_None_2 by lia. done. }
  destruct (run_jobs job ss o1 slots) as [r|] eqn:E1.
  - symmetry. by eapply (Hdir o1 o2).
  - destruct (run_jobs job ss o2 slots) as [r|] eqn:E2; [|done].
    rewrite <-E1. by eapply (Hdir o2 o1).
Qed.

(** In any order: the slots are the jobs' results in shard order. *)
Lemma run_jobs_all order srs :
  order ≡ₚ seq 0 (length ss) → mapM job ss = Some srs →
  run_jobs job ss order (replicate (length ss) empty_result) = Some srs.
Proof.
  intros Hp Hm. apply mapM_Some_1 in Hm. pose proof (Forall2_length _ _ _ Hm) as Hlen.
  assert (NoDup order) as Hnd by (rewrite Hp; apply NoDup_seq).
  assert (∀ i, i ∈ order → ∃ s sr, ss !! i = Some s ∧ job s = Some sr) as Hok.
  { intros i Hi. rewrite Hp, elem_of_seq in Hi.
    destruct (lookup_lt_is_Some_2 ss i) as [s Hs]; [lia|].
    destruct (Forall2_lookup_l _ _ _ _ _ Hm Hs) as (sr & _ & Hsr). by exists s, sr. }
  destruct (run_jobs_is_Some order (replicate (length ss) empty_result) Hok) as [r Hr].
  rewrite Hr. f_equal.
  destruct (run_jobs_Some order (replicate (length ss) empty_result) r Hnd) as (H1 & H2 & _);
    [by rewrite length_replicate|done|].
  apply list_eq. intros i. destruct (decide (i < length ss)) as [Hi|Hi].
  - rewrite H2 by done. unfold slot_after.
    rewrite decide_True by (rewrite Hp, elem_of_seq; lia).
    destruct (lookup_lt_is_Some_2 ss i Hi) as [s Hs]. rewrite Hs. cbn [mbind option_bind].
    destruct (Forall2_lookup_l _ _ _ _ _ Hm Hs) as (sr & -> & ->). done.
  - rewrite !lookup_ge_None_2 by lia. done.
Qed.
End Jobs.

(** ** Properties *)

(** [GroupByDirBoundary] cuts the files sorted by path into non-empty batches and
    loses none: every batch but the last reaches the target, and the last one is
    not smaller than the minimum (or the target) when it is not alone. *)
Theorem GroupByDirBoundary_partition files sc :
  let batches := GroupByDirBoundary files sc in
  concat batches = merge_sort rel_le files ∧ Forall (λ b, b ≠ []) batches ∧
  ∀ init b, batches = init ++ [b] →
    Forall (λ b, TargetBytes sc ≤ batch_bytes b)%Z init ∧
    (init ≠ [] → Forall (λ f, 0 ≤ bf_Size f)%Z files →
     (Z.min (TargetBytes sc) (MinBytes sc) ≤ batch_bytes b)%Z).
Proof. apply GroupByDirBoundary_spec. Qed.

Lemma GroupByDirBoundary_partition_witness :
  let files := [mkBF (bs "c") 2 0; mkBF (bs "a") 7 0; mkBF (bs "b") 6 0] in
  GroupByDirBoundary files (mkSizes 10 5 0) = [[mkBF (bs "a") 7 0; mkBF (bs "b") 6 0; mkBF (bs "c") 2 0]] ∧
  concat (GroupByDirBoundary files (mkSizes 6 2 0)) = [mkBF (bs "a") 7 0; mkBF (bs "b") 6 0; mkBF (bs "c") 2 0] ∧
  (2 ≤ batch_bytes [mkBF (bs "c") 2 0])%Z.
Proof.
  intros files. split; [vm_compute; reflexivity|].
  destruct (GroupByDirBoundary_partition files (mkSizes 6 2 0)) as (Hc & _ & Hb).
  split; [rewrite Hc; vm_compute; reflexivity|].
  apply (proj2 (Hb [[mkBF (bs "a") 7 0]; [mkBF (bs "b") 6 0]] [mkBF (bs "c") 2 0]
    ltac:(vm_compute; reflexivity))); [discriminate|].
  repeat (constructor; [cbn; lia|]). constructor.
Defined.

(** The binary search finds the shard of a path: over shards in order of disjoint
    ranges [shardForPath] never panics and returns the index of the shard whose
    range holds the path, and none when there is no such shard. *)
Theorem shardForPath_finds snap path :
  ordered (shards snap) → (len (shards snap) < 2 ^ 63)%Z →
  ∃ r, shardForPath snap path = Some r ∧
    ∀ i, r = Some (Z.of_nat i) ↔ ∃ s, shards snap !! i = Some s ∧ ContainsPath s path = true.
Proof. apply shardForPath_spec. Qed.

(** A shard with a path range only. *)
Definition range_shard (a b : bytes) : Shard :=
  mkShard (bs "s.idx") 0 a b 0 0 0 0 0 0 0 0 0 [] [] 0.

Lemma shardForPath_finds_witness :
  let snap := mkSnap [range_shard (bs "a") (bs "c"); range_shard (bs "d/x") (bs "f")] 2 in
  shardForPath snap (bs "e") = Some (Some 1%Z) ∧ shardForPath snap (bs "ca") = Some None ∧
  ∃ r, shardForPath snap (bs "b") = Some r ∧ r = Some (Z.of_nat 0).
Proof.
  intros snap. split; [vm_compute; reflexivity|]. split; [vm_compute; reflexivity|].
  destruct (shardForPath_finds snap (bs "b")) as (r & Hr & Hi).
  - split; apply (bool_decide_unpack _); vm_compute; exact I.
  - vm_compute. reflexivity.
  - exists r. split; [exact Hr|]. apply Hi. exists (range_shard (bs "a") (bs "c")).
    split; [reflexivity|vm_compute; reflexivity].
Defined.
