(* ===== verification/EngineScan.v ===== *)
(** * A search of the disk engine is a scan

    The engine sees a shard through the interface [Serves]: the files it was built
    from, and candidates that lose nothing.  Against it, [Search] answers as a scan
    of the files of the shards that are not dirty, in order, then of the dirty
    files; [built_serves] discharges the interface for built shards. *)

From S2P Require Import Prelude GoBytes Trigram Text Lines Regexp Literal Matcher Symbol Index.
From S2P Require Import IndexSearch Codec Shard ShardLayout ShardRead ShardSpec Engine Scan.
From S2P Require Import EngineSearch EngineSpec.

(** ** The interface of a mapped shard *)

Class Serves (s : Shard) (kb : Z) (ins : list input) := {
  serves_num : numFiles s = len ins;
  serves_file i f : ins !! i = Some f → File s (Z.of_nat i) = Some (in_meta f);
  serves_content i f : ins !! i = Some f →
    FileContent s (Z.of_nat i) = Some
      (if bool_decide (in_content f = []) then None else inlined kb (in_content f));
  serves_defs i f : ins !! i = Some f → Shard.FileDefs s i = Some (in_defs f);
  serves_candidates lit : ∃ ids, Candidates s lit = Some ids ∧ increasing ids ∧
    ∀ id, id ∈ ids ↔ ∃ n f, id = Z.of_nat n ∧ ins !! n = Some f ∧
      (3 ≤ length lit → ∀ k, has_tri lit k → has_tri (in_content f) k);
  serves_has lit : ∃ r, HasTrigrams s lit = Some r ∧ (r = false → Candidates s lit = Some []);
}.

Lemma built_candidates `{MapOrder} kb ins b s lit :
  built_ok kb ins b s →
  ∃ ids, Candidates s lit = Some ids ∧ increasing ids ∧
    ∀ id, id ∈ ids ↔ ∃ n f, id = Z.of_nat n ∧ ins !! n = Some f ∧
      (3 ≤ length lit → ∀ k, has_tri lit k → has_tri (in_content f) k).
Proof.
  intros Hb. pose proof Hb as [Hfits Hlo Htris _ [_ Ht _] _ _ _].
  destruct (ShardSpec.Candidates_spec _ Hfits Htris s Hlo lit) as (ids & Hc & Hi & Hids).
  exists ids. split_and!; [done..|]. intros id. rewrite Hids, (built_len _ _ _ _ Hb). split.
  - intros [Hr Hk]. destruct (lookup_lt_is_Some_2 ins (Z.to_nat id)) as [f Hf]; [unfold len in Hr; lia|].
    exists (Z.to_nat id), f. split_and!; [lia|done|]. intros Hlong k Hkk.
    destruct (proj1 (Ht k id) (Hk Hlong k Hkk)) as (n & g & -> & Hg & ?).
    rewrite Nat2Z.id in Hf. naive_solver.
  - intros (n & f & -> & Hf & Hk). pose proof (lookup_lt_Some _ _ _ Hf). unfold len.
    split; [lia|]. intros Hlong k Hkk. apply Ht. exists n, f. eauto.
Qed.

Lemma built_serves `{MapOrder} kb ins b s : built_ok kb ins b s → Serves s kb ins.
Proof.
  intros Hb. pose proof Hb as [Hfits Hlo Htris _ _ Hk _ _]. split.
  - rewrite (lo_files _ _ Hlo). by eapply built_len.
  - intros i f Hi. rewrite (File_spec _ Hfits _ Hlo i _ (built_file _ _ _ _ _ _ Hb Hi)). simpl.
    by destruct (in_meta f).
  - intros i f Hi. rewrite (FileContent_spec _ Hfits _ Hlo i _ (built_file _ _ _ _ _ _ Hb Hi)).
    unfold to_file, inlined. cbn [bf_content]. destruct (_ && _); [done|]. by case_bool_decide.
  - intros i f Hi. by rewrite (FileDefs_spec _ _ i _ Hfits Htris Hlo (built_file _ _ _ _ _ _ Hb Hi)).
  - intros lit. by eapply built_candidates.
  - intros lit. unfold HasTrigrams. destruct (Nat.ltb_spec (length lit) 3) as [|Hge]; [by exists true|].
    rewrite Hk, (has_keys_spec _ Htris). eexists. split; [done|]. intros Hno%bool_decide_eq_false.
    apply not_Forall_Exists in Hno; [|apply _].
    apply Exists_exists in Hno as (k & Hkl%trigramsOfLit_spec & Hkn).
    destruct (ShardSpec.Candidates_spec _ Hfits Htris s Hlo lit) as (ids & -> & _ & Hids). f_equal.
    destruct ids as [|id ids]; [done|]. exfalso.
    destruct (proj1 (Hids id) ltac:(by left)) as [_ Hp]. specialize (Hp Hge k Hkl).
    apply Hkn, (tris_keys _ Htris). intros He. rewrite He in Hp. by apply elem_of_nil in Hp.
Qed.

(** A shard served by an engine: mapping it gives one built from the files. *)
Definition served `{MapOrder} (kb : Z) (e : DiskEngine) (s : Shard) (ins : list input) : Prop :=
  ∃ m, mapped e s = Some m ∧ built_ok kb ins (build kb ins) m.

Lemma keys_of_NoDup `{MapOrder} b : NoDup (keys_of b).
Proof.
  unfold keys_of. rewrite (merge_sort_Permutation Z.le _), range_perm. apply NoDup_fst_map_to_list.
Qed.

Lemma NoDup_len (l : list Z) n : NoDup l → (∀ k, k ∈ l → 0 ≤ k < n)%Z → (0 ≤ n)%Z → (len l ≤ n)%Z.
Proof.
  intros Hnd Hr Hn. assert (l ⊆+ map Z.of_nat (seq 0 (Z.to_nat n))) as Hsub.
  { apply NoDup_submseteq; [done|]. intros k Hk%Hr. apply list_elem_of_fmap.
    exists (Z.to_nat k). split; [lia|]. apply elem_of_seq. lia. }
  apply submseteq_length in Hsub. rewrite length_map, length_seq in Hsub. unfold len. lia.
Qed.

Lemma fits_keys `{MapOrder} b : tris_ok b → (len (keys_of b) < 2 ^ 30)%Z.
Proof.
  intros Ht. pose proof (NoDup_len (keys_of b) (2 ^ 24) (keys_of_NoDup b) (tris_range b Ht)
    ltac:(done)). lia.
Qed.

(** Writing and opening a shard, and mapping it while its file is there. *)
Lemma built_opened `{MapOrder} kb ins path :
  fits (build kb ins) →
  ∃ out s, Write (build kb ins) = Some out ∧ Open path out = ok s ∧
    s_path s = path ∧ numFiles s = len ins ∧
    pathMin s = first_path (map (to_file kb) ins) ∧ pathMax s = last_path (map (to_file kb) ins) ∧
    ∀ e, idx_files e !! path = Some out → served kb e s ins.
Proof.
  intros Hfits. pose proof (fits_files _ Hfits) as Hlen.
  assert (len ins ≤ 2 ^ 32)%Z as Hins.
  { unfold build, len in Hlen. rewrite length_build in Hlen. unfold len. simpl in Hlen. lia. }
  destruct (build_spec kb ins Hins) as [Hf Ht]. pose proof (build_tris_ok kb ins Hins) as Htris.
  set (b := build kb ins) in *. set (out := shard_bytes b).
  exists out, (full_shard b path [] 0). pose proof (Open_Load path out) as Ho.
  unfold out in Ho at 1. rewrite Load_spec in Ho by done. fold out in Ho. cbn [ok] in Ho.
  split_and!; [by apply Write_layout| |done| | | |].
  - rewrite Ho; [done|]. by apply fits_keys.
  - change (len (b_files b) = len ins). rewrite Hf. unfold len. by rewrite length_map.
  - change (first_path (b_files b) = first_path (map (to_file kb) ins)). by rewrite Hf.
  - change (last_path (b_files b) = last_path (map (to_file kb) ins)). by rewrite Hf.
  - intros e He. exists (full_shard b path out 1). split.
    + unfold mapped. cbn [s_path]. change (s_path (full_shard b path [] 0)) with path. by rewrite He.
    + by split.
Qed.

(** ** Candidates skip only files without hits *)

Lemma StronglySorted_filter {A} (R : A → A → Prop) (P : A → Prop) `{∀ x, Decision (P x)} l :
  StronglySorted R l → StronglySorted R (filter P l).
Proof.
  induction 1 as [|x l Hs IH Hall]; [constructor|]. rewrite filter_cons.
  destruct (decide (P x)); [|done]. constructor; [done|]. rewrite Forall_forall in Hall |- *.
  intros y [_ Hy]%list_elem_of_filter. by apply Hall.
Qed.

Lemma increasing_filter ids n :
  increasing ids → (∀ id, id ∈ ids → 0 ≤ id < Z.of_nat n)%Z →
  ids = filter (λ id, id ∈ ids) (map Z.of_nat (seq 0 n)).
Proof.
  intros Hi Hr. apply (StronglySorted_unique Z.le).
  - by apply increasing_le.
  - apply StronglySorted_filter. clear. generalize 0 as k. induction n as [|n IH]; intros k; [constructor|].
    simpl. constructor; [apply IH|]. apply Forall_forall.
    intros x (m & -> & Hm%elem_of_seq)%list_elem_of_fmap. lia.
  - apply NoDup_Permutation.
    + by apply increasing_NoDup.
    + apply NoDup_filter. apply (NoDup_fmap_2 _), NoDup_seq.
    + intros id. rewrite list_elem_of_filter. split; [|naive_solver]. intros Hid. split; [done|].
      apply list_elem_of_fmap. exists (Z.to_nat id). specialize (Hr id Hid).
      split; [lia|]. apply elem_of_seq. lia.
Qed.

Lemma foldl_filter_skip {A B} (f : A → B → A) (P : B → Prop) `{∀ x, Decision (P x)} l a :
  (∀ x a, x ∈ l → ¬ P x → f a x = a) → foldl f a (filter P l) = foldl f a l.
Proof.
  revert a. induction l as [|x l IH]; intros a Hs; [done|]. rewrite filter_cons.
  assert (∀ y a, y ∈ l → ¬ P y → f a y = a) by (intros; apply Hs; [by right|done]).
  destruct (decide (P x)) as [Hx|Hx]; simpl; [by apply IH|].
  rewrite (Hs x a) by (done || by left). by apply IH.
Qed.

Section Scan.
Context `{MapOrder} `{RegexpEngine} (fs : FS) (d : gmap bytes bool) (mat : Matcher) (opts : SearchOpts).
Hypothesis Hmat : matcher_ok mat.

(** The hits of an indexed file: none when it is dirty or filtered out. *)
Definition hits (f : input) : list Match :=
  if bool_decide (is_Some (d !! Path (in_meta f)))
     || ((0 <? o_MaxFileSize opts)%Z && (o_MaxFileSize opts <? Size (in_meta f))%Z)
     || negb (path_ok (o_PathMatch opts) (Path (in_meta f))) then []
  else scan_lines (Path (in_meta f)) mat opts (in_content f).

(** The files of a shard that are not dirty are on disk as they were indexed. *)
Definition on_disk (f : input) : Prop :=
  d !! Path (in_meta f) = None → ReadFile fs (Path (in_meta f)) = Some (in_content f).

(** The literal prunes soundly on a file. *)
Definition prunes (f : input) : Prop :=
  hits f ≠ [] → ∀ k, has_tri (o_Literal opts) k → has_tri (in_content f) k.

Definition count (m : gmap bytes nat) (f : input) : gmap bytes nat :=
  if bool_decide (hits f = []) then m else <[Path (in_meta f) := length (hits f)]> m.

Definition add_hits (sr : shardResult) (f : input) : shardResult :=
  mkSR (if o_FilesOnly opts then sr_matches sr else sr_matches sr ++ hits f) (count (sr_counts sr) f).

Lemma search_file_spec s kb ins i f sr :
  Serves s kb ins → ins !! i = Some f → on_disk f →
  search_file fs d mat opts s sr (Z.of_nat i) = Some (add_hits sr f).
Proof.
  intros Hs Hf Hd. unfold search_file. rewrite (serves_file i f Hf). cbn [mbind option_bind].
  assert (∀ ms, ms = [] → Some (mkSR (if o_FilesOnly opts then sr_matches sr else sr_matches sr ++ ms)
      (if bool_decide (ms = []) then sr_counts sr else <[Path (in_meta f):=length ms]> (sr_counts sr)))
      = Some sr) as Hnil.
  { intros ms ->. rewrite bool_decide_eq_true_2, app_nil_r by done.
    destruct sr. by destruct (o_FilesOnly opts). }
  unfold add_hits, count. unfold on_disk in Hd.
  destruct (bool_decide (is_Some _)) eqn:E1.
  { unfold hits. rewrite E1. cbn [orb]. by rewrite Hnil. }
  destruct ((0 <? o_MaxFileSize opts)%Z && (o_MaxFileSize opts <? Size (in_meta f))%Z) eqn:E2.
  { unfold hits. rewrite E1, E2. cbn [orb]. by rewrite Hnil. }
  destruct (negb (path_ok (o_PathMatch opts) (Path (in_meta f)))) eqn:E3.
  { unfold hits. rewrite E1, E2, E3. cbn [orb]. by rewrite Hnil. }
  rewrite (serves_content i f Hf). cbn [mbind option_bind].
  apply bool_decide_eq_false, eq_None_not_Some in E1. rewrite (Hd E1).
  rewrite (verifyFile_spec _ mat opts Hmat). cbn [mbind option_bind].
  assert (hits f = scan_lines (Path (in_meta f)) mat opts (in_content f)) as Hh.
  { unfold hits. rewrite bool_decide_eq_false_2 by by rewrite eq_None_not_Some in E1.
    by rewrite E2, E3. }
  assert (match (if bool_decide (in_content f = []) then None else inlined kb (in_content f)) with
    | Some c => scan_lines (Path (in_meta f)) mat opts c
    | None => scan_lines (Path (in_meta f)) mat opts (in_content f)
    end = hits f) as ->.
  { rewrite Hh. case_bool_decide; [done|]. unfold inlined. by destruct ((0 <? kb)%Z && _). }
  case_bool_decide as Hn; [|done]. rewrite Hn, app_nil_r. destruct sr. by destruct (o_FilesOnly opts).
Qed.

Lemma search_files_spec s kb ins ids sr :
  Serves s kb ins → Forall on_disk ins →
  (∀ id, id ∈ ids → 0 ≤ id < len ins)%Z →
  search_files fs d mat opts s ids sr =
    Some (foldl (λ sr id, match ins !! Z.to_nat id with Some f => add_hits sr f | None => sr end) sr ids).
Proof.
  intros Hs Hd. revert sr. induction ids as [|id ids IH]; intros sr Hr; [done|]. cbn [search_files foldl].
  assert (0 ≤ id < len ins)%Z as Hid by (apply Hr; by left).
  destruct (lookup_lt_is_Some_2 ins (Z.to_nat id)) as [f Hf]; [unfold len in Hid; lia|]. rewrite Hf.
  rewrite <-(Z2Nat.id id) by lia. rewrite (search_file_spec s kb ins _ f) by
    (done || by eapply Forall_lookup_1). cbn [mbind option_bind]. apply IH.
  intros x Hx. apply Hr. by right.
Qed.

Lemma add_hits_nil sr f : hits f = [] → add_hits sr f = sr.
Proof.
  intros Hn. unfold add_hits, count. rewrite Hn, bool_decide_eq_true_2, app_nil_r by done.
  destruct sr. by destruct (o_FilesOnly opts).
Qed.

Lemma foldl_indices {A B} (g : A → B → A) (l : list B) a :
  foldl (λ a id, match l !! Z.to_nat id with Some x => g a x | None => a end) a
    (map Z.of_nat (seq 0 (length l))) = foldl g a l.
Proof.
  enough (∀ pre, foldl (λ a id, match (pre ++ l) !! Z.to_nat id with Some x => g a x | None => a end) a
    (map Z.of_nat (seq (length pre) (length l))) = foldl g a l) as Hg by apply (Hg []).
  revert a. induction l as [|x l IH]; intros a pre; [done|]. cbn [length seq map foldl].
  rewrite Nat2Z.id, lookup_app_r, Nat.sub_diag by done. cbn [lookup list_lookup].
  specialize (IH (g a x) (pre ++ [x])). rewrite length_app, Nat.add_1_r, <-app_assoc in IH.
  exact IH.
Qed.

(** The slot of a shard is the scan of its files. *)
Definition slot_of (ins : list input) : shardResult := foldl add_hits empty_result ins.

Lemma search_candidates_spec s kb ins ids :
  Serves s kb ins → Forall on_disk ins → Forall prunes ins →
  Candidates s (o_Literal opts) = Some ids →
  search_files fs d mat opts s ids empty_result = Some (slot_of ins).
Proof.
  intros Hs Hd Hp Hc. destruct (serves_candidates (o_Literal opts)) as (ids' & Hc' & Hi & Hids).
  rewrite Hc in Hc'. injection Hc' as <-.
  assert (∀ id, id ∈ ids → 0 ≤ id < len ins)%Z as Hr.
  { intros id (n & f & -> & Hf%lookup_lt_Some & _)%Hids. unfold len. lia. }
  rewrite (search_files_spec s kb ins) by done. f_equal.
  rewrite (increasing_filter ids (length ins)) by done.
  rewrite foldl_filter_skip; [apply foldl_indices|].
  intros id sr Hid Hni. destruct (ins !! Z.to_nat id) as [f|] eqn:Hf; [|done].
  apply add_hits_nil. destruct (decide (hits f = [])) as [|Hh]; [done|]. destruct Hni.
  apply list_elem_of_fmap in Hid as (n & -> & _). rewrite Nat2Z.id in Hf.
  apply Hids. exists n, f. split_and!; [done..|]. intros _.
  rewrite Forall_lookup in Hp. by apply (Hp n f Hf).
Qed.

Lemma mapped_keys e s m : mapped e s = Some m → ∀ lit, HasTrigrams s lit = HasTrigrams m lit.
Proof.
  unfold mapped, Mmap. destruct (0 <? refs s)%Z; [by intros [= <-]|].
  destruct (idx_files e !! s_path s); [by intros [= <-]|done].
Qed.

Lemma search_job_spec e s m kb ins :
  mapped e s = Some m → Serves m kb ins → Forall on_disk ins → Forall prunes ins →
  search_job e fs d mat opts s = Some (slot_of ins).
Proof.
  intros Hm Hs Hd Hp. unfold search_job. rewrite (mapped_keys e s m Hm).
  destruct (serves_has (o_Literal opts)) as (r & -> & Hno). cbn [mbind option_bind].
  destruct (serves_candidates (o_Literal opts)) as (ids & Hc & _).
  pose proof (search_candidates_spec m kb ins ids Hs Hd Hp Hc) as Hsc.
  destruct r; cbn [negb].
  - rewrite Hm, Hc. done.
  - rewrite (Hno eq_refl) in Hc. injection Hc as <-. exact Hsc.
Qed.
(** ** The merge and the dirty files *)

(** The hits of a dirty file that is not deleted. *)
Definition dirty_hits (p : bytes) : list Match :=
  if negb (path_ok (o_PathMatch opts) p) then []
  else match Stat fs p with
       | None => []
       | Some (size, _) =>
           if (0 <? o_MaxFileSize opts)%Z && (o_MaxFileSize opts <? size)%Z then []
           else match ReadFile fs p with Some c => scan_lines p mat opts c | None => [] end
       end.

(** What is scanned, in order: the files of the shards, then the dirty files. *)
Definition scan_of (parts : list (list input)) : list (bytes * list Match) :=
  map (λ f, (Path (in_meta f), hits f)) (concat parts) ++
  map (λ p, (p, dirty_hits p)) (dirty_paths d).

Definition count_hits (m : gmap bytes nat) (ph : bytes * list Match) : gmap bytes nat :=
  if bool_decide (ph.2 = []) then m else <[ph.1 := length ph.2]> m.

Lemma merge_all slots res :
  (o_Limit opts ≤ 0)%Z →
  merge_slots opts slots res =
    (mkResult (if o_FilesOnly opts then Matches res
               else Matches res ++ concat (map sr_matches slots))
       (foldl (λ m sr, sr_counts sr ∪ m) (FileCounts res) slots) (Truncated res), false).
Proof.
  intros Hl. revert res. induction slots as [|sr slots IH]; intros res; cbn [merge_slots map concat foldl].
  { rewrite app_nil_r. destruct res. by destruct (o_FilesOnly opts). }
  rewrite (proj2 (Z.ltb_ge _ _) Hl). cbn [andb]. rewrite IH. cbn [Matches FileCounts Truncated].
  destruct (o_FilesOnly opts); [done|]. by rewrite app_assoc.
Qed.

Lemma search_dirty_all paths res :
  (o_Limit opts ≤ 0)%Z →
  search_dirty fs mat opts paths res = Some
    (mkResult (if o_FilesOnly opts then Matches res
               else Matches res ++ concat (map dirty_hits paths))
       (foldl count_hits (FileCounts res) (map (λ p, (p, dirty_hits p)) paths)) (Truncated res)).
Proof.
  intros Hl. revert res. induction paths as [|p paths IH]; intros res;
    cbn [search_dirty map concat foldl].
  { rewrite app_nil_r. destruct res. by destruct (o_FilesOnly opts). }
  rewrite (proj2 (Z.ltb_ge _ _) Hl). cbn [andb].
  assert (dirty_hits p = [] → (search_dirty fs mat opts paths res) = Some
    (mkResult (if o_FilesOnly opts then Matches res
               else Matches res ++ dirty_hits p ++ concat (map dirty_hits paths))
       (foldl count_hits (count_hits (FileCounts res) (p, dirty_hits p))
          (map (λ p, (p, dirty_hits p)) paths)) (Truncated res))) as Hskip.
  { intros Hn. rewrite IH, Hn. done. }
  destruct (negb (path_ok (o_PathMatch opts) p)) eqn:E1.
  { apply Hskip. unfold dirty_hits. by rewrite E1. }
  destruct (Stat fs p) as [[size t]|] eqn:E2.
  2: { apply Hskip. unfold dirty_hits. by rewrite E1, E2. }
  destruct ((0 <? o_MaxFileSize opts)%Z && (o_MaxFileSize opts <? size)%Z) eqn:E3.
  { apply Hskip. unfold dirty_hits. by rewrite E1, E2, E3. }
  rewrite (verifyFile_spec _ mat opts Hmat). cbn [mbind option_bind].
  assert (match ReadFile fs p with Some c => scan_lines p mat opts c | None => [] end
          = dirty_hits p) as ->.
  { unfold dirty_hits. by rewrite E1, E2, E3. }
  case_bool_decide as Hn; [by apply Hskip|]. rewrite IH. cbn [Matches FileCounts Truncated].
  unfold count_hits at 3. cbn [fst snd]. rewrite bool_decide_eq_false_2 by done.
  destruct (o_FilesOnly opts); [done|]. by rewrite app_assoc.
Qed.

Lemma foldl_count_union ins m : foldl count m ins = foldl count ∅ ins ∪ m.
Proof.
  induction ins as [|f ins IH] using rev_ind; simpl; [by rewrite (left_id_L ∅ (∪))|].
  rewrite !foldl_app. simpl. rewrite IH. unfold count. case_bool_decide; [done|].
  by rewrite insert_union_l.
Qed.

Lemma slot_counts ins : sr_counts (slot_of ins) = foldl count ∅ ins.
Proof.
  unfold slot_of. induction ins as [|f ins IH] using rev_ind; [done|].
  rewrite !foldl_app. simpl. by rewrite IH.
Qed.

Lemma slot_matches ins :
  sr_matches (slot_of ins) = if o_FilesOnly opts then [] else concat (map hits ins).
Proof.
  unfold slot_of. induction ins as [|f ins IH] using rev_ind; [by destruct (o_FilesOnly opts)|].
  rewrite foldl_app, map_app, concat_app. simpl. rewrite IH, app_nil_r. by destruct (o_FilesOnly opts).
Qed.

Lemma slots_counts parts m :
  foldl (λ m sr, sr_counts sr ∪ m) m (map slot_of parts) =
  foldl count_hits m (map (λ f, (Path (in_meta f), hits f)) (concat parts)).
Proof.
  revert m. induction parts as [|ins parts IH]; intros m; [done|]. simpl.
  rewrite IH, map_app, foldl_app. f_equal. rewrite slot_counts, <-foldl_count_union.
  generalize m. induction ins as [|f ins IHi]; intros m'; [done|]. simpl. by rewrite IHi.
Qed.

Lemma slots_matches parts :
  o_FilesOnly opts = false →
  concat (map sr_matches (map slot_of parts)) = concat (map hits (concat parts)).
Proof.
  intros Hfo. induction parts as [|ins parts IH]; [done|]. simpl.
  rewrite map_app, concat_app, IH, slot_matches, Hfo. done.
Qed.

Lemma count_hits_lookup l m p n :
  NoDup ((filter (λ ph, ph.2 ≠ []) l).*1) →
  (foldl count_hits m l !! p = Some n ↔
    (∃ ms, (p, ms) ∈ l ∧ ms ≠ [] ∧ n = length ms) ∨
    ((p ∉ (filter (λ ph, ph.2 ≠ []) l).*1) ∧ m !! p = Some n)).
Proof.
  revert m. induction l as [|[q ms] l IH]; intros m Hnd.
  { simpl. split; [intros ?; right; split; [apply not_elem_of_nil|done]|].
    intros [(? & []%elem_of_nil & _)|[_ ?]]; done. }
  rewrite filter_cons in Hnd. cbn [foldl]. unfold count_hits at 2. cbn [fst snd] in *.
  case_bool_decide as Hm; rewrite filter_cons; cbn [snd].
  - rewrite decide_False in Hnd |- * by tauto. rewrite IH by done.
    setoid_rewrite elem_of_cons. split; [naive_solver|].
    intros [(ms' & [[= -> ->]|?] & ? & ->)|?]; [done|left; eauto|by right].
  - rewrite decide_True in Hnd |- * by done. cbn [fmap list_fmap fst] in Hnd |- *.
    apply NoDup_cons in Hnd as [Hq Hnd]. rewrite IH by done. setoid_rewrite elem_of_cons.
    rewrite lookup_insert. destruct (decide (q = p)) as [->|Hne].
    + split.
      * intros [(ms' & Hin & Hms & ->)|[_ [= <-]]]; [|by left; exists ms; auto].
        destruct Hq. apply list_elem_of_fmap. exists (p, ms'). split; [done|].
        by apply list_elem_of_filter.
      * intros [(ms' & [[= ->]|Hin] & Hms & ->)|[Hno _]]; [by right|by left; eauto|].
        destruct Hno. by left.
    + split.
      * intros [(ms' & Hin & Hms & ->)|[Hno Hm']]; [left; eauto|right].
        split; [|done]. intros [->|?]; done.
      * intros [(ms' & [[= ? ->]|Hin] & Hms & ->)|[Hno Hm']]; [congruence|left; eauto|].
        right. split; [|done]. intros ?. apply Hno. by right.
Qed.

Lemma dirty_paths_spec p : p ∈ dirty_paths d ↔ d !! p = Some false.
Proof.
  unfold dirty_paths. rewrite (merge_sort_Permutation bytes_le _), list_elem_of_fmap. split.
  - intros ([q fl] & -> & [Hf Hr]%list_elem_of_filter). apply elem_of_range in Hr.
    cbn in *. by subst.
  - intros Hp. exists (p, false). split; [done|]. apply list_elem_of_filter. split; [done|].
    by apply elem_of_range.
Qed.

Lemma dirty_paths_NoDup : NoDup (dirty_paths d).
Proof.
  unfold dirty_paths. rewrite (merge_sort_Permutation bytes_le _).
  eapply sublist_NoDup; [|apply fmap_sublist, sublist_filter]. rewrite range_perm.
  apply NoDup_fst_map_to_list.
Qed.

(** The paths of the shards are distinct, and the hits of a shard are not dirty. *)
Lemma scan_of_NoDup parts :
  NoDup (map (λ f, Path (in_meta f)) (concat parts)) →
  NoDup ((filter (λ ph, ph.2 ≠ []) (scan_of parts)).*1).
Proof.
  intros Hnd. unfold scan_of. rewrite filter_app, fmap_app. apply NoDup_app. split_and!.
  - eapply sublist_NoDup; [exact Hnd|]. clear Hnd. induction (concat parts) as [|f l IH]; [constructor|].
    cbn [map]. rewrite filter_cons. destruct (decide _); simpl; by constructor.
  - intros p (x & -> & [Hx (f & -> & Hf)%list_elem_of_fmap]%list_elem_of_filter)%list_elem_of_fmap.
    intros (y & E & [_ (q & -> & Hq)%list_elem_of_fmap]%list_elem_of_filter)%list_elem_of_fmap.
    cbn in E, Hx. subst q. apply Hx. unfold hits. rewrite bool_decide_eq_true_2; [done|].
    apply dirty_paths_spec in Hq. rewrite Hq. by eexists.
  - eapply sublist_NoDup.
    1: apply dirty_paths_NoDup.
    generalize (dirty_paths d) as l. intros l. induction l as [|p l IH]; [constructor|].
    cbn [map]. rewrite filter_cons. destruct (decide _); simpl; by constructor.
Qed.

End Scan.

(** ** The literal of a search *)

(** Every line in which the matcher finds something has the trigrams of the literal. *)
Definition lit_required `{RegexpEngine} (mat : Matcher) (lit : bytes) : Prop :=
  ∀ line k, is_Some (finds mat line) → has_tri lit k → has_tri line k.

Lemma text_lines_infix content line :
  line ∈ text_lines content → ∃ pre post, content = pre ++ line ++ post.
Proof.
  remember (length content) as n eqn:Hn. revert content Hn.
  induction (lt_wf n) as [n _ IH]. intros content -> Hl.
  destruct (decide (content = [])) as [->|Hne]; [by apply elem_of_nil in Hl|].
  destruct (index_byte content newline) as [i|] eqn:Ei.
  - rewrite (text_lines_cons _ _ Ei) in Hl.
    pose proof (index_byte_split _ _ _ Ei) as [Hs _].
    apply elem_of_cons in Hl as [->|Hl].
    + exists [], (drop i content). simpl. by rewrite take_drop.
    + assert (length (drop (S i) content) < length content) as Hlt.
      { rewrite length_drop. destruct content; [done|simpl; lia]. }
      destruct (IH _ Hlt _ eq_refl Hl) as (pre & post & Hd).
      exists (take (S i) content ++ pre), post. rewrite <-app_assoc, <-Hd. by rewrite take_drop.
  - apply index_byte_None in Ei. rewrite text_lines_one in Hl by done.
    apply list_elem_of_singleton in Hl as ->. exists [], []. by rewrite app_nil_r.
Qed.

Lemma hits_from_found `{RegexpEngine} rel mat opts n ls :
  hits_from rel mat opts n ls ≠ [] → ∃ line, line ∈ ls ∧ is_Some (finds mat line).
Proof.
  revert n. induction ls as [|line ls IH]; intros n Hh; [done|]. simpl in Hh.
  destruct (finds mat line) as [[a b]|] eqn:E.
  - exists line. rewrite E. split; [by left|by eexists].
  - destruct (IH (S n) Hh) as (l & ? & ?). exists l. split; [by right|done].
Qed.

Lemma scan_lines_found `{RegexpEngine} rel mat opts content :
  scan_lines rel mat opts content ≠ [] →
  ∃ line pre post, content = pre ++ line ++ post ∧ is_Some (finds mat line).
Proof.
  unfold scan_lines. destruct (isBinary content); [done|]. intros Hs.
  destruct (hits_from_found rel mat opts 1 (text_lines content)) as (line & Hl & Hf).
  { intros E. apply Hs. rewrite E. unfold scan_cap, capped.
    destruct (o_FilesOnly opts); [done|]. case_match; [by rewrite take_nil|done]. }
  apply text_lines_infix in Hl as (pre & post & ->). by exists line, pre, post.
Qed.

Lemma required_prunes `{RegexpEngine} d mat opts f :
  lit_required mat (o_Literal opts) → prunes d mat opts f.
Proof.
  intros Hr Hh k Hk. unfold hits in Hh. destruct (_ || _); [done|].
  apply scan_lines_found in Hh as (line & pre & post & -> & Hf).
  apply has_tri_app. by apply Hr.
Qed.

(** The lowering of an ASCII literal is required when the matcher looks for it. *)
Lemma plain_required `{UnicodeCase} `{RegexpEngine} mat :
  matcher_ok mat → PlainLit mat ≠ [] → ascii (PlainLit mat) →
  lit_required mat (ToLower (PlainLit mat)).
Proof.
  intros Hok Hne Ha line k [[a b] Hf]. rewrite ToLower_ascii, has_tri_fold by done.
  apply trigrams_fold_sub. unfold finds in Hf.
  rewrite FindFirst_spec, bool_decide_eq_false_2 in Hf by done. simpl in Hf.
  unfold first_span in Hf. destruct (find_suffix _ line) as [i|] eqn:E; [|done].
  apply find_suffix_Some in E as (_ & Hm & _). by eapply match_at_fold_contains.
Qed.

(** ** The search *)

Lemma scan_spec `{MapOrder} `{RegexpEngine} `{!RegexpString} e fs re opts order kb
    (parts : list (list input)) :
  let d := dirty e in let mat := search_matcher re opts in
  matcher_ok mat → (o_Limit opts ≤ 0)%Z → lit_required mat (o_Literal opts) →
  Forall2 (λ s ins, ∃ m, mapped e s = Some m ∧ Serves m kb ins) (shards (snapshot e)) parts →
  Forall (on_disk fs d) (concat parts) → NoDup (map (λ f, Path (in_meta f)) (concat parts)) →
  order ≡ₚ seq 0 (length (shards (snapshot e))) →
  ∃ res, EngineSearch.Search e fs re opts order = Some res ∧ Truncated res = false ∧
    Matches res = (if o_FilesOnly opts then [] else concat (scan_of fs d mat opts parts).*2) ∧
    ∀ p n, FileCounts res !! p = Some n ↔
      ∃ ms, (p, ms) ∈ scan_of fs d mat opts parts ∧ ms ≠ [] ∧ n = length ms.
Proof.
  intros d mat Hmat Hl Hlit Hs Hd Hnd Ho. unfold EngineSearch.Search. fold d mat.
  rewrite (run_jobs_all _ _ order (map (slot_of d mat opts) parts) Ho).
  2: { apply mapM_Some_2. rewrite Forall2_fmap_r. clear Ho Hnd. unfold d in *.
       induction Hs as [|s ins ss parts (m & Hm & Hsv) Hs IH]; [constructor|].
       simpl in Hd. apply Forall_app in Hd as [Hd1 Hd2]. constructor; [|by apply IH].
       eapply search_job_spec; [done..|]. apply Forall_forall. intros f _. by apply required_prunes. }
  cbn [mbind option_bind]. rewrite merge_all by done. cbn [Matches FileCounts Truncated].
  rewrite search_dirty_all by done. cbn [Matches FileCounts Truncated].
  rewrite slots_counts, <-foldl_app. eexists. split; [done|]. split_and!; [done| |].
  - cbn [Matches]. destruct (o_FilesOnly opts) eqn:Efo; [done|]. rewrite slots_matches by done.
    unfold scan_of. rewrite fmap_app, concat_app, <-!list_fmap_compose. done.
  - intros p n. cbn [FileCounts]. fold (scan_of fs d mat opts parts).
    rewrite count_hits_lookup by by apply scan_of_NoDup. rewrite lookup_empty. naive_solver.
Qed.

(** ** Properties *)

(** A search of the disk engine is a scan.  When every shard maps to one that
    serves some files, those files are on disk as they were indexed unless they are
    dirty, and the literal is one that every matching line contains, a search with
    no limit never panics, whatever the order in which its jobs finish: its matches
    are those of the files of the shards that are not dirty, in shard order, then
    those of the dirty files in path order, and its counts are exactly the numbers
    of matches of the files that have some. *)
Theorem DiskSearch_is_scan `{MapOrder} `{RegexpEngine} `{!RegexpString} e fs re opts order kb
    (parts : list (list input)) :
  let d := dirty e in let mat := search_matcher re opts in
  matcher_ok mat → (o_Limit opts ≤ 0)%Z → lit_required mat (o_Literal opts) →
  Forall2 (λ s ins, ∃ m, mapped e s = Some m ∧ Serves m kb ins) (shards (snapshot e)) parts →
  Forall (on_disk fs d) (concat parts) → NoDup (map (λ f, Path (in_meta f)) (concat parts)) →
  order ≡ₚ seq 0 (length (shards (snapshot e))) →
  ∃ res, EngineSearch.Search e fs re opts order = Some res ∧ Truncated res = false ∧
    Matches res = (if o_FilesOnly opts then [] else concat (scan_of fs d mat opts parts).*2) ∧
    ∀ p n, FileCounts res !! p = Some n ↔
      ∃ ms, (p, ms) ∈ scan_of fs d mat opts parts ∧ ms ≠ [] ∧ n = length ms.
Proof. apply scan_spec. Qed.

(** A repository whose files are [demo_inputs], and an engine with one shard of
    them, where [c.txt] is dirty. *)
Definition demo_fs : FS := {|
  ReadFile p := in_content <$> list_find (λ f, Path (in_meta f) = p) demo_inputs ≫= λ x, Some x.2;
  Stat p := (λ x, (Size (in_meta x.2), MtimeNS (in_meta x.2)))
    <$> list_find (λ f, Path (in_meta f) = p) demo_inputs;
|}.

Definition demo_engine (s : Shard) (out : bytes) : DiskEngine :=
  mkEngine (mkCfg (mkSizes 10 5 0) 10 4 1) (mkSnap [s] 1) 3 20 {[bs "c.txt" := false]} []
    {[bs "s.idx" := out]} None.

Lemma DiskSearch_is_scan_witness :
  let opts := mkOpts [] None false 0 (bs "func") true 0 0 in
  ∃ out s res,
    @Write tree_order (@build tree_order 1 demo_inputs) = Some out ∧
    Open (bs "s.idx") out = ok s ∧
    @EngineSearch.Search tree_order (one_engine hello_re) (Build_RegexpString _ (λ _, bs "func"))
      (demo_engine s out) demo_fs tt opts [0] = Some res ∧
    map m_Path (Matches res) = [bs "a/x.go"; bs "c.txt"] ∧ Truncated res = false.
Proof.
  intros opts.
  assert (Hnd : NoDup (map (λ f, Path (in_meta f)) (concat [demo_inputs]))).
  { change (NoDup [bs "a/x.go"; bs "b.txt"; bs "c.txt"]). apply (bool_decide_unpack _). vm_compute. exact I. }
  destruct (@built_opened tree_order 1 demo_inputs (bs "s.idx") demo_fits)
    as (out & s & Hw & Ho & Hp & _ & _ & _ & Hs).
  assert (Hmat : @matcher_ok (one_engine hello_re)
    (@search_matcher (one_engine hello_re) (Build_RegexpString _ (λ _, bs "func")) tt opts)).
  { split; [|done]. intros Hh. vm_compute in Hh. discriminate. }
  destruct (@DiskSearch_is_scan tree_order (one_engine hello_re)
    (Build_RegexpString _ (λ _, bs "func")) (demo_engine s out) demo_fs tt opts [0] 1 [demo_inputs])
    as (res & Hr & Ht & Hm & _).
  - exact Hmat.
  - done.
  - intros line k _ Hk. exact (False_ind _ (has_tri_nil k Hk)).
  - constructor; [|constructor]. destruct (Hs (demo_engine s out)) as (m & Hm & Hb).
    { unfold demo_engine. cbn [idx_files]. exact (lookup_singleton_eq _ _). }
    exists m. split; [exact Hm|]. exact (@built_serves tree_order _ _ _ _ Hb).
  - apply Forall_forall. intros f Hf _. simpl in Hf.
    repeat (apply elem_of_cons in Hf as [->|Hf]; [vm_compute; reflexivity|]).
    destruct (not_elem_of_nil _ Hf).
  - exact Hnd.
  - reflexivity.
  - exists out, s, res. split; [exact Hw|]. split; [exact Ho|]. split; [exact Hr|].
    split; [|exact Ht]. rewrite Hm. vm_compute. reflexivity.
Defined.
