(* ===== verification/EngineBuild.v ===== *)
(** * A full build: internal/shard/engine.go, FullBuild

    The shards of a full build serve the files of the repository in path order, on
    disjoint path ranges, so that a search right after it is a scan of the disk. *)

From S2P Require Import Prelude GoBytes Trigram Text Lines Regexp Literal Matcher Symbol Index.
From S2P Require Import IndexSearch Codec Shard ShardLayout ShardRead ShardSpec Engine Decimal Scan.
From S2P Require Import EngineSearch EngineSpec EngineScan.

(** ** Shard file names *)

(** The 20 digits of [shardPath] are those of any sequence number. *)
Lemma shardPath_inj a b :
  (0 ≤ a < 10 ^ 20)%Z → (0 ≤ b < 10 ^ 20)%Z → shardPath a = shardPath b → a = b.
Proof.
  intros Ha Hb. unfold shardPath. intros E%app_inv_head%app_inv_tail.
  assert (∀ z, (0 ≤ z < 10 ^ 20)%Z → dec_val (pad4 (digits 20 z [])) = z) as Hv.
  { intros z Hz. rewrite pad4_val, digits_val by exact Hz. unfold dec_val, len. cbn [length foldl]. lia. }
  rewrite <-(Hv a Ha), <-(Hv b Hb). by f_equal.
Qed.

(** ** The batches *)

Section Build.
Context `{MapOrder} `{SymbolExtractor} (fs : FS).

(** The file given to the builder for an entry of a batch, if it is a text file. *)
Definition input_of (f : BuildFile) : option input :=
  c ← ReadFile fs (Rel f); c ← text_of c;
  Some (mkInput (mkMeta (Rel f) (bf_Size f) (bf_MtimeNS f)) c (Extract (Rel f) c)).
Definition inputs_of (batch : list BuildFile) : list input := omap input_of batch.

Definition total_size (ins : list input) : Z := foldr (λ f n, (Size (in_meta f) + n)%Z) 0%Z ins.

Lemma total_size_app a b : total_size (a ++ b) = (total_size a + total_size b)%Z.
Proof. unfold total_size. induction a as [|f a IH]; simpl; [done|]. lia. Qed.

Lemma add_file_input b nf nb f :
  add_file fs (b, nf, nb) f =
    match input_of f with
    | Some i => (add_input b i, (nf + 1)%Z, (nb + Size (in_meta i))%Z)
    | None => (b, nf, nb)
    end.
Proof.
  unfold add_file, input_of. destruct (ReadFile fs (Rel f)) as [c|]; [|done].
  cbn [mbind option_bind]. by destruct (text_of c).
Qed.

Lemma add_files batch b nf nb :
  foldl (add_file fs) (b, nf, nb) batch =
    (foldl add_input b (inputs_of batch), (nf + len (inputs_of batch))%Z,
     (nb + total_size (inputs_of batch))%Z).
Proof.
  revert b nf nb. induction batch as [|f batch IH]; intros b nf nb.
  { unfold len. simpl. by rewrite !Z.add_0_r. }
  cbn [foldl]. rewrite add_file_input. unfold inputs_of in *. cbn [omap list_omap].
  destruct (input_of f) as [i|]; [|by rewrite IH].
  rewrite IH. unfold len. cbn [foldl length total_size foldr].
  f_equal; [f_equal; lia|]. unfold total_size. lia.
Qed.

Lemma fits_input_len kb ins : fits (build kb ins) → (len ins ≤ 2 ^ 32)%Z.
Proof.
  intros Hb. pose proof (fits_files _ Hb) as Hl. unfold build, len in Hl. rewrite length_build in Hl.
  unfold len. simpl in Hl. lia.
Qed.

Lemma build_files kb ins : (len ins ≤ 2 ^ 32)%Z → b_files (build kb ins) = [] ↔ ins = [].
Proof.
  intros Hl. rewrite (proj1 (build_spec kb ins Hl)). by destruct ins.
Qed.
(** ** The loop over the batches *)

(** A shard of the shard directory [idx], built from [ins]. *)
Record shard_of (kb : Z) (idx : gmap bytes bytes) (s : Shard) (ins : list input) : Prop := {
  so_file : ∃ out, idx !! s_path s = Some out ∧ Open (s_path s) out = ok s;
  so_num : numFiles s = len ins;
  so_min : pathMin s = first_path (map (to_file kb) ins);
  so_max : pathMax s = last_path (map (to_file kb) ins);
  so_served e : idx_files e !! s_path s = idx !! s_path s → served kb e s ins;
}.

Lemma shard_of_frame kb idx idx' s ins :
  shard_of kb idx s ins → idx' !! s_path s = idx !! s_path s → shard_of kb idx' s ins.
Proof. intros [Hf ? ? ? Hs] Hi. split; try done; [by rewrite Hi|]. intros e He. apply Hs. by rewrite He. Qed.

(** Writing a batch of files makes a shard of them. *)
Lemma write_shard_spec kb name ins :
  fits (build kb ins) →
  ∃ out s, write_shard name (build kb ins) = Some (out, inr s) ∧ s_path s = name ∧
    ∀ idx, idx !! name = Some out → shard_of kb idx s ins.
Proof.
  intros Hf. destruct (built_opened kb ins name Hf) as (out & s & Hw & Ho & Hp & Hn & Hmin & Hmax & Hs).
  exists out, s. unfold write_shard. rewrite Hw. cbn [mbind option_bind]. rewrite Ho. split_and!; [done..|].
  intros idx Hi. split; [|done..|]; rewrite Hp; [by exists out|]. intros e He. apply Hs. by rewrite He.
Qed.

Lemma write_open_spec kb idx name ins :
  fits (build kb ins) →
  ∃ out s, write_open idx name (build kb ins) = Some (<[name := out]> idx, inr s) ∧
    s_path s = name ∧ shard_of kb (<[name := out]> idx) s ins.
Proof.
  intros Hf. destruct (write_shard_spec kb name ins Hf) as (out & s & Hw & Hp & Hs). exists out, s.
  unfold write_open. rewrite Hw. split_and!; [done..|]. apply Hs, lookup_insert_eq.
Qed.

(** The files of the shards of a build: a batch without text files has none. *)
Definition parts_of (batches : list (list BuildFile)) : list (list input) :=
  filter (λ ins, ins ≠ []) (map inputs_of batches).

Lemma parts_of_concat batches : concat (parts_of batches) = inputs_of (concat batches).
Proof.
  unfold parts_of, inputs_of. induction batches as [|b bs IH]; [done|]. cbn [map concat].
  rewrite omap_app, filter_cons, <-IH. destruct (decide _) as [|Hn]; [done|].
  apply dec_stable in Hn. by rewrite Hn.
Qed.

Lemma full_loop_spec kb batches idx ss nf nb seq :
  Forall (λ b, fits (build kb (inputs_of b))) batches →
  (0 ≤ seq)%Z → (seq + len batches ≤ 10 ^ 20)%Z →
  let all := inputs_of (concat batches) in
  ∃ idx' ss',
    full_loop kb fs batches idx ss nf nb seq =
      Some (idx', inr (ss ++ ss', (nf + len all)%Z, (nb + total_size all)%Z, (seq + len ss')%Z)) ∧
    (∀ k, (0 ≤ k < seq)%Z → idx' !! shardPath k = idx !! shardPath k) ∧
    Forall2 (shard_of kb idx') ss' (parts_of batches).
Proof.
  revert idx ss nf nb seq. induction batches as [|b bs IH]; intros idx ss nf nb seq Hf Hs Hl; simpl.
  { exists idx, []. unfold len. simpl. rewrite app_nil_r, !Z.add_0_r. split_and!; [done..|constructor]. }
  apply Forall_cons in Hf as [Hb Hf]. assert (len (b :: bs) = 1 + len bs)%Z as Hlb.
  { unfold len. simpl. lia. }
  pose proof (fits_input_len kb (inputs_of b) Hb) as Hlen.
  assert (inputs_of (b ++ concat bs) = inputs_of b ++ inputs_of (concat bs)) as -> by apply omap_app.
  rewrite add_files. fold (build kb (inputs_of b)). rewrite len_app.
  assert (total_size (inputs_of b ++ inputs_of (concat bs)) =
    total_size (inputs_of b) + total_size (inputs_of (concat bs)))%Z as ->.
  { apply total_size_app. }
  rewrite !Z.add_assoc. unfold parts_of in *. cbn [map]. rewrite filter_cons.
  destruct (decide (inputs_of b = [])) as [E|E].
  - rewrite bool_decide_eq_true_2 by by apply build_files. rewrite decide_False by tauto.
    apply IH; [done|done|lia].
  - rewrite bool_decide_eq_false_2 by by rewrite build_files. rewrite decide_True by done.
    destruct (write_open_spec kb idx (shardPath seq) (inputs_of b) Hb) as (out & s & -> & Hp & Hs1).
    cbn [mbind option_bind].
    destruct (IH (<[shardPath seq := out]> idx) (ss ++ [s]) (nf + len (inputs_of b))%Z
      (nb + total_size (inputs_of b))%Z (seq + 1)%Z) as (idx' & ss' & Hr & Hfr & Hall); [done|lia|lia|].
    exists idx', (s :: ss'). rewrite Hr, <-app_assoc. split_and!.
    + do 2 f_equal. unfold len. cbn [length app]. f_equal. f_equal. lia.
    + intros k Hk. pose proof (len_nonneg bs). rewrite Hfr by lia. apply lookup_insert_ne. intros E'%shardPath_inj; lia.
    + constructor; [|done]. eapply shard_of_frame; [done|]. rewrite Hp. apply Hfr. lia.
Qed.
End Build.

(** ** The order of the shards *)

Definition path_of (f : input) : bytes := Path (in_meta f).

Lemma bytes_lt_le_weak a b : bytes_lt a b → bytes_le a b.
Proof. intros ?. apply bytes_le_lteq. by left. Qed.

Lemma first_path_sorted kb ins f :
  StronglySorted bytes_lt (map path_of ins) → f ∈ ins →
  bytes_le (first_path (map (to_file kb) ins)) (path_of f).
Proof.
  destruct ins as [|g ins]; [by intros _ ?%elem_of_nil|]. unfold first_path. simpl.
  intros [Hall _]%StronglySorted_cons [->|Hf]%elem_of_cons; [done|].
  rewrite Forall_forall in Hall. apply bytes_lt_le_weak, Hall. by apply (list_elem_of_fmap_2 path_of).
Qed.

Lemma last_path_snoc kb ins f : last_path (map (to_file kb) (ins ++ [f])) = path_of f.
Proof. unfold last_path. rewrite map_app. cbn [map]. by rewrite last_snoc. Qed.

Lemma last_path_sorted kb ins f :
  StronglySorted bytes_lt (map path_of ins) → f ∈ ins →
  bytes_le (path_of f) (last_path (map (to_file kb) ins)).
Proof.
  destruct ins as [|g ins _] using rev_ind; [by intros _ ?%elem_of_nil|].
  rewrite last_path_snoc, map_app. intros Hs [Hf|Hf%list_elem_of_singleton]%elem_of_app; [|by subst].
  apply bytes_lt_le_weak. eapply StronglySorted_app_1_elem_of; [exact Hs| |by left].
  by apply (list_elem_of_fmap_2 path_of).
Qed.

Lemma first_path_elem kb ins : ins ≠ [] → ∃ f, f ∈ ins ∧ first_path (map (to_file kb) ins) = path_of f.
Proof. destruct ins as [|f ins]; [done|]. exists f. split; [by left|done]. Qed.

Lemma last_path_elem kb ins : ins ≠ [] → ∃ f, f ∈ ins ∧ last_path (map (to_file kb) ins) = path_of f.
Proof.
  destruct ins as [|f ins _] using rev_ind; [done|]. exists f. split; [|apply last_path_snoc].
  apply elem_of_app. right. by left.
Qed.

(** Shards built from consecutive parts of a sorted list are ordered. *)
Lemma shards_ordered `{MapOrder} kb idx ss parts :
  Forall2 (shard_of kb idx) ss parts → Forall (λ ins, ins ≠ []) parts →
  StronglySorted bytes_lt (map path_of (concat parts)) → ordered ss.
Proof.
  intros Hall Hne Hs. split.
  - revert Hs. induction Hall as [|s ins ss parts Hso Hall IH]; [constructor|]. cbn [concat].
    rewrite map_app. intros Hs. apply Forall_cons in Hne as [Hn Hne].
    constructor; [|by apply IH, (StronglySorted_app_1_r _ (map path_of ins))].
    rewrite (so_min _ _ _ _ Hso), (so_max _ _ _ _ Hso).
    destruct (last_path_elem kb ins Hn) as (f & Hf & ->). apply first_path_sorted; [|done].
    by eapply StronglySorted_app_1_l.
  - revert Hs. induction Hall as [|s ins ss parts Hso Hall IH]; [constructor|]. cbn [concat].
    rewrite map_app. intros Hs. apply Forall_cons in Hne as [Hn Hne].
    constructor; [by apply IH, (StronglySorted_app_1_r _ (map path_of ins))|]. apply Forall_forall.
    intros t (i & Ht)%list_elem_of_lookup.
    destruct (Forall2_lookup_l _ _ _ _ _ Hall Ht) as (ins' & Hi & Hto).
    rewrite (so_max _ _ _ _ Hso), (so_min _ _ _ _ Hto).
    destruct (last_path_elem kb ins Hn) as (f & Hf & ->).
    destruct (first_path_elem kb ins') as (g & Hg & ->).
    { rewrite Forall_lookup in Hne. by eapply Hne. }
    eapply StronglySorted_app_1_elem_of; [exact Hs|by apply (list_elem_of_fmap_2 path_of)|].
    apply (list_elem_of_fmap_2 path_of). apply list_elem_of_In, in_concat. exists ins'.
    split; apply list_elem_of_In; [by eapply list_elem_of_lookup_2|done].
Qed.

Lemma inputs_of_paths `{SymbolExtractor} fs l : map path_of (inputs_of fs l) `sublist_of` map Rel l.
Proof.
  unfold inputs_of. induction l as [|f l IH]; [constructor|]. cbn [omap list_omap map].
  unfold input_of at 1. destruct (ReadFile fs (Rel f)) as [c|]; cbn [mbind option_bind]; [|by constructor].
  destruct (text_of c); cbn [mbind option_bind]; by constructor.
Qed.

Lemma sublist_sorted {A} (R : A → A → Prop) l k : l `sublist_of` k → StronglySorted R k → StronglySorted R l.
Proof.
  induction 1 as [|x l k Hs IH|x l k Hs IH]; intros Hk; [done|..]; apply StronglySorted_cons in Hk as [Hall Hk].
  - constructor; [by apply IH|]. rewrite Forall_forall in Hall |- *. intros y Hy. apply Hall.
    by eapply elem_of_sublist.
  - by apply IH.
Qed.

#[export] Instance rel_le_total : Total rel_le.
Proof. intros a b. apply (total bytes_le). Qed.
#[export] Instance rel_le_trans : Transitive rel_le.
Proof. intros a b c. unfold rel_le. by apply transitivity. Qed.

Lemma sort_files_strict files :
  NoDup (map Rel files) → StronglySorted bytes_lt (map Rel (merge_sort rel_le files)).
Proof.
  intros Hnd. rewrite <-(merge_sort_Permutation rel_le files) in Hnd.
  assert (StronglySorted rel_le (merge_sort rel_le files)) as Hs by (apply StronglySorted_merge_sort; apply _).
  induction Hs as [|f l Hs IH Hall]; [constructor|]. cbn [map] in *. apply NoDup_cons in Hnd as [Hf Hnd].
  constructor; [by apply IH|]. rewrite Forall_forall in Hall. apply Forall_forall.
  intros p (g & -> & Hg)%list_elem_of_fmap. specialize (Hall g Hg). unfold rel_le in Hall.
  apply bytes_le_lteq in Hall as [?|E]; [done|]. destruct Hf. rewrite E. by apply (list_elem_of_fmap_2 Rel).
Qed.

(** ** The engine after a full build *)

(** The shards of an engine hold consecutive parts, none empty, of files in path order. *)
Record in_order `{MapOrder} (kb : Z) (e : DiskEngine) (parts : list (list input)) : Prop := {
  io_shards : Forall2 (shard_of kb (idx_files e)) (shards (snapshot e)) parts;
  io_ne : Forall (λ ins, ins ≠ []) parts;
  io_sorted : StronglySorted bytes_lt (map path_of (concat parts));
}.

Record full_built `{MapOrder} `{SymbolExtractor} (fs : FS) (e e' : DiskEngine) (files : list BuildFile)
    (parts : list (list input)) : Prop := {
  fb_order : in_order (InlineKB (cfg e)) e' parts;
  fb_concat : concat parts = inputs_of fs (merge_sort rel_le files);
  fb_cfg : cfg e' = cfg e;
  fb_dirty : dirty e' = dirty e;
  fb_files : totalFiles e' = len (concat parts);
  fb_bytes : totalBytes e' = total_size (concat parts);
  fb_manifest : manifest e' = Some (ManifestFromShards (shards (snapshot e')) (seqNo (snapshot e')));
}.

(** The limits of a build: every batch fits the format, and the names the digits. *)
Definition build_fits `{MapOrder} `{SymbolExtractor} (fs : FS) (c : DiskEngineConfig)
    (files : list BuildFile) : Prop :=
  Forall (λ b, fits (build (InlineKB c) (inputs_of fs b))) (GroupByDirBoundary files (ShardSize c)) ∧
  (len files < 2 ^ 63)%Z ∧ NoDup (map Rel files).

Lemma concat_len {A} (l : list (list A)) : Forall (λ x, x ≠ []) l → (len l ≤ len (concat l))%Z.
Proof.
  induction 1 as [|x l Hx Hl IH]; [done|]. unfold len in *. cbn [concat length].
  rewrite length_app. destruct x; [done|]. simpl. lia.
Qed.

Lemma FullBuild_spec `{MapOrder} `{SymbolExtractor} fs e files :
  build_fits fs (cfg e) files →
  ∃ e', FullBuild e fs files = Some (e', None) ∧
    full_built fs e e' files (parts_of fs (GroupByDirBoundary files (ShardSize (cfg e)))).
Proof.
  intros (Hf & Hl & Hnd). unfold FullBuild.
  destruct (GroupByDirBoundary_spec files (ShardSize (cfg e))) as (Hc & Hne & _).
  set (batches := GroupByDirBoundary files (ShardSize (cfg e))) in *.
  destruct (full_loop_spec fs (InlineKB (cfg e)) batches (idx_files e) [] 0 0 0)
    as (idx' & ss' & Hr & _ & Hall); [done|done| |].
  { apply concat_len in Hne. rewrite Hc in Hne. unfold len in *.
    rewrite (Permutation_length (merge_sort_Permutation rel_le files)) in Hne. lia. }
  rewrite Hr. cbn [mbind option_bind app]. eexists. split; [done|].
  pose proof (parts_of_concat fs batches) as Hp. rewrite Hc in Hp.
  split; cbn; try done.
  - split; [done| |].
    + unfold parts_of. apply Forall_forall. by intros x [? _]%list_elem_of_filter.
    + rewrite Hp. eapply sublist_sorted; [apply inputs_of_paths|by apply sort_files_strict].
  - rewrite Hp, <-Hc. unfold len. lia.
  - by rewrite Hp, <-Hc, Z.add_0_l.
Qed.

(** ** Lookups in the shards of a build *)

Lemma filter_none {A} (P : A → Prop) `{∀ x, Decision (P x)} l : (∀ x, x ∈ l → ¬ P x) → filter P l = [].
Proof.
  induction l as [|x l IH]; [done|]. intros Hn. rewrite filter_cons_False by (apply Hn; by left).
  apply IH. intros y Hy. apply Hn. by right.
Qed.

Lemma filter_every {A} (P : A → Prop) `{∀ x, Decision (P x)} (l : list A) : (∀ x, x ∈ l → P x) → filter P l = l.
Proof.
  induction l as [|x l IH]; intros Hl; [done|]. rewrite filter_cons_True by (apply Hl; by left). f_equal.
  apply IH. intros y Hy. apply Hl. by right.
Qed.

Lemma find_meta_spec `{MapOrder} s kb ins p k :
  Serves s kb ins → k ≤ length ins → p ∉ map path_of (take k ins) → NoDup (map path_of ins) →
  find_meta s p (seq k (length ins - k)) = Some (in_meta <$> (head (filter (λ f, path_of f = p) ins))).
Proof.
  intros Hs. remember (length ins - k) as n eqn:En. revert k En.
  induction n as [|n IH]; intros k En Hk Hp Hnd; cbn [seq find_meta].
  - rewrite take_ge in Hp by lia. do 2 f_equal. symmetry.
    enough (filter (λ f, path_of f = p) ins = []) as -> by done.
    apply filter_none. intros f Hf E. apply Hp. rewrite <-E. by apply (list_elem_of_fmap_2 path_of).
  - destruct (lookup_lt_is_Some_2 ins k) as [f Hf]; [lia|].
    rewrite (serves_file k f Hf). cbn [mbind option_bind]. case_bool_decide as E.
    + do 2 f_equal. symmetry. rewrite <-(take_drop_middle _ _ _ Hf), filter_app.
      assert (filter (λ f, path_of f = p) (take k ins) = []) as ->.
      { apply filter_none. intros g Hg Eg. apply Hp. rewrite <-Eg. by apply (list_elem_of_fmap_2 path_of). }
      rewrite filter_cons_True by done. done.
    + apply IH; [lia|lia| |done]. rewrite (take_S_r _ _ _ Hf), map_app. intros [?|E']%elem_of_app; [done|].
      apply list_elem_of_singleton in E'. by apply E.
Qed.

Lemma shardForPath_nat snap p z : shardForPath snap p = Some (Some z) → ∃ i, z = Z.of_nat i.
Proof.
  unfold shardForPath. intros (r & _ & Hr)%bind_Some. destruct (Z.ltb_spec (r - 1) 0) as [|Hn]; [done|].
  apply bind_Some in Hr as (s & _ & Hr). destruct (ContainsPath s p); [|done]. injection Hr as <-.
  exists (Z.to_nat (r - 1)). by rewrite Z2Nat.id.
Qed.

Section Built.
Context `{MapOrder} (kb : Z) (e : DiskEngine) (parts : list (list input)).
Hypothesis Hio : in_order kb e parts.
Hypothesis Hlen : (len parts < 2 ^ 63)%Z.

Lemma built_ordered : ordered (shards (snapshot e)).
Proof. eapply shards_ordered; apply Hio. Qed.

Lemma built_part_sorted i ins : parts !! i = Some ins → StronglySorted bytes_lt (map path_of ins).
Proof.
  intros Hi. pose proof (io_sorted _ _ _ Hio) as Hs.
  rewrite <-(take_drop_middle _ _ _ Hi), concat_app in Hs. cbn [concat] in Hs. rewrite !map_app in Hs.
  by eapply StronglySorted_app_1_l, StronglySorted_app_1_r.
Qed.

Lemma sorted_NoDup l : StronglySorted bytes_lt l → NoDup l.
Proof.
  induction 1 as [|x l Hs IH Hall]; constructor; [|done]. intros Hx. rewrite Forall_forall in Hall.
  by apply (StrictOrder_Irreflexive x), Hall.
Qed.

Lemma built_elem f :
  f ∈ concat parts → ∃ i s ins, shards (snapshot e) !! i = Some s ∧ parts !! i = Some ins ∧ f ∈ ins ∧
    shard_of kb (idx_files e) s ins ∧ ContainsPath s (path_of f) = true.
Proof.
  intros (ins & Hin & Hf)%list_elem_of_In%in_concat. apply list_elem_of_In in Hin, Hf.
  apply list_elem_of_lookup in Hin as [i Hi].
  destruct (Forall2_lookup_r _ _ _ _ _ (io_shards _ _ _ Hio) Hi) as (s & Hs & Hso).
  exists i, s, ins. split_and!; [done..|]. pose proof (built_part_sorted i ins Hi) as Hss.
  apply ContainsPath_spec. rewrite (so_min _ _ _ _ Hso), (so_max _ _ _ _ Hso).
  split; [by apply first_path_sorted|by apply last_path_sorted].
Qed.

(** [Meta] in a shard. *)
Lemma meta_in_part i s ins p :
  shards (snapshot e) !! i = Some s → parts !! i = Some ins →
  shardForPath (snapshot e) p = Some (Some (Z.of_nat i)) →
  Meta e p = Some (in_meta <$> head (filter (λ f, path_of f = p) ins)).
Proof.
  intros Hs Hi Hsp. unfold Meta. rewrite Hsp. cbn [mbind option_bind]. rewrite idx_nat, Hs.
  cbn [mbind option_bind].
  destruct (Forall2_lookup_lr _ _ _ _ _ _ (io_shards _ _ _ Hio) Hs Hi) as [_ _ _ _ Hsv].
  destruct (Hsv e eq_refl) as (m & -> & Hb).
  pose proof (built_serves _ _ _ _ Hb) as Hserves. rewrite (serves_num (s:=m)).
  unfold len. rewrite Nat2Z.id. rewrite <-(Nat.sub_0_r (length ins)).
  eapply (find_meta_spec m _ ins p 0); [done|lia|by apply not_elem_of_nil|].
  by eapply sorted_NoDup, built_part_sorted.
Qed.

Lemma shards_len : (len (shards (snapshot e)) < 2 ^ 63)%Z.
Proof. unfold len. rewrite (Forall2_length _ _ _ (io_shards _ _ _ Hio)). exact Hlen. Qed.

Lemma built_Meta f : f ∈ concat parts → Meta e (path_of f) = Some (Some (in_meta f)).
Proof.
  intros (i & s & ins & Hs & Hi & Hf & Hso & Hc)%built_elem.
  destruct (shardForPath_spec (snapshot e) (path_of f) built_ordered shards_len) as (r & Hr & Hri).
  rewrite (proj2 (Hri i)) in Hr by by exists s. rewrite (meta_in_part i s ins) by done.
  pose proof (sorted_NoDup _ (built_part_sorted i ins Hi)) as Hnd.
  apply list_elem_of_split in Hf as (a & b & ->). do 2 f_equal.
  rewrite filter_app. rewrite map_app in Hnd. apply NoDup_app in Hnd as (_ & Hab & _).
  rewrite (filter_none _ a).
  2: { intros g Hg E. apply (Hab (path_of g)); [by apply (list_elem_of_fmap_2 path_of)|]. rewrite E. by left. }
  by rewrite filter_cons_True.
Qed.

Lemma built_Meta_none p : p ∉ map path_of (concat parts) → Meta e p = Some None.
Proof.
  intros Hp.
  destruct (shardForPath_spec (snapshot e) p built_ordered shards_len) as (r & Hr & Hri).
  destruct r as [z|]; [|unfold Meta; by rewrite Hr].
  destruct (shardForPath_nat _ _ _ Hr) as [i ->].
  destruct (proj1 (Hri i) eq_refl) as (s & Hs & _).
  destruct (Forall2_lookup_l _ _ _ _ _ (io_shards _ _ _ Hio) Hs) as (ins & Hi & _).
  rewrite (meta_in_part i s ins) by done. rewrite filter_none; [done|]. intros f Hf E. apply Hp.
  rewrite <-E. apply (list_elem_of_fmap_2 path_of), list_elem_of_In, in_concat. exists ins.
  split; apply list_elem_of_In; [by eapply list_elem_of_lookup_2|done].
Qed.
End Built.

(** ** A search after a build *)

(** The hits of a file on disk, under the filters of the search. *)
Definition disk_hits `{RegexpEngine} (fs : FS) (mat : Matcher) (opts : SearchOpts) (f : BuildFile)
  : list Match :=
  if ((0 <? o_MaxFileSize opts)%Z && (o_MaxFileSize opts <? bf_Size f)%Z)
     || negb (path_ok (o_PathMatch opts) (Rel f)) then []
  else match ReadFile fs (Rel f) with Some c => scan_lines (Rel f) mat opts c | None => [] end.

(** No file is UTF-16: they are indexed as they are on disk. *)
Definition no_utf16 (fs : FS) (files : list BuildFile) : Prop :=
  ∀ f c, f ∈ files → ReadFile fs (Rel f) = Some c → transcode c = c.

Lemma input_of_hits `{RegexpEngine} `{SymbolExtractor} fs mat opts f :
  (∀ c, ReadFile fs (Rel f) = Some c → transcode c = c) →
  match input_of fs f with
  | Some i => path_of i = Rel f ∧ hits ∅ mat opts i = disk_hits fs mat opts f ∧ on_disk fs ∅ i
  | None => disk_hits fs mat opts f = []
  end.
Proof.
  intros Ht. unfold input_of, disk_hits. destruct (ReadFile fs (Rel f)) as [c|] eqn:Er; cbn [mbind option_bind].
  2: { by destruct (_ || _). }
  unfold text_of. rewrite (Ht c eq_refl). destruct (isBinary c) eqn:Eb; cbn [mbind option_bind].
  - unfold scan_lines. rewrite Eb. by destruct (_ || _).
  - split_and!; [done| |]; [|by intros _].
    unfold hits. cbn [in_meta Path Size in_content]. by rewrite lookup_empty.
Qed.

Lemma inputs_of_hits `{RegexpEngine} `{SymbolExtractor} fs mat opts files :
  no_utf16 fs files →
  concat (map (hits ∅ mat opts) (inputs_of fs files)) = concat (map (disk_hits fs mat opts) files) ∧
  Forall (on_disk fs ∅) (inputs_of fs files) ∧
  ∀ p ms, ms ≠ [] → (p, ms) ∈ map (λ i, (Path (in_meta i), hits ∅ mat opts i)) (inputs_of fs files) ↔
    (p, ms) ∈ map (λ f, (Rel f, disk_hits fs mat opts f)) files.
Proof.
  unfold inputs_of. induction files as [|f files IH]; intros Hu; [done|].
  destruct IH as (IH1 & IH2 & IH3); [intros g c ?; apply Hu; by right|]. cbn [omap list_omap map concat].
  assert (∀ c, ReadFile fs (Rel f) = Some c → transcode c = c) as Hf by (intros c; apply Hu; by left).
  pose proof (input_of_hits fs mat opts f Hf) as Hi. destruct (input_of fs f) as [i|].
  - destruct Hi as (Hp & Hh & Hd). cbn [map concat]. rewrite Hh, IH1. split_and!; [done|by constructor|].
    intros p ms Hms. setoid_rewrite elem_of_cons. rewrite IH3 by done. unfold path_of in Hp. by rewrite Hp.
  - rewrite Hi, IH1. split_and!; [done|done|]. intros p ms Hms. rewrite IH3, elem_of_cons by done.
    split; [by right|]. intros [[= -> ->]|?]; done.
Qed.

Lemma served_parts `{MapOrder} kb idx e ss parts :
  idx_files e = idx → Forall2 (shard_of kb idx) ss parts →
  Forall2 (λ s ins, ∃ m, mapped e s = Some m ∧ Serves m kb ins) ss parts.
Proof.
  intros He Hall. eapply Forall2_impl; [exact Hall|]. intros s ins [_ _ _ _ Hs].
  destruct (Hs e) as (m & Hm & Hb); [by rewrite He|]. exists m. split; [done|by eapply built_serves].
Qed.

Lemma dirty_paths_empty `{MapOrder} : dirty_paths ∅ = [].
Proof.
  destruct (dirty_paths ∅) as [|q l] eqn:E; [done|].
  assert (q ∈ dirty_paths (∅ : gmap bytes bool)) as Hq by (rewrite E; by left).
  by apply dirty_paths_spec in Hq.
Qed.

(** ** Properties *)

(** C5. A search after a full build is a scan of the disk.  Within the limits of
    the format, [FullBuild] succeeds, and a search with no limit for a literal that
    every matching line contains reports, whatever the order in which its jobs
    finish, the matching lines of all the files of the repository in path order,
    with their numbers. *)
Theorem FullBuild_Search `{MapOrder} `{RegexpEngine} `{!RegexpString} `{SymbolExtractor}
    fs e files re opts :
  let mat := search_matcher re opts in
  let disk := map (disk_hits fs mat opts) (merge_sort rel_le files) in
  build_fits fs (cfg e) files → no_utf16 fs files → dirty e = ∅ →
  matcher_ok mat → (o_Limit opts ≤ 0)%Z → lit_required mat (o_Literal opts) →
  ∃ e', FullBuild e fs files = Some (e', None) ∧
    ∀ order, order ≡ₚ seq 0 (length (shards (snapshot e'))) →
    ∃ res, EngineSearch.Search e' fs re opts order = Some res ∧ Truncated res = false ∧
      Matches res = (if o_FilesOnly opts then [] else concat disk) ∧
      ∀ p n, FileCounts res !! p = Some n ↔
        ∃ f, f ∈ files ∧ Rel f = p ∧ disk_hits fs mat opts f ≠ [] ∧ n = length (disk_hits fs mat opts f).
Proof.
  intros mat disk Hfits Hu Hd Hmat Hl Hlit.
  destruct (FullBuild_spec fs e files Hfits) as (e' & He & Hfb). exists e'. split; [done|].
  intros order Ho. pose proof Hfb as [[Hs _ Hss] Hc _ Hdd _ _ _]. rewrite Hd in Hdd.
  assert (no_utf16 fs (merge_sort rel_le files)) as Hu'.
  { intros f c Hf. apply Hu. by rewrite <-(merge_sort_Permutation rel_le files). }
  destruct (inputs_of_hits fs mat opts _ Hu') as (Hh1 & Hh2 & Hh3). rewrite <-Hc in Hh1, Hh2, Hh3.
  destruct (scan_spec e' fs re opts order (InlineKB (cfg e)) _ Hmat Hl Hlit
    (served_parts _ _ e' _ _ eq_refl Hs)) as (res & Hr & Ht & Hm & Hcn); [by rewrite Hdd| |done|].
  { apply sorted_NoDup. exact Hss. }
  exists res. split_and!; [done..| |].
  - rewrite Hm, Hdd. destruct (o_FilesOnly opts); [done|]. unfold scan_of.
    rewrite dirty_paths_empty, app_nil_r. rewrite <-list_fmap_compose. exact Hh1.
  - intros p n. rewrite Hcn, Hdd. unfold scan_of.
    rewrite dirty_paths_empty, app_nil_r. split.
    + intros (ms & Hin & Hms & ->). apply Hh3 in Hin; [|done].
      apply list_elem_of_fmap in Hin as (f & [= -> ->] & Hf). exists f.
      by rewrite (merge_sort_Permutation rel_le files) in Hf.
    + intros (f & Hf & <- & Hms & ->). exists (disk_hits fs mat opts f). split_and!; [|done|done].
      apply Hh3; [done|]. apply (list_elem_of_fmap_2 (λ f, (Rel f, disk_hits fs mat opts f))).
      by rewrite (merge_sort_Permutation rel_le files).
Qed.

(** The files of [demo_fs] in no order, and an engine that makes two shards of them. *)
Definition demo_files : list BuildFile :=
  [mkBF (bs "c.txt") 8 5; mkBF (bs "a/x.go") 12 1700000000; mkBF (bs "b.txt") 0 (-1)].
Definition demo_new : DiskEngine := NewDiskEngine (mkCfg (mkSizes 10 5 0) 10 4 1) ∅ None.

Lemma demo_build_fits : @build_fits tree_order no_symbols demo_fs (cfg demo_new) demo_files.
Proof.
  split; [|split; [done|apply (bool_decide_unpack _); vm_compute; exact I]].
  assert (GroupByDirBoundary demo_files (ShardSize (cfg demo_new)) =
    [[mkBF (bs "a/x.go") 12 1700000000]; [mkBF (bs "b.txt") 0 (-1); mkBF (bs "c.txt") 8 5]]) as ->
    by (vm_compute; reflexivity).
  repeat constructor; apply (bool_decide_unpack _); vm_compute; exact I.
Qed.

Lemma FullBuild_Search_witness :
  let RS := Build_RegexpString (one_engine hello_re) (λ _, bs "func") in
  let opts := mkOpts (bs "func") None false 0 (bs "func") true 0 0 in
  ∃ e' res,
    @FullBuild tree_order no_symbols demo_new demo_fs demo_files = Some (e', None) ∧
    @EngineSearch.Search tree_order (one_engine hello_re) RS e' demo_fs tt opts [1; 0] = Some res ∧
    map m_Path (Matches res) = [bs "a/x.go"; bs "c.txt"].
Proof.
  intros RS opts.
  destruct (@FullBuild_Search tree_order (one_engine hello_re) RS no_symbols
    demo_fs demo_new demo_files tt opts) as (e' & He & Hs).
  - exact demo_build_fits.
  - intros f c Hf. simpl in Hf. repeat (apply elem_of_cons in Hf as [->|Hf];
      [intros Hc; vm_compute in Hc; injection Hc as <-; vm_compute; reflexivity|]). destruct (not_elem_of_nil _ Hf).
  - reflexivity.
  - split; [|done]. intros Hh. vm_compute in Hh. discriminate.
  - done.
  - apply (@plain_required latin1_case (one_engine hello_re)
      (@search_matcher (one_engine hello_re) RS tt opts)).
    + split; [|done]. intros Hh. vm_compute in Hh. discriminate.
    + vm_compute. discriminate.
    + apply (bool_decide_unpack _). vm_compute. exact I.
  - assert (length (shards (snapshot e')) = 2) as Hn.
    { transitivity (length (shards (snapshot (default (e', None)
        (@FullBuild tree_order no_symbols demo_new demo_fs demo_files)).1))); [by rewrite He|].
      vm_compute. reflexivity. }
    destruct (Hs [1; 0]) as (res & Hr & _ & Hm & _); [rewrite Hn; apply perm_swap|].
    exists e', res. split; [exact He|]. split; [exact Hr|]. rewrite Hm. vm_compute. reflexivity.
Defined.

(** After a full build [Meta] finds exactly the indexed files: for the path of
    each text file of the repository, whatever its shard, it returns the metadata
    the file was given with; for any other path it finds nothing; it never panics. *)
Theorem FullBuild_Meta `{MapOrder} `{SymbolExtractor} fs e files :
  build_fits fs (cfg e) files →
  ∃ e', FullBuild e fs files = Some (e', None) ∧
    NumFiles e' = len (inputs_of fs files) ∧
    (∀ f, f ∈ inputs_of fs files → Meta e' (path_of f) = Some (Some (in_meta f))) ∧
    (∀ p, p ∉ map path_of (inputs_of fs files) → Meta e' p = Some None).
Proof.
  intros Hfits. destruct (FullBuild_spec fs e files Hfits) as (e' & He & Hfb). exists e'.
  pose proof (fb_concat _ _ _ _ _ Hfb) as Hc.
  assert (concat (parts_of fs (GroupByDirBoundary files (ShardSize (cfg e)))) ≡ₚ inputs_of fs files) as Hp.
  { rewrite Hc. unfold inputs_of. by rewrite (merge_sort_Permutation rel_le files). }
  assert (len (parts_of fs (GroupByDirBoundary files (ShardSize (cfg e)))) < 2 ^ 63)%Z as Hl.
  { pose proof (concat_len _ (io_ne _ _ _ (fb_order _ _ _ _ _ Hfb))) as Hl. rewrite Hc in Hl.
    assert (length (inputs_of fs (merge_sort rel_le files)) ≤ length files) as Hle.
    { pose proof (sublist_length _ _ (inputs_of_paths fs (merge_sort rel_le files))) as Hsl.
      rewrite !length_map, (Permutation_length (merge_sort_Permutation rel_le files)) in Hsl. done. }
    destruct Hfits as (_ & Hlf & _). unfold len in *. lia. }
  split_and!; [done| | |].
  - unfold NumFiles. rewrite (fb_files _ _ _ _ _ Hfb). unfold len. by rewrite Hp.
  - intros f Hf. eapply built_Meta; [apply Hfb|exact Hl|]. by rewrite Hp.
  - intros p Hn. eapply built_Meta_none; [apply Hfb|exact Hl|].
    intros (f & -> & Hf)%list_elem_of_fmap. apply Hn. apply (list_elem_of_fmap_2 path_of). by rewrite <-Hp.
Qed.

Lemma FullBuild_Meta_witness :
  ∃ e', @FullBuild tree_order no_symbols demo_new demo_fs demo_files = Some (e', None) ∧
    NumFiles e' = 3%Z ∧ Meta e' (bs "c.txt") = Some (Some (mkMeta (bs "c.txt") 8 5)) ∧
    Meta e' (bs "b") = Some None.
Proof.
  destruct (@FullBuild_Meta tree_order no_symbols demo_fs demo_new demo_files demo_build_fits)
    as (e' & He & Hn & Hm & Ho).
  exists e'. split; [exact He|]. split; [rewrite Hn; vm_compute; reflexivity|]. split.
  - apply (Hm (mkInput (mkMeta (bs "c.txt") 8 5) (bs "FUNCtion") [])).
    apply list_elem_of_lookup. exists 0. vm_compute. reflexivity.
  - apply Ho. apply (bool_decide_unpack _). vm_compute. exact I.
Defined.

(** A search does not depend on scheduling: whatever the order in which the
    workers finish the jobs of the shards, the result is the same, panics included. *)
Theorem DiskSearch_schedule `{MapOrder} `{RegexpEngine} `{!RegexpString} e fs re opts o1 o2 :
  NoDup o1 → o1 ≡ₚ o2 →
  EngineSearch.Search e fs re opts o1 = EngineSearch.Search e fs re opts o2.
Proof.
  intros Hnd Hp. unfold EngineSearch.Search. by rewrite (run_jobs_schedule _ _ o1 o2) by
    (done || by rewrite length_replicate).
Qed.

Lemma DiskSearch_schedule_witness :
  let RS := Build_RegexpString (one_engine hello_re) (λ _, bs "func") in
  let opts := mkOpts (bs "func") None false 1 (bs "func") true 0 0 in
  ∃ e', @FullBuild tree_order no_symbols demo_new demo_fs demo_files = Some (e', None) ∧
    @EngineSearch.Search tree_order (one_engine hello_re) RS e' demo_fs tt opts [1; 0] =
    @EngineSearch.Search tree_order (one_engine hello_re) RS e' demo_fs tt opts [0; 1].
Proof.
  intros RS opts.
  destruct (@FullBuild_spec tree_order no_symbols demo_fs demo_new demo_files demo_build_fits)
    as (e' & He & _). exists e'. split; [exact He|].
  apply (@DiskSearch_schedule tree_order (one_engine hello_re) RS e' demo_fs tt opts [1; 0] [0; 1]).
  - apply (bool_decide_unpack _). vm_compute. exact I.
  - apply perm_swap.
Defined.
