(* ===== verification/EngineRestart.v ===== *)
(** * A restart: internal/shard/engine.go, Reconcile

    A new engine over the shard directory of a full build opens the same shards,
    and its dirty list is the difference between the shards and the disk. *)

From S2P Require Import Prelude GoBytes Trigram Text Lines Regexp Literal Matcher Symbol Index.
From S2P Require Import IndexSearch Codec Shard ShardLayout ShardRead ShardSpec Engine Scan.
From S2P Require Import EngineSearch EngineSpec EngineScan EngineBuild.

(** ** The difference *)

(** The files on disk by path, as [Reconcile] collects them. *)
Definition disk_map (files : list BuildFile) : gmap bytes BuildFile :=
  foldl (λ m f, <[Rel f := f]> m) ∅ files.

Definition indexed_map (ins : list input) : gmap bytes FileMeta :=
  list_to_map (map (λ i, (path_of i, in_meta i)) ins).

Definition stale (m : FileMeta) (f : BuildFile) : bool :=
  bool_decide (bf_Size f ≠ Size m) || bool_decide (bf_MtimeNS f ≠ MtimeNS m).

(** The mark of a path: deleted when it is no longer on disk, dirty when it is new or
    its size or time changed. *)
Definition mark_of (indexed : gmap bytes FileMeta) (onDisk : gmap bytes BuildFile) (p : bytes)
  : option bool :=
  match indexed !! p, onDisk !! p with
  | Some _, None => Some true
  | Some m, Some f => if stale m f then Some false else None
  | None, Some _ => Some false
  | None, None => None
  end.

Lemma disk_map_lookup files p : is_Some (disk_map files !! p) ↔ p ∈ map Rel files.
Proof.
  unfold disk_map. induction files as [|f files IH] using rev_ind.
  { simpl. rewrite lookup_empty. split; [by intros []|by intros ?%elem_of_nil]. }
  rewrite foldl_app, map_app, elem_of_app. cbn [foldl map]. rewrite list_elem_of_singleton.
  rewrite lookup_insert. destruct (decide (Rel f = p)) as [E|E].
  - split; [by right|by eexists].
  - rewrite IH. split; [by left|]. intros [?|?]; [done|congruence].
Qed.

Lemma indexed_map_Some ins p m :
  indexed_map ins !! p = Some m → p ∈ map path_of ins ∧ p = Path m.
Proof.
  intros (i & E & Hi)%elem_of_list_to_map_2%list_elem_of_fmap. injection E as -> ->.
  split; [by apply (list_elem_of_fmap_2 path_of)|done].
Qed.

Lemma indexed_map_None ins p : indexed_map ins !! p = None → p ∉ (list_to_set (map path_of ins) : gset bytes).
Proof.
  rewrite elem_of_list_to_set. intros Hn (i & -> & Hi)%list_elem_of_fmap.
  apply not_elem_of_list_to_map_2 in Hn. apply Hn. rewrite <-list_fmap_compose.
  by apply (list_elem_of_fmap_2 path_of).
Qed.

(** ** The loops *)

Definition check_one (onDisk : gmap bytes BuildFile) (m : FileMeta) : option bool :=
  match onDisk !! Path m with
  | None => Some true
  | Some f => if stale m f then Some false else None
  end.

Lemma check_file_one onDisk s nb d m :
  check_file onDisk (s, nb, d) m =
    ({[Path m]} ∪ s, (nb + Size m)%Z,
     match check_one onDisk m with Some b => <[Path m := b]> d | None => d end).
Proof.
  unfold check_file, check_one, stale. destruct (onDisk !! Path m); [|done]. by destruct (_ || _).
Qed.

Lemma check_files onDisk (ins : list input) s nb d :
  NoDup (map path_of ins) →
  ∃ d', foldl (check_file onDisk) (s, nb, d) (map in_meta ins) =
      (list_to_set (map path_of ins) ∪ s, (nb + total_size ins)%Z, d') ∧
    ∀ p, d' !! p = match m ← indexed_map ins !! p; check_one onDisk m with
                   | Some b => Some b
                   | None => d !! p
                   end.
Proof.
  revert s nb d. induction ins as [|i ins IH]; intros s nb d Hnd; cbn [map foldl].
  { exists d. split; [|done]. unfold total_size. simpl. by rewrite (left_id_L ∅ (∪)), Z.add_0_r. }
  cbn [map] in Hnd. apply NoDup_cons in Hnd as [Hi Hnd]. rewrite check_file_one.
  destruct (IH ({[Path (in_meta i)]} ∪ s) (nb + Size (in_meta i))%Z
    match check_one onDisk (in_meta i) with Some b => <[Path (in_meta i) := b]> d | None => d end Hnd)
    as (d' & Hr & Hd). exists d'. rewrite Hr. split.
  - apply (f_equal2 pair); [apply (f_equal2 pair)|done].
    + cbn [list_to_set]. unfold path_of. set_solver.
    + unfold total_size. cbn [foldr]. lia.
  - intros p. rewrite Hd.
    assert (indexed_map ins !! path_of i = None) as Hnone.
    { apply not_elem_of_list_to_map_1. rewrite <-list_fmap_compose. exact Hi. }
    change (indexed_map (i :: ins)) with (<[path_of i := in_meta i]> (indexed_map ins)).
    rewrite lookup_insert. destruct (decide (path_of i = p)) as [<-|Hne].
    + rewrite Hnone. cbn [mbind option_bind]. destruct (check_one onDisk (in_meta i)); [|done].
      apply lookup_insert_eq.
    + destruct (m ← indexed_map ins !! p; check_one onDisk m); [done|].
      destruct (check_one onDisk (in_meta i)); [|done]. by apply lookup_insert_ne.
Qed.

Lemma mark_new (inShard : gset bytes) (files : list BuildFile) (d : gmap bytes bool) p :
  foldl (λ d f, if decide (Rel f ∈ inShard) then d else <[Rel f := false]> d) d files !! p =
    if decide (p ∈ map Rel files ∧ p ∉ inShard) then Some false else d !! p.
Proof.
  induction files as [|f files IH] using rev_ind.
  { cbn [foldl]. rewrite decide_False; [done|]. by intros [?%elem_of_nil _]. }
  rewrite foldl_app, map_app. cbn [foldl map]. destruct (decide (Rel f ∈ inShard)) as [Hf|Hf].
  - rewrite IH. apply decide_ext. rewrite elem_of_app, list_elem_of_singleton. naive_solver.
  - rewrite lookup_insert. destruct (decide (Rel f = p)) as [<-|Hne].
    + rewrite decide_True; [done|]. split; [|done]. apply elem_of_app. right. by left.
    + rewrite IH. apply decide_ext. rewrite elem_of_app, list_elem_of_singleton. naive_solver.
Qed.

Section Restart.
Context `{MapOrder}.

Lemma served_files s kb ins : Serves s kb ins → Files s = Some (map in_meta ins).
Proof.
  intros Hs. unfold Files. rewrite (serves_num (s:=s)). unfold len. rewrite Nat2Z.id.
  apply mapM_Some_2. apply Forall2_same_length_lookup_2.
  { by rewrite length_seq, length_map. }
  intros i x m Hi Hm. apply lookup_seq in Hi as [-> _]. cbn [Nat.add].
  apply list_lookup_fmap_Some in Hm as (f & -> & Hf). by apply serves_file.
Qed.

Lemma check_shards_spec e kb idx onDisk ss parts st :
  Forall2 (shard_of kb idx) ss parts →
  (∀ s, s ∈ ss → idx_files e !! s_path s = idx !! s_path s) →
  check_shards e onDisk ss st = Some (foldl (check_file onDisk) st (map in_meta (concat parts))).
Proof.
  intros Hall. revert st. induction Hall as [|s ins ss parts Hso Hall IH]; intros st Hi; [done|].
  cbn [check_shards concat]. destruct (so_served _ _ _ _ Hso e) as (m & -> & Hb); [apply Hi; by left|].
  rewrite (served_files m kb ins) by by eapply built_serves. cbn [mbind option_bind].
  rewrite IH, map_app, foldl_app; [done|]. intros t Ht. apply Hi. by right.
Qed.

Lemma open_shards_spec kb idx ss parts :
  Forall2 (shard_of kb idx) ss parts →
  open_shards idx (map (λ s, mkMS (s_path s) (pathMin s) (pathMax s)) ss) = Some ss.
Proof.
  induction 1 as [|s ins ss parts Hso Hall IH]; [done|]. cbn [map open_shards ms_File].
  destruct (so_file _ _ _ _ Hso) as (out & -> & ->). rewrite IH. done.
Qed.

Lemma CleanOrphans_keeps idx m n :
  n ∈ map ms_File (Shards m) → CleanOrphans idx (Some m) !! n = idx !! n.
Proof.
  intros Hn. unfold CleanOrphans. destruct (idx !! n) as [out|] eqn:E.
  - apply map_lookup_filter_Some. split; [done|]. by intros [_ ?].
  - apply map_lookup_filter_None. by left.
Qed.
End Restart.

(** ** Directories *)

Lemma shardsForPrefix_loop_range prefix k ss i :
  i ∈ shardsForPrefix_loop prefix k ss → (k ≤ i < k + len ss)%Z.
Proof.
  revert k. induction ss as [|s ss IH]; intros k Hi; [by apply elem_of_nil in Hi|]. simpl in Hi.
  unfold len in *. cbn [length]. destruct (bytes_ltb _ _); [apply IH in Hi; lia|].
  destruct (_ || _); [|by apply elem_of_nil in Hi].
  apply elem_of_cons in Hi as [->|Hi%IH]; lia.
Qed.

Definition below (dir p : bytes) : Prop := has_prefix p (dir ++ [slash]) = true.
#[export] Instance below_dec dir p : Decision (below dir p).
Proof. unfold below. apply _. Defined.

Lemma mark_deleted (ps : list bytes) (d : gmap bytes bool) p :
  foldl (λ d p, <[p := true]> d) d ps !! p = if decide (p ∈ ps) then Some true else d !! p.
Proof.
  induction ps as [|q ps IH] using rev_ind; [done|]. rewrite foldl_app. cbn [foldl].
  rewrite lookup_insert. destruct (decide (q = p)) as [->|Hne].
  - rewrite decide_True; [done|]. apply elem_of_app. right. by left.
  - rewrite IH. apply decide_ext. rewrite elem_of_app, list_elem_of_singleton. naive_solver.
Qed.

Section Prefix.
Context `{MapOrder} (kb : Z) (e : DiskEngine) (parts : list (list input)).
Hypothesis Hio : in_order kb e parts.

Lemma below_paths i s ins dir :
  shards (snapshot e) !! i = Some s → parts !! i = Some ins →
  ∃ ps, paths_below e dir s = Some ps ∧
    ∀ p, p ∈ ps ↔ (p = dir ∨ below dir p) ∧ p ∈ map path_of ins.
Proof.
  intros Hs Hi. unfold paths_below.
  destruct (so_served _ _ _ _ (Forall2_lookup_lr _ _ _ _ _ _ (io_shards _ _ _ Hio) Hs Hi) e eq_refl)
    as (m & -> & Hb). rewrite (served_files m kb ins) by by eapply built_serves.
  cbn [mbind option_bind]. eexists. split; [done|]. intros p.
  rewrite list_elem_of_filter, orb_true_iff, bool_decide_eq_true.
  by rewrite <-list_fmap_compose.
Qed.

Lemma all_below dir idxs :
  (∀ i, i ∈ idxs → 0 ≤ i < len parts)%Z →
  ∃ ss pss, mapM (idx (shards (snapshot e))) idxs = Some ss ∧ mapM (paths_below e dir) ss = Some pss ∧
    ∀ p, p ∈ concat pss ↔ (p = dir ∨ below dir p) ∧
      ∃ i ins, i ∈ idxs ∧ parts !! Z.to_nat i = Some ins ∧ p ∈ map path_of ins.
Proof.
  induction idxs as [|i idxs IH]; intros Hr.
  { exists [], []. split_and!; [done..|]. intros p. split; [by intros ?%elem_of_nil|].
    by intros (_ & ? & ? & ?%elem_of_nil & _). }
  destruct IH as (ss & pss & Hss & Hpss & Hin); [intros j Hj; apply Hr; by right|].
  assert (0 ≤ i < len parts)%Z as Hi by (apply Hr; by left).
  destruct (lookup_lt_is_Some_2 parts (Z.to_nat i)) as [ins Hins]; [unfold len in Hi; lia|].
  destruct (Forall2_lookup_r _ _ _ _ _ (io_shards _ _ _ Hio) Hins) as (s & Hs & _).
  destruct (below_paths _ s ins dir Hs Hins) as (ps & Hps & Hpin).
  exists (s :: ss), (ps :: pss). split_and!.
  - cbn [mapM]. rewrite <-(Z2Nat.id i) at 1 by lia. rewrite idx_nat, Hs. cbn [mbind option_bind].
    by rewrite Hss.
  - cbn [mapM]. rewrite Hps. cbn [mbind option_bind]. by rewrite Hpss.
  - intros p. cbn [concat]. rewrite elem_of_app, Hpin, Hin. setoid_rewrite elem_of_cons. split.
    + intros [[? ?]|(? & j & ins' & ? & ? & ?)]; (split; [done|]); [exists i, ins|exists j, ins']; auto.
    + intros (? & j & ins' & [->|Hj] & Hj' & Hp); [left|right]; split; try done; [by simplify_eq|].
      exists j, ins'. auto.
Qed.
Lemma MarkDeletedPrefix_spec dir :
  ∃ d, MarkDeletedPrefix e dir = Some (set_dirty e d) ∧
    ∀ p, (d !! p = Some true ∧ (p = dir ∨ below dir p) ∧ p ∈ map path_of (concat parts)) ∨
      d !! p = dirty e !! p ∧ ¬ (p ∈ map path_of (concat parts) ∧ below dir p).
Proof.
  destruct (all_below dir (shardsForPrefix (snapshot e) (dir ++ [slash]))) as (ss & pss & Hss & Hpss & Hin).
  { intros i Hi%shardsForPrefix_loop_range. unfold len in *.
    rewrite <-(Forall2_length _ _ _ (io_shards _ _ _ Hio)). lia. }
  unfold MarkDeletedPrefix. rewrite Hss. cbn [mbind option_bind]. rewrite Hpss. cbn [mbind option_bind].
  eexists. split; [done|]. intros p. rewrite mark_deleted.
  destruct (decide (p ∈ concat pss)) as [Hp|Hp]; [left|right]; (split; [done|]).
  { apply Hin in Hp as (Hb & i & ins & _ & Hi & (f & -> & Hf)%list_elem_of_fmap). split; [done|].
    apply (list_elem_of_fmap_2 path_of), list_elem_of_In, in_concat. exists ins.
    split; apply list_elem_of_In; [by eapply list_elem_of_lookup_2|done]. }
  intros [(f & -> & Hf)%list_elem_of_fmap Hb]. apply Hp, Hin. split; [by right|].
  destruct (built_elem kb e parts Hio f Hf) as (i & s & ins & Hs & Hi & Hfi & _ & Hc).
  exists (Z.of_nat i), ins. rewrite Nat2Z.id. split_and!; [|done|by apply (list_elem_of_fmap_2 path_of)].
  eapply shardsForPrefix_complete; [by eapply built_ordered|done|done|done].
Qed.

(** A new engine over the directory and the manifest of [e]. *)
Lemma Reconcile_spec c now :
  manifest e = Some (ManifestFromShards (shards (snapshot e)) (seqNo (snapshot e))) →
  ∃ d, Reconcile (NewDiskEngine c (idx_files e) (manifest e)) now =
      Some (mkEngine c (snapshot e) (Z.of_nat (size (disk_map now))) (total_size (concat parts)) d []
              (CleanOrphans (idx_files e) (manifest e)) (manifest e)) ∧
    (∀ s, s ∈ shards (snapshot e) → CleanOrphans (idx_files e) (manifest e) !! s_path s = idx_files e !! s_path s) ∧
    ∀ p, d !! p = mark_of (indexed_map (concat parts)) (disk_map now) p.
Proof.
  intros Hm. destruct Hio as [Hs _ Hss].
  assert (∀ s, s ∈ shards (snapshot e) → CleanOrphans (idx_files e) (manifest e) !! s_path s
            = idx_files e !! s_path s) as Hkeep.
  { intros s Hin. rewrite Hm. apply CleanOrphans_keeps. cbn [ManifestFromShards Shards].
    rewrite <-list_fmap_compose. by apply (list_elem_of_fmap_2 s_path). }
  unfold Reconcile, NewDiskEngine. cbn [manifest idx_files]. rewrite Hm in *. cbn [ManifestFromShards SeqNo Shards].
  rewrite (open_shards_spec _ _ _ _ Hs). cbn [mbind option_bind dirty]. fold (disk_map now).
  fold (ManifestFromShards (shards (snapshot e)) (seqNo (snapshot e))).
  rewrite (check_shards_spec _ _ _ _ _ _ _ Hs) by exact Hkeep. cbn [mbind option_bind].
  destruct (check_files (disk_map now) _ ∅ 0%Z ∅ (sorted_NoDup _ Hss)) as (d' & -> & Hd).
  cbn [mbind option_bind snapshot cfg totalFiles totalBytes pending idx_files]. eexists. split.
  { rewrite Z.add_0_l. by destruct (snapshot e). }
  split; [exact Hkeep|]. intros p. rewrite mark_new, Hd, lookup_empty. set (ins := concat _) in *.
  rewrite (right_id_L ∅ (∪)).
  unfold mark_of. destruct (indexed_map ins !! p) as [m|] eqn:E1; cbn [mbind option_bind].
  - apply indexed_map_Some in E1 as [Hp ->]. rewrite decide_False.
    2: { intros [_ Hn]. apply Hn. by apply elem_of_list_to_set. }
    unfold check_one. destruct (disk_map now !! Path m); [|done]. by destruct (stale m b).
  - apply indexed_map_None in E1. destruct (disk_map now !! p) as [f|] eqn:E2.
    + rewrite decide_True; [done|]. split; [|done].
      apply disk_map_lookup. by eexists.
    + rewrite decide_False; [done|]. intros [Hn%disk_map_lookup _]. rewrite E2 in Hn. by destruct Hn.
Qed.
End Prefix.

(** ** Properties *)

(** C17. A restart finds the difference.  A new engine over the shard directory and
    the manifest of a full build opens the same shards, and [Reconcile] with any
    list of the files on disk marks exactly the paths that differ: deleted when an
    indexed file is gone, dirty when a file is new or has another size or
    modification time; it never panics. *)
Theorem Reconcile_marks `{MapOrder} `{SymbolExtractor} fs e files now :
  build_fits fs (cfg e) files →
  ∃ e' r, FullBuild e fs files = Some (e', None) ∧
    Reconcile (NewDiskEngine (cfg e) (idx_files e') (manifest e')) now = Some r ∧
    snapshot r = snapshot e' ∧ NumFiles r = Z.of_nat (size (disk_map now)) ∧
    (∀ s, s ∈ shards (snapshot r) → idx_files r !! s_path s = idx_files e' !! s_path s) ∧
    ∀ p, dirty r !! p = mark_of (indexed_map (inputs_of fs (merge_sort rel_le files))) (disk_map now) p.
Proof.
  intros Hfits. destruct (FullBuild_spec fs e files Hfits) as (e' & He & Hfb). exists e'.
  destruct (Reconcile_spec _ e' _ (fb_order _ _ _ _ _ Hfb) (cfg e) now (fb_manifest _ _ _ _ _ Hfb)) as (d & Hr & Hi & Hd).
  eexists. split; [done|]. split; [exact Hr|]. split_and!; [done|done|exact Hi|].
  intros p. cbn [dirty]. by rewrite Hd, (fb_concat _ _ _ _ _ Hfb).
Qed.

Lemma Reconcile_marks_witness :
  let now := [mkBF (bs "c.txt") 8 6; mkBF (bs "b.txt") 0 (-1); mkBF (bs "new") 1 1] in
  ∃ e' r, @FullBuild tree_order no_symbols demo_new demo_fs demo_files = Some (e', None) ∧
    Reconcile (NewDiskEngine (cfg demo_new) (idx_files e') (manifest e')) now = Some r ∧
    snapshot r = snapshot e' ∧
    map (λ p, dirty r !! p) [bs "a/x.go"; bs "b.txt"; bs "c.txt"; bs "new"; bs "zz"] =
      [Some true; None; Some false; Some false; None].
Proof.
  intros now.
  destruct (@Reconcile_marks tree_order no_symbols demo_fs demo_new demo_files now demo_build_fits)
    as (e' & r & He & Hr & Hs & _ & _ & Hd).
  exists e', r. split; [exact He|]. split; [exact Hr|]. split; [exact Hs|].
  transitivity (map (mark_of (indexed_map (@inputs_of no_symbols demo_fs (merge_sort rel_le demo_files))) (disk_map now))
    [bs "a/x.go"; bs "b.txt"; bs "c.txt"; bs "new"; bs "zz"]).
  - apply map_ext. exact Hd.
  - vm_compute. reflexivity.
Defined.

(** Removing a directory marks its files.  After a full build, for every directory
    [MarkDeletedPrefix] never panics and marks as deleted exactly the indexed paths
    below it (and the path itself at most), whatever the shards they are in: the
    shards it skips hold none of them. *)
Theorem MarkDeletedPrefix_exact `{MapOrder} `{SymbolExtractor} fs e files dir :
  build_fits fs (cfg e) files →
  ∃ e' e'', FullBuild e fs files = Some (e', None) ∧ MarkDeletedPrefix e' dir = Some e'' ∧
    snapshot e'' = snapshot e' ∧
    ∀ p, p ≠ dir → dirty e'' !! p =
      if decide (p ∈ map path_of (inputs_of fs files) ∧ below dir p) then Some true else dirty e' !! p.
Proof.
  intros Hfits. destruct (FullBuild_spec fs e files Hfits) as (e' & He & Hfb). exists e'.
  set (parts := parts_of _ _) in *.
  assert (∀ p, p ∈ map path_of (inputs_of fs files) ↔ p ∈ map path_of (concat parts)) as Hpp.
  { intros p. rewrite (fb_concat _ _ _ _ _ Hfb). unfold inputs_of.
    by rewrite (merge_sort_Permutation rel_le files). }
  destruct (MarkDeletedPrefix_spec _ e' parts (fb_order _ _ _ _ _ Hfb) dir) as (d & Hm & Hd).
  eexists. split_and!; [done|exact Hm|done|]. intros p Hne. cbn [dirty set_dirty].
  destruct (Hd p) as [(-> & Hb & Hp)|[-> Hn]].
  - rewrite decide_True; [done|]. rewrite Hpp. split; [done|]. by destruct Hb.
  - rewrite decide_False; [done|]. by rewrite Hpp.
Qed.

Lemma MarkDeletedPrefix_exact_witness :
  ∃ e' e'', @FullBuild tree_order no_symbols demo_new demo_fs demo_files = Some (e', None) ∧
    MarkDeletedPrefix e' (bs "a") = Some e'' ∧
    dirty e'' !! bs "a/x.go" = Some true ∧ dirty e'' !! bs "b.txt" = dirty e' !! bs "b.txt".
Proof.
  destruct (@MarkDeletedPrefix_exact tree_order no_symbols demo_fs demo_new demo_files (bs "a")
    demo_build_fits) as (e' & e'' & He & Hm & _ & Hd).
  exists e', e''. split; [exact He|]. split; [exact Hm|]. split; rewrite Hd by (vm_compute; discriminate);
    vm_compute; reflexivity.
Defined.
