(* ===== verification/EngineLimit.v ===== *)
(** * Limits of the disk engine's search: internal/shard/engine.go, Search

    The merge of the shards cuts at the limit, but the scan of the dirty files only
    stops after the file that reaches it, so a search may return more matches than
    its limit. *)

From S2P Require Import Prelude GoBytes Trigram Text Lines Regexp Literal Matcher Symbol Index.
From S2P Require Import IndexSearch Codec Shard ShardLayout Engine Scan EngineSearch EngineSpec.
From S2P Require Import EngineScan.

Section Limit.
Context `{MapOrder} `{RegexpEngine} (fs : FS) (mat : Matcher) (opts : SearchOpts).
Hypothesis Hmat : matcher_ok mat.
Hypothesis Hlim : (0 < o_Limit opts)%Z.
Hypothesis Hfo : o_FilesOnly opts = false.

Lemma scan_lines_limit rel c : (len (scan_lines rel mat opts c) ≤ o_Limit opts)%Z.
Proof.
  unfold scan_lines. destruct (isBinary c); [unfold len; simpl; lia|].
  unfold scan_cap. rewrite Hfo. unfold capped. rewrite (proj2 (Z.ltb_lt _ _) Hlim).
  unfold len. rewrite length_take. lia.
Qed.

(** The scan of the dirty files, from an open result. *)
Lemma search_dirty_limit paths res r :
  Truncated res = false → (len (Matches res) < o_Limit opts)%Z →
  search_dirty fs mat opts paths res = Some r →
  (len (Matches r) < 2 * o_Limit opts)%Z ∧
  Truncated r = (o_Limit opts <=? len (Matches r))%Z.
Proof.
  revert res. induction paths as [|p paths IH]; intros res Ht Hl; cbn [search_dirty].
  { intros [= <-]. split; [lia|]. rewrite Ht. symmetry. apply Z.leb_gt. lia. }
  destruct (negb _); [by apply IH|]. destruct (Stat fs p) as [[size t]|]; [|by apply IH].
  destruct (_ && _); [by apply IH|]. rewrite (verifyFile_spec _ mat opts Hmat). cbn [mbind option_bind].
  set (ms := match ReadFile fs p with Some c => _ | None => _ end).
  assert (len ms ≤ o_Limit opts)%Z as Hms.
  { unfold ms. destruct (ReadFile fs p); [apply scan_lines_limit|unfold len; simpl; lia]. }
  clearbody ms. set (res' := if bool_decide (ms = []) then res else _).
  assert (Matches res' = Matches res ++ ms ∧ Truncated res' = false) as [Hm' Ht'].
  { unfold res'. case_bool_decide as E; [by rewrite E, app_nil_r|]. by rewrite Hfo. }
  clearbody res'. rewrite (proj2 (Z.ltb_lt _ _) Hlim). cbn [andb].
  destruct (Z.leb_spec (o_Limit opts) (len (Matches res'))) as [Hge|Hlt]; [|by apply IH].
  intros [= <-]. cbn [Matches Truncated]. split; [|symmetry; by apply Z.leb_le].
  rewrite Hm', len_app. lia.
Qed.

(** The merge cuts at the limit. *)
Lemma merge_slots_limit slots res r done :
  Truncated res = false → (len (Matches res) < o_Limit opts)%Z →
  merge_slots opts slots res = (r, done) →
  if done then len (Matches r) = o_Limit opts ∧ Truncated r = true
  else (len (Matches r) < o_Limit opts)%Z ∧ Truncated r = false.
Proof.
  revert res. induction slots as [|sr slots IH]; intros res Ht Hl; cbn [merge_slots].
  { by intros [= <- <-]. }
  rewrite Hfo, (proj2 (Z.ltb_lt _ _) Hlim). cbn [andb].
  destruct (Z.leb_spec (o_Limit opts) (len (Matches res ++ sr_matches sr))) as [Hge|Hlt].
  - intros [= <- <-]. cbn [Matches Truncated]. split; [|done].
    unfold len in *. rewrite length_take. lia.
  - by apply IH.
Qed.
End Limit.

(** ** Properties *)

(** C37. A positive limit bounds a search of the disk engine by twice the limit: the
    result has fewer than [2 * Limit] matches, and it is marked truncated exactly
    when it has [Limit] of them or more. *)
Theorem DiskSearch_limit_bound `{MapOrder} `{RegexpEngine} `{!RegexpString} e fs re opts order res :
  matcher_ok (search_matcher re opts) → (0 < o_Limit opts)%Z → o_FilesOnly opts = false →
  EngineSearch.Search e fs re opts order = Some res →
  (len (Matches res) < 2 * o_Limit opts)%Z ∧
  (Truncated res = true ↔ o_Limit opts ≤ len (Matches res))%Z.
Proof.
  intros Hmat Hl Hfo. unfold EngineSearch.Search. intros (slots & _ & Hr)%bind_Some.
  destruct (merge_slots opts slots _) as [r done] eqn:Em.
  pose proof (merge_slots_limit opts Hl Hfo slots (mkResult [] ∅ false) r done eq_refl Hl Em) as Hd. destruct done.
  - injection Hr as <-. destruct Hd as [-> ->]. split; [lia|split; [lia|done]].
  - destruct Hd as [Hlen Ht].
    destruct (search_dirty_limit fs _ opts Hmat Hl Hfo _ r res Ht Hlen Hr) as [Hlt ->].
    split; [done|]. by rewrite Z.leb_le.
Qed.

(** Two dirty files of two lines each, and no shard. *)
Definition two_dirty_fs : FS := {|
  ReadFile p := Some (bs "hello" ++ newline :: bs "hello");
  Stat p := Some (11%Z, 0%Z);
|}.
Definition two_dirty : DiskEngine :=
  mkEngine (mkCfg (mkSizes 10 5 0) 10 4 0) (mkSnap [] 0) 0 0
    (<[bs "a" := false]> {[bs "b" := false]}) [] ∅ None.

Lemma DiskSearch_limit_bound_witness :
  let RS := Build_RegexpString (one_engine hello_re) (λ _, bs "hello") in
  let opts := mkOpts [] None false 3 (bs "hello") true 0 0 in
  ∃ res, @EngineSearch.Search tree_order (one_engine hello_re) RS two_dirty two_dirty_fs tt opts []
      = Some res ∧
    (len (Matches res) < 6)%Z ∧ (Truncated res = true ↔ 3 ≤ len (Matches res))%Z.
Proof.
  intros RS opts. eexists. split; [vm_compute; reflexivity|].
  apply (@DiskSearch_limit_bound tree_order (one_engine hello_re) RS two_dirty two_dirty_fs tt opts []).
  - split; [|done]. intros Hh. vm_compute in Hh. discriminate.
  - reflexivity.
  - reflexivity.
  - vm_compute. reflexivity.
Defined.

(** The limit is not a bound: with two dirty files of two matching lines each, a
    search with a limit of 3 returns 4 matches. *)
Theorem DiskSearch_overruns_limit :
  let RS := Build_RegexpString (one_engine hello_re) (λ _, bs "hello") in
  let opts := mkOpts [] None false 3 (bs "hello") true 0 0 in
  (λ res, (map (λ m, (m_Path m, m_Line m)) (Matches res), Truncated res)) <$>
    @EngineSearch.Search tree_order (one_engine hello_re) RS two_dirty two_dirty_fs tt opts [] =
  Some ([(bs "a", 1); (bs "a", 2); (bs "b", 1); (bs "b", 2)], true).
Proof. vm_compute. reflexivity. Qed.
