(* ===== verification/RebuildSpec.v ===== *)
(** * The dirty list across a rebuild: internal/shard/engine.go, rebuild

    What a cycle clears: the entries it copied that are not deferred and have the
    same flag again when it ends. *)

From S2P Require Import Prelude GoBytes Trigram Text Lines Regexp Literal Matcher Symbol Index.
From S2P Require Import IndexSearch Codec Shard ShardLayout ShardRead ShardSpec Engine Rebuild Scan.
From S2P Require Import EngineSearch EngineSpec EngineScan EngineBuild.

(** The marks made while the cycle runs, in order. *)
Definition marks (during : list (bytes * bool)) (d : gmap bytes bool) : gmap bytes bool :=
  foldl (λ d pd, <[pd.1 := pd.2]> d) d during.

Lemma clear_loop (deferred : list bytes) (snap : gmap bytes bool) ps d p :
  foldl (λ d p, if decide (p ∈ deferred) then d
                else if bool_decide (d !! p = snap !! p) then delete p d else d) d ps !! p =
    if decide (p ∈ ps ∧ (p ∉ deferred) ∧ (d : gmap bytes bool) !! p = snap !! p) then None else d !! p.
Proof.
  revert d. induction ps as [|q ps IH]; intros d; cbn [foldl].
  { rewrite decide_False; [done|]. by intros [?%elem_of_nil _]. }
  rewrite IH. destruct (decide (q ∈ deferred)) as [Hq|Hq].
  { apply decide_ext. rewrite elem_of_cons. naive_solver. }
  case_bool_decide as E; [|apply decide_ext; rewrite elem_of_cons; naive_solver].
  destruct (decide (q = p)) as [->|Hne].
  - rewrite lookup_delete_eq. rewrite (decide_True (P := p ∈ p :: ps ∧ _)); [by destruct (decide _)|].
    split_and!; [by left|done|done].
  - rewrite lookup_delete_ne by done. apply decide_ext. rewrite elem_of_cons. naive_solver.
Qed.

Lemma range_keys `{MapOrder} (d : gmap bytes bool) p : p ∈ (range d).*1 ↔ is_Some (d !! p).
Proof.
  rewrite list_elem_of_fmap. split.
  - intros ([q f] & -> & Hq%elem_of_range). by exists f.
  - intros [f Hf]. exists (p, f). split; [done|]. by apply elem_of_range.
Qed.

Lemma cleared `{MapOrder} snap deferred d p :
  clear_dirty snap deferred d !! p =
    if decide (is_Some (snap !! p) ∧ (p ∉ deferred) ∧ d !! p = snap !! p) then None else d !! p.
Proof. unfold clear_dirty. rewrite clear_loop. apply decide_ext. by rewrite range_keys. Qed.

(** ** Properties *)

(** What a rebuild clears.  A cycle that finishes drops from the dirty list
    exactly the paths it copied that are not deferred and whose flag, after the
    marks that arrived while it ran, is the copied one; the other entries, new
    marks and changed flags among them, stay.  It does so whether or not the shards
    could be written. *)
Theorem rebuild_clears `{MapOrder} `{SymbolExtractor} wr mf e fs during e' :
  rebuild_io wr mf e fs during = Some e' → dirty e ≠ ∅ →
  ∃ affected deferred newFiles,
    plan fs (snapshot e) (RebuildThreshold (cfg e)) (dirty e) = Some (affected, deferred, newFiles) ∧
    ∀ p, dirty e' !! p =
      if decide (is_Some (dirty e !! p) ∧ (p ∉ deferred) ∧ marks during (dirty e) !! p = dirty e !! p)
      then None else marks during (dirty e) !! p.
Proof.
  unfold rebuild_io. intros Hr Hne. rewrite bool_decide_eq_false_2 in Hr by done.
  apply bind_Some in Hr as ([deferred' p2] & Hb & Hr). unfold rebuild_build in Hb.
  apply bind_Some in Hb as ([[affected deferred] newFiles] & Hp & Hb).
  apply bind_Some in Hb as (p1 & _ & Hb). apply bind_Some in Hb as (p3 & _ & [= <- <-]).
  destruct (cleanPending _ _) as [idx remaining]. injection Hr as <-.
  exists affected, deferred, newFiles. split; [done|]. intros p. cbn [dirty].
  apply cleared.
Qed.

(** An engine without shards and one dirty file. *)
Definition one_dirty : DiskEngine :=
  mkEngine (mkCfg (mkSizes 10 5 0) 10 4 0) (mkSnap [] 0) 0 0 {[bs "a" := false]} [] ∅ None.
Definition one_fs : FS := {| ReadFile p := Some (bs "hello"); Stat p := Some (5%Z, 0%Z) |}.

Lemma rebuild_clears_witness :
  let e' := default one_dirty (@rebuild tree_order no_symbols one_dirty one_fs [(bs "a", true)]) in
  map (λ p, dirty e' !! p) [bs "a"] = [Some true] ∧
  ∃ affected deferred newFiles,
    @plan tree_order one_fs (mkSnap [] 0) 10 {[bs "a" := false]} = Some (affected, deferred, newFiles) ∧
    dirty e' !! bs "b" =
      if decide (is_Some (({[bs "a" := false]} : gmap bytes bool) !! bs "b") ∧ (bs "b" ∉ deferred) ∧
         marks [(bs "a", true)] {[bs "a" := false]} !! bs "b" = ({[bs "a" := false]} : gmap bytes bool) !! bs "b")
      then None else marks [(bs "a", true)] {[bs "a" := false]} !! bs "b".
Proof.
  intros e'. split; [vm_compute; reflexivity|].
  destruct (@rebuild_clears tree_order no_symbols written true one_dirty one_fs [(bs "a", true)] e')
    as (a & d & n & Hp & Hd).
  - assert (is_Some (@rebuild tree_order no_symbols one_dirty one_fs [(bs "a", true)])) as [x Hx].
    { apply (bool_decide_unpack _). vm_compute. exact I. }
    unfold e'. by rewrite Hx.
  - intros E. apply (f_equal (lookup (bs "a"))) in E. vm_compute in E. discriminate.
  - exists a, d, n. split; [exact Hp|exact (Hd (bs "b"))].
Defined.

(** A rebuild loses a mark: when a dirty file changes again after the cycle has
    read it, and is marked again as [MarkDirty] does, the new mark is cleared with
    the old one, and the only shard holds what the cycle read. *)
Theorem rebuild_loses_mark :
  (λ e', (map_to_list (dirty e'), len (shards (snapshot e')))) <$>
    @rebuild tree_order no_symbols one_dirty one_fs [(bs "a", false)] = Some ([], 1%Z) ∧
  dirty (MarkDirty one_dirty (bs "a")) !! bs "a" = Some false.
Proof. split; vm_compute; reflexivity. Qed.

(** The files of [demo_fs] and some more. *)
Definition more_fs (extra : list bytes) : FS := {|
  ReadFile p := if decide (p ∈ extra) then Some (bs "func new") else ReadFile demo_fs p;
  Stat p := if decide (p ∈ extra) then Some (8%Z, 7%Z) else Stat demo_fs p;
|}.

(** The paths a search for [func] finds after a full build of [demo_files], the
    creation of the [extra] files, and [n] cycles of [rebuild]. *)
Definition found_after (extra : list bytes) (n : nat) : option (list bytes) :=
  let RS := Build_RegexpString (one_engine hello_re) (λ _, bs "func") in
  let opts := mkOpts (bs "func") None false 0 (bs "func") true 0 0 in
  '(e, _) ← @FullBuild tree_order no_symbols demo_new demo_fs demo_files;
  e ← Nat.iter n (λ e, e ← e; @rebuild tree_order no_symbols e (more_fs extra) [])
        (Some (foldl MarkDirty e extra));
  res ← @EngineSearch.Search tree_order (one_engine hello_re) RS e (more_fs extra) tt opts
          (seq 0 (length (shards (snapshot e))));
  Some (map m_Path (Matches res)).

(** A rebuild drops a new file: when the path of a new file lies inside the range of a
    shard, the search finds it while it is dirty, and no longer once [rebuild] has
    run: it rewrites the shard without the file and clears the mark. *)
Theorem rebuild_drops_new_file :
  found_after [bs "bb.txt"] 0 = Some [bs "a/x.go"; bs "c.txt"; bs "bb.txt"] ∧
  found_after [bs "bb.txt"] 1 = Some [bs "a/x.go"; bs "c.txt"].
Proof. split; vm_compute; reflexivity. Qed.

(** The paths a search for [new] finds after a full build of [demo_files], the change of the files
    [extra], and a cycle of [rebuild] in which the shards can be written or not. *)
Definition found_writing (extra : list bytes) (ok : bool) : option (list bytes * list bytes * bool) :=
  let RS := Build_RegexpString (one_engine hello_re) (λ _, bs "new") in
  let opts := mkOpts (bs "new") None false 0 (bs "new") true 0 0 in
  let find e := res ← @EngineSearch.Search tree_order (one_engine hello_re) RS e (more_fs extra) tt opts
                  (seq 0 (length (shards (snapshot e))));
                Some (map m_Path (Matches res)) in
  '(e, _) ← @FullBuild tree_order no_symbols demo_new demo_fs demo_files;
  let e := foldl MarkDirty e extra in
  e' ← @rebuild_io tree_order no_symbols (λ _, ok) true e (more_fs extra) [];
  before ← find e;
  after ← find e';
  Some (before, after, bool_decide (dirty e' = ∅)).

(** A failed write loses changes: the cycle that could not write a shard keeps the old one, or none for new
    files, and clears the marks all the same, so that a search after it no longer sees a changed and a new file. *)
Theorem failed_write_loses_changes :
  found_writing [bs "c.txt"; bs "d"] true = Some ([bs "c.txt"; bs "d"], [bs "c.txt"; bs "d"], true) ∧
  found_writing [bs "c.txt"; bs "d"] false = Some ([bs "c.txt"; bs "d"], [], true).
Proof. split; vm_compute; reflexivity. Qed.

(** New files outside every range go to one shard, whose range may span others: the
    binary search then misses an indexed path. *)
Theorem rebuild_breaks_ranges :
  found_after [bs "a/a"; bs "d"] 1 = Some [bs "a/a"; bs "d"; bs "a/x.go"; bs "c.txt"] ∧
  ('(e, _) ← @FullBuild tree_order no_symbols demo_new demo_fs demo_files;
   e ← @rebuild tree_order no_symbols (MarkDirty (MarkDirty e (bs "a/a")) (bs "d"))
         (more_fs [bs "a/a"; bs "d"]) [];
   m ← Meta e (bs "d"); Some m) = Some None.
Proof. split; vm_compute; reflexivity. Qed.
