(* ===== verification/Dir.v ===== *)
(** * A directory and what a crash leaves in it

    The calls of Go's package os with which internal/shard (build.go, manifest.go, engine.go) and
    [save] (internal/daemon/store.go) change the files of their directories, one after another.  A
    crash of the process keeps those that were made, and may cut the last write short (what the operating system
    loses with the power is another matter: only [WriteManifest] syncs).  A file that is
    written under a temporary name and renamed is replaced as a whole or not at all. *)

From S2P Require Import Prelude GoBytes GoPath.

(** ** Operations on a directory *)

Abbreviation dir := (gmap bytes bytes).

Inductive op := OWrite (name data : bytes) | ORename (from to : bytes) | ORemove (name : bytes).

(** [os.WriteFile], [os.Rename] and [os.Remove]. *)
Definition exec (d : dir) (o : op) : dir :=
  match o with
  | OWrite n data => <[n := data]> d
  | ORename a b => match d !! a with Some data => <[b := data]> (delete a d) | None => d end
  | ORemove n => delete n d
  end.
Definition exec_all (ops : list op) (d : dir) : dir := foldl exec d ops.

(** The directories a crash may leave: the operations up to some point are done, and a write that was
    under way has put any part of its data. *)
Inductive crash : list op → dir → dir → Prop :=
  | crash_here ops d : crash ops d d
  | crash_torn n data k ops d : crash (OWrite n data :: ops) d (<[n := take k data]> d)
  | crash_later o ops d d' : crash ops (exec d o) d' → crash (o :: ops) d d'.

(** ** Replacing a file *)

Definition tmp_of (name : bytes) : bytes := name ++ bs ".tmp".

(** A file written under a temporary name and renamed: the end of [Write], and [WriteManifest]. *)
Definition replace_ops (name data : bytes) : list op := [OWrite (tmp_of name) data; ORename (tmp_of name) name].

(** ** Names *)

Definition plain (n : bytes) : Prop := has_suffix n (bs ".tmp") = false.

Lemma tmp_not_plain n m : plain m → tmp_of n ≠ m.
Proof.
  intros Hm <-. unfold plain, tmp_of, has_suffix in Hm. by rewrite reverse_app, has_prefix_app in Hm.
Qed.

(** Two directories with the same files, temporary ones apart. *)
Definition same_files (d d' : dir) : Prop := ∀ n, plain n → d !! n = d' !! n.

#[export] Instance same_files_equiv : Equivalence same_files.
Proof.
  split; [by intros d n|by intros d d' Hd n Hn; rewrite Hd|].
  intros d1 d2 d3 H1 H2 n Hn. by rewrite H1, H2.
Qed.

#[export] Instance insert_same_files n data : Proper (same_files ==> same_files) (insert n data : dir → dir).
Proof. intros d d' Hd m Hm. rewrite !lookup_insert. by destruct (decide _); [|apply Hd]. Qed.

#[export] Instance delete_same_files n : Proper (same_files ==> same_files) (delete n : dir → dir).
Proof. intros d d' Hd m Hm. rewrite !lookup_delete. by destruct (decide _); [|apply Hd]. Qed.

(** ** Crashes of the operations *)

Lemma crash_app a b d d' : crash (a ++ b) d d' → crash a d d' ∨ crash b (exec_all a d) d'.
Proof.
  revert d. induction a as [|o a IH]; intros d; [by right|]. cbn [app exec_all foldl].
  intros Hc. inversion Hc as [| |? ? ? ? Hl]; subst; [left; constructor..|].
  destruct (IH _ Hl) as [?|?]; [left; by constructor|by right].
Qed.

Lemma tmp_same n data d : same_files (<[tmp_of n := data]> d) d.
Proof. intros m Hm. apply lookup_insert_ne. by apply tmp_not_plain. Qed.

Lemma replace_done n data d : same_files (exec_all (replace_ops n data) d) (<[n := data]> d).
Proof.
  unfold exec_all, replace_ops. cbn [foldl exec]. rewrite lookup_insert_eq, delete_insert_eq. intros m Hm.
  rewrite !lookup_insert. destruct (decide (n = m)); [done|]. rewrite lookup_delete_ne; [done|].
  by apply tmp_not_plain.
Qed.

(** A file is replaced as a whole or not at all. *)
Lemma replace_crash n data d d' :
  crash (replace_ops n data) d d' → same_files d' d ∨ same_files d' (<[n := data]> d).
Proof.
  intros Hc. unfold replace_ops in Hc. inversion Hc as [|? ? k|? ? ? ? H1]; subst; [by left|left; apply tmp_same|].
  inversion H1 as [| |? ? ? ? H2]; subst; [left; apply tmp_same|]. inversion H2; subst. right.
  apply (replace_done n data d).
Qed.

Lemma removes_crash ps d d' : crash (map ORemove ps) d d' → ∃ k, d' = foldl (λ d p, delete p d) d (take k ps).
Proof.
  revert d. induction ps as [|p ps IH]; intros d Hc; cbn [map] in Hc; inversion Hc as [| |? ? ? ? Hl]; subst;
    [by exists 0..|]. destruct (IH _ Hl) as [k ->]. by exists (S k).
Qed.

Lemma removes_lookup (ps : list bytes) (d : dir) n : n ∉ ps → foldl (λ d p, delete p d) d ps !! n = d !! n.
Proof.
  revert d. induction ps as [|p ps IH]; intros d Hn; [done|]. apply not_elem_of_cons in Hn as [Hp Hn]. cbn [foldl].
  by rewrite IH, lookup_delete_ne.
Qed.
