(* ===== verification/Crash.v ===== *)
(** * What a crash leaves in the shard directory: internal/shard/build.go, manifest.go, engine.go

    The writes of the engine as operations on the files of its directory (Dir.v).  [WriteManifest] and
    [Write] replace a file through a temporary one, and [rebuild] writes under names of its own
    before it replaces the manifest, so that the daemon that comes after finds the shards of
    before the cycle or those of after it. *)

From S2P Require Import Prelude GoBytes Trigram Text Lines Regexp Literal Matcher Symbol Index GoPath.
From S2P Require Import IndexSearch Codec Shard ShardLayout ShardRead ShardSpec Engine Decimal Rebuild Scan.
From S2P Require Import EngineSearch EngineSpec EngineScan EngineBuild EngineRestart RebuildSpec Dir.

(** ** The writes of the engine *)

(** [json.MarshalIndent] and [json.Unmarshal] of a manifest. *)
Class ManifestCodec := { marshal : Manifest → bytes; unmarshal : bytes → option Manifest }.

Definition manifestFile : bytes := bs "manifest.json".

Section Ops.
Context `{ManifestCodec}.

(** [WriteManifest] *)
Definition WriteManifest (m : Manifest) : list op := replace_ops manifestFile (marshal m).

(** [ReadManifest]: a manifest that is missing or cannot be parsed is none. *)
Definition ReadManifest (d : dir) : option Manifest := data ← d !! manifestFile; unmarshal data.

(** What [rebuild] does to the directory: the shards, the manifest, the removals. *)
Definition cycle_ops (e : DiskEngine) (p : progress) : list op :=
  concat (map (λ nd, replace_ops nd.1 nd.2) (p_writes p)) ++
  WriteManifest (ManifestFromShards (compacted p) (p_seq p)) ++ map ORemove (pending e).

Definition rebuild_ops `{MapOrder} `{SymbolExtractor} (e : DiskEngine) (fs : FS) : option (list op) :=
  if bool_decide (dirty e = ∅) then Some []
  else
    '(_, p) ← rebuild_build written e fs;
    Some (cycle_ops e p).

(** A daemon that starts on a directory opens these shards, and keeps their files when it removes the orphans. *)
Definition opens (d : dir) (snap : engineSnapshot) : Prop :=
  ∃ m, ReadManifest d = Some m ∧ SeqNo m = seqNo snap ∧ open_shards d (Shards m) = Some (shards snap) ∧
    ∀ s, s ∈ shards snap → CleanOrphans d (Some m) !! s_path s = d !! s_path s.
End Ops.

(** ** Names and writes *)

Lemma shardPath_plain k : plain (shardPath k).
Proof. unfold plain, has_suffix, shardPath. rewrite !reverse_app. reflexivity. Qed.

Lemma manifest_plain : plain manifestFile.
Proof. reflexivity. Qed.

Lemma shardPath_manifest k : shardPath k ≠ manifestFile.
Proof. by intros [=]. Qed.

#[export] Instance put_files_same ws : Proper (same_files ==> same_files) (put_files ws).
Proof.
  intros d d' Hd. unfold put_files. revert d d' Hd. induction ws as [|w ws IH]; intros d d' Hd; [done|].
  cbn [foldl]. apply IH. by rewrite Hd.
Qed.

Lemma writes_done ws d : same_files (exec_all (concat (map (λ nd, replace_ops nd.1 nd.2) ws)) d) (put_files ws d).
Proof.
  revert d. induction ws as [|w ws IH]; intros d; [done|]. cbn [map concat]. unfold exec_all. rewrite foldl_app.
  fold (exec_all (replace_ops w.1 w.2) d). fold (exec_all (concat (map (λ nd, replace_ops nd.1 nd.2) ws))).
  etrans; [apply IH|]. cbn [put_files foldl]. fold (put_files ws). by rewrite (replace_done w.1 w.2 d).
Qed.

Lemma writes_crash ws d d' :
  crash (concat (map (λ nd, replace_ops nd.1 nd.2) ws)) d d' → ∃ k, same_files d' (put_files (take k ws) d).
Proof.
  revert d. induction ws as [|w ws IH]; intros d Hc; cbn [map concat] in Hc.
  { inversion Hc; subst. by exists 0. }
  apply crash_app in Hc as [[?|?]%replace_crash|Hc].
  - by exists 0.
  - exists 1. done.
  - destruct (IH _ Hc) as [k Hk]. exists (S k). rewrite Hk. cbn [take put_files foldl]. fold (put_files (take k ws)).
    by rewrite (replace_done w.1 w.2 d).
Qed.

Lemma put_files_other ws d n : n ∉ ws.*1 → put_files ws d !! n = d !! n.
Proof.
  unfold put_files. revert d. induction ws as [|w ws IH]; intros d Hn; [done|].
  apply not_elem_of_cons in Hn as [Hw Hn]. cbn [foldl]. by rewrite IH, lookup_insert_ne.
Qed.

Lemma put_files_in ws d n out : NoDup ws.*1 → (n, out) ∈ ws → put_files ws d !! n = Some out.
Proof.
  unfold put_files. revert d. induction ws as [|w ws IH]; intros d Hnd Hin; [by apply elem_of_nil in Hin|].
  cbn [fmap list_fmap] in Hnd. apply NoDup_cons in Hnd as [Hw Hnd]. cbn [foldl].
  apply elem_of_cons in Hin as [<-|Hin]; [|by apply IH].
  change (put_files ws (<[n := out]> d) !! n = Some out). rewrite put_files_other by done. apply lookup_insert_eq.
Qed.

(** ** What a rebuild writes *)

Lemma fbind_ok {A B} (x : fallible A) (f : A → fallible B) y : fbind x f = ok y → ∃ a, x = ok a ∧ f a = ok y.
Proof. destruct x as [[e|a]|]; [done| |done]. by exists a. Qed.

Lemma Open_path path file s : Open path file = ok s → s_path s = path.
Proof.
  unfold Open. destruct (len file <? headerSize)%Z; [done|]. intros (hdr & _ & Ho)%fbind_ok.
  apply fbind_ok in Ho as (s1 & H1 & Ho). assert (s_path s1 = path) as <-.
  { revert H1. unfold parse_header. destruct (negb _); [done|]. intros (ver & _ & Hh)%fbind_ok.
    destruct (negb _); [done|]. by do 8 (apply fbind_ok in Hh as (? & _ & Hh)); injection Hh as <-. }
  apply fbind_ok in Ho as (s2 & H2 & Ho). assert (s_path s2 = s_path s1) as <-.
  { revert H2. destruct (0 <? numFiles s1)%Z; [|by intros [= <-]].
    intros (mn & _ & Hh)%fbind_ok. by apply fbind_ok in Hh as (mx & _ & [= <-]). }
  revert Ho. destruct (0 <? numTri s2)%Z; [|by intros [= <-]].
  intros (kb & _ & Hh)%fbind_ok. by apply fbind_ok in Hh as (keys & _ & [= <-]).
Qed.

(** The shard file of a name holds the shard. *)
Definition holds_shard (d : dir) (s : Shard) : Prop := ∃ out, d !! s_path s = Some out ∧ Open (s_path s) out = ok s.

Lemma open_shards_all d ms ss :
  map ms_File ms = map s_path ss → (∀ s, s ∈ ss → holds_shard d s) → open_shards d ms = Some ss.
Proof.
  revert ms. induction ss as [|s ss IH]; intros [|m ms] E Hs; try done. cbn [map] in E. injection E as Em E.
  cbn [open_shards]. rewrite Em. destruct (Hs s) as (out & Ho & Hop); [by left|]. rewrite Ho, Hop.
  cbn [mbind option_bind ok]. rewrite (IH ms E) by (intros t Ht; apply Hs; by right). done.
Qed.

Section Progress.
Context `{MapOrder} `{SymbolExtractor} (e : DiskEngine) (fs : FS).

(** The names from the sequence number of the snapshot on. *)
Definition fresh_from (lo hi : Z) (n : bytes) : Prop := ∃ k, (lo ≤ k < hi)%Z ∧ n = shardPath k.

(** The state of a rebuild once it is through with the shards [done]. *)
Record progress_ok (don : list Shard) (p : progress) : Prop := {
  po_seq : p_seq p = (seqNo (snapshot e) + len (p_writes p))%Z;
  po_names : Forall (fresh_from (seqNo (snapshot e)) (p_seq p)) (p_writes p).*1;
  po_once : NoDup (p_writes p).*1;
  po_shards : ∀ s, s ∈ omap id (p_shards p) →
    (s ∈ don ∧ s_path s ∉ p_old p) ∨ ∃ out, (s_path s, out) ∈ p_writes p ∧ Open (s_path s) out = ok s;
  po_nodup : NoDup (map s_path (omap id (p_shards p)));
  po_old : ∀ n, n ∈ p_old p → n ∈ map s_path don;
}.

Lemma fresh_from_weaken lo hi hi' n : (hi ≤ hi')%Z → fresh_from lo hi n → fresh_from lo hi' n.
Proof. intros Hh (k & Hk & ->). exists k. split; [lia|done]. Qed.

(** The old shards of an engine have earlier names, each its own. *)
Definition old_names (ss : list Shard) : Prop :=
  NoDup (map s_path ss) ∧ Forall (fresh_from 0 (seqNo (snapshot e))) (map s_path ss).

Lemma fresh_ne lo mid hi n m :
  (0 ≤ lo)%Z → (hi ≤ 10 ^ 20)%Z → fresh_from lo mid n → fresh_from mid hi m → n ≠ m.
Proof. intros Hl Hh (a & Ha & ->) (b & Hb & ->) E%shardPath_inj; lia. Qed.

Lemma write_shard_ok name b out s : write_shard name b = Some (out, inr s) → s_path s = name ∧ Open name out = ok s.
Proof.
  unfold write_shard. intros (o & _ & Hw)%bind_Some. apply bind_Some in Hw as (r & Hr & [= -> ->]).
  split; [by apply Open_path in Hr|done].
Qed.

(** The next shard is kept, dropped, or replaced by one that was written. *)
Inductive next_shard (p : progress) (s : Shard) : progress → Prop :=
  | next_kept nb : next_shard p s (keep_shard p s nb)
  | next_dropped nb :
      next_shard p s (mkProgress (p_shards p ++ [None]) (p_old p ++ [s_path s]) (p_seq p) nb (p_writes p))
  | next_failed nb out :
      next_shard p s (mkProgress (p_shards p ++ [Some s]) (p_old p) (p_seq p + 1) nb
                        (p_writes p ++ [(shardPath (p_seq p), out)]))
  | next_replaced nb out ns :
      s_path ns = shardPath (p_seq p) → Open (shardPath (p_seq p)) out = ok ns →
      next_shard p s (mkProgress (p_shards p ++ [Some ns]) (p_old p ++ [s_path s]) (p_seq p + 1) nb
                        (p_writes p ++ [(shardPath (p_seq p), out)])).

Lemma rebuild_shard_next dirtySnap affected p si s p' :
  rebuild_shard written e fs dirtySnap affected p (si, s) = Some p' → next_shard p s p'.
Proof.
  unfold rebuild_shard. destruct (mapped e s) as [m|]; [|intros [= <-]; constructor].
  destruct (decide (si ∈ affected)).
  - intros ([b nb] & _ & Hr)%bind_Some. destruct (bool_decide (b_files b = [])); [injection Hr as <-; constructor|].
    apply bind_Some in Hr as ([out [err|ns]] & Hw & Hr); injection Hr as <-; [constructor|].
    apply write_shard_ok in Hw as [Hp Ho]. by constructor.
  - intros (fms & _ & [= <-])%bind_Some. constructor.
Qed.
End Progress.

Section Cycle.
Context `{MapOrder} `{SymbolExtractor} (e : DiskEngine) (fs : FS).
Hypothesis Hold : old_names e (shards (snapshot e)).
Hypothesis Hseq : (0 ≤ seqNo (snapshot e) ∧ seqNo (snapshot e) + len (shards (snapshot e)) + 1 ≤ 10 ^ 20)%Z.

(** A shard that is written gets a name none before it has. *)
Lemma new_name_fresh don p :
  progress_ok e don p → (p_seq p < 10 ^ 20)%Z → don ⊆ shards (snapshot e) →
  shardPath (p_seq p) ∉ (p_writes p).*1 ∧ (∀ s, s ∈ don → s_path s ≠ shardPath (p_seq p)) ∧
  shardPath (p_seq p) ∉ map s_path (omap id (p_shards p)).
Proof.
  intros [Hs Hn _ Hsh _ _] Hb Hsub. pose proof (len_nonneg (p_writes p)) as Hl.
  assert (shardPath (p_seq p) ∉ (p_writes p).*1) as H1.
  { intros Hin. rewrite Forall_forall in Hn. destruct (Hn _ Hin) as (k & Hk & E%shardPath_inj); lia. }
  assert (∀ s, s ∈ don → s_path s ≠ shardPath (p_seq p)) as H2.
  { intros s Hin E. destruct Hold as [_ Hf]. rewrite Forall_forall in Hf.
    destruct (Hf (s_path s)) as (k & Hk & Ek); [apply (list_elem_of_fmap_2 s_path); by apply Hsub|].
    rewrite Ek in E. apply shardPath_inj in E; lia. }
  split_and!; [done|done|]. intros (s & E & Hin)%list_elem_of_fmap. destruct (Hsh s Hin) as [[Hd _]|(out & Ho & _)].
  - by apply (H2 s).
  - apply H1. rewrite E. by apply (list_elem_of_fmap_2 fst) in Ho.
Qed.

Lemma writes_fresh don p out :
  progress_ok e don p → (p_seq p < 10 ^ 20)%Z → don ⊆ shards (snapshot e) →
  let ws := p_writes p ++ [(shardPath (p_seq p), out)] in
  (p_seq p + 1)%Z = (seqNo (snapshot e) + len ws)%Z ∧ NoDup ws.*1 ∧
  Forall (fresh_from (seqNo (snapshot e)) (p_seq p + 1)) ws.*1.
Proof.
  intros Hp Hb Hsub ws. destruct (new_name_fresh don p Hp Hb Hsub) as (H1 & _ & _). destruct Hp as [Hs Hn Ho _ _ _].
  unfold ws. rewrite fmap_app. cbn [fmap list_fmap fst]. split_and!.
  - rewrite Hs. unfold len. rewrite length_app. cbn [length]. lia.
  - apply NoDup_app. split_and!; [done| |apply NoDup_singleton]. intros x Hx ->%list_elem_of_singleton. done.
  - apply Forall_app. split; [eapply Forall_impl; [exact Hn|]; intros n Hf; eapply fresh_from_weaken; [|exact Hf]; lia|].
    constructor; [|constructor]. exists (p_seq p). pose proof (len_nonneg (p_writes p)). split; [lia|done].
Qed.

Lemma omap_id_snoc {A} (l : list (option A)) x : omap id (l ++ [x]) = omap id l ++ match x with Some y => [y] | None => [] end.
Proof. rewrite omap_app. by destruct x. Qed.

(** The shards collected so far have other names than the next one. *)
Lemma others_differ don p s :
  progress_ok e don p → (p_seq p ≤ 10 ^ 20)%Z → don ++ [s] ⊆ shards (snapshot e) → s_path s ∉ map s_path don →
  ∀ t, t ∈ omap id (p_shards p) → s_path t ≠ s_path s.
Proof.
  intros [Pseq Pnames _ Pshards _ _] Hb Hsub Hs t Ht E. destruct (Pshards t Ht) as [[Hd _]|(out & Ho & _)].
  - apply Hs. rewrite <-E. by apply (list_elem_of_fmap_2 s_path).
  - apply (list_elem_of_fmap_2 fst) in Ho. cbn in Ho. rewrite E in Ho. rewrite Forall_forall in Pnames.
    destruct Hold as [_ Hf]. rewrite Forall_forall in Hf. pose proof (len_nonneg (p_writes p)).
    apply (fresh_ne 0 (seqNo (snapshot e)) (p_seq p) (s_path s) (s_path s)); [lia|lia| |by apply Pnames|done].
    apply Hf, (list_elem_of_fmap_2 s_path), Hsub. set_solver.
Qed.

(** Every step of the loop keeps the record of what was written. *)
Lemma progress_next don p s p' :
  progress_ok e don p → next_shard p s p' → (p_seq p < 10 ^ 20)%Z →
  don ++ [s] ⊆ shards (snapshot e) → s_path s ∉ map s_path don → progress_ok e (don ++ [s]) p'.
Proof.
  intros Hp Hnext Hb Hsub Hs. assert (don ⊆ shards (snapshot e)) as Hsub' by set_solver.
  destruct (new_name_fresh don p Hp Hb Hsub') as (N1 & N2 & N3).
  pose proof Hp as [Pseq Pnames Ponce Pshards Pnodup Pold].
  assert (s_path s ∉ p_old p) as Hso by (by intros ?%Pold).
  pose proof (others_differ don p s Hp ltac:(lia) Hsub Hs) as Hdiff.
  assert (∀ t, t ∈ omap id (p_shards p) → (t ∈ don ++ [s] ∧ s_path t ∉ p_old p ++ [s_path s]) ∨
     ∃ out, (s_path t, out) ∈ p_writes p ∧ Open (s_path t) out = ok t) as Hkeep.
  { intros t Ht. destruct (Pshards t Ht) as [[Hd Ho]|?]; [left|by right]. split; [set_solver|].
    rewrite not_elem_of_app, list_elem_of_singleton. split; [done|by apply Hdiff]. }
  assert (∀ n, n ∈ p_old p ++ [s_path s] → n ∈ map s_path (don ++ [s])) as Holds.
  { intros n [Hn%Pold| ->%list_elem_of_singleton]%elem_of_app; rewrite map_app, elem_of_app; [by left|right; by left]. }
  assert (∀ n, n ∈ p_old p → n ∈ map s_path (don ++ [s])) as Holds' by (intros n Hn; apply Holds; set_solver).
  assert (s ∈ don ++ [s] ∧ s_path s ∉ p_old p) as Hsin by (split; [set_solver|done]).
  assert (∀ l, NoDup (map s_path l) → s_path s ∉ map s_path l → NoDup (map s_path (l ++ [s]))) as Hsnoc.
  { intros l Hl Hn. rewrite map_app. apply NoDup_app. split_and!; [done| |apply NoDup_singleton].
    intros x Hx ->%list_elem_of_singleton. done. }
  assert (s_path s ∉ map s_path (omap id (p_shards p))) as Hns
    by (intros (t & E & Ht)%list_elem_of_fmap; apply (Hdiff t Ht); by rewrite E).
  destruct Hnext as [nb|nb|nb out|nb out ns Hp1 Hp2].
  - split; cbn [keep_shard p_seq p_writes p_shards p_old]; rewrite ?omap_id_snoc; auto.
    intros t [Ht| ->%list_elem_of_singleton]%elem_of_app; [|by left].
    destruct (Hkeep t Ht) as [[? ?]|?]; [left; set_solver|by right].
  - split; cbn [p_seq p_writes p_shards p_old]; rewrite ?omap_id_snoc, ?app_nil_r; auto.
  - destruct (writes_fresh don p out Hp Hb Hsub') as (W1 & W2 & W3).
    split; cbn [p_seq p_writes p_shards p_old]; rewrite ?omap_id_snoc; auto.
    intros t [Ht| ->%list_elem_of_singleton]%elem_of_app; [|by left].
    destruct (Hkeep t Ht) as [[? ?]|(o & ? & ?)]; [left; set_solver|right; exists o; set_solver].
  - destruct (writes_fresh don p out Hp Hb Hsub') as (W1 & W2 & W3).
    split; cbn [p_seq p_writes p_shards p_old]; rewrite ?omap_id_snoc; auto.
    + intros t [Ht| ->%list_elem_of_singleton]%elem_of_app.
      * destruct (Hkeep t Ht) as [?|(o & ? & ?)]; [by left|right; exists o; set_solver].
      * right. exists out. rewrite Hp1. split; [set_solver|done].
    + rewrite map_app. apply NoDup_app. split_and!; [done| |apply NoDup_singleton].
      intros x Hx ->%list_elem_of_singleton. by rewrite Hp1 in Hx.
Qed.

Lemma next_seq p s p' : next_shard p s p' → (p_seq p ≤ p_seq p' ≤ p_seq p + 1)%Z.
Proof. intros []; cbn [keep_shard p_seq]; lia. Qed.

Lemma rebuild_shards_ok dirtySnap affected don ss i p p' :
  progress_ok e don p → shards (snapshot e) = don ++ ss → (p_seq p + len ss < 10 ^ 20)%Z →
  rebuild_shards written e fs dirtySnap affected p (imap (λ j s, (Z.of_nat (i + j), s)) ss) = Some p' →
  progress_ok e (shards (snapshot e)) p' ∧ (p_seq p' ≤ p_seq p + len ss)%Z.
Proof.
  revert don i p. induction ss as [|s ss IH]; intros don i p Hp E Hb; cbn [imap rebuild_shards].
  { intros [= <-]. rewrite app_nil_r in E. rewrite E. split; [done|]. unfold len. cbn [length]. lia. }
  intros (p1 & Hr & Hrest)%bind_Some. apply rebuild_shard_next in Hr.
  assert (len (s :: ss) = 1 + len ss)%Z as Hl by (unfold len; cbn [length]; lia). pose proof (len_nonneg ss).
  pose proof (next_seq _ _ _ Hr) as Hq. assert (don ++ [s] ⊆ shards (snapshot e)) as Hsub by (rewrite E; set_solver).
  assert (s_path s ∉ map s_path don) as Hs.
  { destruct Hold as [Hnd _]. rewrite E, map_app in Hnd. apply NoDup_app in Hnd as (_ & Hd & _).
    intros Hin. apply (Hd _ Hin). by left. }
  apply (progress_next _ _ _ _ Hp) in Hr; [|lia|done|done].
  destruct (IH (don ++ [s]) (S i) p1 Hr) as [Hp' Hq']; [by rewrite <-app_assoc|lia| |split; [done|lia]].
  rewrite <-Hrest. f_equal. apply imap_ext. intros j x _. cbn. do 2 f_equal. lia.
Qed.

(** The shard of the new files comes on top. *)
Lemma build_new_ok newFiles p p' :
  progress_ok e (shards (snapshot e)) p → (p_seq p < 10 ^ 20)%Z → build_new written e fs newFiles p = Some p' →
  progress_ok e (shards (snapshot e)) p' ∧ (p_seq p' ≤ p_seq p + 1)%Z.
Proof.
  intros Hp Hb. unfold build_new. destruct (bool_decide (newFiles = [])); [intros [= <-]; split; [done|lia]|].
  destruct (foldl (add_file fs) _ _) as [[b n] nb]. destruct (bool_decide (b_files b = [])).
  { intros [= <-]. split; [|cbn; lia]. by destruct Hp. }
  intros ([out r] & Hw & [= <-])%bind_Some. split; [|cbn; lia].
  destruct (new_name_fresh _ p Hp Hb ltac:(done)) as (_ & _ & N3).
  destruct (writes_fresh _ p out Hp Hb ltac:(done)) as (W1 & W2 & W3).
  destruct Hp as [Pseq Pnames Ponce Pshards Pnodup Pold].
  assert (∀ t, t ∈ omap id (p_shards p) → (t ∈ shards (snapshot e) ∧ s_path t ∉ p_old p) ∨
     ∃ o, (s_path t, o) ∈ p_writes p ++ [(shardPath (p_seq p), out)] ∧ Open (s_path t) o = ok t) as Hkeep.
  { intros t Ht. destruct (Pshards t Ht) as [?|(o & ? & ?)]; [by left|right; exists o; set_solver]. }
  destruct r as [err|ns]; split; cbn [p_seq p_writes p_shards p_old]; rewrite ?app_nil_r, ?omap_id_snoc; auto.
  - apply write_shard_ok in Hw as [E Ho]. intros t [Ht| ->%list_elem_of_singleton]%elem_of_app; [by apply Hkeep|].
    right. exists out. rewrite E. split; [set_solver|done].
  - apply write_shard_ok in Hw as [E Ho]. rewrite map_app. apply NoDup_app. split_and!; [done| |apply NoDup_singleton].
    intros x Hx ->%list_elem_of_singleton. by rewrite E in Hx.
Qed.

Lemma rebuild_build_ok deferred p :
  rebuild_build written e fs = Some (deferred, p) →
  progress_ok e (shards (snapshot e)) p ∧ (p_seq p ≤ seqNo (snapshot e) + len (shards (snapshot e)) + 1)%Z.
Proof.
  unfold rebuild_build. intros ([[affected df] newFiles] & _ & Hr)%bind_Some.
  apply bind_Some in Hr as (p1 & H1 & Hr). apply bind_Some in Hr as (p2 & H2 & [= _ <-]).
  apply (rebuild_shards_ok _ _ [] (shards (snapshot e)) 0) in H1 as [Hp1 Hq1]; [|split|done|cbn; lia]; cbn in *;
    rewrite ?Z.add_0_r; try done; try (by constructor); try (by intros ? ?%elem_of_nil).
  apply build_new_ok in H2 as [Hp2 Hq2]; [|done|lia]. split; [done|lia].
Qed.
End Cycle.

(** ** Properties *)

Section Properties.
Context `{ManifestCodec} `{MapOrder} `{SymbolExtractor}.

(** What the JSON of a manifest keeps: the sequence number and the names of the shards.  (Paths that
    are not UTF-8 come back changed; they are not read.) *)
Definition codec_keeps : Prop := ∀ m,
  (0 ≤ SeqNo m < 2 ^ 63)%Z → Forall (fresh_from 0 (SeqNo m)) (map ms_File (Shards m)) →
  ∃ m', unmarshal (marshal m) = Some m' ∧ SeqNo m' = SeqNo m ∧ map ms_File (Shards m') = map ms_File (Shards m).

(** The directory of an engine: the manifest names the shards of the snapshot, their files hold them, in the
    directory and in the model of it that the engine has, every name is from an earlier sequence number,
    and the files to remove are no shards of the snapshot. *)
Record stored_in (d : dir) (e : DiskEngine) : Prop := {
  od_manifest : ∃ m, ReadManifest d = Some m ∧ SeqNo m = seqNo (snapshot e) ∧
    map ms_File (Shards m) = map s_path (shards (snapshot e));
  od_shards : ∀ s, s ∈ shards (snapshot e) → holds_shard d s ∧ idx_files e !! s_path s = d !! s_path s;
  od_names : old_names e (shards (snapshot e));
  od_pending : ∀ n, n ∈ pending e → fresh_from 0 (seqNo (snapshot e)) n ∧ n ∉ map s_path (shards (snapshot e));
  od_seq : (0 ≤ seqNo (snapshot e))%Z;
}.

Lemma CleanOrphans_shards d m ss s :
  map ms_File (Shards m) = map s_path ss → s ∈ ss → CleanOrphans d (Some m) !! s_path s = d !! s_path s.
Proof. intros E Hs. apply CleanOrphans_keeps. rewrite E. by apply (list_elem_of_fmap_2 s_path). Qed.

Lemma opens_of d m snap :
  ReadManifest d = Some m → SeqNo m = seqNo snap → map ms_File (Shards m) = map s_path (shards snap) →
  (∀ s, s ∈ shards snap → holds_shard d s) → opens d snap.
Proof.
  intros Hm Hs Hf Hh. exists m. split_and!; [done|done|by apply open_shards_all|].
  intros s Hin. by apply (CleanOrphans_shards d m (shards snap)).
Qed.

(** One removal, with the files that could not be removed. *)
Definition clean_one (st : gmap bytes bytes * list bytes) (p : bytes) : gmap bytes bytes * list bytes :=
  if decide (is_Some (st.1 !! p)) then (delete p st.1, st.2) else (st.1, st.2 ++ [p]).

Lemma clean_lookup st ps n : n ∉ ps → (foldl clean_one st ps).1 !! n = st.1 !! n.
Proof.
  revert st. induction ps as [|p ps IH]; intros st Hn; [done|]. apply not_elem_of_cons in Hn as [Hp Hn].
  cbn [foldl]. rewrite IH by done. unfold clean_one. destruct (decide _); [by apply lookup_delete_ne|done].
Qed.

Lemma clean_left st ps n : n ∈ (foldl clean_one st ps).2 → n ∈ st.2 ∨ n ∈ ps.
Proof.
  revert st. induction ps as [|p ps IH]; intros st; [by left|]. cbn [foldl]. intros Hn%IH.
  unfold clean_one in Hn. destruct (decide _); cbn [snd] in Hn; set_solver.
Qed.

(** What the cycle has written, in a directory that has it all up to some removals. *)
Record cycle_done (e : DiskEngine) (p : progress) (d d' : dir) : Prop := {
  cd_manifest : d' !! manifestFile = Some (marshal (ManifestFromShards (compacted p) (p_seq p)));
  cd_shards : ∀ s, s ∈ compacted p → d' !! s_path s = put_files (p_writes p) d !! s_path s;
}.

Lemma compacted_elem p s : s ∈ compacted p ↔ s ∈ omap id (p_shards p).
Proof. unfold compacted. by rewrite (merge_sort_Permutation min_le). Qed.

Section Engine.
Context (d : dir) (e : DiskEngine) (fs : FS) (deferred : list bytes) (p : progress).
Hypothesis Hcodec : codec_keeps.
Hypothesis Hd : stored_in d e.
Hypothesis Hbound : (seqNo (snapshot e) + len (shards (snapshot e)) + 1 < 2 ^ 63)%Z.
Hypothesis Hbuild : rebuild_build written e fs = Some (deferred, p).

Lemma cycle_ok : progress_ok e (shards (snapshot e)) p ∧ (seqNo (snapshot e) ≤ p_seq p < 2 ^ 63)%Z.
Proof.
  pose proof (od_seq _ _ Hd). destruct (rebuild_build_ok e fs (od_names _ _ Hd) ltac:(lia) _ _ Hbuild) as [Hp Hq].
  split; [done|]. rewrite (po_seq _ _ _ Hp) in *. pose proof (len_nonneg (p_writes p)). lia.
Qed.

(** No shard of before is written over. *)
Lemma old_unwritten s : s ∈ shards (snapshot e) → s_path s ∉ (p_writes p).*1.
Proof.
  intros Hs Hin. destruct cycle_ok as [Hp Hq].
  pose proof (po_names _ _ _ Hp) as Hn. rewrite Forall_forall in Hn. destruct (od_names _ _ Hd) as [_ Hf].
  rewrite Forall_forall in Hf. pose proof (od_seq _ _ Hd).
  apply (fresh_ne 0 (seqNo (snapshot e)) (p_seq p) (s_path s) (s_path s)); [lia|lia| |by apply Hn|done].
  apply Hf. by apply (list_elem_of_fmap_2 s_path).
Qed.

Lemma old_kept s : s ∈ shards (snapshot e) → put_files (p_writes p) d !! s_path s = d !! s_path s.
Proof. intros Hs. by apply put_files_other, old_unwritten. Qed.

(** The shards of after have theirs once all are written. *)
Lemma new_held s : s ∈ compacted p → holds_shard (put_files (p_writes p) d) s.
Proof.
  intros Hs%compacted_elem. destruct cycle_ok as [Hp _]. destruct (po_shards _ _ _ Hp s Hs) as [[Ho _]|(out & Hw & Hop)].
  - unfold holds_shard. rewrite old_kept by done. apply (od_shards _ _ Hd s Ho).
  - exists out. split; [|done]. by apply put_files_in; [apply (po_once _ _ _ Hp)|].
Qed.

(** The names of the new snapshot. *)
Lemma new_names : Forall (fresh_from 0 (p_seq p)) (map s_path (compacted p)) ∧ NoDup (map s_path (compacted p)).
Proof.
  destruct cycle_ok as [Hp Hq]. pose proof (od_seq _ _ Hd) as H0s. split.
  - apply Forall_forall. intros n (s & -> & Hs%compacted_elem)%list_elem_of_fmap.
    destruct (po_shards _ _ _ Hp s Hs) as [[Ho _]|(out & Hw & _)].
    + destruct (od_names _ _ Hd) as [_ Hf]. rewrite Forall_forall in Hf.
      apply (fresh_from_weaken _ (seqNo (snapshot e))); [lia|]. apply Hf. by apply (list_elem_of_fmap_2 s_path).
    + apply (list_elem_of_fmap_2 fst) in Hw. pose proof (po_names _ _ _ Hp) as Hn. rewrite Forall_forall in Hn.
      destruct (Hn _ Hw) as (k & Hk & E). exists k. split; [lia|done].
  - unfold compacted. rewrite (merge_sort_Permutation min_le). apply (po_nodup _ _ _ Hp).
Qed.

(** What is removed is no shard of after. *)
Lemma pending_other s : s ∈ compacted p → s_path s ∉ pending e.
Proof.
  intros Hs%compacted_elem [(k & Hk & E) Hn]%(od_pending _ _ Hd). destruct cycle_ok as [Hp Hq].
  destruct (po_shards _ _ _ Hp s Hs) as [[Ho _]|(out & Hw & _)].
  - apply Hn. by apply (list_elem_of_fmap_2 s_path).
  - apply (list_elem_of_fmap_2 fst) in Hw. pose proof (po_names _ _ _ Hp) as Hnm. rewrite Forall_forall in Hnm.
    destruct (Hnm _ Hw) as (k' & Hk' & E'). cbn in E'. rewrite E in E'. apply shardPath_inj in E'; lia.
Qed.

Lemma manifest_not_written : manifestFile ∉ (p_writes p).*1.
Proof.
  intros Hin. destruct cycle_ok as [Hp _]. pose proof (po_names _ _ _ Hp) as Hn. rewrite Forall_forall in Hn.
  destruct (Hn _ Hin) as (k & _ & E). by apply (shardPath_manifest k).
Qed.

(** The new manifest, and with it the new snapshot. *)
Lemma cycle_done_manifest d' :
  cycle_done e p d d' → ∃ m, ReadManifest d' = Some m ∧ SeqNo m = p_seq p ∧
    map ms_File (Shards m) = map s_path (compacted p).
Proof.
  intros [Hm _]. unfold ReadManifest. rewrite Hm. cbn [mbind option_bind]. pose proof (od_seq _ _ Hd).
  destruct cycle_ok as [_ Hq]. destruct (Hcodec (ManifestFromShards (compacted p) (p_seq p))) as (m & -> & Hs & Hf).
  - cbn. lia.
  - cbn. rewrite <-list_fmap_compose. apply new_names.
  - exists m. split_and!; [done|done|]. rewrite Hf. cbn. by rewrite <-list_fmap_compose.
Qed.

Lemma cycle_done_opens d' : cycle_done e p d d' → opens d' (mkSnap (compacted p) (p_seq p)).
Proof.
  intros Hc. destruct (cycle_done_manifest d' Hc) as (m & Hm & Hs & Hf). apply (opens_of d' m); try done.
  intros s Hin. unfold holds_shard. rewrite (cd_shards _ _ _ _ Hc s Hin). by apply new_held.
Qed.

(** Before the manifest is replaced, whatever has been written. *)
Lemma before_opens k d' : same_files d' (put_files (take k (p_writes p)) d) → opens d' (snapshot e).
Proof.
  intros Hsame. destruct (od_manifest _ _ Hd) as (m & Hm & Hs & Hf).
  assert (∀ n, n ∉ (p_writes p).*1 → n ∉ (take k (p_writes p)).*1) as Htake.
  { intros n Hn Hin. apply Hn. rewrite fmap_take in Hin. by eapply elem_of_take in Hin as (i & Hi%list_elem_of_lookup_2 & _). }
  apply (opens_of d' m); [|done|done|].
  - unfold ReadManifest in *. rewrite (Hsame _ manifest_plain), put_files_other; [done|].
    apply Htake, manifest_not_written.
  - intros s Hin. destruct (od_shards _ _ Hd s Hin) as [(out & Ho & Hop) _]. exists out. split; [|done].
    destruct (od_names _ _ Hd) as [_ Hfr]. rewrite Forall_forall in Hfr.
    destruct (Hfr (s_path s)) as (j & _ & E); [by apply (list_elem_of_fmap_2 s_path)|].
    rewrite (Hsame (s_path s)) by (rewrite E; apply shardPath_plain). rewrite put_files_other; [done|].
    by apply Htake, old_unwritten.
Qed.

(** Once the manifest is replaced, whatever has been removed. *)
Lemma after_done k d1 :
  same_files d1 (<[manifestFile := marshal (ManifestFromShards (compacted p) (p_seq p))]> (put_files (p_writes p) d)) →
  cycle_done e p d (foldl (λ d n, delete n d) d1 (take k (pending e))).
Proof.
  intros Hsame. assert (∀ n, n ∉ pending e → n ∉ take k (pending e)) as Htake.
  { intros n Hn Hin. apply Hn. by eapply elem_of_take in Hin as (i & Hi%list_elem_of_lookup_2 & _). }
  split.
  - rewrite removes_lookup, (Hsame _ manifest_plain), lookup_insert_eq; [done|]. apply Htake.
    intros [(j & _ & E) _]%(od_pending _ _ Hd). by apply (shardPath_manifest j).
  - intros s Hs. rewrite removes_lookup by by apply Htake, pending_other.
    destruct new_names as [Hf _]. rewrite Forall_forall in Hf.
    destruct (Hf (s_path s)) as (j & _ & E); [by apply (list_elem_of_fmap_2 s_path)|].
    rewrite (Hsame (s_path s)) by (rewrite E; apply shardPath_plain). apply lookup_insert_ne.
    rewrite E. apply not_eq_sym, shardPath_manifest.
Qed.

(** The names to remove next. *)
Lemma new_pending remaining n :
  (∀ q, q ∈ remaining → q ∈ pending e) → n ∈ remaining ++ p_old p →
  fresh_from 0 (p_seq p) n ∧ n ∉ map s_path (compacted p).
Proof.
  intros Hrem Hn. destruct cycle_ok as [Hp Hq]. pose proof (od_seq _ _ Hd).
  apply elem_of_app in Hn as [Hn%Hrem|Hn].
  - destruct (od_pending _ _ Hd n Hn) as [Hf _]. split; [eapply fresh_from_weaken; [|exact Hf]; lia|].
    intros (s & -> & Hs)%list_elem_of_fmap. by apply (pending_other s Hs).
  - pose proof (po_old _ _ _ Hp n Hn) as Hold. destruct (od_names _ _ Hd) as [_ Hf]. rewrite Forall_forall in Hf.
    split; [eapply fresh_from_weaken; [|by apply Hf]; lia|].
    intros (s & -> & Hs%compacted_elem)%list_elem_of_fmap. destruct (po_shards _ _ _ Hp s Hs) as [[_ Ho]|(out & Hw & _)]; [done|].
    apply (list_elem_of_fmap_2 fst) in Hw. pose proof (po_names _ _ _ Hp) as Hnm. rewrite Forall_forall in Hnm.
    apply (fresh_ne 0 (seqNo (snapshot e)) (p_seq p) (s_path s) (s_path s)); [lia|lia|by apply Hf|by apply Hnm|done].
Qed.

(** The engine's own view of its directory after the cycle. *)
Lemma new_idx s :
  s ∈ compacted p → put_files (p_writes p) (idx_files e) !! s_path s = put_files (p_writes p) d !! s_path s.
Proof.
  intros Hs%compacted_elem. destruct cycle_ok as [Hp _].
  destruct (decide (s_path s ∈ (p_writes p).*1)) as [((n, out) & E & Hw)%list_elem_of_fmap|Hn].
  - cbn in E. rewrite E. by rewrite !(put_files_in _ _ n out) by (done || apply (po_once _ _ _ Hp)).
  - rewrite !put_files_other by done. destruct (po_shards _ _ _ Hp s Hs) as [[Ho _]|(out & Hw & _)].
    + apply (od_shards _ _ Hd s Ho).
    + by apply (list_elem_of_fmap_2 fst) in Hw.
Qed.

Let m := ManifestFromShards (compacted p) (p_seq p).

Lemma writes_manifest : same_files
  (exec_all (WriteManifest m) (exec_all (concat (map (λ nd, replace_ops nd.1 nd.2) (p_writes p))) d))
  (<[manifestFile := marshal m]> (put_files (p_writes p) d)).
Proof. etrans; [apply replace_done|]. by rewrite writes_done. Qed.

Lemma cycle_completes : cycle_done e p d (exec_all (cycle_ops e p) d).
Proof.
  unfold cycle_ops, exec_all. rewrite !foldl_app.
  pose proof (after_done (length (pending e)) _ writes_manifest) as Hdone. rewrite firstn_all in Hdone.
  assert (∀ ps x, foldl exec x (map ORemove ps) = foldl (λ d n, delete n d) x ps) as ->; [|exact Hdone].
  intros ps. induction ps as [|q ps IH]; intros x; [done|apply IH].
Qed.

Lemma cycle_crash d' :
  crash (cycle_ops e p) d d' → opens d' (snapshot e) ∨ opens d' (mkSnap (compacted p) (p_seq p)).
Proof.
  intros Hcr. apply crash_app in Hcr as [[k Hk]%writes_crash|Hcr]; [left; by apply (before_opens k)|].
  apply crash_app in Hcr as [[Hs|Hs]%replace_crash|[k ->]%removes_crash].
  - left. apply (before_opens (length (p_writes p))). rewrite firstn_all. etrans; [exact Hs|]. apply writes_done.
  - right. apply cycle_done_opens, (after_done 0). etrans; [exact Hs|]. by rewrite writes_done.
  - right. apply cycle_done_opens, after_done, writes_manifest.
Qed.

(** The engine after the cycle and its directory. *)
Lemma cycle_on_disk e' :
  snapshot e' = mkSnap (compacted p) (p_seq p) →
  idx_files e' = (cleanPending (put_files (p_writes p) (idx_files e)) (pending e)).1 →
  pending e' = (cleanPending (put_files (p_writes p) (idx_files e)) (pending e)).2 ++ p_old p →
  stored_in (exec_all (cycle_ops e p) d) e'.
Proof.
  intros Es Ei Ep. pose proof cycle_completes as Hdone. destruct new_names as [Hn1 Hn2].
  destruct cycle_ok as [_ Hq]. pose proof (od_seq _ _ Hd).
  split; rewrite Es; cbn [shards seqNo].
  - by apply cycle_done_manifest.
  - intros s Hs. split; [unfold holds_shard; rewrite (cd_shards _ _ _ _ Hdone s Hs); by apply new_held|].
    rewrite (cd_shards _ _ _ _ Hdone s Hs), <-(new_idx s Hs), Ei. apply (clean_lookup (_, [])). by apply pending_other.
  - split; cbn [seqNo]; [exact Hn2|by rewrite Es].
  - intros n Hn. rewrite Ep in Hn. eapply new_pending; [|exact Hn]. intros q Hrem.
    by apply (clean_left (_, [])) in Hrem as [?%elem_of_nil|?].
  - lia.
Qed.
End Engine.

(** C18. A rebuild replaces the shards of the disk engine as a whole, whatever interrupts it: when the directory holds
    the engine before a cycle, it holds the engine of after once the cycle is through; and a daemon that starts on what a
    crash at any point of the cycle leaves (a write cut short included) finds a manifest and complete
    shard files, those of before or those of after, and removes none of them as orphans. *)
Theorem rebuild_atomic d e fs during e' ops :
  codec_keeps → stored_in d e → (seqNo (snapshot e) + len (shards (snapshot e)) + 1 < 2 ^ 63)%Z →
  rebuild e fs during = Some e' → rebuild_ops e fs = Some ops →
  stored_in (exec_all ops d) e' ∧
  ∀ d', crash ops d d' → opens d' (snapshot e) ∨ opens d' (snapshot e').
Proof.
  intros Hc Hd Hb Hr Ho. unfold rebuild, rebuild_io, rebuild_ops in *. destruct (bool_decide (dirty e = ∅)).
  { injection Hr as <-. injection Ho as <-. destruct Hd as [(m & Hm & Hs & Hf) H2' H3' H4' H5'].
    split; [split; [by exists m|done..]|]. intros d' Hcr. inversion Hcr; subst. left.
    apply (opens_of d' m); try done. intros s Hin. by apply H2'. }
  apply bind_Some in Hr as ([deferred p] & Hbuild & Hr). rewrite Hbuild in Ho. cbn [mbind option_bind] in Ho.
  injection Ho as <-. destruct (cleanPending _ _) as [idx remaining] eqn:Eclean. injection Hr as <-. split.
  - by apply (cycle_on_disk d e fs deferred p); rewrite ?Eclean.
  - by apply (cycle_crash d e fs deferred p).
Qed.
End Properties.

(** ** A search that is under way *)

(** The engine as a search sees it that took the snapshot and the dirty list of [e] and reads the files of a
    later directory. *)
Definition with_dir (e : DiskEngine) (idx : gmap bytes bytes) : DiskEngine :=
  mkEngine (cfg e) (snapshot e) (totalFiles e) (totalBytes e) (dirty e) (pending e) idx (manifest e).

Section Search.
Context `{ManifestCodec} `{MapOrder} `{SymbolExtractor}.

(** The files of a snapshot outlive the next cycle. *)
Lemma rebuild_keeps_old d e fs during e' s :
  stored_in d e → (seqNo (snapshot e) + len (shards (snapshot e)) + 1 < 2 ^ 63)%Z →
  rebuild e fs during = Some e' → s ∈ shards (snapshot e) → idx_files e' !! s_path s = idx_files e !! s_path s.
Proof.
  intros Hd Hb Hr Hs. unfold rebuild, rebuild_io in Hr. destruct (bool_decide (dirty e = ∅)); [by injection Hr as <-|].
  apply bind_Some in Hr as ([deferred p] & Hbuild & Hr).
  destruct (cleanPending _ _) as [idx remaining] eqn:Eclean. injection Hr as <-. cbn [idx_files].
  change idx with (fst (idx, remaining)). rewrite <-Eclean. etrans; [apply (clean_lookup (_, []))|].
  - intros [_ Hn]%(od_pending _ _ Hd). apply Hn. by apply (list_elem_of_fmap_2 s_path).
  - cbn [fst]. apply put_files_other. by apply (old_unwritten d e fs deferred p).
Qed.

Lemma run_jobs_ext (job job' : Shard → option shardResult) ss order slots :
  (∀ s, s ∈ ss → job s = job' s) → run_jobs job ss order slots = run_jobs job' ss order slots.
Proof.
  intros Hj. revert slots. induction order as [|i order IH]; intros slots; [done|]. cbn [run_jobs].
  destruct (ss !! i) as [s|] eqn:E; [|done]. cbn [mbind option_bind].
  rewrite (Hj s) by by eapply list_elem_of_lookup_2. destruct (job' s); [|done]. apply IH.
Qed.
End Search.

(** C11. A search is not disturbed by a rebuild: one that took the snapshot and the dirty list before a
    cycle and reads the shard files after it gives the same result as one that ran before it, since
    the files a cycle replaces are removed by the next one only. *)
Theorem search_across_rebuild `{ManifestCodec} `{MapOrder} `{RE : RegexpEngine} `{RS : !RegexpString} `{SymbolExtractor}
    d e fs during e' re opts order fs' :
  stored_in d e → (seqNo (snapshot e) + len (shards (snapshot e)) + 1 < 2 ^ 63)%Z →
  rebuild e fs during = Some e' →
  EngineSearch.Search (with_dir e (idx_files e')) fs' re opts order = EngineSearch.Search e fs' re opts order.
Proof.
  intros Hd Hb Hr. unfold EngineSearch.Search. cbn [with_dir snapshot dirty].
  erewrite run_jobs_ext; [reflexivity|]. intros s Hs. cbn beta. unfold search_job.
  assert (mapped (with_dir e (idx_files e')) s = mapped e s) as ->; [|done].
  unfold mapped. cbn [with_dir idx_files]. by rewrite (rebuild_keeps_old d e fs during e' s).
Qed.

(** ** A full build starts the cycle *)

Section Build.
Context `{MapOrder} `{SymbolExtractor}.

Lemma manifest_files ss seq : map ms_File (Shards (ManifestFromShards ss seq)) = map s_path ss.
Proof. cbn. by rewrite map_map. Qed.

Lemma inputs_length fs fl : length (inputs_of fs fl) ≤ length fl.
Proof. induction fl as [|f fl IH]; [done|]. cbn. destruct (input_of fs f); cbn; unfold inputs_of in *; lia. Qed.

Lemma full_loop_names fs kb batches idx ss nf nb seq idx' ss' nf' nb' seq' :
  full_loop kb fs batches idx ss nf nb seq = Some (idx', inr (ss', nf', nb', seq')) →
  ∃ new, ss' = ss ++ new ∧ map s_path new = map shardPath (seqZ seq (len new)) ∧ seq' = (seq + len new)%Z.
Proof.
  revert idx ss nf nb seq. induction batches as [|b bs IH]; intros idx ss nf nb seq; cbn [full_loop].
  { intros [= <- <- <- <- <-]. exists []. rewrite app_nil_r. unfold len. cbn. split_and!; [done|done|lia]. }
  destruct (foldl (add_file fs) _ _) as [[b' n] z]. destruct (bool_decide (b_files b' = [])); [apply IH|].
  unfold write_open. intros ([idx1 r] & Hw & Hr)%bind_Some. apply bind_Some in Hw as ([out r'] & Hw & [= <- <-]).
  destruct r' as [err|s]; [done|]. apply write_shard_ok in Hw as [Hp _].
  destruct (IH _ _ _ _ _ Hr) as (new & -> & Hn & ->). exists (s :: new). rewrite <-app_assoc.
  assert (len (s :: new) = Z.succ (len new)) as -> by (unfold len; cbn [length]; lia).
  pose proof (len_nonneg new). split_and!; [done| |lia].
  rewrite seqZ_cons by lia. cbn [map]. by rewrite Hp, Hn, Z.pred_succ, Z.add_1_r.
Qed.

Lemma paths_distinct n : (n ≤ 10 ^ 20)%Z → NoDup (map shardPath (seqZ 0 n)) ∧ Forall (fresh_from 0 n) (map shardPath (seqZ 0 n)).
Proof.
  intros Hn. split.
  - apply NoDup_fmap_2_strong; [|apply NoDup_seqZ]. intros x y Hx%elem_of_seqZ Hy%elem_of_seqZ. apply shardPath_inj; lia.
  - apply Forall_forall. intros m (k & -> & Hk%elem_of_seqZ)%list_elem_of_fmap. exists k. split; [lia|done].
Qed.
End Build.

(** A full build of a repository leaves the engine and its directory, with the manifest written, as a cycle
    expects them. *)
(** The names of the files of an engine: those of the shards and of the files to
    remove are all different and from earlier sequence numbers. *)
Record named (e : DiskEngine) : Prop := {
  nm_names : old_names e (shards (snapshot e));
  nm_pending n : n ∈ pending e → fresh_from 0 (seqNo (snapshot e)) n ∧ n ∉ map s_path (shards (snapshot e));
  nm_seq : (0 ≤ seqNo (snapshot e))%Z;
}.

Lemma stored_named `{ManifestCodec} d e : stored_in d e → named e.
Proof. intros []. by split. Qed.

(** A directory for an engine: its shard files, and a manifest of them. *)
Lemma named_stored `{ManifestCodec} `{MapOrder} kb e parts :
  codec_keeps → in_order kb e parts → named e → (seqNo (snapshot e) < 2 ^ 63)%Z →
  stored_in (<[manifestFile := marshal (ManifestFromShards (shards (snapshot e)) (seqNo (snapshot e)))]> (idx_files e)) e.
Proof.
  intros Hc [Hs _ _] [Hn Hp Hz] Hb. pose proof Hn as [_ Hf]. rewrite Forall_forall in Hf.
  split; [|intros s Hin|done..].
  - unfold ReadManifest. rewrite lookup_insert_eq. cbn [mbind option_bind].
    destruct (Hc (ManifestFromShards (shards (snapshot e)) (seqNo (snapshot e)))) as (m & -> & Hm1 & Hm2).
    + cbn. lia.
    + rewrite manifest_files. apply Hn.
    + exists m. split_and!; [done|done|]. by rewrite Hm2, manifest_files.
  - destruct (Hf (s_path s)) as (k & _ & Ek); [by apply (list_elem_of_fmap_2 s_path)|].
    unfold holds_shard. rewrite lookup_insert_ne by (rewrite Ek; apply not_eq_sym, shardPath_manifest). split; [|done].
    apply list_elem_of_lookup in Hin as [i Hi]. destruct (Forall2_lookup_l _ _ _ _ _ Hs Hi) as (ins & _ & Hso).
    apply (so_file _ _ _ _ Hso).
Qed.

Lemma FullBuild_named `{MapOrder} `{SymbolExtractor} fs e files :
  build_fits fs (cfg e) files → pending e = [] →
  ∃ e' parts, FullBuild e fs files = Some (e', None) ∧ full_built fs e e' files parts ∧ pending e' = [] ∧
    seqNo (snapshot e') = len (shards (snapshot e')) ∧ (seqNo (snapshot e') < 2 ^ 63)%Z ∧ named e'.
Proof.
  intros Hfits Hpend. destruct (FullBuild_spec fs e files Hfits) as (e' & He & Hfb). exists e'. eexists.
  split; [done|]. split; [exact Hfb|].
  assert (map s_path (shards (snapshot e')) = map shardPath (seqZ 0 (len (shards (snapshot e')))) ∧
    seqNo (snapshot e') = len (shards (snapshot e')) ∧ pending e' = []) as (Hn & Hs & Hp).
  { unfold FullBuild in He. apply bind_Some in He as ([idx' [err|[[[ss nf] nb] seq]]] & Hl & He); [done|].
    injection He as <-. cbn. destruct (full_loop_names _ _ _ _ _ _ _ _ _ _ _ _ _ Hl) as (new & -> & Hn & ->).
    cbn [app]. rewrite Hn. split_and!; [done|lia|done]. }
  assert (len (shards (snapshot e')) < 2 ^ 63)%Z as Hlen.
  { destruct Hfits as (_ & Hl & _). destruct (fb_order _ _ _ _ _ Hfb) as [Hall Hne _]. unfold len in *.
    rewrite (Forall2_length _ _ _ Hall).
    pose proof (concat_len _ Hne) as Hcl. rewrite (fb_concat _ _ _ _ _ Hfb) in Hcl. unfold len in Hcl.
    pose proof (inputs_length fs (merge_sort rel_le files)) as Ho.
    rewrite (Permutation_length (merge_sort_Permutation rel_le files)) in Ho. lia. }
  pose proof (len_nonneg (shards (snapshot e'))). destruct (paths_distinct (len (shards (snapshot e')))) as [Hnd Hfr]; [lia|].
  split_and!; [done|done|lia|]. split; [split; rewrite Hn; [done|by rewrite Hs]| |lia].
  rewrite Hp. by intros n ?%elem_of_nil.
Qed.

Lemma FullBuild_on_disk `{ManifestCodec} `{MapOrder} `{SymbolExtractor} fs e files :
  codec_keeps → build_fits fs (cfg e) files → pending e = [] →
  ∃ e', FullBuild e fs files = Some (e', None) ∧ pending e' = [] ∧ (seqNo (snapshot e') = len (shards (snapshot e')))%Z ∧
    stored_in (<[manifestFile := marshal (ManifestFromShards (shards (snapshot e')) (seqNo (snapshot e')))]> (idx_files e')) e'.
Proof.
  intros Hc Hfits Hpend. destruct (FullBuild_named fs e files Hfits Hpend) as (e' & parts & He & Hfb & Hp & Hs & Hb & Hn).
  exists e'. split_and!; [done..|]. eapply named_stored; [done|apply Hfb|done|done].
Qed.

(** The marks of the watcher are in memory. *)
Lemma stored_in_dirty `{ManifestCodec} d e p : stored_in d e → stored_in d (MarkDirty e p).
Proof. intros []. by split. Qed.
Lemma stored_in_deleted `{ManifestCodec} d e p : stored_in d e → stored_in d (MarkDeleted e p).
Proof. intros []. by split. Qed.

(** ** Examples *)

(** A codec for the examples: the number and the names, a line each. *)
Definition line_codec : ManifestCodec := {|
  marshal m := digits 20 (SeqNo m) [] ++ concat (map (λ s, newline :: ms_File s) (Shards m));
  unmarshal data := match split_byte newline data with
                    | n :: fs => Some (mkManifest 1 (dec_val n) (map (λ f, mkMS f [] []) fs))
                    | [] => None
                    end;
|}.

Lemma split_lines a fs :
  newline ∉ a → Forall (λ f, newline ∉ f) fs → split_byte newline (a ++ concat (map (λ f, newline :: f) fs)) = a :: fs.
Proof.
  intros Ha Hf. revert a Ha. induction Hf as [|f fs Hf _ IH]; intros a Ha; cbn [map concat app].
  - rewrite app_nil_r. by apply split_byte_notin.
  - rewrite split_byte_app by done. by rewrite IH.
Qed.

Lemma digits_no_newline z : (0 ≤ z)%Z → newline ∉ digits 20 z [].
Proof. intros Hz [Hn|Hn]%digits_range; [by apply elem_of_nil in Hn|by vm_compute in Hn|done]. Qed.

Lemma shardPath_no_newline k : (0 ≤ k)%Z → newline ∉ shardPath k.
Proof.
  intros Hk. unfold shardPath, pad4. rewrite !not_elem_of_app. split_and!.
  - apply (bool_decide_unpack _). vm_compute. exact I.
  - intros Hn%elem_of_replicate. by destruct Hn.
  - by apply digits_no_newline.
  - apply (bool_decide_unpack _). vm_compute. exact I.
Qed.

Lemma line_codec_keeps : @codec_keeps line_codec.
Proof.
  intros m Hs Hf. cbn [unmarshal marshal line_codec].
  rewrite <-(map_map ms_File (λ f, newline :: f)).
  rewrite split_lines; [|apply digits_no_newline; lia|].
  - eexists. split; [done|]. cbn [SeqNo Shards]. split.
    + rewrite digits_val by (change (Z.of_nat 20) with 20%Z; lia). unfold dec_val, len. cbn [length foldl]. lia.
    + rewrite map_map. apply map_id.
  - eapply Forall_impl; [exact Hf|]. intros n (k & Hk & ->). apply shardPath_no_newline. lia.
Qed.

(** The engine of a full build of [demo_files] in its directory, where two files have been marked. *)
Definition with_manifest (e : DiskEngine) : dir :=
  <[manifestFile := @marshal line_codec (ManifestFromShards (shards (snapshot e)) (seqNo (snapshot e)))]> (idx_files e).

Lemma demo_stored : ∃ e, @FullBuild tree_order no_symbols demo_new demo_fs demo_files = Some (e, None) ∧
  len (shards (snapshot e)) = 2%Z ∧ seqNo (snapshot e) = 2%Z ∧ pending e = [] ∧
  @stored_in line_codec (with_manifest e) (MarkDirty (MarkDeleted e (bs "c.txt")) (bs "d")).
Proof.
  destruct (@FullBuild_on_disk line_codec tree_order no_symbols demo_fs demo_new demo_files line_codec_keeps
    demo_build_fits eq_refl) as (e & He & Hp & Hs & Hd). exists e. split; [done|].
  assert (from_option (λ r : DiskEngine * option shard_err, len (shards (snapshot r.1))) 0%Z
    (@FullBuild tree_order no_symbols demo_new demo_fs demo_files) = 2%Z) as Hl by (vm_compute; reflexivity).
  rewrite He in Hl. cbn in Hl. split_and!; [exact Hl|by rewrite Hs|exact Hp|].
  by apply stored_in_dirty, stored_in_deleted.
Qed.

Lemma rebuild_atomic_witness :
  ∃ e e' ops, @rebuild tree_order no_symbols (MarkDirty (MarkDeleted e (bs "c.txt")) (bs "d")) demo_fs [] = Some e' ∧
    @rebuild_ops line_codec tree_order no_symbols (MarkDirty (MarkDeleted e (bs "c.txt")) (bs "d")) demo_fs = Some ops ∧
    length ops = 4 ∧ @stored_in line_codec (exec_all ops (with_manifest e)) e'.
Proof.
  destruct demo_stored as (e & He & Hl & Hs & Hp & Hd). set (e1 := MarkDirty _ _) in *.
  assert (from_option (λ r : DiskEngine * option shard_err,
    (bool_decide (is_Some (@rebuild tree_order no_symbols (MarkDirty (MarkDeleted r.1 (bs "c.txt")) (bs "d")) demo_fs [])),
     from_option length 0 (@rebuild_ops line_codec tree_order no_symbols (MarkDirty (MarkDeleted r.1 (bs "c.txt")) (bs "d")) demo_fs)))
    (false, 0) (@FullBuild tree_order no_symbols demo_new demo_fs demo_files) = (true, 4)) as Hv by (vm_compute; reflexivity).
  rewrite He in Hv. cbn [from_option fst] in Hv. fold e1 in Hv. injection Hv as Hv1%bool_decide_eq_true_1 Hv2.
  destruct Hv1 as [e' Hr].
  destruct (@rebuild_ops line_codec tree_order no_symbols e1 demo_fs) as [ops|] eqn:Ho; [|done]. cbn in Hv2.
  exists e, e', ops. split_and!; [done|done|done|].
  apply (@rebuild_atomic line_codec tree_order no_symbols (with_manifest e) e1 demo_fs [] e' ops line_codec_keeps Hd);
    [|done|done]. change (snapshot e1) with (snapshot e). rewrite Hl, Hs. reflexivity.
Defined.

Lemma search_across_rebuild_witness :
  let RE := one_engine hello_re in let RS := Build_RegexpString RE (λ _, []) in
  let opts := mkOpts [] None false 0 (bs "func") true 0 0 in
  ∃ e e', @rebuild tree_order no_symbols (MarkDirty (MarkDeleted e (bs "c.txt")) (bs "d")) demo_fs [] = Some e' ∧
    @EngineSearch.Search tree_order RE RS (with_dir (MarkDirty (MarkDeleted e (bs "c.txt")) (bs "d")) (idx_files e'))
        demo_fs tt opts [0; 1] =
    @EngineSearch.Search tree_order RE RS (MarkDirty (MarkDeleted e (bs "c.txt")) (bs "d")) demo_fs tt opts [0; 1].
Proof.
  intros RE RS opts. destruct demo_stored as (e & He & Hl & Hs & Hp & Hd). set (e1 := MarkDirty _ _) in *.
  assert (from_option (λ r : DiskEngine * option shard_err,
    bool_decide (is_Some (@rebuild tree_order no_symbols (MarkDirty (MarkDeleted r.1 (bs "c.txt")) (bs "d")) demo_fs [])))
    false (@FullBuild tree_order no_symbols demo_new demo_fs demo_files) = true) as Hv by (vm_compute; reflexivity).
  rewrite He in Hv. cbn [from_option fst] in Hv. fold e1 in Hv. apply bool_decide_eq_true_1 in Hv as [e' Hr].
  exists e, e'. split; [done|].
  apply (@search_across_rebuild line_codec tree_order RE RS no_symbols (with_manifest e) e1 demo_fs [] e'); [done| |done].
  change (snapshot e1) with (snapshot e). rewrite Hl, Hs. reflexivity.
Defined.

(** [Search] loads the snapshot before it copies the dirty list.  The engine as a search sees it when
    a cycle runs in between: the shards of before, the marks of after. *)
Definition between (e e' : DiskEngine) : DiskEngine :=
  mkEngine (cfg e) (snapshot e) (totalFiles e) (totalBytes e) (dirty e') (pending e) (idx_files e') (manifest e).

(** The paths a search for [func] finds after a full build of [demo_files] and the creation of the files [extra]:
    before a cycle of [rebuild], after it, and across it when the two loads of [Search] fall on either side. *)
Definition found_around (extra : list bytes) : option (list bytes * list bytes * list bytes) :=
  let RS := Build_RegexpString (one_engine hello_re) (λ _, bs "func") in
  let opts := mkOpts (bs "func") None false 0 (bs "func") true 0 0 in
  let find e := res ← @EngineSearch.Search tree_order (one_engine hello_re) RS e (more_fs extra) tt opts
                  (seq 0 (length (shards (snapshot e))));
                Some (map m_Path (Matches res)) in
  '(e, _) ← @FullBuild tree_order no_symbols demo_new demo_fs demo_files;
  let e := foldl MarkDirty e extra in
  e' ← @rebuild tree_order no_symbols e (more_fs extra) [];
  before ← find e;
  after ← find e';
  across ← find (between e e');
  Some (before, after, across).

(** A search that loads the snapshot before a cycle and the dirty list after it misses a file that
    searches before and after the cycle find. *)
Theorem search_between_loads_misses :
  found_around [bs "d"] = Some ([bs "a/x.go"; bs "c.txt"; bs "d"], [bs "a/x.go"; bs "c.txt"; bs "d"],
                                [bs "a/x.go"; bs "c.txt"]).
Proof. vm_compute. reflexivity. Qed.
