(* ===== verification/Track.v ===== *)
(** * The disk engine follows the repository: internal/shard/engine.go

    An engine tracks a set of files when its shards and its dirty list account for
    each of them.  A tracking engine answers a search as a scan of the files; a full
    build makes one, the marks of the watcher and a restart keep it. *)

From S2P Require Import Prelude GoBytes Trigram Text Lines Regexp Literal Matcher Symbol Index.
From S2P Require Import IndexSearch Codec Shard ShardLayout ShardRead ShardSpec Engine Scan.
From S2P Require Import EngineSearch EngineSpec EngineScan EngineBuild EngineRestart.

(** ** Tracking *)

(** A file that [verifyFile] can read, and one it can find something in. *)
Definition readable (fs : FS) (p : bytes) : Prop := is_Some (ReadFile fs p) ∧ is_Some (Stat fs p).
Definition has_text (fs : FS) (p : bytes) : Prop :=
  ∃ c, ReadFile fs p = Some c ∧ is_Some (Stat fs p) ∧ isBinary c = false.

(** The engine [e], with shards made of [parts], accounts for the files [L] of the
    repository: each path is in one shard at most, the indexed files that are not dirty are
    as they were indexed, the dirty list marks no file of [L] as deleted and none outside it
    that can be read, and a text file of [L] is indexed or dirty. *)
Record covering `{MapOrder} (fs : FS) (L : gset bytes) (e : DiskEngine) (parts : list (list input)) : Prop := {
  cv_shards : Forall2 (shard_of (InlineKB (cfg e)) (idx_files e)) (shards (snapshot e)) parts;
  cv_paths : NoDup (map path_of (concat parts));
  cv_clean f : f ∈ concat parts → dirty e !! path_of f = None →
    path_of f ∈ L ∧ ReadFile fs (path_of f) = Some (in_content f) ∧
    Stat fs (path_of f) = Some (Size (in_meta f), MtimeNS (in_meta f));
  cv_dirty p : dirty e !! p = Some false → readable fs p → p ∈ L;
  cv_deleted p : dirty e !! p = Some true → p ∉ L;
  cv_all p : p ∈ L → has_text fs p → p ∈ map path_of (concat parts) ∨ dirty e !! p = Some false;
}.

(** It tracks them when the ranges of its shards are in order besides, as finding the shard
    of a path needs. *)
Record tracking `{MapOrder} (fs : FS) (L : gset bytes) (e : DiskEngine) (parts : list (list input)) : Prop := {
  tr_order : in_order (InlineKB (cfg e)) e parts;
  tr_covers : covering fs L e parts;
}.

(** ** A search *)

(** Two lists of files with the same hits, each file at most once in either. *)
Lemma hits_perm (a b : list (bytes * list Match)) :
  NoDup ((filter (λ ph, ph.2 ≠ []) a).*1) → NoDup ((filter (λ ph, ph.2 ≠ []) b).*1) →
  (∀ p ms, ms ≠ [] → ((p, ms) ∈ a ↔ (p, ms) ∈ b)) → concat a.*2 ≡ₚ concat b.*2.
Proof.
  intros Ha Hb Hab.
  assert (∀ l : list (bytes * list Match), concat l.*2 = concat (filter (λ ph, ph.2 ≠ []) l).*2) as Hf.
  { intros l. induction l as [|[p ms] l IH]; [done|]. rewrite filter_cons. cbn [fmap list_fmap concat snd].
    destruct (decide (ms ≠ [])) as [|E]; [cbn; by rewrite IH|]. apply dec_stable in E as ->. exact IH. }
  rewrite (Hf a), (Hf b).
  assert (filter (λ ph, ph.2 ≠ []) a ≡ₚ filter (λ ph, ph.2 ≠ []) b) as ->; [|done].
  apply NoDup_Permutation; [by eapply NoDup_fmap_1|by eapply NoDup_fmap_1|].
  intros [p ms]. rewrite !list_elem_of_filter. cbn. naive_solver.
Qed.

Lemma NoDup_hits (f : bytes → list Match) (l : list bytes) :
  NoDup l → NoDup ((filter (λ ph, ph.2 ≠ []) (map (λ p, (p, f p)) l)).*1).
Proof.
  intros Hl. eapply sublist_NoDup; [exact Hl|]. clear Hl. induction l as [|p l IH]; [constructor|].
  cbn [map]. rewrite filter_cons. destruct (decide _); simpl; by constructor.
Qed.

Section Search.
Context `{MapOrder} `{RegexpEngine} (fs : FS) (L : gset bytes) (e : DiskEngine) (parts : list (list input)).
Hypothesis Hcv : covering fs L e parts.

Lemma dirty_hits_text mat opts p : dirty_hits fs mat opts p ≠ [] → has_text fs p.
Proof.
  unfold dirty_hits. destruct (negb _); [done|]. destruct (Stat fs p) as [[size t]|] eqn:Es; [|done].
  destruct (_ && _); [done|]. destruct (ReadFile fs p) as [c|] eqn:Er; [|done]. unfold scan_lines.
  destruct (isBinary c) eqn:Eb; [done|]. intros _. exists c. by rewrite Es.
Qed.

Lemma text_readable p : has_text fs p → readable fs p.
Proof. intros (c & Hr & Hs & _). split; [by exists c|done]. Qed.

(** The hits of an indexed file that is not dirty are those of the file on disk. *)
Lemma clean_hits mat opts f :
  f ∈ concat parts → dirty e !! path_of f = None → hits (dirty e) mat opts f = dirty_hits fs mat opts (path_of f).
Proof.
  intros Hf Hd. destruct (cv_clean _ _ _ _ Hcv f Hf Hd) as (_ & Hr & Hs). unfold hits, dirty_hits.
  fold (path_of f). rewrite Hd, Hr, Hs. rewrite bool_decide_eq_false_2 by by intros [].
  destruct (path_ok (o_PathMatch opts) (path_of f)); cbn [negb]; [|by rewrite orb_true_r].
  by rewrite orb_false_r.
Qed.

Lemma dirty_no_hits mat opts f b : dirty e !! path_of f = Some b → hits (dirty e) mat opts f = [].
Proof. intros Hd. unfold hits. fold (path_of f). rewrite Hd. by rewrite bool_decide_eq_true_2. Qed.

Lemma covering_scan mat opts p ms :
  ms ≠ [] → (p, ms) ∈ scan_of fs (dirty e) mat opts parts ↔
    (p, ms) ∈ map (λ p, (p, dirty_hits fs mat opts p)) (elements L).
Proof.
  intros Hms. unfold scan_of. rewrite elem_of_app, !list_elem_of_fmap. setoid_rewrite elem_of_elements. split.
  - intros [(f & [= -> ->] & Hf)|(q & [= -> ->] & Hq)].
    + fold (path_of f) in *. destruct (dirty e !! path_of f) eqn:Hd; [by rewrite (dirty_no_hits mat opts f b) in Hms|].
      rewrite clean_hits in Hms |- * by done. exists (path_of f). split; [done|]. by apply (cv_clean _ _ _ _ Hcv).
    + exists q. split; [done|]. apply dirty_paths_spec in Hq. apply (cv_dirty _ _ _ _ Hcv); [done|].
      by eapply text_readable, dirty_hits_text.
  - intros (q & [= -> ->] & Hq). pose proof (dirty_hits_text _ _ _ Hms) as Ht.
    destruct (dirty e !! q) as [[]|] eqn:Hd.
    + by destruct (cv_deleted _ _ _ _ Hcv q Hd).
    + right. exists q. split; [done|]. by apply dirty_paths_spec.
    + destruct (cv_all _ _ _ _ Hcv q Hq Ht) as [(f & -> & Hf)%list_elem_of_fmap|Hd']; [|congruence].
      left. exists f. fold (path_of f). split; [|done]. by rewrite clean_hits.
Qed.
End Search.

Lemma covering_search `{MapOrder} `{RegexpEngine} `{!RegexpString} fs L e parts re opts order :
  let mat := search_matcher re opts in let hits := dirty_hits fs mat opts in
  covering fs L e parts → matcher_ok mat → (o_Limit opts ≤ 0)%Z → lit_required mat (o_Literal opts) →
  order ≡ₚ seq 0 (length (shards (snapshot e))) →
  ∃ res, EngineSearch.Search e fs re opts order = Some res ∧ Truncated res = false ∧
    (o_FilesOnly opts = true → Matches res = []) ∧
    (o_FilesOnly opts = false → Matches res ≡ₚ concat (map hits (elements L))) ∧
    ∀ p n, FileCounts res !! p = Some n ↔ p ∈ L ∧ hits p ≠ [] ∧ n = length (hits p).
Proof.
  intros mat hits Hcv Hmat Hl Hlit Ho. pose proof Hcv as [Hs Hnd Hcl _ _ _].
  destruct (scan_spec e fs re opts order (InlineKB (cfg e)) parts Hmat Hl Hlit) as (res & Hr & Ht & Hm & Hc);
    [by eapply served_parts| |done|done|].
  { apply Forall_forall. intros f Hf Hd. by apply Hcl. }
  exists res. split_and!; [done|done| | |].
  - intros Hfo. by rewrite Hm, Hfo.
  - intros Hfo. rewrite Hm, Hfo.
    assert (concat (map hits (elements L)) = concat (map (λ p, (p, hits p)) (elements L)).*2) as ->.
    { f_equal. by rewrite <-list_fmap_compose. }
    apply hits_perm; [by apply scan_of_NoDup|apply NoDup_hits, NoDup_elements|]. intros p ms Hms.
    by apply (covering_scan fs L).
  - intros p n. rewrite Hc. fold mat. split.
    + intros (ms & Hin & Hms & ->). apply (covering_scan fs L e parts Hcv) in Hin; [|done].
      apply list_elem_of_fmap in Hin as (q & [= -> ->] & Hq%elem_of_elements). done.
    + intros (Hp & Hms & ->). exists (hits p). split_and!; [|done|done].
      apply (covering_scan fs L e parts Hcv); [done|].
      apply (list_elem_of_fmap_2 (λ p, (p, hits p))). by apply elem_of_elements.
Qed.

(** ** A full build *)

(** The listing has the size and modification time of each file. *)
Definition stats_match (fs : FS) (files : list BuildFile) : Prop :=
  ∀ f, f ∈ files → Stat fs (Rel f) = Some (bf_Size f, bf_MtimeNS f).

Definition listed (files : list BuildFile) : gset bytes := list_to_set (map Rel files).

Lemma listed_elem files p : p ∈ listed files ↔ ∃ f, f ∈ files ∧ Rel f = p.
Proof. unfold listed. rewrite elem_of_list_to_set, list_elem_of_fmap. naive_solver. Qed.

(** The files given to a builder. *)
Lemma input_of_Some `{SymbolExtractor} fs f i :
  input_of fs f = Some i → ∃ c, ReadFile fs (Rel f) = Some c ∧ isBinary (transcode c) = false ∧
    in_meta i = mkMeta (Rel f) (bf_Size f) (bf_MtimeNS f) ∧ in_content i = transcode c.
Proof.
  unfold input_of. intros (c & Hc & Hi)%bind_Some. exists c. unfold text_of in Hi.
  destruct (isBinary (transcode c)); [done|]. by injection Hi as <-.
Qed.

Lemma input_of_text `{SymbolExtractor} fs f :
  (∀ c, ReadFile fs (Rel f) = Some c → transcode c = c) → has_text fs (Rel f) → is_Some (input_of fs f).
Proof.
  intros Ht (c & Hc & _ & Hb). unfold input_of, text_of. rewrite Hc. cbn [mbind option_bind].
  rewrite (Ht c Hc), Hb. by eexists.
Qed.

Lemma inputs_of_elem `{SymbolExtractor} fs files i :
  i ∈ inputs_of fs files ↔ ∃ f, f ∈ files ∧ input_of fs f = Some i.
Proof. unfold inputs_of. by rewrite list_elem_of_omap. Qed.

Lemma built_tracking `{MapOrder} `{SymbolExtractor} fs e e' files parts :
  full_built fs e e' files parts → stats_match fs files → no_utf16 fs files → dirty e = ∅ →
  tracking fs (listed files) e' parts.
Proof.
  intros [Ho Hc Hcfg Hd _ _ _] Hst Hu He. rewrite He in Hd. rewrite <-Hcfg in Ho. split; [done|].
  pose proof Ho as [Hs _ Hss]. split; [done|by apply sorted_NoDup|..].
  - intros f Hf _. rewrite Hc in Hf. apply inputs_of_elem in Hf as (g & Hg & Hi).
    rewrite (merge_sort_Permutation rel_le files) in Hg.
    destruct (input_of_Some _ _ _ Hi) as (c & Hr & _ & Hm & Hic). unfold path_of. rewrite Hm. cbn [Path Size MtimeNS].
    split_and!; [apply listed_elem; by exists g| |by apply Hst]. rewrite Hic, Hr. by rewrite (Hu g c Hg Hr).
  - intros p. by rewrite Hd.
  - intros p. by rewrite Hd.
  - intros p (f & Hf & <-)%listed_elem Ht. left. rewrite Hc.
    destruct (input_of_text fs f (λ c, Hu f c Hf) Ht) as [i Hi].
    destruct (input_of_Some _ _ _ Hi) as (c & _ & _ & Hm & _).
    assert (Rel f = path_of i) as -> by (unfold path_of; by rewrite Hm).
    apply (list_elem_of_fmap_2 path_of), inputs_of_elem. exists f.
    by rewrite (merge_sort_Permutation rel_le files).
Qed.

(** ** The marks of a change *)

(** Outside [C], nothing has changed. *)
Definition changed_in (C : bytes → Prop) (fs fs' : FS) (L L' : gset bytes) : Prop :=
  ∀ p, ¬ C p → ReadFile fs' p = ReadFile fs p ∧ Stat fs' p = Stat fs p ∧ (p ∈ L' ↔ p ∈ L).

(** The marks of the paths in [C]: a file of the repository is dirty; another is not
    marked as a file unless it cannot be read, and it is marked if it is indexed. *)
Definition marked (C : bytes → Prop) (fs : FS) (L : gset bytes) (ins : list input) (d : gmap bytes bool) : Prop :=
  ∀ p, C p → if decide (p ∈ L) then d !! p = Some false
             else (d !! p = Some false → ¬ readable fs p) ∧ (p ∈ map path_of ins → is_Some (d !! p)).

Lemma same_text fs fs' p : ReadFile fs' p = ReadFile fs p → Stat fs' p = Stat fs p →
  (readable fs' p ↔ readable fs p) ∧ (has_text fs' p ↔ has_text fs p).
Proof. intros Hr Hs. unfold readable, has_text. by rewrite Hr, Hs. Qed.

Lemma marked_covering `{MapOrder} C fs fs' L L' e parts d :
  covering fs L e parts → changed_in C fs fs' L L' → (∀ p, C p ∨ ¬ C p) →
  (∀ p, ¬ C p → d !! p = dirty e !! p) → marked C fs' L' (concat parts) d →
  covering fs' L' (set_dirty e d) parts.
Proof.
  intros [Hs Hnd Hc Hd Hdel Ha] Hch Hdec Heq Hm. split; cbn [cfg dirty set_dirty]; [done|done|..].
  - intros f Hf Hn. destruct (Hdec (path_of f)) as [HC|HC].
    + specialize (Hm _ HC). destruct (decide _); [congruence|]. destruct Hm as [_ Hm].
      destruct Hm as [b Hb]; [by apply (list_elem_of_fmap_2 path_of)|congruence].
    + destruct (Hch _ HC) as (-> & -> & ->). apply Hc; [done|]. by rewrite <-Heq.
  - intros p Hp Hr. destruct (Hdec p) as [HC|HC].
    + specialize (Hm _ HC). destruct (decide _); [done|]. by destruct Hm as [Hm _]; destruct (Hm Hp).
    + destruct (Hch _ HC) as (Hr1 & Hs1 & ->). apply Hd; [by rewrite <-Heq|]. by apply (same_text fs fs').
  - intros p Hp. destruct (Hdec p) as [HC|HC].
    + specialize (Hm _ HC). destruct (decide _); [congruence|done].
    + destruct (Hch _ HC) as (_ & _ & ->). apply Hdel. by rewrite <-Heq.
  - intros p Hp Ht. destruct (Hdec p) as [HC|HC].
    + specialize (Hm _ HC). rewrite decide_True in Hm by done. by right.
    + destruct (Hch _ HC) as (Hr1 & Hs1 & HL). rewrite Heq by done. apply Ha; [by apply HL|].
      by apply (same_text fs fs').
Qed.

Lemma marked_tracking `{MapOrder} C fs fs' L L' e parts d :
  tracking fs L e parts → changed_in C fs fs' L L' → (∀ p, C p ∨ ¬ C p) →
  (∀ p, ¬ C p → d !! p = dirty e !! p) → marked C fs' L' (concat parts) d →
  tracking fs' L' (set_dirty e d) parts.
Proof. intros [[Hs Hne Hss] Hcv] ? ? ? ?. split; [by split|by eapply marked_covering]. Qed.

Lemma mark_dirty_all ps e p :
  dirty (foldl MarkDirty e ps) !! p = if decide (p ∈ ps) then Some false else dirty e !! p.
Proof.
  induction ps as [|q ps IH] using rev_ind; [done|]. rewrite foldl_app. cbn [foldl MarkDirty dirty set_dirty].
  rewrite lookup_insert. destruct (decide (q = p)) as [->|Hne].
  - rewrite decide_True; [done|]. apply elem_of_app. right. by left.
  - rewrite IH. apply decide_ext. rewrite elem_of_app, list_elem_of_singleton. naive_solver.
Qed.

Lemma MarkDirty_all ps e : foldl MarkDirty e ps = set_dirty e (dirty (foldl MarkDirty e ps)).
Proof. induction ps as [|q ps IH] using rev_ind; [by destruct e|]. rewrite foldl_app. cbn. by rewrite IH. Qed.

(** Files that are written or created, each marked as [MarkDirty] does. *)
Lemma written_tracking `{MapOrder} fs fs' L L' e parts ps :
  tracking fs L e parts → changed_in (λ p, p ∈ ps) fs fs' L L' → (∀ p, p ∈ ps → p ∈ L') →
  tracking fs' L' (foldl MarkDirty e ps) parts.
Proof.
  intros Htr Hch Hps. rewrite MarkDirty_all. apply (marked_tracking (λ p, p ∈ ps) fs fs' L L'); [done..| | |].
  - intros p. destruct (decide (p ∈ ps)); [by left|by right].
  - intros p Hp. rewrite mark_dirty_all. by rewrite decide_False.
  - intros p Hp. rewrite decide_True by auto. rewrite mark_dirty_all. by rewrite decide_True.
Qed.

(** ** A path or a directory that is gone *)

Definition at_or_below (dir p : bytes) : Prop := p = dir ∨ below dir p.
#[export] Instance at_or_below_dec dir p : Decision (at_or_below dir p).
Proof. unfold at_or_below. apply _. Defined.

Lemma gone_tracking `{MapOrder} fs fs' L L' e parts rel :
  tracking fs L e parts → changed_in (at_or_below rel) fs fs' L L' →
  (∀ p, at_or_below rel p → p ∉ L' ∧ ¬ readable fs' p) →
  ∃ e', MarkDeletedPrefix (MarkDeleted e rel) rel = Some e' ∧
    cfg e' = cfg e ∧ snapshot e' = snapshot e ∧ pending e' = pending e ∧
    idx_files e' = idx_files e ∧ manifest e' = manifest e ∧ tracking fs' L' e' parts.
Proof.
  intros Htr Hch Hgone. pose proof (tr_order _ _ _ _ Htr) as [Hs Hne Hss].
  destruct (MarkDeletedPrefix_spec (InlineKB (cfg e)) (MarkDeleted e rel) parts) with (dir := rel) as (d & Hm & Hd);
    [by split|].
  eexists. split; [exact Hm|]. split_and!; [done..|].
  change (set_dirty (MarkDeleted e rel) d) with (set_dirty e d). cbn [MarkDeleted dirty set_dirty] in Hd.
  apply (marked_tracking (at_or_below rel) fs fs' L L'); [done|done| | |].
  - intros p. destruct (decide (at_or_below rel p)); [by left|by right].
  - intros p Hp. destruct (Hd p) as [(_ & Hb & _)|[-> _]]; [done|]. apply lookup_insert_ne.
    intros ->. apply Hp. by left.
  - intros p HC. destruct (Hgone p HC) as [HL Hr]. rewrite decide_False by done. split; [done|]. intros Hp.
    destruct (Hd p) as [(-> & _)|[-> Hn]]; [done|]. destruct HC as [->|Hb]; [by rewrite lookup_insert_eq|].
    by destruct Hn.
Qed.

(** ** A restart *)

Lemma disk_map_Some files p f : disk_map files !! p = Some f → f ∈ files ∧ Rel f = p.
Proof.
  unfold disk_map. induction files as [|g files IH] using rev_ind; [done|]. rewrite foldl_app. cbn [foldl].
  rewrite lookup_insert, elem_of_app, list_elem_of_singleton. destruct (decide (Rel g = p)) as [<-|Hne].
  - intros [= ->]. auto.
  - intros [? ?]%IH. auto.
Qed.

Lemma indexed_map_elem ins i :
  NoDup (map path_of ins) → i ∈ ins → indexed_map ins !! path_of i = Some (in_meta i).
Proof.
  intros Hnd Hi. unfold indexed_map. apply elem_of_list_to_map_1; [by rewrite <-list_fmap_compose|].
  by apply (list_elem_of_fmap_2 (λ i, (path_of i, in_meta i))).
Qed.

Lemma restart_tracking `{MapOrder} fs fs' L e parts c now :
  tracking fs L e parts → InlineKB c = InlineKB (cfg e) →
  manifest e = Some (ManifestFromShards (shards (snapshot e)) (seqNo (snapshot e))) →
  stats_match fs' now →
  (∀ f i, f ∈ now → i ∈ concat parts → path_of i = Rel f → Size (in_meta i) = bf_Size f →
     MtimeNS (in_meta i) = bf_MtimeNS f → ReadFile fs' (Rel f) = Some (in_content i)) →
  ∃ r, Reconcile (NewDiskEngine c (idx_files e) (manifest e)) now = Some r ∧
    cfg r = c ∧ snapshot r = snapshot e ∧ pending r = [] ∧ manifest r = manifest e ∧ tracking fs' (listed now) r parts.
Proof.
  intros Htr Hkb Hm Hst Hsame. pose proof (tr_order _ _ _ _ Htr) as Hio.
  destruct (Reconcile_spec _ e parts Hio c now Hm) as (d & Hr & Hi & Hd). eexists. split; [exact Hr|].
  split_and!; [done..|]. destruct Hio as [Hs Hne Hss]. pose proof (sorted_NoDup _ Hss) as Hnd.
  set (r := mkEngine _ _ _ _ _ _ _ _). assert (Forall2 (shard_of (InlineKB (cfg r)) (idx_files r)) (shards (snapshot r)) parts) as Hall.
  { cbn [r cfg idx_files snapshot]. rewrite Hkb. clear -Hs Hi.
    apply Forall2_same_length_lookup_2; [by eapply Forall2_length|]. intros i s ins Hsi Hpi.
    eapply shard_of_frame; [by eapply Forall2_lookup_lr|]. by apply Hi; eapply list_elem_of_lookup_2. }
  split; [by split|]. split; [exact Hall|exact Hnd|..]; unfold r; cbn [dirty]; clear Hall r.
  - intros f Hf Hn. rewrite Hd in Hn. unfold mark_of in Hn. rewrite (indexed_map_elem _ _ Hnd Hf) in Hn.
    destruct (disk_map now !! path_of f) as [g|] eqn:Eg; [|done]. unfold stale in Hn.
    destruct (disk_map_Some _ _ _ Eg) as [Hg Eq].
    destruct (_ || _) eqn:Es in Hn; [done|]. apply orb_false_iff in Es as [E1 E2].
    apply bool_decide_eq_false, dec_stable in E1, E2. rewrite <-Eq. split_and!.
    + apply listed_elem. by exists g.
    + by apply Hsame.
    + by rewrite (Hst g Hg), E1, E2.
  - intros p Hp _. rewrite Hd in Hp. unfold mark_of in Hp. apply listed_elem.
    destruct (disk_map now !! p) as [g|] eqn:Eg; [|by destruct (indexed_map _ !! p)].
    exists g. by apply disk_map_Some.
  - intros p Hp (f & Hf & <-)%listed_elem. rewrite Hd in Hp. unfold mark_of in Hp.
    destruct (proj2 (disk_map_lookup now (Rel f)) (list_elem_of_fmap_2 Rel _ _ Hf)) as [g Eg]. rewrite Eg in Hp.
    destruct (indexed_map _ !! Rel f); [by destruct (stale _ _)|done].
  - intros p (f & Hf & <-)%listed_elem _. rewrite Hd. unfold mark_of.
    destruct (proj2 (disk_map_lookup now (Rel f)) (list_elem_of_fmap_2 Rel _ _ Hf)) as [g ->].
    destruct (indexed_map _ !! Rel f) as [m|] eqn:Em; [left|by right]. by eapply indexed_map_Some.
Qed.

Lemma unchanged_tracking `{MapOrder} fs fs' L L' e parts :
  tracking fs L e parts → changed_in (λ _, False) fs fs' L L' → tracking fs' L' e parts.
Proof.
  intros Htr Hch. pose proof (marked_tracking (λ _, False) fs fs' L L' e parts (dirty e) Htr Hch) as Hm.
  destruct e. apply Hm; [intros p; right; tauto|done|by intros p []].
Qed.
