(* ===== verification/TrackRebuild.v ===== *)
(** * A rebuild keeps the engine on the repository: internal/shard/engine.go, rebuild

    What a cycle plans, what it makes of each shard and of the new files, and that
    the engine after it accounts for the same files as the engine before, except the new
    files inside the range of a shard, which the cycle drops. *)

From S2P Require Import Prelude GoBytes Trigram Text Lines Regexp Literal Matcher Symbol Index.
From S2P Require Import IndexSearch Codec Shard ShardLayout ShardRead ShardSpec Engine Decimal Rebuild Scan.
From S2P Require Import EngineSearch EngineSpec EngineScan EngineBuild EngineRestart RebuildSpec Dir Crash Track.

(** ** The plan *)

(** A dirty path of no shard that is a file, with its size and time. *)
Definition new_file (fs : FS) (cur : engineSnapshot) (pd : bytes * bool) : option BuildFile :=
  match shardForPath cur pd.1, pd.2, Stat fs pd.1 with
  | Some None, false, Some (size, mtime) => Some (mkBF pd.1 size mtime)
  | _, _, _ => None
  end.

Lemma new_file_Some fs cur p b g :
  new_file fs cur (p, b) = Some g ↔
    p = Rel g ∧ b = false ∧ shardForPath cur p = Some None ∧ Stat fs p = Some (bf_Size g, bf_MtimeNS g).
Proof.
  unfold new_file. cbn [fst snd]. split.
  - destruct (shardForPath cur p) as [[]|]; [done| |done]. destruct b; [done|].
    destruct (Stat fs p) as [[size mtime]|]; [|done]. by intros [= <-].
  - intros (-> & -> & -> & ->). by destruct g.
Qed.

Section Plan.
Context (fs : FS) (cur : engineSnapshot).
Hypothesis Hfor : ∀ p, is_Some (shardForPath cur p).

Lemma count_dirty_spec l m nf :
  ∃ m', foldl (count_dirty fs cur) (Some (m, nf)) l = Some (m', nf ++ omap (new_file fs cur) l) ∧
    ∀ si, is_Some (m' !! si) ↔ is_Some (m !! si) ∨ ∃ pd, pd ∈ l ∧ shardForPath cur pd.1 = Some (Some si).
Proof.
  revert m nf. induction l as [|pd l IH]; intros m nf; cbn [foldl omap list_omap].
  { exists m. rewrite app_nil_r. split; [done|]. intros si. split; [by left|].
    by intros [?|(? & ?%elem_of_nil & _)]. }
  destruct (Hfor pd.1) as [[si|] E]; unfold count_dirty at 2; rewrite E; cbn [mbind option_bind];
    unfold new_file at 1; rewrite E.
  - destruct (IH (<[si := (default 0 (m !! si) + 1)%Z]> m) nf) as (m' & -> & Hm). exists m'. split; [done|].
    intros sj. rewrite Hm, lookup_insert_is_Some. setoid_rewrite elem_of_cons.
    destruct (decide (si = sj)) as [->|Hne]; naive_solver.
  - assert (∀ nf' o, nf' = nf ++ option_list o →
      ∃ m', foldl (count_dirty fs cur) (Some (m, nf')) l =
          Some (m', nf ++ match o with Some y => y :: omap (new_file fs cur) l | None => omap (new_file fs cur) l end) ∧
        ∀ si, is_Some (m' !! si) ↔ is_Some (m !! si) ∨ ∃ pd', pd' ∈ pd :: l ∧ shardForPath cur pd'.1 = Some (Some si))
      as Hgo.
    { intros nf' o ->. destruct (IH m (nf ++ option_list o)) as (m' & -> & Hm). exists m'. split.
      - rewrite <-app_assoc. by destruct o.
      - intros sj. rewrite Hm. setoid_rewrite elem_of_cons. naive_solver congruence. }
    destruct pd.2; [by apply (Hgo nf None); rewrite app_nil_r|].
    destruct (Stat fs pd.1) as [[size mtime]|]; [by apply (Hgo _ (Some (mkBF pd.1 size mtime)))|].
    by apply (Hgo nf None); rewrite app_nil_r.
Qed.

Context `{MapOrder} (threshold : Z) (d : gmap bytes bool).

(** Every shard with dirty paths is affected, or these paths are deferred. *)
Lemma decide_shards_spec l aff def :
  ∃ aff' def', foldl (decide_shard cur threshold d) (Some (aff, def)) l = Some (aff', def') ∧
    aff ⊆ aff' ∧ (∀ p, p ∈ def → p ∈ def') ∧
    ∀ sc, sc ∈ l → sc.1 ∈ aff' ∨
      ∀ p, is_Some (d !! p) → shardForPath cur p = Some (Some sc.1) → p ∈ def'.
Proof.
  revert aff def. induction l as [|sc l IH]; intros aff def; cbn [foldl].
  { exists aff, def. split_and!; [done..|]. by intros sc ?%elem_of_nil. }
  unfold decide_shard at 2. cbn [mbind option_bind].
  destruct (threshold <=? sc.2)%Z.
  - destruct (IH ({[sc.1]} ∪ aff) def) as (aff' & def' & -> & Ha & Hd & Hl). exists aff', def'.
    split_and!; [done|set_solver|done|]. intros sc' [->|Hin]%elem_of_cons; [left; set_solver|by apply Hl].
  - assert (∃ sis, mapM (λ p, si ← shardForPath cur p; Some (p, si)) (range d).*1 = Some sis ∧
      ∀ p si, p ∈ (range d).*1 → shardForPath cur p = Some si → (p, si) ∈ sis) as (sis & -> & Hsis).
    { generalize ((range d).*1) as ps. intros ps. induction ps as [|p ps (sis & E & Hs)].
      - exists []. split; [done|]. by intros ?? ?%elem_of_nil.
      - destruct (Hfor p) as [si Hp]. exists ((p, si) :: sis). cbn [mapM]. rewrite Hp. cbn [mbind option_bind].
        rewrite E. split; [done|]. intros q sj [->|Hq]%elem_of_cons Hq'; [|right; by apply Hs].
        rewrite Hp in Hq'. injection Hq' as ->. by left. }
    cbn [mbind option_bind].
    destruct (IH aff (def ++ (filter (λ pi, pi.2 = Some sc.1) sis).*1)) as (aff' & def' & -> & Ha & Hd & Hl).
    exists aff', def'. split_and!; [done|done|set_solver|].
    intros sc' [->|Hin]%elem_of_cons; [right|by apply Hl]. intros p Hp Hsp. apply Hd, elem_of_app. right.
    apply list_elem_of_fmap. exists (p, Some sc.1). split; [done|]. apply list_elem_of_filter. split; [done|].
    apply Hsis; [by apply range_keys|done].
Qed.

Lemma plan_spec :
  ∃ aff def, plan fs cur threshold d = Some (aff, def, omap (new_file fs cur) (range d)) ∧
    ∀ p si, is_Some (d !! p) → shardForPath cur p = Some (Some si) → si ∈ aff ∨ p ∈ def.
Proof.
  unfold plan. destruct (count_dirty_spec (range d) ∅ []) as (m & -> & Hm). cbn [mbind option_bind app].
  destruct (decide_shards_spec (range m) ∅ []) as (aff & def & -> & _ & _ & Hl). cbn [mbind option_bind].
  assert (∀ p si, is_Some (d !! p) → shardForPath cur p = Some (Some si) → ∃ c, (si, c) ∈ range m) as Hkey.
  { intros p si [f Hf] Hsp. destruct (proj2 (Hm si)) as [c Hc]; [|exists c; by apply elem_of_range].
    right. exists (p, f). split; [by apply elem_of_range|done]. }
  destruct (_ <=? _)%Z; eexists _, _; (split; [done|]); intros p si Hp Hsp;
    destruct (Hkey p si Hp Hsp) as [c Hc].
  - left. apply elem_of_union_l, elem_of_list_to_set. by apply (list_elem_of_fmap_2 fst) in Hc.
  - destruct (Hl _ Hc) as [?|Hdef]; [by left|right]. by apply Hdef.
Qed.
End Plan.

(** ** The files of a shard after the cycle *)

Section Refresh.
Context `{MapOrder} `{SymbolExtractor} (fs : FS) (d : gmap bytes bool).

(** A file of an affected shard in the new one, if it stays. *)
Definition refresh (f : input) : option input :=
  match d !! path_of f with
  | Some true => None
  | Some false =>
      content ← ReadFile fs (path_of f); st ← Stat fs (path_of f); c ← text_of content;
      Some (mkInput (mkMeta (path_of f) st.1 st.2) c (Extract (path_of f) c))
  | None => content ← ReadFile fs (path_of f); Some (mkInput (in_meta f) (transcode content) (in_defs f))
  end.

Definition part_after (affected : gset Z) (i : Z) (ins : list input) : list input :=
  if decide (i ∈ affected) then omap refresh ins else ins.

Lemma refresh_path f f' : refresh f = Some f' → path_of f' = path_of f.
Proof.
  unfold refresh. destruct (d !! path_of f) as [[]|]; [done|..].
  - intros (c & _ & Hf)%bind_Some. apply bind_Some in Hf as (st & _ & Hf). apply bind_Some in Hf as (t & _ & Hf).
    by injection Hf as <-.
  - intros (c & _ & [= <-])%bind_Some. done.
Qed.

Lemma refresh_paths ins : map path_of (omap refresh ins) `sublist_of` map path_of ins.
Proof.
  induction ins as [|f ins IH]; [constructor|]. cbn [omap list_omap map].
  destruct (refresh f) as [f'|] eqn:E; [|by constructor]. cbn [map]. rewrite (refresh_path f f' E). by constructor.
Qed.

Lemma rebuild_file_spec m kb ins i f b nb :
  Serves m kb ins → ins !! i = Some f →
  rebuild_file fs d m (Some (b, nb)) i =
    Some match refresh f with Some f' => (add_input b f', (nb + Size (in_meta f'))%Z) | None => (b, nb) end.
Proof.
  intros Hs Hf. unfold rebuild_file, refresh. rewrite (serves_file i f Hf). cbn [mbind option_bind].
  fold (path_of f). destruct (d !! path_of f) as [[]|]; [done|..].
  - destruct (ReadFile fs (path_of f)) as [c|]; cbn [mbind option_bind]; [|done].
    destruct (Stat fs (path_of f)) as [[size mtime]|]; cbn [mbind option_bind]; [|done].
    by destruct (text_of c).
  - destruct (ReadFile fs (path_of f)) as [c|]; cbn [mbind option_bind]; [|done].
    by rewrite (serves_defs i f Hf).
Qed.

Lemma rebuild_files_spec m kb ins b nb :
  Serves m kb ins →
  foldl (rebuild_file fs d m) (Some (b, nb)) (seq 0 (length ins)) =
    Some (foldl add_input b (omap refresh ins), (nb + total_size (omap refresh ins))%Z).
Proof.
  intros Hs. enough (∀ k b nb, k ≤ length ins →
    foldl (rebuild_file fs d m) (Some (b, nb)) (seq k (length ins - k)) =
      Some (foldl add_input b (omap refresh (drop k ins)), (nb + total_size (omap refresh (drop k ins)))%Z)) as Hg.
  { rewrite <-(Nat.sub_0_r (length ins)). apply (Hg 0). lia. }
  clear b nb. intros k. remember (length ins - k) as n eqn:En. revert k En.
  induction n as [|n IH]; intros k En b nb Hk; cbn [seq foldl].
  - rewrite drop_ge by lia. cbn. by rewrite Z.add_0_r.
  - destruct (lookup_lt_is_Some_2 ins k) as [f Hf]; [lia|].
    rewrite (rebuild_file_spec m kb ins k f b nb Hs Hf), (drop_S _ _ _ Hf). cbn [omap list_omap].
    destruct (refresh f) as [f'|]; rewrite IH by lia; [|done]. cbn [foldl]. unfold total_size. cbn [foldr].
    by rewrite Z.add_assoc.
Qed.
End Refresh.

(** ** The shards that are written *)

Section Shards.
Context `{MapOrder} `{SymbolExtractor} (e : DiskEngine) (fs : FS).

(** A shard of the cycle: one of before, or one whose file has been written. *)
Definition made (p : progress) (s : Shard) (ins : list input) : Prop :=
  (s ∈ shards (snapshot e) ∧ shard_of (InlineKB (cfg e)) (idx_files e) s ins) ∨
  ∃ out, (s_path s, out) ∈ p_writes p ∧ shard_of (InlineKB (cfg e)) {[s_path s := out]} s ins.

(** The shards collected so far, and what they are made of. *)
Definition collected (p : progress) (parts : list (list input)) : Prop :=
  Forall2 (made p) (omap id (p_shards p)) (filter (λ ins, ins ≠ []) parts).

Lemma made_weaken p p' s ins : (∀ w, w ∈ p_writes p → w ∈ p_writes p') → made p s ins → made p' s ins.
Proof. intros Hw [?|(out & Ho & ?)]; [by left|right]. exists out. auto. Qed.

Lemma collected_snoc p p' parts o ins :
  collected p parts → (∀ w, w ∈ p_writes p → w ∈ p_writes p') → p_shards p' = p_shards p ++ [o] →
  match o with Some s => ins ≠ [] ∧ made p' s ins | None => ins = [] end → collected p' (parts ++ [ins]).
Proof.
  intros Hc Hw Hp Ho. unfold collected. rewrite Hp, omap_app, filter_app. apply Forall2_app.
  { eapply Forall2_impl; [exact Hc|]. intros s x. by apply made_weaken. }
  rewrite filter_cons, filter_nil. destruct o as [s|]; cbn.
  - destruct Ho as [Hne Hs]. rewrite decide_True by done. by constructor.
  - rewrite decide_False by (by intros Hn). constructor.
Qed.

Lemma rebuild_shard_spec aff p parts si s ins :
  collected p parts → s ∈ shards (snapshot e) → shard_of (InlineKB (cfg e)) (idx_files e) s ins → ins ≠ [] →
  fits (build (InlineKB (cfg e)) (omap (refresh fs (dirty e)) ins)) →
  ∃ p', rebuild_shard written e fs (dirty e) aff p (si, s) = Some p' ∧
    collected p' (parts ++ [part_after fs (dirty e) aff si ins]).
Proof.
  intros Hc Hin Hs Hne Hf. unfold rebuild_shard, part_after. destruct (so_served _ _ _ _ Hs e eq_refl) as (m & -> & Hb).
  pose proof (built_serves _ _ _ _ Hb) as Hserves. destruct (decide (si ∈ aff)) as [Ha|Ha].
  - rewrite (serves_num (s:=m)). unfold len. rewrite Nat2Z.id, (rebuild_files_spec fs (dirty e) m _ ins) by done.
    cbn [mbind option_bind]. set (ins' := omap _ ins) in *. fold (build (InlineKB (cfg e)) ins').
    destruct (decide (ins' = [])) as [E|E].
    + rewrite bool_decide_eq_true_2 by (apply build_files; [by eapply fits_input_len|done]).
      eexists. split; [done|]. by eapply (collected_snoc p _ parts None ins').
    + rewrite bool_decide_eq_false_2 by (rewrite build_files; [done|by eapply fits_input_len]).
      destruct (write_shard_spec (InlineKB (cfg e)) (shardPath (p_seq p)) ins' Hf) as (out & ns & -> & Hp & Hns). cbn [mbind option_bind].
      eexists. split; [done|]. eapply (collected_snoc p _ parts (Some ns) ins'); [done| |done|].
      * cbn [p_writes]. intros w Hw. apply elem_of_app. by left.
      * split; [done|]. right. exists out. cbn [p_writes]. rewrite Hp. split; [apply elem_of_app; right; by left|apply Hns, lookup_insert_eq].
  - rewrite (served_files m _ ins Hserves). cbn [mbind option_bind]. eexists. split; [done|].
    eapply (collected_snoc p _ parts (Some s) ins); [done|done|done|]. split; [done|]. by left.
Qed.

Lemma rebuild_shards_spec aff p don ss parts k :
  collected p don → (∀ s, s ∈ ss → s ∈ shards (snapshot e)) →
  Forall2 (shard_of (InlineKB (cfg e)) (idx_files e)) ss parts → Forall (λ ins, ins ≠ []) parts →
  Forall (λ ins, fits (build (InlineKB (cfg e)) (omap (refresh fs (dirty e)) ins))) parts →
  ∃ p', rebuild_shards written e fs (dirty e) aff p (imap (λ i s, (Z.of_nat (k + i), s)) ss) = Some p' ∧
    collected p' (don ++ imap (λ i, part_after fs (dirty e) aff (Z.of_nat (k + i))) parts).
Proof.
  intros Hc Hin Hall. revert p don k Hc. induction Hall as [|s ins ss parts Hs Hall IH]; intros p don k Hc Hne Hf.
  { exists p. cbn. by rewrite app_nil_r. }
  apply Forall_cons in Hne as [Hn Hne]. apply Forall_cons in Hf as [Hf1 Hf].
  cbn [imap rebuild_shards]. rewrite Nat.add_0_r.
  destruct (rebuild_shard_spec aff p don (Z.of_nat k) s ins Hc ltac:(apply Hin; by left) Hs Hn Hf1)
    as (p1 & -> & Hc1). cbn [mbind option_bind].
  destruct (IH ltac:(intros t ?; apply Hin; by right) p1 _ (S k) Hc1 Hne Hf) as (p' & Hr & Hc').
  exists p'. split.
  - rewrite <-Hr. f_equal. apply imap_ext. intros i t _. cbn. do 2 f_equal. lia.
  - rewrite <-app_assoc in Hc'. cbn [app] in Hc'. erewrite imap_ext; [exact Hc'|].
    intros i t _. cbn. do 2 f_equal. lia.
Qed.

Lemma build_new_spec p parts new :
  collected p parts → fits (build (InlineKB (cfg e)) (inputs_of fs (merge_sort rel_le new))) →
  ∃ p', build_new written e fs new p = Some p' ∧ collected p' (parts ++ [inputs_of fs (merge_sort rel_le new)]).
Proof.
  intros Hc Hf. unfold build_new.
  assert (∀ p', p_shards p' = p_shards p → p_writes p' = p_writes p → inputs_of fs (merge_sort rel_le new) = [] →
    collected p' (parts ++ [inputs_of fs (merge_sort rel_le new)])) as Hnone.
  { intros p' E1 E2 ->. unfold collected in *. rewrite E1, filter_app. cbn. rewrite app_nil_r.
    eapply Forall2_impl; [exact Hc|]. intros s x. apply made_weaken. by rewrite E2. }
  destruct (decide (new = [])) as [->|Hne].
  { rewrite bool_decide_eq_true_2 by done. exists p. split; [done|]. by apply Hnone. }
  rewrite bool_decide_eq_false_2 by done. rewrite add_files. set (ins := inputs_of _ _) in *.
  fold (build (InlineKB (cfg e)) ins). destruct (decide (ins = [])) as [E|E].
  - rewrite bool_decide_eq_true_2 by (apply build_files; [by eapply fits_input_len|done]).
    eexists. split; [done|]. by apply Hnone.
  - rewrite bool_decide_eq_false_2 by (rewrite build_files; [done|by eapply fits_input_len]).
    destruct (write_shard_spec (InlineKB (cfg e)) (shardPath (p_seq p)) ins Hf) as (out & ns & -> & Hp & Hns). cbn [mbind option_bind].
    eexists. split; [done|]. eapply (collected_snoc p _ parts (Some ns) ins); [done| |done|].
    + cbn [p_writes]. intros w Hw. apply elem_of_app. by left.
    + split; [done|]. right. exists out. cbn [p_writes]. rewrite Hp. split; [apply elem_of_app; right; by left|apply Hns, lookup_insert_eq].
Qed.
End Shards.

(** ** The compaction *)

(** Ordered shards are what sorting them by their first path gives. *)
Lemma merge_sort_ordered ss ss' : ordered ss → ss' ≡ₚ ss → merge_sort min_le ss' = ss.
Proof.
  intros Ho Hp.
  assert (∀ a b, min_le a b ∨ min_le b a) as Htot by (intros a b; apply (total bytes_le)).
  assert (Transitive min_le) as Htr by (intros a b c; unfold min_le; by apply transitivity).
  assert (Total min_le) as Htt by exact Htot.
  apply (StronglySorted_unique_strong min_le).
  - intros a b Ha Hb Hab Hba. rewrite (merge_sort_Permutation min_le), Hp in Ha.
    apply list_elem_of_lookup in Ha as [i Hi], Hb as [j Hj].
    assert (∀ i j x y, ss !! i = Some x → ss !! j = Some y → bytes_le (pathMin y) (pathMin x) → j ≤ i) as Hle.
    { clear -Ho. intros i j x y Hi Hj Hyx. destruct (decide (j ≤ i)) as [|Hn]; [done|exfalso].
      pose proof (ordered_lookup ss i j x y Ho ltac:(lia) Hi Hj) as Hlt. destruct Ho as [Hm _].
      rewrite Forall_lookup in Hm. apply (StrictOrder_Irreflexive (pathMin y)).
      eapply bytes_le_lt; [|exact Hlt]. etrans; [exact Hyx|]. by apply (Hm i). }
    assert (i = j) as ->; [|congruence]. apply (anti_symm le); by eapply Hle.
  - by apply StronglySorted_merge_sort.
  - clear Hp. destruct Ho as [Hm Hs]. induction Hs as [|s ss Hs IH Hall]; [constructor|].
    apply Forall_cons in Hm as [Hm1 Hm]. constructor; [by apply IH|]. rewrite Forall_forall in Hall |- *.
    intros t Ht. apply bytes_lt_le_weak. eapply bytes_le_lt; [exact Hm1|by apply Hall].
  - by rewrite (merge_sort_Permutation min_le), Hp.
Qed.

Lemma filter_ne_concat {A} (l : list (list A)) : concat (filter (λ x, x ≠ []) l) = concat l.
Proof.
  induction l as [|x l IH]; [done|]. rewrite filter_cons. cbn [concat].
  destruct (decide (x ≠ [])) as [|E]; [cbn [concat]; by rewrite IH|]. apply dec_stable in E as ->. exact IH.
Qed.

Lemma concat_Permutation {A} (l l' : list (list A)) : l ≡ₚ l' → concat l ≡ₚ concat l'.
Proof.
  induction 1 as [|x l l' _ IH|x y l|]; cbn [concat]; [done|by rewrite IH| |by etrans].
  by rewrite !app_assoc, (Permutation_app_comm x).
Qed.

Lemma concat_paths_sublist (parts parts' : list (list input)) :
  Forall2 (λ ins' ins, map path_of ins' `sublist_of` map path_of ins) parts' parts →
  map path_of (concat parts') `sublist_of` map path_of (concat parts).
Proof. induction 1 as [|? ? ? ? Hs _ IH]; [constructor|]. cbn [concat]. rewrite !map_app. by apply sublist_app. Qed.

(** The files of the new shard: the dirty files of no shard that have text. *)
Definition new_inputs `{MapOrder} `{SymbolExtractor} (fs : FS) (e : DiskEngine) : list input :=
  inputs_of fs (merge_sort rel_le (omap (new_file fs (snapshot e)) (range (dirty e)))).

(** They lie in one gap between the ranges of the shards: every shard is on the same side of all. *)
Definition one_gap `{MapOrder} `{SymbolExtractor} (fs : FS) (e : DiskEngine) : Prop :=
  ∀ f g s, f ∈ new_inputs fs e → g ∈ new_inputs fs e → s ∈ shards (snapshot e) →
    bytes_lt (path_of f) (pathMin s) → bytes_lt (path_of g) (pathMin s).

#[export] Instance one_gap_dec `{MapOrder} `{SymbolExtractor} fs e : Decision (one_gap fs e).
Proof.
  destruct (decide (Forall (λ f, Forall (λ g, Forall (λ s, bytes_lt (path_of f) (pathMin s) →
    bytes_lt (path_of g) (pathMin s)) (shards (snapshot e))) (new_inputs fs e)) (new_inputs fs e))) as [Hall|Hno]; [left|right].
  - intros f g s Hf Hg Hs. rewrite Forall_forall in Hall. specialize (Hall f Hf). rewrite Forall_forall in Hall.
    specialize (Hall g Hg). rewrite Forall_forall in Hall. by apply Hall.
  - intros Hgap. apply Hno, Forall_forall. intros f Hf. apply Forall_forall. intros g Hg. apply Forall_forall.
    intros s Hs. by apply Hgap.
Defined.

(** A path in the range of a shard, and one that is indexed. *)
Definition in_range (snap : engineSnapshot) (p : bytes) : bool :=
  match shardForPath snap p with Some None => false | _ => true end.
Definition indexed (e : DiskEngine) (p : bytes) : bool :=
  match Meta e p with Some (Some _) => true | _ => false end.

(** The files of [L] that are dropped between the states [e] and [e'] of a cycle: they were dirty
    and not indexed, and lie in the range of a shard, so the new shard leaves them out; their mark is gone. *)
Definition dropped (e e' : DiskEngine) (L : gset bytes) : gset bytes :=
  filter (λ p, dirty e !! p = Some false ∧ dirty e' !! p = None ∧
               in_range (snapshot e) p = true ∧ indexed e p = false) L.

Section Gap.
Context `{MapOrder} `{SymbolExtractor} (fs : FS) (e : DiskEngine) (parts : list (list input)).

(** The new files lie between those of the first [k] shards and the others'. *)
Definition fills_gap (k : nat) : Prop := k ≤ length parts ∧ ∀ p, p ∈ map path_of (new_inputs fs e) →
  (∀ q, q ∈ map path_of (concat (take k parts)) → bytes_lt q p) ∧
  (∀ q, q ∈ map path_of (concat (drop k parts)) → bytes_lt p q).

(** The files of the shards of after: those that are refreshed, and the new ones. *)
Definition remade (aff : gset Z) : list (list input) :=
  filter (λ ins, ins ≠ []) (imap (λ i, part_after fs (dirty e) aff (Z.of_nat i)) parts ++ [new_inputs fs e]).

(** The same in path order, when the new files fill a gap. *)
Definition rebuilt (aff : gset Z) (k : nat) : list (list input) :=
  filter (λ ins, ins ≠ [])
    (imap (λ i, part_after fs (dirty e) aff (Z.of_nat i)) (take k parts) ++ [new_inputs fs e] ++
     imap (λ i, part_after fs (dirty e) aff (Z.of_nat (k + i))) (drop k parts)).

Lemma part_after_paths aff i ins :
  map path_of (part_after fs (dirty e) aff i ins) `sublist_of` map path_of ins.
Proof. unfold part_after. destruct (decide _); [apply refresh_paths|done]. Qed.

Lemma imap_after_paths aff k (l : list (list input)) :
  map path_of (concat (imap (λ i, part_after fs (dirty e) aff (Z.of_nat (k + i))) l)) `sublist_of` map path_of (concat l).
Proof.
  apply concat_paths_sublist, Forall2_same_length_lookup_2; [by rewrite length_imap|].
  intros i x y Hx Hy. rewrite list_lookup_imap, Hy in Hx. injection Hx as <-. apply part_after_paths.
Qed.

Lemma rebuilt_remade aff k : k ≤ length parts → rebuilt aff k ≡ₚ remade aff.
Proof.
  intros Hk. unfold rebuilt, remade. apply filter_Permutation.
  rewrite <-(take_drop k parts) at 3. rewrite imap_app, length_take_le, <-app_assoc by done.
  apply Permutation_app_head. rewrite Permutation_app_comm. apply Permutation_app_tail.
  erewrite imap_ext; [reflexivity|]. done.
Qed.

Lemma remade_elem aff f' :
  f' ∈ concat (remade aff) ↔
    (∃ i ins, parts !! i = Some ins ∧ f' ∈ part_after fs (dirty e) aff (Z.of_nat i) ins) ∨ f' ∈ new_inputs fs e.
Proof.
  unfold remade. rewrite filter_ne_concat, concat_app, elem_of_app. cbn [concat]. rewrite app_nil_r.
  f_equiv. rewrite list_elem_of_In, in_concat. split.
  - intros (x & Hx & Hf). apply list_elem_of_In, list_elem_of_lookup in Hx as [i Hi].
    rewrite list_lookup_imap in Hi. destruct (parts !! i) as [ins|] eqn:E; [|done]. injection Hi as <-.
    exists i, ins. split; [done|by apply list_elem_of_In].
  - intros (i & ins & Hi & Hf). eexists. split; [|apply list_elem_of_In, Hf].
    apply list_elem_of_In, list_elem_of_lookup. exists i. by rewrite list_lookup_imap, Hi.
Qed.
End Gap.

(** ** The files of the engine after the cycle *)

Section Tracked.
Context `{MapOrder} `{SymbolExtractor} (fs : FS) (L : gset bytes) (e : DiskEngine) (parts : list (list input)).
Hypothesis Htr : tracking fs L e parts.
Hypothesis Hutf : ∀ p c, p ∈ L → ReadFile fs p = Some c → transcode c = c.
Hypothesis Hlen : (len (shards (snapshot e)) < 2 ^ 63)%Z.
Let Hcv : covering fs L e parts := tr_covers _ _ _ _ Htr.

Lemma refresh_clean f : f ∈ concat parts → dirty e !! path_of f = None → refresh fs (dirty e) f = Some f.
Proof.
  intros Hf Hd. destruct (cv_clean _ _ _ _ Hcv f Hf Hd) as (HL & Hr & _). unfold refresh. rewrite Hd, Hr.
  cbn [mbind option_bind]. rewrite (Hutf _ _ HL Hr). by destruct f.
Qed.

(** A dirty file of an affected shard is indexed again as it is now. *)
Lemma refresh_dirty f f' :
  dirty e !! path_of f = Some false → refresh fs (dirty e) f = Some f' →
  path_of f' ∈ L ∧ ReadFile fs (path_of f') = Some (in_content f') ∧
  Stat fs (path_of f') = Some (Size (in_meta f'), MtimeNS (in_meta f')).
Proof.
  intros Hd Hf. rewrite (refresh_path _ _ _ _ Hf). unfold refresh in Hf. rewrite Hd in Hf.
  apply bind_Some in Hf as (c & Hc & Hf). apply bind_Some in Hf as ([size mtime] & Hs & Hf).
  apply bind_Some in Hf as (t & Ht & [= <-]). cbn [in_content in_meta Size MtimeNS fst snd].
  assert (path_of f ∈ L) as HL by (apply (cv_dirty _ _ _ _ Hcv); [done|split; by eexists]).
  split_and!; [done| |done]. unfold text_of in Ht. rewrite (Hutf _ _ HL Hc) in Ht.
  destruct (isBinary c); [done|]. by injection Ht as <-.
Qed.

Lemma refresh_text f :
  dirty e !! path_of f = Some false → path_of f ∈ L → has_text fs (path_of f) → is_Some (refresh fs (dirty e) f).
Proof.
  intros Hd HL (c & Hc & [st Hs] & Hb). unfold refresh. rewrite Hd, Hc, Hs. cbn [mbind option_bind].
  unfold text_of. rewrite (Hutf _ _ HL Hc), Hb. by eexists.
Qed.

Lemma shard_for p : is_Some (shardForPath (snapshot e) p).
Proof.
  destruct (shardForPath_spec (snapshot e) p) as (r & Hr & _); [by eapply built_ordered, (tr_order _ _ _ _ Htr)|done|by exists r].
Qed.

Lemma shard_for_elem i ins f :
  parts !! i = Some ins → f ∈ ins → shardForPath (snapshot e) (path_of f) = Some (Some (Z.of_nat i)).
Proof.
  intros Hi Hf. pose proof (tr_order _ _ _ _ Htr) as Hio.
  destruct (shardForPath_spec (snapshot e) (path_of f)) as (r & -> & Hr); [by eapply built_ordered|done|].
  f_equal. apply Hr. destruct (Forall2_lookup_r _ _ _ _ _ (io_shards _ _ _ Hio) Hi) as (s & Hs & Hso).
  exists s. split; [done|]. pose proof (built_part_sorted _ _ _ Hio i ins Hi) as Hss.
  apply ContainsPath_spec. rewrite (so_min _ _ _ _ Hso), (so_max _ _ _ _ Hso).
  split; [by apply first_path_sorted|by apply last_path_sorted].
Qed.

Lemma part_of f : f ∈ concat parts → ∃ i ins, parts !! i = Some ins ∧ f ∈ ins.
Proof.
  intros (ins & Hin & Hf)%list_elem_of_In%in_concat. apply list_elem_of_In in Hin, Hf.
  apply list_elem_of_lookup in Hin as [i Hi]. by exists i, ins.
Qed.

Lemma part_in i ins f : parts !! i = Some ins → f ∈ ins → f ∈ concat parts.
Proof.
  intros Hi Hf. apply list_elem_of_In, in_concat. exists ins.
  split; apply list_elem_of_In; [by eapply list_elem_of_lookup_2|done].
Qed.

Lemma in_range_elem f : f ∈ concat parts → in_range (snapshot e) (path_of f) = true.
Proof. intros (i & ins & Hi & Hf)%part_of. unfold in_range. by rewrite (shard_for_elem i ins f Hi Hf). Qed.

Lemma in_range_false p : in_range (snapshot e) p = false ↔ shardForPath (snapshot e) p = Some None.
Proof. unfold in_range. destruct (shard_for p) as [[i|] ->]; split; congruence. Qed.

Lemma indexed_elem p : indexed e p = true ↔ p ∈ map path_of (concat parts).
Proof.
  pose proof (tr_order _ _ _ _ Htr) as Hio.
  assert (len parts < 2 ^ 63)%Z as Hl by (unfold len in *; by rewrite <-(Forall2_length _ _ _ (io_shards _ _ _ Hio))).
  unfold indexed. destruct (decide (p ∈ map path_of (concat parts))) as [Hp|Hp].
  - split; [done|]. intros _. apply list_elem_of_fmap in Hp as (f & -> & Hf). by rewrite (built_Meta _ e parts Hio Hl).
  - by rewrite (built_Meta_none _ e parts Hio Hl).
Qed.

(** The files of a shard lie on one side of a path outside its range. *)
Lemma shard_side p s i ins :
  in_range (snapshot e) p = false → shards (snapshot e) !! i = Some s → parts !! i = Some ins →
  if decide (bytes_lt p (pathMin s)) then ∀ q, q ∈ map path_of ins → bytes_lt p q
  else ∀ q, q ∈ map path_of ins → bytes_lt q p.
Proof.
  intros Hp%in_range_false Hs Hi. pose proof (tr_order _ _ _ _ Htr) as Hio.
  pose proof (built_part_sorted _ _ _ Hio i ins Hi) as Hss.
  pose proof (Forall2_lookup_lr _ _ _ _ _ _ (io_shards _ _ _ Hio) Hs Hi) as Hso.
  destruct (shardForPath_spec (snapshot e) p) as (r & Hr & Hri); [by eapply built_ordered|done|].
  rewrite Hp in Hr. injection Hr as <-. destruct (decide _) as [Hlt|Hge]; intros q (f & -> & Hf)%list_elem_of_fmap.
  - eapply bytes_lt_le; [exact Hlt|]. rewrite (so_min _ _ _ _ Hso). by apply first_path_sorted.
  - assert (¬ bytes_le p (pathMax s)) as Hmax.
    { intros Hmax. assert (None = Some (Z.of_nat i)) as [=]. apply Hri. exists s. split; [done|].
      apply ContainsPath_spec. split; [by apply bytes_le_nlt|done]. }
    eapply bytes_le_lt; [|by apply bytes_lt_nle]. rewrite (so_max _ _ _ _ Hso). by apply last_path_sorted.
Qed.

(** The new files of the plan. *)
Let new : list BuildFile := omap (new_file fs (snapshot e)) (range (dirty e)).

Lemma new_elem g : g ∈ new ↔
  dirty e !! Rel g = Some false ∧ shardForPath (snapshot e) (Rel g) = Some None ∧
  Stat fs (Rel g) = Some (bf_Size g, bf_MtimeNS g).
Proof.
  unfold new. rewrite list_elem_of_omap. split.
  - intros ([p b] & Hp%elem_of_range & (-> & -> & Hs & Hst)%new_file_Some). by split_and!.
  - intros (Hd & Hs & Hst). exists (Rel g, false). split; [by apply elem_of_range|by apply new_file_Some].
Qed.

Lemma new_NoDup : NoDup (map Rel new).
Proof.
  unfold new. assert (NoDup (range (dirty e)).*1) as Hnd by (rewrite range_perm; apply NoDup_fst_map_to_list).
  eapply sublist_NoDup; [exact Hnd|]. clear Hnd. generalize (range (dirty e)). intros l.
  induction l as [|[p b] l IH]; [constructor|]. cbn [omap list_omap fmap list_fmap fst].
  destruct (new_file fs (snapshot e) (p, b)) as [g|] eqn:Eg; [|by constructor].
  apply new_file_Some in Eg as [-> _]. cbn [map]. by constructor.
Qed.

(** A file of the new shard. *)
Lemma new_input i :
  i ∈ new_inputs fs e →
  path_of i ∈ L ∧ ReadFile fs (path_of i) = Some (in_content i) ∧
  Stat fs (path_of i) = Some (Size (in_meta i), MtimeNS (in_meta i)) ∧
  dirty e !! path_of i = Some false ∧ in_range (snapshot e) (path_of i) = false.
Proof.
  unfold new_inputs. fold new. intros (g & Hg & Hi)%inputs_of_elem. rewrite (merge_sort_Permutation rel_le new) in Hg.
  apply new_elem in Hg as (Hd & Hs & Hst). destruct (input_of_Some _ _ _ Hi) as (c & Hr & Hb & Hm & Hic).
  rewrite in_range_false. unfold path_of. rewrite Hm. cbn [Path Size MtimeNS].
  assert (Rel g ∈ L) as HL by (apply (cv_dirty _ _ _ _ Hcv); [done|split; by eexists]).
  rewrite Hic. by rewrite (Hutf _ _ HL Hr).
Qed.

Lemma input_new p :
  p ∈ L → dirty e !! p = Some false → has_text fs p → in_range (snapshot e) p = false → p ∈ map path_of (new_inputs fs e).
Proof.
  intros HL Hd Ht Hr%in_range_false. unfold new_inputs. fold new. pose proof Ht as (c & Hc & [[size mtime] Hst] & _).
  assert (mkBF p size mtime ∈ new) as Hg by (by apply new_elem).
  destruct (input_of_text fs (mkBF p size mtime) (λ c, Hutf p c HL) Ht) as [i Hi].
  destruct (input_of_Some _ _ _ Hi) as (_ & _ & _ & Hm & _).
  assert (path_of i = p) as <- by (unfold path_of; by rewrite Hm).
  apply (list_elem_of_fmap_2 path_of), inputs_of_elem. exists (mkBF (path_of i) size mtime).
  by rewrite (merge_sort_Permutation rel_le new).
Qed.

(** New files in one gap fill the gap after some of the shards. *)
Lemma split_parts p (ps : list (list input)) :
  StronglySorted bytes_lt (map path_of (concat ps)) → Forall (λ ins, ins ≠ []) ps →
  (∀ ins, ins ∈ ps → (∀ q, q ∈ map path_of ins → bytes_lt q p) ∨ (∀ q, q ∈ map path_of ins → bytes_lt p q)) →
  ∃ k, k ≤ length ps ∧ (∀ ins, ins ∈ take k ps → ∀ q, q ∈ map path_of ins → bytes_lt q p) ∧
    ∀ ins, ins ∈ drop k ps → ∀ q, q ∈ map path_of ins → bytes_lt p q.
Proof.
  induction ps as [|ins ps IH]; intros Hs Hne Hside.
  { exists 0. split_and!; [done|by intros ? ?%elem_of_nil..]. }
  apply Forall_cons in Hne as [Hn Hne]. cbn [concat] in Hs. rewrite map_app in Hs.
  pose proof (StronglySorted_app_1_r _ _ _ Hs) as Hs2.
  destruct (Hside ins ltac:(by left)) as [Hlt|Hgt].
  - destruct (IH Hs2 Hne ltac:(intros x ?; apply Hside; by right)) as (k & Hk & H1 & H2).
    exists (S k). split_and!; [cbn; lia| |done]. by intros x [->|?]%elem_of_cons; [|apply H1].
  - exists 0. split_and!; [lia|by intros ? ?%elem_of_nil|]. intros x [->|Hx]%elem_of_cons; [done|]. intros q Hq.
    destruct ins as [|f ins]; [done|]. eapply bytes_lt_trans; [apply (Hgt (path_of f)); by left|].
    eapply StronglySorted_app_1_elem_of; [exact Hs|by left|].
    apply list_elem_of_fmap in Hq as (g & -> & Hg). apply (list_elem_of_fmap_2 path_of), list_elem_of_In, in_concat.
    exists x. by split; apply list_elem_of_In.
Qed.

Lemma gap_filled : one_gap fs e → ∃ k, fills_gap fs e parts k.
Proof.
  intros Hgap. pose proof (tr_order _ _ _ _ Htr) as Hio. pose proof Hio as [Hs Hne Hss].
  destruct (new_inputs fs e) as [|f0 l] eqn:E.
  { exists 0. split; [lia|]. rewrite E. by intros ? ?%elem_of_nil. }
  assert (f0 ∈ new_inputs fs e) as Hf0 by (rewrite E; by left).
  assert (∀ ins g, ins ∈ parts → g ∈ new_inputs fs e → ∃ s, s ∈ shards (snapshot e) ∧
    if decide (bytes_lt (path_of g) (pathMin s)) then ∀ q, q ∈ map path_of ins → bytes_lt (path_of g) q
    else ∀ q, q ∈ map path_of ins → bytes_lt q (path_of g)) as Hside.
  { intros ins g [i Hi]%list_elem_of_lookup (_ & _ & _ & _ & Hr)%new_input.
    destruct (Forall2_lookup_r _ _ _ _ _ Hs Hi) as (s & Hsi & _). exists s.
    split; [by eapply list_elem_of_lookup_2|by eapply shard_side]. }
  destruct (split_parts (path_of f0) parts Hss Hne) as (k & Hk & Hlo & Hhi).
  { intros ins Hin. destruct (Hside ins f0 Hin Hf0) as (s & _ & Hx). destruct (decide _); [by right|by left]. }
  exists k. split; [done|]. intros p (g & -> & Hg)%list_elem_of_fmap.
  assert (∀ ins q, ins ∈ parts → q ∈ map path_of ins →
    (bytes_lt q (path_of f0) → bytes_lt q (path_of g)) ∧ (bytes_lt (path_of f0) q → bytes_lt (path_of g) q)) as Hsame.
  { intros ins q [i Hi]%list_elem_of_lookup Hq. destruct (Forall2_lookup_r _ _ _ _ _ Hs Hi) as (s & Hsi & _).
    assert (s ∈ shards (snapshot e)) as Hin by by eapply list_elem_of_lookup_2.
    pose proof (shard_side (path_of f0) s i ins) as S0. pose proof (shard_side (path_of g) s i ins) as S1.
    specialize (S0 ltac:(by apply new_input) Hsi Hi). specialize (S1 ltac:(by apply new_input) Hsi Hi).
    pose proof (Hgap f0 g s Hf0 Hg Hin) as G1. pose proof (Hgap g f0 s Hg Hf0 Hin) as G2.
    destruct (decide (bytes_lt (path_of f0) (pathMin s))), (decide (bytes_lt (path_of g) (pathMin s))); try tauto.
    - split; [|by auto]. intros Hlt. destruct (StrictOrder_Irreflexive q). eapply bytes_lt_trans; [exact Hlt|by apply S0].
    - split; [by auto|]. intros Hlt. destruct (StrictOrder_Irreflexive q). eapply bytes_lt_trans; [by apply S0|exact Hlt]. }
  split; intros q (f & -> & Hf)%list_elem_of_fmap; apply list_elem_of_In, in_concat in Hf as (ins & Hin & Hf);
    apply list_elem_of_In in Hin, Hf; apply (list_elem_of_fmap_2 path_of) in Hf.
  - eapply (proj1 (Hsame ins _ (elem_of_sublist _ _ _ Hin (sublist_take _ _)) Hf)). by eapply Hlo.
  - eapply (proj2 (Hsame ins _ (elem_of_sublist _ _ _ Hin (sublist_drop _ _)) Hf)). by eapply Hhi.
Qed.

(** The files of the shards of after are in path order then. *)
Lemma rebuilt_sorted aff k :
  fills_gap fs e parts k → StronglySorted bytes_lt (map path_of (concat (rebuilt fs e parts aff k))).
Proof.
  intros Hgap. unfold rebuilt. rewrite filter_ne_concat, !concat_app. cbn [concat]. rewrite app_nil_r, !map_app.
  pose proof (io_sorted _ _ _ (tr_order _ _ _ _ Htr)) as Hss. rewrite <-(take_drop k parts), concat_app, map_app in Hss.
  apply StronglySorted_app in Hss as (Hlt & Hs1 & Hs2).
  pose proof (imap_after_paths fs e aff 0 (take k parts)) as Hsub1.
  pose proof (imap_after_paths fs e aff k (drop k parts)) as Hsub2. cbn [Nat.add] in Hsub1.
  pose proof (proj2 Hgap) as Hnew. apply StronglySorted_app. split_and!; [|by eapply sublist_sorted|].
  - intros a b Ha [Hb|Hb]%elem_of_app; eapply elem_of_sublist in Ha; try exact Hsub1; [by apply (proj1 (Hnew b Hb))|].
    eapply elem_of_sublist in Hb; [|exact Hsub2]. by apply Hlt.
  - apply StronglySorted_app. split_and!; [|eapply sublist_sorted; [apply inputs_of_paths|apply sort_files_strict, new_NoDup]|by eapply sublist_sorted].
    intros a b Ha Hb. eapply elem_of_sublist in Hb; [|exact Hsub2]. by apply (proj2 (Hnew a Ha)).
Qed.

(** Each path is in one shard of after at most. *)
Lemma remade_paths aff : NoDup (map path_of (concat (remade fs e parts aff))).
Proof.
  unfold remade. rewrite filter_ne_concat, concat_app. cbn [concat]. rewrite app_nil_r, map_app.
  pose proof (imap_after_paths fs e aff 0 parts) as Hsub. cbn [Nat.add] in Hsub.
  apply NoDup_app. split_and!.
  - eapply sublist_NoDup; [exact (cv_paths _ _ _ _ Hcv)|exact Hsub].
  - intros p Hp (g & -> & Hg)%list_elem_of_fmap. eapply elem_of_sublist in Hp; [|exact Hsub].
    apply list_elem_of_fmap in Hp as (f & E & Hf). apply in_range_elem in Hf.
    destruct (new_input g Hg) as (_ & _ & _ & _ & Hr). congruence.
  - apply sorted_NoDup. eapply sublist_sorted; [apply inputs_of_paths|apply sort_files_strict, new_NoDup].
Qed.

(** Where the files of after come from. *)
Lemma remade_source aff f :
  f ∈ concat (remade fs e parts aff) →
  f ∈ concat parts ∨ ReadFile fs (path_of f) = Some (in_content f) ∧
    Stat fs (path_of f) = Some (Size (in_meta f), MtimeNS (in_meta f)).
Proof.
  intros [(i & ins & Hi & Hf)|Hf]%remade_elem; [|right; by destruct (new_input f Hf) as (_ & ? & ? & _)].
  unfold part_after in Hf. destruct (decide _); [|left; by eapply part_in].
  apply list_elem_of_omap in Hf as (g & Hg & Hr). apply (part_in i ins g Hi) in Hg.
  destruct (dirty e !! path_of g) as [[]|] eqn:Ed.
  - unfold refresh in Hr. by rewrite Ed in Hr.
  - right. by apply (refresh_dirty g).
  - rewrite refresh_clean in Hr by done. injection Hr as <-. by left.
Qed.

(** The engine after accounts for the same files, apart from those that are dropped. *)
Lemma remade_covering aff (def : list bytes) e' parts' :
  (∀ p si, is_Some (dirty e !! p) → shardForPath (snapshot e) p = Some (Some si) → si ∈ aff ∨ p ∈ def) →
  Forall2 (shard_of (InlineKB (cfg e')) (idx_files e')) (shards (snapshot e')) parts' →
  parts' ≡ₚ remade fs e parts aff →
  (∀ p, dirty e' !! p = if decide (is_Some (dirty e !! p) ∧ p ∉ def) then None else dirty e !! p) →
  covering fs (L ∖ dropped e e' L) e' parts'.
Proof.
  intros Hplan Hall Hperm Hd'.
  assert (concat parts' ≡ₚ concat (remade fs e parts aff)) as Hconc by by apply concat_Permutation.
  assert (∀ p b, dirty e' !! p = Some b → dirty e !! p = Some b) as Hsub.
  { intros p b. rewrite Hd'. by destruct (decide _). }
  assert (∀ p, p ∈ L → p ∉ dropped e e' L ↔ ¬ (dirty e !! p = Some false ∧ dirty e' !! p = None ∧
    in_range (snapshot e) p = true ∧ indexed e p = false)) as Hdrop by (intros p Hp; unfold dropped; set_solver).
  split; [done|by rewrite Hconc; apply remade_paths| | | |].
  - intros f' Hf' Hn. rewrite Hconc in Hf'. assert (path_of f' ∈ L ∧ ReadFile fs (path_of f') = Some (in_content f') ∧
      Stat fs (path_of f') = Some (Size (in_meta f'), MtimeNS (in_meta f')) ∧
      (indexed e (path_of f') = true ∨ in_range (snapshot e) (path_of f') = false)) as (HL & ? & ? & Hr).
    { apply remade_elem in Hf' as [(i & ins & Hi & Hf')|Hf']; [|destruct (new_input f' Hf') as (?&?&?&_&?); by auto].
      assert (∀ f, f ∈ ins → f ∈ concat parts) as Hin by (intros f; by eapply part_in).
      assert (∀ f, f ∈ ins → indexed e (path_of f) = true) as Hidx
        by (intros f ?; apply indexed_elem, (list_elem_of_fmap_2 path_of); by apply Hin).
      unfold part_after in Hf'. destruct (decide (Z.of_nat i ∈ aff)) as [Ha|Ha].
      + apply list_elem_of_omap in Hf' as (f & Hf & Hr). pose proof (refresh_path _ _ _ _ Hr) as Ep.
        rewrite Ep, Hd' in Hn. rewrite Ep. specialize (Hidx f Hf).
        destruct (dirty e !! path_of f) as [[]|] eqn:Ed.
        * unfold refresh in Hr. by rewrite Ed in Hr.
        * destruct (refresh_dirty f f' Ed Hr) as (? & ? & ?). rewrite <-Ep in *. by auto.
        * rewrite (refresh_clean f) in Hr by auto. injection Hr as <-.
          destruct (cv_clean _ _ _ _ Hcv f) as (? & ? & ?); auto.
      + rewrite Hd' in Hn. destruct (decide _) as [[Hs Hdef]|].
        * destruct (Hplan _ _ Hs (shard_for_elem i ins f' Hi Hf')); done.
        * destruct (cv_clean _ _ _ _ Hcv f') as (? & ? & ?); auto 10. }
    split_and!; [|done..]. apply elem_of_difference. split; [done|]. apply Hdrop; [done|]. naive_solver congruence.
  - intros p Hp Hr. apply elem_of_difference. assert (p ∈ L) as HL by (apply (cv_dirty _ _ _ _ Hcv); [by apply Hsub|done]).
    split; [done|]. apply Hdrop; [done|]. naive_solver congruence.
  - intros p Hp%Hsub [HL _]%elem_of_difference. by apply (cv_deleted _ _ _ _ Hcv p).
  - intros p [Hp Hnd]%elem_of_difference Ht. apply Hdrop in Hnd; [|done]. rewrite Hconc.
    assert (∀ f, f ∈ concat parts → path_of f = p → is_Some (refresh fs (dirty e) f) →
      p ∈ map path_of (concat (remade fs e parts aff))) as Hold.
    { intros f (i & ins & Hi & Hf)%part_of <- Hr. assert (∃ f', path_of f' = path_of f ∧ f' ∈ part_after fs (dirty e) aff (Z.of_nat i) ins) as (f' & <- & Hf').
      { unfold part_after. destruct (decide _); [|by exists f]. destruct Hr as [f' Hr]. exists f'.
        split; [by eapply refresh_path|]. apply list_elem_of_omap. by exists f. }
      apply (list_elem_of_fmap_2 path_of), remade_elem. left. by exists i, ins. }
    destruct (dirty e !! p) as [b|] eqn:Ed.
    2: { destruct (cv_all _ _ _ _ Hcv p Hp Ht) as [(f & -> & Hf)%list_elem_of_fmap|]; [left|congruence].
         apply (Hold f); [done..|]. rewrite refresh_clean by done. by eexists. }
    destruct b; [by destruct (cv_deleted _ _ _ _ Hcv p Ed)|].
    destruct (dirty e' !! p) as [b|] eqn:Ed'; [right; pose proof (Hsub p b Ed'); congruence|left].
    destruct (indexed e p) eqn:Ei.
    + apply indexed_elem in Ei as (f & -> & Hf)%list_elem_of_fmap. apply (Hold f); [done..|]. by apply refresh_text.
    + destruct (in_range (snapshot e) p) eqn:Er; [by destruct Hnd|].
      apply (input_new p Hp Ed Ht) in Er as (f & -> & Hf)%list_elem_of_fmap.
      apply (list_elem_of_fmap_2 path_of), remade_elem. by right.
Qed.
End Tracked.

(** ** The cycle *)

(** What a cycle needs: the files it makes fit the format, no file is UTF-16, and there are
    sequence numbers left. *)
Record rebuild_fits `{MapOrder} `{SymbolExtractor} (fs : FS) (L : gset bytes) (e : DiskEngine)
    (parts : list (list input)) : Prop := {
  rf_old : Forall (λ ins, fits (build (InlineKB (cfg e)) (omap (refresh fs (dirty e)) ins))) parts;
  rf_new : fits (build (InlineKB (cfg e)) (new_inputs fs e));
  rf_utf16 p c : p ∈ L → ReadFile fs p = Some c → transcode c = c;
  rf_seq : (seqNo (snapshot e) + len (shards (snapshot e)) + 1 < 2 ^ 63)%Z;
}.

(** The shards determine the metadata and the symbols of their files, and with them
    what a cycle makes of the files. *)
Lemma same_parts `{MapOrder} kb e parts parts' :
  in_order kb e parts → in_order kb e parts' →
  Forall2 (Forall2 (λ a b, in_meta a = in_meta b ∧ in_defs a = in_defs b)) parts parts'.
Proof.
  intros [Hs _ _] [Hs' _ _].
  assert (length parts = length parts') as Hl by by rewrite <-(Forall2_length _ _ _ Hs), (Forall2_length _ _ _ Hs').
  apply Forall2_same_length_lookup_2; [done|]. intros i ins ins' Hi Hi'.
  destruct (Forall2_lookup_r _ _ _ _ _ Hs Hi) as (s & Hsi & Hso).
  pose proof (Forall2_lookup_lr _ _ _ _ _ _ Hs' Hsi Hi') as Hso'.
  destruct (so_served _ _ _ _ Hso e eq_refl) as (m & Hm & Hb). destruct (so_served _ _ _ _ Hso' e eq_refl) as (m' & Hm' & Hb').
  assert (m' = m) as -> by congruence. apply built_serves in Hb, Hb'.
  assert (length ins = length ins') as Hlen.
  { pose proof (@serves_num _ _ _ Hb) as E. rewrite (@serves_num _ _ _ Hb') in E. unfold len in E. lia. }
  apply Forall2_same_length_lookup_2; [done|]. intros j f f' Hf Hf'.
  pose proof (@serves_file _ _ _ Hb j f Hf) as E1. rewrite (@serves_file _ _ _ Hb' j f' Hf') in E1. injection E1 as E1.
  pose proof (@serves_defs _ _ _ Hb j f Hf) as E2. rewrite (@serves_defs _ _ _ Hb' j f' Hf') in E2. injection E2 as E2.
  by rewrite E1, E2.
Qed.

Lemma rebuild_fits_parts `{MapOrder} `{SymbolExtractor} fs L e parts parts' :
  in_order (InlineKB (cfg e)) e parts → in_order (InlineKB (cfg e)) e parts' →
  rebuild_fits fs L e parts → rebuild_fits fs L e parts'.
Proof.
  intros Ho Ho' [Hold Hnew Hu Hs]. pose proof (same_parts _ e parts parts' Ho Ho') as Hsame.
  split; [|done|done|done]. clear -Hold Hsame. induction Hsame as [|ins ins' ps ps' Hi _ IH]; [constructor|].
    apply Forall_cons in Hold as [Hf Hold]. constructor; [|by apply IH].
    assert (omap (refresh fs (dirty e)) ins' = omap (refresh fs (dirty e)) ins) as ->; [|done]. clear -Hi.
    induction Hi as [|f f' ? ? [Hm Hd] _ IHi]; [done|]. cbn [omap list_omap].
    assert (refresh fs (dirty e) f' = refresh fs (dirty e) f) as ->; [|by rewrite IHi].
    unfold refresh, path_of. by rewrite Hm, Hd.
Qed.

Section Cycle.
Context `{MapOrder} `{SymbolExtractor} (fs : FS) (L : gset bytes) (e : DiskEngine) (parts : list (list input)).
Hypothesis Htr : tracking fs L e parts.
Hypothesis Hnm : named e.
Hypothesis Hfit : rebuild_fits fs L e parts.

Lemma cycle_len : (len (shards (snapshot e)) < 2 ^ 63)%Z.
Proof. pose proof (rf_seq _ _ _ _ Hfit). pose proof (nm_seq _ Hnm). lia. Qed.

(** The first half of the cycle. *)
Lemma rebuild_build_spec :
  ∃ aff def p, rebuild_build written e fs = Some (def, p) ∧
    collected e p (imap (λ i, part_after fs (dirty e) aff (Z.of_nat i)) parts ++ [new_inputs fs e]) ∧
    ∀ q si, is_Some (dirty e !! q) → shardForPath (snapshot e) q = Some (Some si) → si ∈ aff ∨ q ∈ def.
Proof.
  destruct (tr_order _ _ _ _ Htr) as [Hs Hne _]. unfold rebuild_build.
  destruct (plan_spec fs (snapshot e) (shard_for fs L e parts Htr cycle_len) (RebuildThreshold (cfg e)) (dirty e))
    as (aff & def & -> & Hplan). cbn [mbind option_bind].
  destruct (rebuild_shards_spec e fs aff (mkProgress [] [] (seqNo (snapshot e)) 0 []) [] (shards (snapshot e)) parts 0)
    as (p1 & Hr & Hc1); [constructor|done|done|done|apply Hfit|]. cbn [Nat.add] in Hr. rewrite Hr. cbn [mbind option_bind].
  destruct (build_new_spec e fs p1 _ _ Hc1 (rf_new _ _ _ _ Hfit)) as (p & -> & Hc). cbn [mbind option_bind].
  by exists aff, def, p.
Qed.

(** The shards of the cycle, whatever their order. *)
Lemma collected_remade aff p :
  collected e p (imap (λ i, part_after fs (dirty e) aff (Z.of_nat i)) parts ++ [new_inputs fs e]) →
  ∃ parts', parts' ≡ₚ remade fs e parts aff ∧ Forall2 (made e p) (compacted p) parts'.
Proof.
  intros Hc. edestruct Permutation_Forall2 as (parts' & Hp & Hall); [|exact Hc|].
  { symmetry. apply (merge_sort_Permutation min_le). }
  by exists parts'.
Qed.

(** The shards of the cycle in the order of their files. *)
Lemma collected_order aff p k :
  k ≤ length parts →
  collected e p (imap (λ i, part_after fs (dirty e) aff (Z.of_nat i)) parts ++ [new_inputs fs e]) →
  ∃ ss, ss ≡ₚ omap id (p_shards p) ∧ Forall2 (made e p) ss (rebuilt fs e parts aff k).
Proof.
  intros Hk Hc. edestruct Permutation_Forall2 as (ss & Hp & Hall); [|by eapply Forall2_flip|].
  { symmetry. by apply rebuilt_remade. }
  exists ss. split; [done|by apply Forall2_flip].
Qed.

(** Its shards are in the files it leaves. *)
Lemma made_kept def p ss parts' idx rem :
  rebuild_build written e fs = Some (def, p) →
  cleanPending (put_files (p_writes p) (idx_files e)) (pending e) = (idx, rem) →
  (∀ s, s ∈ ss → s ∈ compacted p) → Forall2 (made e p) ss parts' → Forall2 (shard_of (InlineKB (cfg e)) idx) ss parts'.
Proof.
  intros Hb Eclean Hin Hmade. pose proof (rf_seq _ _ _ _ Hfit) as Hseq.
  pose proof (@named_stored line_codec _ _ e parts line_codec_keeps (tr_order _ _ _ _ Htr) Hnm) as Hd.
  pose proof (len_nonneg (shards (snapshot e))) as Hl0. specialize (Hd ltac:(lia)). set (d := insert _ _ _) in Hd.
  destruct (@cycle_ok line_codec _ _ d e fs def p Hd Hseq Hb) as [Hok _].
  apply Forall2_same_length_lookup_2; [by eapply Forall2_length|]. intros i s ins Hi Hj.
  pose proof (Hin s (list_elem_of_lookup_2 _ _ _ Hi)) as Hs.
  assert (idx !! s_path s = put_files (p_writes p) (idx_files e) !! s_path s) as Hidx.
  { change idx with (idx, rem).1. rewrite <-Eclean. apply (clean_lookup (_, [])).
    by apply (@pending_other line_codec _ _ d e fs def p Hd Hseq Hb). }
  destruct (Forall2_lookup_lr _ _ _ _ _ _ Hmade Hi Hj) as [[Hold Hso]|(out & Hw & Hso)];
    (eapply shard_of_frame; [exact Hso|]); rewrite Hidx.
  - by apply put_files_other, (@old_unwritten line_codec _ _ d e fs def p Hd Hseq Hb).
  - rewrite lookup_singleton_eq. apply put_files_in; [apply (po_once _ _ _ Hok)|done].
Qed.

Lemma made_in_order aff def p idx rem :
  rebuild_build written e fs = Some (def, p) →
  cleanPending (put_files (p_writes p) (idx_files e)) (pending e) = (idx, rem) → one_gap fs e →
  collected e p (imap (λ i, part_after fs (dirty e) aff (Z.of_nat i)) parts ++ [new_inputs fs e]) →
  ∃ parts', parts' ≡ₚ remade fs e parts aff ∧ Forall2 (made e p) (compacted p) parts' ∧
    Forall (λ ins, ins ≠ []) parts' ∧ StronglySorted bytes_lt (map path_of (concat parts')).
Proof.
  intros Hb Eclean Hgap Hc.
  destruct (gap_filled fs L e parts Htr (rf_utf16 _ _ _ _ Hfit) cycle_len Hgap) as [k Hk].
  destruct (collected_order aff p k (proj1 Hk) Hc) as (ss & Hp & Hmade). exists (rebuilt fs e parts aff k).
  pose proof (rebuilt_sorted fs L e parts Htr aff k Hk) as Hsort.
  assert (Forall (λ ins, ins ≠ []) (rebuilt fs e parts aff k)) as Hnes.
  { apply Forall_forall. intros x Hx. unfold rebuilt in Hx. by apply list_elem_of_filter in Hx as [? _]. }
  assert (compacted p = ss) as ->; [|by split_and!; [apply rebuilt_remade, Hk|..]].
  apply merge_sort_ordered; [|by symmetry]. eapply (shards_ordered (InlineKB (cfg e)) idx); [|done|done].
  apply (made_kept def p ss _ idx rem Hb Eclean); [|done]. intros s. by rewrite Hp, compacted_elem.
Qed.

(** A cycle over a repository that does not change: the engine after it accounts for all files but
    those that are dropped, and tracks them when the new files lie in one gap; the
    files of its shards are those of before or have just been read. *)
Lemma rebuild_keeps :
  dirty e ≠ ∅ →
  ∃ e' parts', rebuild e fs [] = Some e' ∧ cfg e' = cfg e ∧ named e' ∧
    manifest e' = Some (ManifestFromShards (shards (snapshot e')) (seqNo (snapshot e'))) ∧
    covering fs (L ∖ dropped e e' L) e' parts' ∧ (one_gap fs e → in_order (InlineKB (cfg e')) e' parts') ∧
    ∀ f, f ∈ concat parts' → f ∈ concat parts ∨ ReadFile fs (path_of f) = Some (in_content f) ∧
      Stat fs (path_of f) = Some (Size (in_meta f), MtimeNS (in_meta f)).
Proof.
  intros Hne. destruct rebuild_build_spec as (aff & def & p & Hb & Hc & Hplan).
  pose proof (rf_seq _ _ _ _ Hfit) as Hseq.
  pose proof (@named_stored line_codec _ _ e parts line_codec_keeps (tr_order _ _ _ _ Htr) Hnm) as Hd.
  pose proof (len_nonneg (shards (snapshot e))) as Hl0. specialize (Hd ltac:(lia)). set (d := insert _ _ _) in Hd.
  unfold rebuild, rebuild_io. rewrite bool_decide_eq_false_2, Hb by done. cbn [mbind option_bind foldl].
  destruct (cleanPending (put_files (p_writes p) (idx_files e)) (pending e)) as [idx rem] eqn:Eclean.
  set (e' := mkEngine _ _ _ _ _ _ _ _).
  assert (∃ parts', parts' ≡ₚ remade fs e parts aff ∧ Forall2 (made e p) (compacted p) parts' ∧
    (one_gap fs e → Forall (λ ins, ins ≠ []) parts' ∧ StronglySorted bytes_lt (map path_of (concat parts'))))
    as (parts' & Hperm & Hmade & Hord).
  { destruct (decide (one_gap fs e)) as [Hgap|Hgap].
    - destruct (made_in_order aff def p idx rem Hb Eclean Hgap Hc) as (ps & ? & ? & ?). by exists ps.
    - destruct (collected_remade aff p Hc) as (ps & ? & ?). by exists ps. }
  pose proof (made_kept def p _ parts' idx rem Hb Eclean (λ s Hs, Hs) Hmade) as Hall. exists e', parts'.
  split_and!; [done|done| |done| |by intros [? ?]%Hord|].
  - eapply (@stored_named line_codec), (@cycle_on_disk line_codec _ _ d e fs def p line_codec_keeps Hd Hseq Hb); cbn;
      by rewrite ?Eclean.
  - apply (remade_covering fs L e parts Htr (rf_utf16 _ _ _ _ Hfit) cycle_len aff def); [done|done|done|].
    intros q. cbn [e' dirty]. rewrite cleared. apply decide_ext. tauto.
  - intros f Hf. pose proof (concat_Permutation _ _ Hperm) as Hconc. rewrite Hconc in Hf.
    by eapply (remade_source fs L e parts Htr (rf_utf16 _ _ _ _ Hfit) cycle_len aff).
Qed.
End Cycle.
