(* ===== verification/Reserve.v ===== *)
(** * The byte budget under concurrency: [reserveBytes] of internal/daemon/store.go

    The workers of [indexParallel] share [totalBytes].  A worker loads it, gives up when its
    file does not fit, and otherwise swaps in the sum if no other worker changed it in between;
    it gives the bytes back when the file cannot be indexed.  The steps of the workers
    interleave in any order. *)

From S2P Require Import Prelude.

(** Where a worker is: at the top of the loop, between the load and the swap, or done. *)
Inductive worker :=
  | Idle (n : Z)
  | Loaded (n cur : Z)
  | Claimed (n : Z)
  | Denied
  | Released.

Section Reserve.
Context (budget : Z).

(** One atomic step of a worker, on the counter. *)
Inductive worker_step : Z → worker → Z → worker → Prop :=
  | step_load total n : worker_step total (Idle n) total (Loaded n total)
  | step_deny total n cur : (budget < cur + n)%Z → worker_step total (Loaded n cur) total Denied
  | step_swap n cur : (cur + n ≤ budget)%Z → worker_step cur (Loaded n cur) (cur + n) (Claimed n)
  | step_retry total n cur : (cur + n ≤ budget)%Z → total ≠ cur →
      worker_step total (Loaded n cur) total (Idle n)
  | step_release total n : worker_step total (Claimed n) (total - n) Released.

Definition system : Type := Z * list worker.

Inductive sys_step : system → system → Prop :=
  sys_worker total ws i wk total' wk' :
    ws !! i = Some wk → worker_step total wk total' wk' →
    sys_step (total, ws) (total', <[i := wk']> ws).

(** The bytes a worker holds, and what it may claim. *)
Definition held (wk : worker) : Z := match wk with Claimed n => n | _ => 0 end.
Definition wants_ok (wk : worker) : Prop :=
  match wk with Idle n | Loaded n _ | Claimed n => (0 ≤ n)%Z | _ => True end.

Fixpoint sum_held (ws : list worker) : Z :=
  match ws with [] => 0 | wk :: ws => held wk + sum_held ws end.

Lemma sum_held_insert ws i wk wk' :
  ws !! i = Some wk → sum_held (<[i := wk']> ws) = (sum_held ws - held wk + held wk')%Z.
Proof.
  revert i. induction ws as [|w0 ws IH]; intros [|i]; [done|done|..].
  - intros [= ->]. cbn. lia.
  - intros Hi. change (held w0 + sum_held (<[i:=wk']> ws) = held w0 + sum_held ws - held wk + held wk')%Z.
    rewrite (IH i Hi). lia.
Qed.

(** The counter is what was there plus what the workers hold, and fits the budget. *)
Definition sys_ok (base : Z) (s : system) : Prop :=
  s.1 = (base + sum_held s.2)%Z ∧ (s.1 ≤ budget)%Z ∧ Forall wants_ok s.2.

Lemma sys_step_ok base s s' : sys_ok base s → sys_step s s' → sys_ok base s'.
Proof.
  intros Hok Hst. destruct Hst as [total ws i wk total' wk' Hi Hstep].
  destruct Hok as (Hsum & Hb & Hw). cbn in Hsum, Hb, Hw.
  assert (wants_ok wk) as Hwk by exact (Forall_lookup_1 _ _ _ _ Hw Hi).
  unfold sys_ok. cbn. rewrite (sum_held_insert _ _ _ _ Hi).
  destruct Hstep; cbn in *; (split; [lia|]); (split; [lia|]);
    (apply Forall_insert; [done|]); cbn; try done; lia.
Qed.

(** C34. Whatever the interleaving of the workers, the counter is always the bytes that were
    there plus the bytes of the files that hold a reservation, and it never goes over the budget:
    workers cannot overshoot it together. *)
Theorem reserve_never_overshoots base ws s :
  (base ≤ budget)%Z → Forall (λ wk, ∃ n, wk = Idle n ∧ (0 ≤ n)%Z) ws →
  rtc sys_step (base, ws) s → s.1 = (base + sum_held s.2)%Z ∧ (s.1 ≤ budget)%Z.
Proof.
  intros Hb Hws Hs. assert (sys_ok base (base, ws)) as H0.
  { split_and!; cbn; [|done|].
    - assert (sum_held ws = 0%Z) as ->; [|lia]. clear Hs. induction Hws as [|wk ws (n & -> & _) _ IH]; cbn; [done|].
      by rewrite IH.
    - eapply Forall_impl; [done|]. by intros wk (n & -> & ?). }
  assert (sys_ok base s) as (? & ? & _); [|done].
  revert H0. clear -Hs. induction Hs as [|s1 s2 s3 Hst _ IH]; intros H0; [done|]. apply IH. by eapply sys_step_ok.
Qed.

(** A failed swap means another worker changed the counter: some worker makes progress. *)
Lemma swap_fails_only_if_changed total n cur total' :
  worker_step total (Loaded n cur) total' (Idle n) → total ≠ cur.
Proof. by inversion 1. Qed.
End Reserve.

Lemma reserve_never_overshoots_witness :
  (0 ≤ 10)%Z ∧ ∃ s, rtc (sys_step 10) (0%Z, [Idle 6; Idle 7]) s ∧ (s.1 ≤ 10)%Z ∧ s.2 = [Claimed 6; Idle 7].
Proof.
  split; [lia|]. exists (6%Z, [Claimed 6; Idle 7]).
  assert (rtc (sys_step 10) (0%Z, [Idle 6; Idle 7]) (6%Z, [Claimed 6; Idle 7])) as Hr.
  { eapply rtc_l; [exact (sys_worker 10 0 [Idle 6; Idle 7] 0 _ _ _ eq_refl (step_load 10 0 6))|].
    eapply rtc_l; [exact (sys_worker 10 0 [Loaded 6 0; Idle 7] 1 _ _ _ eq_refl (step_load 10 0 7))|].
    eapply rtc_l; [exact (sys_worker 10 0 [Loaded 6 0; Loaded 7 0] 0 _ _ _ eq_refl (step_swap 10 6 0 ltac:(lia)))|].
    eapply rtc_l; [exact (sys_worker 10 6 [Claimed 6; Loaded 7 0] 1 _ _ _ eq_refl
      (step_retry 10 6 7 0 ltac:(lia) ltac:(lia)))|]. apply rtc_refl. }
  split; [exact Hr|]. split; [|done].
  apply (reserve_never_overshoots 10 0 [Idle 6; Idle 7] _ ltac:(lia)); [|exact Hr].
  repeat constructor; eexists; (split; [reflexivity|lia]).
Defined.
