(* ===== verification/Store.v ===== *)
(** * The store of a root: internal/daemon/store.go and stream.go

    [RootStore] routes each file to the index or to the stream manifest, keeps the byte
    budget, and reconciles with the disk.  [None] is a panic, a nil index included.  Paths are
    relative to the root; the workers of [indexParallel] take the files one after another
    ([Reserve.v] has their interleavings). *)

From S2P Require Import Prelude GoBytes Trigram Text GoPath Ignore Walk Conf Symbol.
From S2P Require Import Index IndexSearch Codec Shard Engine.

(** ** State *)

(** [streamEntry] *)
Record streamEntry := mkStream { se_size : Z; se_mtimeNS : Z }.

Inductive StoreState := StateIndexing | StateReconciling | StateReady.

(** The counters of skipped files. *)
Record Skipped := mkSkipped {
  skippedLarge : Z; skippedBudget : Z; skippedBinary : Z; skippedError : Z;
}.

(** [RootStore]; [st_git] is the content of the .gitignore files as they were first loaded, when
    GCGREP_GITIGNORE is set. *)
Record RootStore := mkStore {
  st_root : bytes;
  st_follow : bool;
  st_cfg : Config;
  st_engine : bytes;
  st_idx : option Index;
  st_disk : option DiskEngine;
  st_ign : list rule;
  st_git : option (bytes → option bytes);
  st_stream : gmap bytes streamEntry;
  st_state : StoreState;
  st_indexed : Z;
  st_total : Z;
  st_skipped : Skipped;
  st_bytes : Z;
}.

Definition set_idx (s : RootStore) (ix : option Index) : RootStore :=
  mkStore (st_root s) (st_follow s) (st_cfg s) (st_engine s) ix (st_disk s) (st_ign s) (st_git s)
    (st_stream s) (st_state s) (st_indexed s) (st_total s) (st_skipped s) (st_bytes s).
Definition set_disk (s : RootStore) (engine : bytes) (d : option DiskEngine) : RootStore :=
  mkStore (st_root s) (st_follow s) (st_cfg s) engine (st_idx s) d (st_ign s) (st_git s)
    (st_stream s) (st_state s) (st_indexed s) (st_total s) (st_skipped s) (st_bytes s).
Definition set_ign (s : RootStore) (rules : list rule) : RootStore :=
  mkStore (st_root s) (st_follow s) (st_cfg s) (st_engine s) (st_idx s) (st_disk s) rules (st_git s)
    (st_stream s) (st_state s) (st_indexed s) (st_total s) (st_skipped s) (st_bytes s).
Definition set_stream (s : RootStore) (m : gmap bytes streamEntry) : RootStore :=
  mkStore (st_root s) (st_follow s) (st_cfg s) (st_engine s) (st_idx s) (st_disk s) (st_ign s) (st_git s)
    m (st_state s) (st_indexed s) (st_total s) (st_skipped s) (st_bytes s).
Definition set_state (s : RootStore) (x : StoreState) : RootStore :=
  mkStore (st_root s) (st_follow s) (st_cfg s) (st_engine s) (st_idx s) (st_disk s) (st_ign s) (st_git s)
    (st_stream s) x (st_indexed s) (st_total s) (st_skipped s) (st_bytes s).
Definition set_progress (s : RootStore) (indexed total : Z) : RootStore :=
  mkStore (st_root s) (st_follow s) (st_cfg s) (st_engine s) (st_idx s) (st_disk s) (st_ign s) (st_git s)
    (st_stream s) (st_state s) indexed total (st_skipped s) (st_bytes s).
Definition set_skipped (s : RootStore) (k : Skipped) : RootStore :=
  mkStore (st_root s) (st_follow s) (st_cfg s) (st_engine s) (st_idx s) (st_disk s) (st_ign s) (st_git s)
    (st_stream s) (st_state s) (st_indexed s) (st_total s) k (st_bytes s).

(** [s.totalBytes.Add(n)], [Store(n)]: an [atomic.Int64]. *)
Definition set_bytes (s : RootStore) (n : Z) : RootStore :=
  mkStore (st_root s) (st_follow s) (st_cfg s) (st_engine s) (st_idx s) (st_disk s) (st_ign s) (st_git s)
    (st_stream s) (st_state s) (st_indexed s) (st_total s) (st_skipped s) (i64 n).
Definition add_bytes (s : RootStore) (n : Z) : RootStore := set_bytes s (st_bytes s + n).

Definition count_large (s : RootStore) : RootStore :=
  let k := st_skipped s in
  set_skipped s (mkSkipped (skippedLarge k + 1) (skippedBudget k) (skippedBinary k) (skippedError k)).
Definition count_budget (s : RootStore) : RootStore :=
  let k := st_skipped s in
  set_skipped s (mkSkipped (skippedLarge k) (skippedBudget k + 1) (skippedBinary k) (skippedError k)).
Definition count_binary (s : RootStore) : RootStore :=
  let k := st_skipped s in
  set_skipped s (mkSkipped (skippedLarge k) (skippedBudget k) (skippedBinary k + 1) (skippedError k)).
Definition count_error (s : RootStore) : RootStore :=
  let k := st_skipped s in
  set_skipped s (mkSkipped (skippedLarge k) (skippedBudget k) (skippedBinary k) (skippedError k + 1)).

(** ** The stream manifest *)

(** [streamPut], [streamGet] and [streamDelete] *)
Definition streamPut (s : RootStore) (rel : bytes) (size mtimeNS : Z) : RootStore :=
  set_stream s (<[rel := mkStream size mtimeNS]> (st_stream s)).
Definition streamGet (s : RootStore) (rel : bytes) : option streamEntry := st_stream s !! rel.
Definition streamDelete (s : RootStore) (rel : bytes) : RootStore :=
  set_stream s (delete rel (st_stream s)).

(** [streamDeletePrefix] and [streamRetain]: entries are deleted while the map is ranged over. *)
Definition streamDeletePrefix (s : RootStore) (dir : bytes) : RootStore :=
  set_stream s (filter (λ pe, under_dir dir pe.1 = false) (st_stream s)).
Definition streamRetain (s : RootStore) (onDisk : gset bytes) : RootStore :=
  set_stream s (filter (λ pe, pe.1 ∈ onDisk) (st_stream s)).

(** [streamCount] *)
Definition streamCount (s : RootStore) : nat := size (st_stream s).

(** [StreamFile] *)
Record StreamFile := mkSF { sf_Rel : bytes; sf_Size : Z }.

Definition sf_le (a b : StreamFile) : Prop := bytes_le (sf_Rel a) (sf_Rel b).
#[export] Instance sf_le_dec : RelDecision sf_le.
Proof. intros a b. unfold sf_le. apply _. Defined.

(** The test of the loop of [StreamList]. *)
Definition stream_passes (maxFilesize : Z) (pathOK : option (bytes → bool)) (rel : bytes) (e : streamEntry) : bool :=
  negb ((0 <? maxFilesize)%Z && (maxFilesize <? se_size e)%Z) && path_ok pathOK rel.

(** [isCookie]: the base name starts with [watch.CookiePrefix]. *)
Definition CookiePrefix : bytes := bs ".gcgrep-cookie-".
Definition isCookie (rel : bytes) : bool := has_prefix (path_base rel) CookiePrefix.

Definition ControlFile : bytes := bs ".gcgrepignore".

Section Store.
Context `{MapOrder} `{SymbolExtractor}.

(** [StreamList] *)
Definition StreamList (s : RootStore) (maxFilesize : Z) (pathOK : option (bytes → bool)) : list StreamFile :=
  merge_sort sf_le
    (omap (λ re : bytes * streamEntry,
             if stream_passes maxFilesize pathOK re.1 re.2 then Some (mkSF re.1 (se_size re.2)) else None)
       (range (st_stream s))).

(** ** Routing one file *)

(** [ignored] *)
Definition ignored (s : RootStore) (rel : bytes) (isDir : bool) : bool :=
  Ignored (st_ign s) rel isDir ||
  match st_git s with Some read => (GitIgnored read ∅ rel isDir).1 | None => false end.

(** The byte budget, 0 when there is none. *)
Definition budget (s : RootStore) : Z := i64 (Z.shiftl (MaxIndexMB (st_cfg s)) 20).

(** [reserveBytes]: the store and whether the bytes were claimed. *)
Definition reserveBytes (s : RootStore) (n : Z) : RootStore * bool :=
  if (MaxIndexMB (st_cfg s) <=? 0)%Z then (add_bytes s n, true)
  else if (budget s <? i64 (st_bytes s + n))%Z then (s, false)
  else (add_bytes s n, true).

(** Releasing the bytes of the indexed version of a file. *)
Definition release (s : RootStore) (ix : Index) (rel : bytes) : option RootStore :=
  old ← Meta ix rel;
  Some (match old with Some m => add_bytes s (- Size m) | None => s end).

(** [toStream] *)
Definition toStream (s : RootStore) (rel : bytes) (size mtimeNS : Z) : option RootStore :=
  ix ← st_idx s;
  s ← release s ix rel;
  ix ← Remove ix rel;
  Some (streamPut (set_idx s (Some ix)) rel size mtimeNS).

(** [removeTracked] *)
Definition removeTracked (s : RootStore) (rel : bytes) : option RootStore :=
  ix ← st_idx s;
  s ← release s ix rel;
  ix ← Remove ix rel;
  Some (streamDelete (set_idx s (Some ix)) rel).

(** [indexFile] *)
Definition indexFile (w : World) (s : RootStore) (rel : bytes) : option RootStore :=
  match Walk.Stat w rel with
  | inr ErrNotExist => removeTracked s rel
  | inr ErrOther => removeTracked (count_error s) rel
  | inl fi =>
      if negb (is_regular fi) then removeTracked s rel
      else
        let size := fi_Size fi in
        let mtimeNS := fi_MtimeNS fi in
        if (MaxFileSize (st_cfg s) <? size)%Z then toStream (count_large s) rel size mtimeNS
        else
          let '(s, ok) := reserveBytes s size in
          if negb ok then toStream (count_budget s) rel size mtimeNS
          else
            match Walk.ReadFile w rel with
            | inr err =>
                let s := add_bytes s (- size) in
                removeTracked (match err with ErrNotExist => s | ErrOther => count_error s end) rel
            | inl content =>
                let content := default content (decodeUTF16 content) in
                if isBinary content then toStream (count_binary (add_bytes s (- size))) rel size mtimeNS
                else
                  ix ← st_idx s;
                  s ← release s ix rel;
                  let s := streamDelete s rel in
                  ix ← Add ix (mkMeta rel size mtimeNS) content;
                  Some (set_idx s (Some ix))
            end
  end.

(** [indexParallel], the files taken in order. *)
Definition indexParallel (w : World) (s : RootStore) (rels : list bytes) : option RootStore :=
  foldl (λ s rel, s ← s; s ← indexFile w s rel;
           Some (set_progress s (st_indexed s + 1) (st_total s))) (Some s) rels.

(** ** Scanning *)

(** The callback of [listFiles] and [listUnder]: files are never skipped here. *)
Definition skip_ignored (s : RootStore) (path : bytes) (isDir : bool) (fi : FileInfo) : fn_result :=
  if isDir && ignored s path true then SkipDir else Continue.

Definition list_file (s : RootStore) (v : visit) : option BuildFile :=
  let '(path, isDir, fi) := v in
  if isDir || ignored s path false || isCookie path then None
  else Some (mkBF path (fi_Size fi) (fi_MtimeNS fi)).
Definition list_under (s : RootStore) (v : visit) : option bytes :=
  let '(path, isDir, fi) := v in if isDir || ignored s path false then None else Some path.

(** [listFiles], with fuel for the walk. *)
Definition listFiles (w : World) (fuel : nat) (s : RootStore) : option (list BuildFile) :=
  match Walk w (st_follow s) (skip_ignored s) fuel [] with
  | Some vs => Some (omap (list_file s) (vs : list visit))
  | None => None
  end.

(** [listUnder] *)
Definition listUnder (w : World) (fuel : nat) (s : RootStore) (relDir : bytes) : option (list bytes) :=
  match Walk w (st_follow s) (skip_ignored s) fuel relDir with
  | Some vs => Some (omap (list_under s) (vs : list visit))
  | None => None
  end.

(** The file system as the disk engine sees it. *)
Definition fs_of (w : World) : FS :=
  mkFS (λ p, match Walk.ReadFile w p with inl c => Some c | inr _ => None end)
       (λ p, match Walk.Stat w p with inl fi => Some (fi_Size fi, fi_MtimeNS fi) | inr _ => None end).

(** [initDiskEngine]: an engine over the shard directory [idx], whose manifest is [m]. *)
Definition initDiskEngine (s : RootStore) (idx : gmap bytes bytes) (m : option Manifest) : RootStore :=
  let c := st_cfg s in
  let sizes := mkSizes (i64 (Z.shiftl (ShardTargetMB c) 20)) (i64 (Z.shiftl (ShardMinMB c) 20))
                 (i64 (Z.shiftl (ShardMaxMB c) 20)) in
  set_state (set_disk s (st_engine s)
    (Some (NewDiskEngine (mkCfg sizes (Conf.RebuildThreshold c) (Conf.SearchWorkers c) (ShardInlineKB c)) idx m)))
    StateIndexing.

(** The switch of [fullScan] and [reconcile] to the disk engine; the build counts the files it
    indexes (the count of a build that fails is not modelled). *)
Definition switch_to_disk (w : World) (s : RootStore) (idx : gmap bytes bytes) (m : option Manifest)
    (files : list BuildFile) : option RootStore :=
  let s := initDiskEngine (set_disk s (bs "disk") (st_disk s)) idx m in
  d ← st_disk s;
  '(d, _) ← FullBuild d (fs_of w) files;
  Some (set_progress (set_disk s (bs "disk") (Some d)) (st_indexed s + Engine.totalFiles d) (st_total s)).

(** The test of the two: the size of the source in MiB against the threshold. *)
Definition source_too_big (s : RootStore) (files : list BuildFile) : bool :=
  (DiskEngineMB (st_cfg s) <=? Z.shiftr (foldl (λ n f, i64 (n + bf_Size f)) 0 files) 20)%Z.

(** [fullScan] *)
Definition fullScan (w : World) (fuel : nat) (idx : gmap bytes bytes) (m : option Manifest) (s : RootStore)
  : option RootStore :=
  files ← listFiles w fuel s;
  let s := set_progress s (st_indexed s) (len files) in
  if bool_decide (Conf.Engine (st_cfg s) = bs "auto") && source_too_big s files
  then switch_to_disk w s idx m files
  else indexParallel w s (map Rel files).

(** One file of the first loop of [reconcile]: kept as it is, or stale. *)
Definition unchanged (s : RootStore) (ix : Index) (f : BuildFile) : option bool :=
  meta ← Meta ix (Rel f);
  Some (match meta with
        | Some m => bool_decide (bf_Size f = Size m) && bool_decide (bf_MtimeNS f = MtimeNS m)
        | None => false
        end ||
        match streamGet s (Rel f) with
        | Some e => bool_decide (bf_Size f = se_size e) && bool_decide (bf_MtimeNS f = se_mtimeNS e)
        | None => false
        end).

Fixpoint find_stale (s : RootStore) (fs : list BuildFile) : option (RootStore * list bytes) :=
  match fs with
  | [] => Some (s, [])
  | f :: fs =>
      ix ← st_idx s;
      same ← unchanged s ix f;
      if (same : bool) then find_stale (set_progress s (st_indexed s + 1) (st_total s)) fs
      else '(s, stale) ← find_stale s fs; Some (s, Rel f :: stale)
  end.

(** The last loop of [reconcile]. *)
Definition remove_missing (ix : Index) (onDisk : gset bytes) : option Index :=
  foldl (λ ix p, ix ← ix; if bool_decide (p ∈ onDisk) then Some ix else Remove ix p) (Some ix) (Paths ix).

(** [reconcile] *)
Definition reconcile (w : World) (fuel : nat) (idx : gmap bytes bytes) (m : option Manifest) (s : RootStore)
  : option RootStore :=
  files ← listFiles w fuel s;
  let s := set_progress s (st_indexed s) (len files) in
  if bool_decide (Conf.Engine (st_cfg s) = bs "auto") && bool_decide (st_engine s = bs "mem")
     && source_too_big s files
  then s ← switch_to_disk w s idx m files; Some (set_idx s None)
  else
    '(s, stale) ← find_stale s files;
    s ← indexParallel w s stale;
    let onDisk : gset bytes := list_to_set (map Rel files) in
    let s := streamRetain s onDisk in
    ix ← st_idx s;
    ix ← remove_missing ix onDisk;
    Some (set_idx s (Some ix)).

(** ** Watching *)

(** [applyChange]: the store, and whether a reconcile was started. *)
Definition applyChange (w : World) (fuel : nat) (s : RootStore) (rel : bytes) : option (RootStore * bool) :=
  if isCookie rel then Some (s, false)
  else if bool_decide (rel = bs "." ∨ rel = ControlFile) then
    if bool_decide (rel = ControlFile) then
      let content := match Walk.ReadFile w ControlFile with inl c => Some c | inr _ => None end in
      Some (set_ign s (AddPatterns (load_rules content) (Exclude (st_cfg s))), true)
    else Some (s, false)
  else
    match st_disk s with
    | Some d =>
        match Walk.Lstat w rel with
        | inr _ =>
            if ignored s rel true && ignored s rel false then Some (s, false)
            else d ← MarkDeletedPrefix (MarkDeleted d rel) rel; Some (set_disk s (st_engine s) (Some d), false)
        | inl fi =>
            if is_dir fi then
              if ignored s rel true then Some (s, false)
              else subs ← listUnder w fuel s rel;
                   Some (set_disk s (st_engine s) (Some (foldl MarkDirty d subs)), false)
            else if is_regular fi then
              if ignored s rel false then Some (s, false)
              else Some (set_disk s (st_engine s) (Some (MarkDirty d rel)), false)
            else Some (s, false)
        end
    | None =>
        match Walk.Lstat w rel with
        | inr _ =>
            if ignored s rel true && ignored s rel false then Some (s, false)
            else
              ix ← st_idx s;
              ix ← Remove ix rel;
              ix ← RemovePrefix ix rel;
              Some (streamDeletePrefix (streamDelete (set_idx s (Some ix)) rel) rel, false)
        | inl fi =>
            if is_dir fi then
              if ignored s rel true then Some (s, false)
              else subs ← listUnder w fuel s rel;
                   s ← foldl (λ s sub, s ← s; indexFile w s sub) (Some s) subs;
                   Some (s, false)
            else if is_regular fi then
              if ignored s rel false then Some (s, false)
              else s ← indexFile w s rel; Some (s, false)
            else Some (s, false)
        end
    end.

(** ** Persistence *)

(** [persisted], as the decoder of the file returns it. *)
Record persisted := mkPersisted { p_Version : bytes; p_Root : bytes; p_Files : list (FileMeta * bytes * list Def) }.

Definition persistVersion : bytes := bs "2".

(** [save] *)
Definition save (s : RootStore) : option persisted :=
  ix ← st_idx s;
  Some (mkPersisted persistVersion (st_root s) (Snapshot ix)).

(** [loadPersisted], its jobs taken in order: [None] inside when there is nothing to load. *)
Definition loadPersisted (s : RootStore) (file : option persisted) : option (option RootStore) :=
  match file with
  | None => Some None
  | Some p =>
      if bool_decide (p_Version p ≠ persistVersion) || bool_decide (p_Root p ≠ st_root s) then Some None
      else
        ix ← foldl (λ ix '(meta, content, defs), ix ← ix; AddWithKeys ix meta content (TrigramKeys content) defs)
               (Some (New (st_root s))) (p_Files p);
        let total := foldl (λ n '(meta, _, _), (n + Size meta)%Z) 0%Z (p_Files p) in
        Some (Some (set_bytes (set_idx s (Some ix)) total))
  end.
End Store.
