(* ===== verification/StoreSpec.v ===== *)
(** * What the store keeps: routing, budget, reconcile

    [entries] and [st_stream] are the abstract state of a store.  [store_ok] is its
    invariant: a path is never in both, and the byte counter is the size of what is
    indexed.  [tracked] says that the store holds a path as the disk has it. *)

From S2P Require Import Prelude GoBytes Trigram Text GoPath Ignore Walk Conf Symbol.
From S2P Require Import Index IndexSearch Codec Shard Engine Store.

(** ** Sizes *)

Definition sum_sizes (m : gmap bytes fileEntry) : Z := map_fold (λ _ f n, (Size (e_meta f) + n)%Z) 0%Z m.

Lemma sum_insert (m : gmap bytes fileEntry) (p : bytes) f : m !! p = None → sum_sizes (<[p := f]> m) = (Size (e_meta f) + sum_sizes m)%Z.
Proof. intros Hp. unfold sum_sizes. rewrite map_fold_insert_L; [done| |done]. intros; lia. Qed.

Lemma sum_delete (m : gmap bytes fileEntry) (p : bytes) : sum_sizes (delete p m) = (sum_sizes m - from_option (λ f, Size (e_meta f)) 0 (m !! p))%Z.
Proof.
  destruct (m !! p) as [f|] eqn:E; cbn.
  - rewrite <-(insert_delete_id m p f E) at 2. rewrite sum_insert by apply lookup_delete_eq. lia.
  - rewrite delete_id by done. lia.
Qed.

Lemma i64_add a b : i64 (i64 a + b) = i64 (a + b).
Proof. unfold i64. repeat case_match; lia. Qed.

(** ** The abstract state *)

Definition entries (s : RootStore) : gmap bytes fileEntry := from_option contents ∅ (st_idx s).

(** [n] more updates fit in the identifiers of the index. *)
Record store_ok (n : nat) (s : RootStore) : Prop := {
  so_idx : ∃ ix, st_idx s = Some ix ∧ index_ok ix ∧ (len (files ix) + Z.of_nat n ≤ 2 ^ 32)%Z;
  so_disjoint : ∀ p f, entries s !! p = Some f → st_stream s !! p = None;
  so_bytes : st_bytes s = i64 (sum_sizes (entries s));
}.

Lemma Meta_contents ix p : index_ok ix → IndexSearch.Meta ix p = Some (e_meta <$> contents ix !! p).
Proof.
  intros Hok. unfold IndexSearch.Meta. destruct (byPath ix !! p) as [id|] eqn:E.
  - destruct (byPath_contents ix p id Hok E) as (n & f & -> & Hf & Hc). by rewrite idx_nat, Hf, Hc.
  - apply byPath_None in E as ->; done.
Qed.

Lemma store_ok_le n m s : m ≤ n → store_ok n s → store_ok m s.
Proof. intros Hle [(ix & ? & ? & ?) ? ?]. split; [exists ix; split_and!; [done..|lia]|done..]. Qed.

Section Spec.
Context `{MapOrder} `{SymbolExtractor}.

(** Dropping the indexed version of a path, with or without a stream entry instead. *)
Lemma drop_spec (n : nat) (s : RootStore) (rel : bytes) (put : gmap bytes streamEntry → gmap bytes streamEntry) :
  store_ok n s → (∀ m p, p ≠ rel → put m !! p = m !! p) →
  ∃ s', (ix ← st_idx s; s ← release s ix rel; ix ← Remove ix rel;
         Some (set_stream (set_idx s (Some ix)) (put (st_stream s)))) = Some s' ∧
    store_ok n s' ∧ entries s' = delete rel (entries s) ∧ st_stream s' = put (st_stream s) ∧
    st_cfg s' = st_cfg s ∧ st_root s' = st_root s.
Proof.
  intros [(ix & Hix & Hok & Hl) Hdis Hb] Hput.
  assert (entries s = contents ix) as He by (unfold entries; by rewrite Hix).
  destruct (Remove_spec ix rel Hok) as (ix' & Hr & Hok' & Hc & Hl').
  rewrite Hix. cbn [mbind option_bind]. unfold release. rewrite Meta_contents by done. cbn [mbind option_bind].
  assert (∀ s1, st_stream s1 = st_stream s → st_idx s1 = Some ix → st_bytes s1 = i64 (sum_sizes (delete rel (contents ix))) →
    store_ok n (set_stream (set_idx s1 (Some ix')) (put (st_stream s1)))) as Hinv.
  { intros s1 Hs Hi Hb1. split; cbn.
    - exists ix'. split_and!; [done..|]. unfold len in *. lia.
    - intros p f. unfold entries. cbn. rewrite Hc. intros [Hne Hp]%lookup_delete_Some.
      rewrite Hput by done. rewrite Hs. apply (Hdis p f). by rewrite He.
    - rewrite Hb1. unfold entries. cbn. by rewrite Hc. }
  rewrite He in Hb. pose proof (sum_delete (contents ix) rel) as Hsum.
  destruct (contents ix !! rel) as [f|] eqn:E; cbn in *; rewrite Hr; cbn [mbind option_bind];
    eexists; (split; [done|]); (split; [|by rewrite He]).
  - apply (Hinv (add_bytes s (- Size (e_meta f)))); [done..|]. cbn. rewrite Hb, i64_add, Hsum. f_equal; lia.
  - apply (Hinv s); [done..|]. rewrite Hb, Hsum. f_equal; lia.
Qed.

Lemma toStream_spec (n : nat) (s : RootStore) (rel : bytes) (size mtimeNS : Z) :
  store_ok n s →
  ∃ s', toStream s rel size mtimeNS = Some s' ∧ store_ok n s' ∧ entries s' = delete rel (entries s) ∧
    st_stream s' = <[rel := mkStream size mtimeNS]> (st_stream s) ∧ st_cfg s' = st_cfg s ∧ st_root s' = st_root s.
Proof.
  intros Hs. apply (drop_spec n s rel (λ m, <[rel := mkStream size mtimeNS]> m) Hs).
  intros m p Hne. by apply lookup_insert_ne.
Qed.

Lemma removeTracked_spec (n : nat) (s : RootStore) (rel : bytes) :
  store_ok n s →
  ∃ s', removeTracked s rel = Some s' ∧ store_ok n s' ∧ entries s' = delete rel (entries s) ∧
    st_stream s' = delete rel (st_stream s) ∧ st_cfg s' = st_cfg s ∧ st_root s' = st_root s.
Proof.
  intros Hs. apply (drop_spec n s rel (λ m, delete rel m) Hs).
  intros m p Hne. by apply lookup_delete_ne.
Qed.

(** The counters do not matter to the invariant. *)
Lemma store_ok_eq n s s' :
  st_idx s' = st_idx s → st_stream s' = st_stream s → st_bytes s' = st_bytes s → store_ok n s → store_ok n s'.
Proof.
  intros Hi Hs Hb [? Hd ?]. assert (entries s' = entries s) as He by (unfold entries; by rewrite Hi).
  split; [by rewrite Hi|by rewrite He, Hs|by rewrite He, Hb].
Qed.

(** ** Where a file goes *)

Inductive dest := Indexed (meta : FileMeta) (text : bytes) | Streamed (e : streamEntry) | Dropped.

(** The text of a content, [None] when it is binary. *)
Definition file_text (content : bytes) : option bytes :=
  let text := default content (decodeUTF16 content) in
  if isBinary text then None else Some text.

(** There is no room for [size] more bytes, the indexed version of the file counted too. *)
Definition over_budget (s : RootStore) (size : Z) : bool :=
  negb (MaxIndexMB (st_cfg s) <=? 0)%Z && (budget s <? i64 (st_bytes s + size))%Z.

Definition route (w : World) (s : RootStore) (rel : bytes) : dest :=
  match Walk.Stat w rel with
  | inr _ => Dropped
  | inl fi =>
      if negb (is_regular fi) then Dropped
      else if (MaxFileSize (st_cfg s) <? fi_Size fi)%Z || over_budget s (fi_Size fi)
           then Streamed (mkStream (fi_Size fi) (fi_MtimeNS fi))
      else match Walk.ReadFile w rel with
           | inr _ => Dropped
           | inl c => match file_text c with
                      | Some t => Indexed (mkMeta rel (fi_Size fi) (fi_MtimeNS fi)) t
                      | None => Streamed (mkStream (fi_Size fi) (fi_MtimeNS fi))
                      end
           end
  end.

Definition put_entry (rel : bytes) (d : dest) (m : gmap bytes fileEntry) : gmap bytes fileEntry :=
  match d with
  | Indexed meta t => <[rel := mkEntry meta t (Extract rel t) false]> m
  | _ => delete rel m
  end.
Definition put_stream (rel : bytes) (d : dest) (m : gmap bytes streamEntry) : gmap bytes streamEntry :=
  match d with Streamed e => <[rel := e]> m | _ => delete rel m end.

(** The outcome of routing a file. *)
Definition routed (w : World) (n : nat) (s : RootStore) (rel : bytes) (s' : RootStore) : Prop :=
  store_ok n s' ∧ entries s' = put_entry rel (route w s rel) (entries s) ∧
  st_stream s' = put_stream rel (route w s rel) (st_stream s) ∧ st_cfg s' = st_cfg s ∧ st_root s' = st_root s.

Lemma reserve_over s size :
  reserveBytes s size = if over_budget s size then (s, false) else (add_bytes s size, true).
Proof. unfold reserveBytes, over_budget. destruct (_ <=? 0)%Z; [done|]. by destruct (_ <? _)%Z. Qed.

Lemma add_release n s a : store_ok n s → store_ok n (add_bytes (add_bytes s a) (- a)).
Proof.
  intros Hs. apply (store_ok_eq n s); [done..| |done]. cbn. rewrite i64_add, (so_bytes _ _ Hs).
  set (x := sum_sizes (entries s)). replace (i64 x + a + - a)%Z with (i64 x + 0)%Z by lia.
  by rewrite i64_add, Z.add_0_r.
Qed.

(** The last part of [indexFile]: the bytes are reserved and the text replaces the old version. *)
Lemma add_spec (n : nat) (s : RootStore) (rel : bytes) (size mtimeNS : Z) (text : bytes) :
  store_ok (S n) s →
  ∃ s', (ix ← st_idx (add_bytes s size); s ← release (add_bytes s size) ix rel;
         let s := streamDelete s rel in
         ix ← Add ix (mkMeta rel size mtimeNS) text; Some (set_idx s (Some ix))) = Some s' ∧
    store_ok n s' ∧
    entries s' = <[rel := mkEntry (mkMeta rel size mtimeNS) text (Extract rel text) false]> (entries s) ∧
    st_stream s' = delete rel (st_stream s) ∧ st_cfg s' = st_cfg s ∧ st_root s' = st_root s.
Proof.
  intros [(ix & Hix & Hok & Hl) Hdis Hb].
  assert (entries s = contents ix) as He by (unfold entries; by rewrite Hix).
  assert (len (files ix) < 2 ^ 32)%Z as Hl1 by lia.
  destruct (AddWithKeys_spec ix (mkMeta rel size mtimeNS) text (TrigramKeys text) (Extract rel text) Hok Hl1)
    as (ix' & Ha & Hok' & Hc & Hl'); [apply TrigramKeys_NoDup|intros; apply TrigramKeys_spec|].
  cbn [st_idx add_bytes set_bytes]. rewrite Hix. cbn [mbind option_bind]. unfold release.
  rewrite Meta_contents by done. cbn [mbind option_bind]. unfold Add. cbn [Path] in *.
  assert (∀ s1, st_stream s1 = st_stream s → st_idx s1 = Some ix →
    st_bytes s1 = i64 (size + sum_sizes (delete rel (contents ix))) →
    store_ok n (set_idx (streamDelete s1 rel) (Some ix'))) as Hinv.
  { intros s1 Hs Hi Hb1. split; cbn.
    - exists ix'. split_and!; [done..|]. unfold len in *. lia.
    - intros p f. unfold entries. cbn. rewrite Hc, Hs.
      destruct (decide (p = rel)) as [->|Hne]; [by rewrite lookup_delete_eq|].
      rewrite lookup_insert_ne, lookup_delete_ne by done. rewrite <-He. apply Hdis.
    - rewrite Hb1. unfold entries. cbn. rewrite Hc, <-insert_delete_eq, sum_insert by apply lookup_delete_eq. done. }
  rewrite He in Hb. pose proof (sum_delete (contents ix) rel) as Hsum.
  destruct (contents ix !! rel) as [f|] eqn:E; cbn in *; rewrite Ha; cbn [mbind option_bind];
    eexists; (split; [done|]); (split; [|rewrite He; by split_and!]).
  - apply (Hinv (add_bytes (add_bytes s size) (- Size (e_meta f)))); [done..|].
    cbn. rewrite Hb, (i64_add _ size), i64_add, Hsum. f_equal; lia.
  - apply (Hinv (add_bytes s size)); [done..|]. cbn. rewrite Hb, i64_add, Hsum. f_equal; lia.
Qed.

Lemma indexFile_routed (w : World) (n : nat) (s : RootStore) (rel : bytes) :
  store_ok (S n) s → ∃ s', indexFile w s rel = Some s' ∧ routed w n s rel s'.
Proof.
  intros Hs. pose proof (store_ok_le (S n) n s ltac:(lia) Hs) as Hn. unfold indexFile, routed, route.
  assert (∀ s1, store_ok n s1 → entries s1 = entries s → st_stream s1 = st_stream s → st_cfg s1 = st_cfg s →
    st_root s1 = st_root s → ∃ s', removeTracked s1 rel = Some s' ∧ store_ok n s' ∧
      entries s' = delete rel (entries s) ∧ st_stream s' = delete rel (st_stream s) ∧
      st_cfg s' = st_cfg s ∧ st_root s' = st_root s) as Hrem.
  { intros s1 H1 <- <- <- <-. by apply removeTracked_spec. }
  assert (∀ s1 size mt, store_ok n s1 → entries s1 = entries s → st_stream s1 = st_stream s →
    st_cfg s1 = st_cfg s → st_root s1 = st_root s → ∃ s', toStream s1 rel size mt = Some s' ∧ store_ok n s' ∧
      entries s' = delete rel (entries s) ∧ st_stream s' = <[rel := mkStream size mt]> (st_stream s) ∧
      st_cfg s' = st_cfg s ∧ st_root s' = st_root s) as Hstr.
  { intros s1 size mt H1 <- <- <- <-. by apply toStream_spec. }
  destruct (Walk.Stat w rel) as [fi|[]]; [|apply Hrem; try done..].
  - destruct (is_regular fi); cbn [negb]; [|by apply Hrem].
    destruct (_ <? fi_Size fi)%Z; cbn [orb]; [apply Hstr; try done; by apply (store_ok_eq n s)|].
    rewrite reserve_over. destruct (over_budget s (fi_Size fi)); cbn [negb].
    { apply Hstr; try done. by apply (store_ok_eq n s). }
    pose proof (add_release n s (fi_Size fi) Hn) as Hrel.
    destruct (Walk.ReadFile w rel) as [c|[]].
    + unfold file_text. destruct (isBinary _); [apply Hstr; try done; by apply (store_ok_eq n (add_bytes (add_bytes s (fi_Size fi)) (- fi_Size fi)))|].
      by apply add_spec.
    + by apply Hrem.
    + apply Hrem; try done. by apply (store_ok_eq n (add_bytes (add_bytes s (fi_Size fi)) (- fi_Size fi))).
  - by apply (store_ok_eq n s).
Qed.

(** C26. Indexing a file routes it, and only it: unreadable or vanished files and non-regular ones
    leave both sets, files over the size limit, over the budget or binary are in the stream
    manifest alone, with their size and time, and the others are in the index alone, with
    their text transcoded from UTF-16, their size and time on disk and their definitions.  The
    byte counter stays the size of what is indexed. *)
Theorem indexFile_spec (w : World) (n : nat) (s : RootStore) (rel : bytes) :
  store_ok (S n) s →
  ∃ s', indexFile w s rel = Some s' ∧ store_ok n s' ∧
    entries s' = put_entry rel (route w s rel) (entries s) ∧
    st_stream s' = put_stream rel (route w s rel) (st_stream s).
Proof. intros Hs. destruct (indexFile_routed w n s rel Hs) as (s' & Hi & H1 & H2 & H3 & _). by exists s'. Qed.

(** With a budget, the size of what is indexed never goes over it: a file that would not fit
    beside the others, its own old version included, goes to the stream manifest. *)
Theorem indexFile_budget (w : World) (n : nat) (s s' : RootStore) (rel : bytes) :
  store_ok (S n) s → (0 < MaxIndexMB (st_cfg s) < 2 ^ 40)%Z →
  (∀ p f, entries s !! p = Some f → (0 ≤ Size (e_meta f))%Z) →
  (∀ p fi, Walk.Stat w p = inl fi → (0 ≤ fi_Size fi < 2 ^ 62)%Z) →
  (0 ≤ sum_sizes (entries s) ≤ MaxIndexMB (st_cfg s) * 2 ^ 20)%Z →
  indexFile w s rel = Some s' → (sum_sizes (entries s') ≤ MaxIndexMB (st_cfg s') * 2 ^ 20)%Z.
Proof.
  intros Hs Hmb Hpos Hfi Hsum Hi. destruct (indexFile_routed w n s rel Hs) as (s1 & Hi1 & _ & He & _ & Hc & _).
  assert (s1 = s') as -> by congruence. rewrite He, Hc. clear He Hc Hi Hi1.
  assert (sum_sizes (delete rel (entries s)) ≤ sum_sizes (entries s))%Z as Hdel.
  { rewrite sum_delete. destruct (entries s !! rel) as [f|] eqn:E; cbn; [specialize (Hpos _ _ E)|]; lia. }
  assert (budget s = MaxIndexMB (st_cfg s) * 2 ^ 20)%Z as Hbud.
  { unfold budget. rewrite Z.shiftl_mul_pow2 by lia. apply i64_small. lia. }
  unfold route. destruct (Walk.Stat w rel) as [fi|] eqn:Es; cbn; [|lia]. specialize (Hfi _ _ Es).
  destruct (is_regular fi); cbn; [|lia].
  destruct (_ <? fi_Size fi)%Z; cbn; [lia|]. destruct (over_budget s (fi_Size fi)) eqn:Eo; cbn; [lia|].
  destruct (Walk.ReadFile w rel) as [c|]; cbn; [|lia]. destruct (file_text c); cbn; [|lia].
  rewrite <-insert_delete_eq, sum_insert by apply lookup_delete_eq. cbn.
  revert Eo. unfold over_budget. rewrite Hbud, (so_bytes _ _ Hs), i64_add, i64_small by lia.
  destruct (Z.leb_spec (MaxIndexMB (st_cfg s)) 0); [lia|]. cbn. intros Hlt%Z.ltb_ge. lia.
Qed.

(** ** Agreement with the disk *)

(** The store holds the path as the disk has it: a regular file is in the index alone, with the text,
    size and time it has on disk, or in the manifest alone, with its size and time, or, when it
    cannot be read, nowhere; anything else is nowhere. *)
Definition tracked (w : World) (s : RootStore) (p : bytes) : Prop :=
  match Walk.Stat w p with
  | inl fi =>
      if is_regular fi then
        (∃ c t, Walk.ReadFile w p = inl c ∧ file_text c = Some t ∧ st_stream s !! p = None ∧
           entries s !! p = Some (mkEntry (mkMeta p (fi_Size fi) (fi_MtimeNS fi)) t (Extract p t) false)) ∨
        (entries s !! p = None ∧ st_stream s !! p = Some (mkStream (fi_Size fi) (fi_MtimeNS fi))) ∨
        (entries s !! p = None ∧ st_stream s !! p = None ∧ ∃ e, Walk.ReadFile w p = inr e)
      else entries s !! p = None ∧ st_stream s !! p = None
  | inr _ => entries s !! p = None ∧ st_stream s !! p = None
  end.

Lemma routed_tracked w n s rel s' : routed w n s rel s' → tracked w s' rel.
Proof.
  intros (_ & He & Hs & _). unfold tracked, route in *.
  destruct (Walk.Stat w rel) as [fi|]; [|by rewrite He, Hs; cbn; rewrite !lookup_delete_eq].
  destruct (is_regular fi); cbn in He, Hs; [|by rewrite He, Hs; rewrite !lookup_delete_eq].
  destruct (_ || _); cbn in He, Hs; [right; left; by rewrite He, Hs, lookup_delete_eq, lookup_insert_eq|].
  destruct (Walk.ReadFile w rel) as [c|]; [destruct (file_text c) as [t|] eqn:Et|]; cbn in He, Hs; rewrite He, Hs.
  - left. exists c, t. by rewrite lookup_delete_eq, lookup_insert_eq.
  - right. left. by rewrite lookup_delete_eq, lookup_insert_eq.
  - right. right. rewrite !lookup_delete_eq. eauto.
Qed.

(** Routing a file leaves the others as they are. *)
Lemma routed_other w n s rel s' p :
  routed w n s rel s' → p ≠ rel → entries s' !! p = entries s !! p ∧ st_stream s' !! p = st_stream s !! p.
Proof.
  intros (_ & -> & -> & _) Hp. unfold put_entry, put_stream.
  destruct (route w s rel); rewrite ?lookup_insert_ne, ?lookup_delete_ne by done; done.
Qed.

Lemma tracked_eq w s s' p :
  entries s' !! p = entries s !! p → st_stream s' !! p = st_stream s !! p → tracked w s p → tracked w s' p.
Proof. unfold tracked. by intros -> ->. Qed.

(** Indexing files one after another: those are tracked, the others as they were. *)
Lemma indexParallel_spec (w : World) (n : nat) (s : RootStore) (rels : list bytes) :
  store_ok (length rels + n) s →
  ∃ s', indexParallel w s rels = Some s' ∧ store_ok n s' ∧ st_cfg s' = st_cfg s ∧ st_root s' = st_root s ∧
    (∀ p, p ∈ rels → tracked w s' p) ∧
    (∀ p, p ∉ rels → entries s' !! p = entries s !! p ∧ st_stream s' !! p = st_stream s !! p).
Proof.
  unfold indexParallel. revert s. induction rels as [|rel rels IH]; intros s Hs; cbn [foldl mbind option_bind].
  { exists s. split_and!; try done. by intros p ?%elem_of_nil. }
  destruct (indexFile_routed w (length rels + n) s rel) as (s1 & -> & Hr); [done|]. cbn [mbind option_bind].
  set (s2 := set_progress s1 _ _).
  assert (routed w (length rels + n) s rel s2) as Hr2.
  { destruct Hr as (Hok & Hrest). split; [by apply (store_ok_eq _ s1)|done]. }
  destruct (IH s2 (proj1 Hr2)) as (s' & -> & Hok & Hcfg & Hroot & Htr & Hoth).
  destruct Hr2 as (Hok2 & He2 & Hs2 & Hc2 & Hrt2) eqn:Heq. clear Heq.
  assert (routed w (length rels + n) s rel s2) as Hr2' by done.
  exists s'. split_and!; [done..|congruence|congruence| |].
  - intros p Hp. destruct (decide (p ∈ rels)) as [Hin|Hnin]; [by apply Htr|].
    apply elem_of_cons in Hp as [->|]; [|done]. destruct (Hoth rel Hnin) as [H1 H2].
    apply (tracked_eq w s2); [done..|]. by eapply routed_tracked.
  - intros p [Hne Hnin]%not_elem_of_cons. destruct (Hoth p Hnin) as [-> ->].
    by apply (routed_other w (length rels + n) s rel).
Qed.

(** ** The first scan *)

Definition new_store (root : bytes) (cfg : Config) (rules : list rule) : RootStore :=
  mkStore root false cfg (bs "mem") (Some (New root)) None rules None ∅ StateIndexing 0 0
    (mkSkipped 0 0 0 0) 0.

Lemma New_entries s root : st_idx s = Some (New root) → entries s = ∅.
Proof.
  intros Hi. apply map_empty. intros p. unfold entries, contents. rewrite Hi. cbn. by rewrite lookup_omap, lookup_empty.
Qed.

(** A store that holds nothing yet. *)
Lemma empty_ok s root n :
  st_idx s = Some (New root) → st_bytes s = 0%Z → (Z.of_nat n ≤ 2 ^ 32)%Z → store_ok n s.
Proof.
  intros Hi Hb Hn. pose proof (New_entries s root Hi) as He. split.
  - exists (New root). split_and!; [done|apply New_ok|]. unfold len. cbn. lia.
  - intros p f. by rewrite He, lookup_empty.
  - by rewrite He, Hb.
Qed.

Lemma new_store_ok root cfg rules n : (Z.of_nat n ≤ 2 ^ 32)%Z → store_ok n (new_store root cfg rules).
Proof. by apply (empty_ok _ root). Qed.
End Spec.

(** ** Witnesses *)

(** Every file is a text of six bytes. *)
Definition text_world : World :=
  let stat := λ _, inl (mkInfo 6 7 ModeRegular) in
  mkWorld (λ _, None) stat stat (λ _, None) (λ _, inl (bs "func f")).

Lemma indexFile_spec_witness :
  let s := new_store (bs "/r") (Default 4) [] in
  store_ok 1 s ∧
  ∃ s', indexFile (H := tree_order) (H0 := no_symbols) text_world s (bs "a") = Some s' ∧
    entries s' !! bs "a" = Some (mkEntry (mkMeta (bs "a") 6 7) (bs "func f") [] false).
Proof.
  intros s. assert (store_ok 1 s) as Hs by (apply new_store_ok; vm_compute; discriminate).
  split; [exact Hs|].
  destruct (indexFile_spec (H := tree_order) (H0 := no_symbols) text_world 0 s (bs "a") Hs) as (s' & Hi & _ & He & _).
  exists s'. split; [exact Hi|]. rewrite He.
  assert (route text_world s (bs "a") = Indexed (mkMeta (bs "a") 6 7) (bs "func f")) as -> by (vm_compute; reflexivity).
  cbn [put_entry]. exact (lookup_insert_eq _ _ _).
Defined.

Lemma indexFile_budget_witness :
  let s := new_store (bs "/r") (Default 4) [] in
  store_ok 1 s ∧ ∃ s', indexFile (H := tree_order) (H0 := no_symbols) text_world s (bs "a") = Some s' ∧
    (sum_sizes (entries s') ≤ 256 * 2 ^ 20)%Z.
Proof.
  intros s. assert (store_ok 1 s) as Hs by (apply new_store_ok; vm_compute; discriminate).
  split; [exact Hs|].
  destruct (indexFile_routed (H := tree_order) (H0 := no_symbols) text_world 0 s (bs "a") Hs)
    as (s' & Hi & _ & _ & _ & Hc & _).
  exists s'. split; [exact Hi|].
  assert (MaxIndexMB (st_cfg s') = 256%Z) as <- by (rewrite Hc; reflexivity).
  assert (entries s = ∅) as He by (apply map_empty; intros p; unfold entries, contents; cbn; by rewrite lookup_omap, lookup_empty).
  apply (indexFile_budget (H := tree_order) (H0 := no_symbols) text_world 0 s s' (bs "a") Hs); [| | | |exact Hi].
  - cbn. lia.
  - intros p f. rewrite He. by rewrite lookup_empty.
  - intros p fi [= <-]. cbn. lia.
  - rewrite He. unfold sum_sizes. rewrite map_fold_empty. cbn. lia.
Defined.
