(* ===== verification/StoreSync.v ===== *)
(** * The store and the disk: scans, changes, persistence

    [listFiles] finds every regular file that is not excluded; a scan, a reconcile and
    the handling of a change leave the store in agreement with the disk; a saved index
    loads back. *)

From S2P Require Import Prelude GoBytes Trigram Text GoPath Ignore Walk Conf Symbol.
From S2P Require Import Index IndexSearch Codec Shard Engine Store StoreSpec.

(** ** Listing *)

Definition no_skip : bytes → bool → FileInfo → fn_result := λ _ _ _, Continue.

(** Directories hold no entry with an empty name. *)
Definition names_ok (w : World) : Prop :=
  ∀ dir es name l, ReadDir w dir = Some es → (name, l) ∈ es → name ≠ [].

Lemma child_not_nil dir name : name ≠ [] → child dir name ≠ [].
Proof. intros Hn. unfold child. case_bool_decide; [done|]. by destruct dir. Qed.

Lemma child_below dir name : dir ≠ [] → child dir name = dir ++ slash :: name.
Proof. intros Hd. unfold child. by rewrite bool_decide_eq_false_2. Qed.

(** What is visited below a directory lies below it. *)
Lemma visited_path w fn dir v :
  names_ok w → visited w fn dir v → dir ≠ [] → ∃ rest, v.1.1 = dir ++ slash :: rest.
Proof.
  intros Hn Hv. induction Hv as [dir es name fi He Hin|dir es name fi He Hin|dir es name fi v He Hin _ _ _ Hv IH];
    intros Hd; cbn; rewrite ?child_below by done; [by eexists..|].
  destruct IH as [rest ->]; [by eapply child_not_nil, Hn|].
  rewrite child_below by done. exists (name ++ slash :: rest). by rewrite <-app_assoc.
Qed.

(** The callback of the store prunes nothing that is not excluded itself. *)
Lemma ignored_below s dir rest isDir :
  ignored s dir true = true → ignored s (dir ++ slash :: rest) isDir = true.
Proof.
  unfold ignored. rewrite !orb_true_iff. intros [Hi|Hi]; [left; by apply Ignored_below|right].
  destruct (st_git s); [by apply GitIgnored_below|done].
Qed.

Lemma skip_ignored_fails s : never_fails (skip_ignored s).
Proof. intros p d fi. unfold skip_ignored. by destruct (_ && _). Qed.

Lemma visited_unpruned w s dir v :
  names_ok w → visited w no_skip dir v → ignored s v.1.1 false = false → visited w (skip_ignored s) dir v.
Proof.
  intros Hn Hv. induction Hv as [dir es name fi ????|dir es name fi ????|dir es name fi v He Hin Hl Hd _ Hv IH];
    intros Hi; [by eapply visited_dir|by eapply visited_file|].
  eapply visited_below; [done..| |by apply IH].
  unfold skip_ignored. cbn. destruct (ignored s (child dir name) true) eqn:E; [|done].
  destruct (visited_path w no_skip (child dir name) v Hn Hv) as [rest Hr]; [by eapply child_not_nil, Hn|].
  rewrite Hr, ignored_below in Hi; done.
Qed.

Lemma visited_pruned w s dir v : visited w (skip_ignored s) dir v → visited w no_skip dir v.
Proof. induction 1; [by eapply visited_dir|by eapply visited_file|by eapply visited_below]. Qed.

(** Without following links, [listFiles] lists exactly the regular files reached through
    directories that no exclusion rule matches and that are no barrier cookies, each with its size
    and time: skipping the excluded directories loses no file that is not excluded itself. *)
Theorem listFiles_exact (w : World) (fuel : nat) (s : RootStore) (files : list BuildFile) :
  names_ok w → st_follow s = false → listFiles w fuel s = Some files →
  ∀ p size mtimeNS, mkBF p size mtimeNS ∈ files ↔
    (∃ fi, visited w no_skip [] (p, false, fi) ∧ size = fi_Size fi ∧ mtimeNS = fi_MtimeNS fi) ∧
    ignored s p false = false ∧ isCookie p = false.
Proof.
  intros Hn Hf. unfold listFiles. rewrite Hf. destruct (Walk _ _ _ _ _) as [vs|] eqn:Ew; [|done].
  intros [= <-] p size mtimeNS. pose proof (Walk_visits _ _ _ _ _ (skip_ignored_fails s) Ew) as Hv.
  rewrite list_elem_of_omap. split.
  - intros ([[q d] fi] & Hin%Hv & Hl). unfold list_file in Hl.
    destruct d; [done|]. destruct (ignored s q false) eqn:Ei; [done|].
    destruct (isCookie q) eqn:Ec; [done|]. injection Hl as -> <- <-.
    split; [|done]. exists fi. split; [by eapply visited_pruned|done].
  - intros ((fi & Hvis & -> & ->) & Hi & Hc). exists (p, false, fi). split.
    + apply Hv. by apply visited_unpruned.
    + unfold list_file. by rewrite Hi, Hc.
Qed.

(** A tree for the witnesses: [a.go], [b.log] and [v/c.go]. *)
Definition demo_content (p : bytes) : bytes := if bool_decide (p = bs "b.log") then [x00] else bs "func f".
Definition demo_stat (p : bytes) : FileInfo + fs_error :=
  if bool_decide (p = bs "v") then inl (mkInfo 0 0 ModeDir)
  else if bool_decide (p ∈ [bs "a.go"; bs "b.log"; bs "v/c.go"]) then inl (mkInfo (len (demo_content p)) 7 ModeRegular)
  else inr ErrNotExist.
Definition demo_world : World :=
  mkWorld
    (λ p, if bool_decide (p = []) then Some [(bs "a.go", false); (bs "b.log", false); (bs "v", false)]
          else if bool_decide (p = bs "v") then Some [(bs "c.go", false)] else None)
    demo_stat demo_stat (λ _, None) (λ p, inl (demo_content p)).

Lemma demo_names : names_ok demo_world.
Proof.
  intros dir es name l. cbn. repeat case_bool_decide; intros [= <-] Hin; revert Hin; rewrite ?elem_of_cons;
    intros Hin; intros ->; repeat destruct Hin as [[=]|Hin]; by apply elem_of_nil in Hin.
Qed.

Definition demo_store : RootStore :=
  new_store (bs "/r") (Default 4) [compile (bs "v/")].

Lemma listFiles_exact_witness :
  names_ok demo_world ∧
  listFiles demo_world 3 demo_store = Some [mkBF (bs "a.go") 6 7; mkBF (bs "b.log") 1 7] ∧
  ignored demo_store (bs "a.go") false = false.
Proof.
  assert (listFiles demo_world 3 demo_store = Some [mkBF (bs "a.go") 6 7; mkBF (bs "b.log") 1 7]) as Hl
    by (vm_compute; reflexivity).
  split; [exact demo_names|]. split; [exact Hl|].
  apply (listFiles_exact demo_world 3 demo_store _ demo_names eq_refl Hl (bs "a.go") 6 7). by left.
Defined.

(** ** Scans *)

(** What the store keeps of a path agrees with the disk: it was routed as the disk is now, or an
    older version with the same size and time was kept. *)
Definition agrees `{SymbolExtractor} (w : World) (s : RootStore) (p : bytes) : Prop :=
  tracked w s p ∨
  ∃ fi, Walk.Stat w p = inl fi ∧
    ((∃ f, entries s !! p = Some f ∧ Size (e_meta f) = fi_Size fi ∧ MtimeNS (e_meta f) = fi_MtimeNS fi) ∨
     st_stream s !! p = Some (mkStream (fi_Size fi) (fi_MtimeNS fi))).

Section Sync.
Context `{MapOrder} `{SymbolExtractor}.

Lemma fullScan_spec (w : World) (fuel : nat) (idx : gmap bytes bytes) (m : option Manifest) s files :
  store_ok (length files) s → entries s = ∅ → st_stream s = ∅ → listFiles w fuel s = Some files →
  bool_decide (Conf.Engine (st_cfg s) = bs "auto") && source_too_big s files = false →
  ∃ s', fullScan w fuel idx m s = Some s' ∧ store_ok 0 s' ∧
    (∀ p, p ∈ map Rel files → tracked w s' p) ∧
    (∀ p, p ∉ map Rel files → entries s' !! p = None ∧ st_stream s' !! p = None).
Proof.
  intros Hs He Hst Hl Hbig. unfold fullScan. rewrite Hl. cbn [mbind option_bind].
  set (s1 := set_progress s (st_indexed s) (len files)).
  change (source_too_big s1 files) with (source_too_big s files).
  change (st_cfg s1) with (st_cfg s). rewrite Hbig.
  assert (store_ok (length (map Rel files) + 0) s1) as Hs1.
  { apply (store_ok_eq _ s); [done..|]. by rewrite length_map, Nat.add_0_r. }
  destruct (indexParallel_spec w 0 s1 (map Rel files) Hs1) as (s' & -> & Hok & _ & _ & Htr & Hoth).
  exists s'. split_and!; [done..|]. intros p Hp. destruct (Hoth p Hp) as [-> ->].
  change (entries s1) with (entries s). change (st_stream s1) with (st_stream s).
  by rewrite He, Hst, !lookup_empty.
Qed.

(** A first scan with the in-memory engine leaves every listed file as the disk has it (indexed,
    streamed, or nowhere when it cannot be read) and nothing else in the store. *)
Theorem fullScan_tracks (w : World) (fuel : nat) (idx : gmap bytes bytes) (m : option Manifest)
    (root : bytes) (c : Config) (rules : list rule) (files : list BuildFile) :
  let s := new_store root c rules in
  listFiles w fuel s = Some files → (len files ≤ 2 ^ 32)%Z →
  bool_decide (Conf.Engine c = bs "auto") && source_too_big s files = false →
  ∃ s', fullScan w fuel idx m s = Some s' ∧ store_ok 0 s' ∧
    (∀ p, p ∈ map Rel files → tracked w s' p) ∧
    (∀ p, p ∉ map Rel files → entries s' !! p = None ∧ st_stream s' !! p = None).
Proof.
  intros s Hl Hlen Hbig. apply fullScan_spec; [|by apply (New_entries _ root)|done..]. by apply new_store_ok.
Qed.

(** The test of [reconcile] on the abstract state. *)
Definition same_stat (s : RootStore) (f : BuildFile) : bool :=
  match entries s !! Rel f with
  | Some e => bool_decide (bf_Size f = Size (e_meta e)) && bool_decide (bf_MtimeNS f = MtimeNS (e_meta e))
  | None => false
  end ||
  match st_stream s !! Rel f with
  | Some e => bool_decide (bf_Size f = se_size e) && bool_decide (bf_MtimeNS f = se_mtimeNS e)
  | None => false
  end.

Lemma find_stale_spec n s files :
  store_ok n s →
  ∃ s', find_stale s files = Some (s', map Rel (filter (λ f, same_stat s f = false) files)) ∧
    store_ok n s' ∧ entries s' = entries s ∧ st_stream s' = st_stream s ∧ st_cfg s' = st_cfg s ∧
    st_root s' = st_root s.
Proof.
  revert s. induction files as [|f files IH]; intros s Hs; cbn [find_stale]; [by exists s|].
  destruct (so_idx _ _ Hs) as (ix & Hix & Hok & _).
  assert (unchanged s ix f = Some (same_stat s f)) as Hu.
  { unfold unchanged, same_stat, entries. rewrite Hix, Meta_contents by done. cbn.
    by destruct (contents ix !! Rel f). }
  rewrite Hix. cbn [mbind option_bind]. rewrite Hu, filter_cons. cbn [mbind option_bind].
  destruct (same_stat s f) eqn:E.
  - rewrite decide_False by done. set (s1 := set_progress s _ _).
    destruct (IH s1) as (s' & Hf & Hrest); [by apply (store_ok_eq n s)|]. by exists s'.
  - rewrite decide_True by done. destruct (IH s Hs) as (s' & -> & Hrest). by exists s'.
Qed.

Lemma remove_missing_spec (ix : Index) (onDisk : gset bytes) :
  index_ok ix →
  ∃ ix', remove_missing ix onDisk = Some ix' ∧ index_ok ix' ∧ length (files ix') ≤ length (files ix) ∧
    ∀ p, contents ix' !! p = if decide (p ∈ onDisk) then contents ix !! p else None.
Proof.
  intros Hok. unfold remove_missing.
  assert (∀ (ps : list bytes) (ix0 : Index), index_ok ix0 → ∃ ix',
    foldl (λ ix p, ix ← ix; if bool_decide (p ∈ onDisk) then Some ix else Remove ix p) (Some ix0) ps = Some ix' ∧
    index_ok ix' ∧ length (files ix') ≤ length (files ix0) ∧
    ∀ p, contents ix' !! p = if decide (p ∈ ps ∧ p ∉ onDisk) then None else contents ix0 !! p) as Hfold.
  { induction ps as [|q ps IH]; intros ix0 Hok0; cbn [foldl mbind option_bind].
    { exists ix0. split_and!; done. }
    case_bool_decide as Hq.
    - destruct (IH ix0 Hok0) as (ix' & -> & ? & ? & Hc). exists ix'. split_and!; try done. intros p. rewrite Hc.
      repeat destruct (decide _); set_solver.
    - destruct (Remove_spec ix0 q Hok0) as (ix1 & -> & Hok1 & Hc1 & ?).
      destruct (IH ix1 Hok1) as (ix' & -> & ? & ? & Hc). exists ix'. split_and!; try done; [lia|].
      intros p. rewrite Hc, Hc1. destruct (decide (p = q)) as [->|Hne].
      + rewrite lookup_delete_eq, (decide_True (P := q ∈ q :: ps ∧ q ∉ onDisk)) by set_solver.
        by destruct (decide _).
      + rewrite lookup_delete_ne by done. repeat destruct (decide _); set_solver. }
  destruct (Hfold (Paths ix) ix Hok) as (ix' & -> & ? & ? & Hc). exists ix'. split_and!; try done.
  intros p. rewrite Hc. destruct (decide (p ∈ onDisk)); [by rewrite decide_False by tauto|].
  destruct (decide (p ∈ Paths ix ∧ p ∉ onDisk)) as [|Hn]; [done|].
  apply byPath_None; [done|]. destruct (byPath ix !! p) as [id|] eqn:E; [|done].
  exfalso. apply Hn. split; [|done]. apply list_elem_of_fmap. exists (p, id). split; [done|]. by apply elem_of_range.
Qed.

(** [reconcile] against the abstract state. *)
Lemma reconcile_spec (w : World) (fuel : nat) (idx : gmap bytes bytes) (m : option Manifest)
    (s : RootStore) (files : list BuildFile) :
  store_ok (length files) s → listFiles w fuel s = Some files →
  (∀ f, f ∈ files → Walk.Stat w (Rel f) = inl (mkInfo (bf_Size f) (bf_MtimeNS f) ModeRegular)) →
  bool_decide (Conf.Engine (st_cfg s) = bs "auto") && bool_decide (st_engine s = bs "mem")
    && source_too_big s files = false →
  ∃ s', reconcile w fuel idx m s = Some s' ∧
    (∀ p, p ∈ map Rel files → agrees w s' p) ∧
    (∀ p, p ∉ map Rel files → entries s' !! p = None ∧ st_stream s' !! p = None).
Proof.
  intros Hs Hl Hstat Hbig. unfold reconcile. rewrite Hl. cbn [mbind option_bind].
  set (s0 := set_progress s _ _).
  change (source_too_big s0 files) with (source_too_big s files).
  change (st_cfg s0) with (st_cfg s). change (st_engine s0) with (st_engine s). rewrite Hbig.
  destruct (find_stale_spec (length files) s0 files) as (s1 & -> & Hs1 & He1 & Hst1 & _);
    [by apply (store_ok_eq _ s)|]. cbn [mbind option_bind].
  set (stale := map Rel (filter (λ f, same_stat s0 f = false) files)).
  destruct (indexParallel_spec w 0 s1 stale) as (s2 & -> & Hs2 & _ & _ & Htr & Hoth).
  { apply (store_ok_le (length files)); [|done]. unfold stale. rewrite length_map.
    pose proof (length_filter (λ f, same_stat s0 f = false) files). lia. }
  cbn [mbind option_bind]. set (onDisk := list_to_set (map Rel files) : gset bytes).
  destruct (so_idx _ _ Hs2) as (ix & Hix & Hok & _).
  change (st_idx (streamRetain s2 onDisk)) with (st_idx s2). rewrite Hix. cbn [mbind option_bind].
  destruct (remove_missing_spec ix onDisk Hok) as (ix' & -> & Hok' & _ & Hc). cbn [mbind option_bind].
  eexists. split; [done|].
  assert (∀ p, p ∈ onDisk ↔ p ∈ map Rel files) as Hdisk by (intros; apply elem_of_list_to_set).
  assert (entries s2 = contents ix) as He2 by (unfold entries; by rewrite Hix).
  set (s' := set_idx _ _).
  assert (∀ p, entries s' !! p = if decide (p ∈ onDisk) then entries s2 !! p else None) as He'
    by (intros p; unfold entries at 1; cbn; by rewrite Hc, He2).
  assert (∀ p, st_stream s' !! p = if decide (p ∈ onDisk) then st_stream s2 !! p else None) as Hs'.
  { intros p. cbn. destruct (decide (p ∈ onDisk)) as [Hin|Hnin].
    - destruct (st_stream s2 !! p) as [e|] eqn:E; [by apply map_lookup_filter_Some|].
      apply map_lookup_filter_None. by left.
    - apply map_lookup_filter_None. right. by intros e _ Hx. }
  split; intros p Hp.
  - specialize (He' p). specialize (Hs' p). rewrite decide_True in He' by by apply Hdisk.
    rewrite decide_True in Hs' by by apply Hdisk.
    destruct (decide (p ∈ stale)) as [Hin|Hnin].
    { left. apply (tracked_eq w s2); [done..|]. by apply Htr. }
    right. apply list_elem_of_fmap in Hp as (f & -> & Hf). specialize (Hstat _ Hf).
    eexists. split; [done|]. destruct (Hoth _ Hnin) as [Ho1 Ho2].
    assert (same_stat s0 f = true) as Hsame.
    { destruct (same_stat s0 f) eqn:E; [done|]. exfalso. apply Hnin. apply list_elem_of_fmap.
      exists f. split; [done|]. by apply list_elem_of_filter. }
    rewrite He', Hs', Ho1, Ho2, He1, Hst1. unfold same_stat in Hsame. apply orb_true_iff in Hsame as [Hm|Hm].
    + left. destruct (entries s0 !! Rel f) as [e|]; [|done]. exists e.
      apply andb_prop in Hm as [Hm1%bool_decide_eq_true Hm2%bool_decide_eq_true]. done.
    + right. destruct (st_stream s0 !! Rel f) as [[sz mt]|]; [|done].
      apply andb_prop in Hm as [Hm1%bool_decide_eq_true Hm2%bool_decide_eq_true]. cbn in *. congruence.
  - specialize (He' p). specialize (Hs' p). rewrite decide_False in He' by by rewrite Hdisk.
    by rewrite decide_False in Hs' by by rewrite Hdisk.
Qed.
(** C25. When the disk does not change meanwhile and no switch of engine is due, a reconcile makes
    the store agree with the disk: every listed file is routed afresh unless its size and time
    are those on record, and what is no longer listed is in neither set. *)
Theorem reconcile_agrees (w : World) (fuel : nat) (idx : gmap bytes bytes) (m : option Manifest)
    (s : RootStore) (files : list BuildFile) :
  store_ok (length files) s → listFiles w fuel s = Some files →
  (∀ f, f ∈ files → Walk.Stat w (Rel f) = inl (mkInfo (bf_Size f) (bf_MtimeNS f) ModeRegular)) →
  bool_decide (Conf.Engine (st_cfg s) = bs "auto") && bool_decide (st_engine s = bs "mem")
    && source_too_big s files = false →
  ∃ s', reconcile w fuel idx m s = Some s' ∧
    (∀ p, p ∈ map Rel files → agrees w s' p) ∧
    (∀ p, p ∉ map Rel files → entries s' !! p = None ∧ st_stream s' !! p = None).
Proof. apply reconcile_spec. Qed.
End Sync.

Lemma fullScan_tracks_witness :
  let s := new_store (bs "/r") (Default 4) [compile (bs "v/")] in
  listFiles demo_world 3 s = Some [mkBF (bs "a.go") 6 7; mkBF (bs "b.log") 1 7] ∧
  ∃ s', fullScan (H := tree_order) (H0 := no_symbols) demo_world 3 ∅ None s = Some s' ∧
    tracked (H0 := no_symbols) demo_world s' (bs "a.go").
Proof.
  intros s. assert (listFiles demo_world 3 s = Some [mkBF (bs "a.go") 6 7; mkBF (bs "b.log") 1 7]) as Hl
    by (vm_compute; reflexivity).
  split; [exact Hl|].
  destruct (fullScan_tracks (H := tree_order) (H0 := no_symbols) demo_world 3 ∅ None (bs "/r") (Default 4)
    [compile (bs "v/")] _ Hl) as (s' & Hs' & _ & Htr & _).
  - vm_compute. discriminate.
  - vm_compute. reflexivity.
  - exists s'. split; [exact Hs'|]. apply Htr. by left.
Defined.

Lemma reconcile_agrees_witness :
  let s := new_store (bs "/r") (Default 4) [compile (bs "v/")] in
  store_ok 2 s ∧
  ∃ s', reconcile (H := tree_order) (H0 := no_symbols) demo_world 3 ∅ None s = Some s' ∧
    agrees (H := no_symbols) demo_world s' (bs "b.log").
Proof.
  intros s. assert (store_ok 2 s) as Hs by (apply new_store_ok; vm_compute; discriminate).
  split; [exact Hs|].
  assert (listFiles demo_world 3 s = Some [mkBF (bs "a.go") 6 7; mkBF (bs "b.log") 1 7]) as Hl
    by (vm_compute; reflexivity).
  destruct (reconcile_agrees (H := tree_order) (H0 := no_symbols) demo_world 3 ∅ None s
    [mkBF (bs "a.go") 6 7; mkBF (bs "b.log") 1 7] Hs Hl)
    as (s' & Hr & Ha & _).
  - intros f Hf. apply elem_of_cons in Hf as [->|Hf]; [vm_compute; reflexivity|].
    apply elem_of_cons in Hf as [->|Hf]; [vm_compute; reflexivity|]. by apply elem_of_nil in Hf.
  - vm_compute. reflexivity.
  - exists s'. split; [exact Hr|]. apply Ha. right. by left.
Defined.

(** ** Changes *)

Section Changes.
Context `{MapOrder} `{SymbolExtractor}.

Lemma indexFiles_spec (w : World) (n : nat) (s : RootStore) (rels : list bytes) :
  store_ok (length rels + n) s →
  ∃ s', foldl (λ s sub, s ← s; indexFile w s sub) (Some s) rels = Some s' ∧ store_ok n s' ∧
    (∀ p, p ∈ rels → tracked w s' p) ∧
    (∀ p, p ∉ rels → entries s' !! p = entries s !! p ∧ st_stream s' !! p = st_stream s !! p).
Proof.
  revert s. induction rels as [|rel rels IH]; intros s Hs; cbn [foldl mbind option_bind].
  { exists s. split_and!; try done. by intros p ?%elem_of_nil. }
  destruct (indexFile_routed w (length rels + n) s rel) as (s1 & -> & Hr); [done|].
  destruct (IH s1 (proj1 Hr)) as (s' & -> & Hok & Htr & Hoth).
  exists s'. split_and!; [done..| |].
  - intros p Hp. destruct (decide (p ∈ rels)) as [Hin|Hnin]; [by apply Htr|].
    apply elem_of_cons in Hp as [->|]; [|done]. destruct (Hoth rel Hnin) as [H1 H2].
    apply (tracked_eq w s1); [done..|]. by eapply routed_tracked.
  - intros p [Hne Hnin]%not_elem_of_cons. destruct (Hoth p Hnin) as [-> ->].
    by apply (routed_other w (length rels + n) s rel).
Qed.

(** C27. A change reported for a path that is no cookie and not the rule file, with the in-memory
    engine: when the path is gone, nothing at it or below it is left in the index or the manifest
    and the rest is as before; when it is a directory, every file listed under it is as the disk
    has it; when it is a regular file, it is; excluded paths and other kinds change nothing. *)
Theorem applyChange_mem (w : World) (fuel n : nat) (s : RootStore) (rel : bytes) :
  store_ok (S n) s → st_disk s = None → isCookie rel = false → rel ≠ bs "." → rel ≠ ControlFile →
  match Walk.Lstat w rel with
  | inr _ =>
      ∃ s', applyChange w fuel s rel = Some (s', false) ∧
        if ignored s rel true && ignored s rel false then s' = s
        else entries s' = filter (λ pf, under_dir rel pf.1 = false) (entries s) ∧
             st_stream s' = filter (λ pe, under_dir rel pe.1 = false) (st_stream s)
  | inl fi =>
      if is_dir fi then
        ∀ subs, listUnder w fuel s rel = Some subs → length subs ≤ n →
          ∃ s', applyChange w fuel s rel = Some (s', false) ∧
            if ignored s rel true then s' = s
            else (∀ p, p ∈ subs → tracked w s' p) ∧
                 (∀ p, p ∉ subs → entries s' !! p = entries s !! p ∧ st_stream s' !! p = st_stream s !! p)
      else
        ∃ s', applyChange w fuel s rel = Some (s', false) ∧
          if negb (is_regular fi) || ignored s rel false then s' = s else tracked w s' rel
  end.
Proof.
  intros Hs Hd Hc Hdot Hctl. unfold applyChange. rewrite Hc, Hd.
  rewrite (bool_decide_eq_false_2 (_ ∨ _)) by (by intros [|]).
  destruct (Walk.Lstat w rel) as [fi|err].
  - destruct (is_dir fi).
    + intros subs Hl Hn. destruct (ignored s rel true); [by eexists|]. rewrite Hl. cbn [mbind option_bind].
      destruct (indexFiles_spec w 0 s subs) as (s' & -> & _ & Htr & Hoth); [apply (store_ok_le (S n)); [lia|done]|].
      by exists s'.
    + destruct (is_regular fi); [|by exists s]. destruct (ignored s rel false); [by exists s|].
      destruct (indexFile_routed w n s rel Hs) as (s' & -> & Hr). exists s'. split; [done|]. by eapply routed_tracked.
  - destruct (ignored s rel true && ignored s rel false); [by exists s|].
    destruct (so_idx _ _ Hs) as (ix & Hix & Hok & _). rewrite Hix. cbn [mbind option_bind].
    destruct (Remove_spec ix rel Hok) as (ix1 & -> & Hok1 & Hc1 & _). cbn [mbind option_bind].
    destruct (RemovePrefix_spec ix1 rel Hok1) as (ix2 & -> & _ & Hc2 & _). cbn [mbind option_bind].
    eexists. split; [done|].
    assert (∀ {A} (m : gmap bytes A), filter (λ pf : bytes * A, under_dir rel pf.1 = false) (delete rel m) =
      filter (λ pf : bytes * A, under_dir rel pf.1 = false) m) as Hdel.
    { intros A m. rewrite map_filter_delete. apply delete_id. apply map_lookup_filter_None. right.
      intros x _. cbn. rewrite (proj2 (under_dir_spec rel rel)); [done|by left]. }
    split; [|by rewrite <-(Hdel _ (st_stream s))].
    unfold entries. cbn. by rewrite Hc2, Hc1, Hix, Hdel.
Qed.
End Changes.

Lemma applyChange_mem_witness :
  let s := new_store (bs "/r") (Default 4) [compile (bs "v/")] in
  store_ok 1 s ∧
  ∃ s', applyChange (H := tree_order) (H0 := no_symbols) demo_world 3 s (bs "a.go") = Some (s', false) ∧
    tracked (H0 := no_symbols) demo_world s' (bs "a.go").
Proof.
  intros s. assert (store_ok 1 s) as Hs by (apply new_store_ok; vm_compute; discriminate).
  split; [exact Hs|].
  exact (applyChange_mem (H := tree_order) (H0 := no_symbols) demo_world 3 0 s (bs "a.go") Hs eq_refl eq_refl
    ltac:(discriminate) ltac:(discriminate)).
Defined.

(** ** Persistence *)

Section Persist.
Context `{MapOrder} `{SymbolExtractor}.

Definition entry_data (f : fileEntry) : FileMeta * bytes * list Def := (e_meta f, e_content f, e_defs f).

Definition insert_entry (m : gmap bytes fileEntry) (f : fileEntry) : gmap bytes fileEntry :=
  <[Path (e_meta f) := mkEntry (e_meta f) (e_content f) (e_defs f) false]> m.

Lemma load_fold (fs : list fileEntry) (ix : Index) :
  index_ok ix → (len (files ix) + len fs ≤ 2 ^ 32)%Z →
  ∃ ix', foldl (λ ix '(meta, content, defs), ix ← ix; AddWithKeys ix meta content (TrigramKeys content) defs)
           (Some ix) (map entry_data fs) = Some ix' ∧ index_ok ix' ∧ contents ix' = foldl insert_entry (contents ix) fs ∧
         (len (files ix') ≤ len (files ix) + len fs)%Z.
Proof.
  revert ix. induction fs as [|f fs IH]; intros ix Hok Hl; cbn [map foldl].
  { exists ix. split_and!; [done..|]. unfold len. cbn. lia. }
  assert (len (f :: fs) = len fs + 1)%Z as Hlen by (unfold len; cbn; lia). change (entry_data f) with (e_meta f, e_content f, e_defs f).
  cbn [mbind option_bind].
  assert (len (files ix) < 2 ^ 32)%Z as Hl1 by (unfold len in *; lia).
  destruct (AddWithKeys_spec ix (e_meta f) (e_content f) (TrigramKeys (e_content f)) (e_defs f) Hok Hl1)
    as (ix1 & -> & Hok1 & Hc1 & Hl2); [apply TrigramKeys_NoDup|intros; apply TrigramKeys_spec|].
  destruct (IH ix1 Hok1) as (ix' & Hf & Hok' & Hc' & Hl'); [unfold len in *; lia|].
  exists ix'. split_and!; [done..| |unfold len in *; lia]. by rewrite Hc', Hc1.
Qed.

Lemma live_entry f : e_dead f = false → mkEntry (e_meta f) (e_content f) (e_defs f) false = f.
Proof. destruct f; cbn. by intros ->. Qed.

Lemma insert_entries (fs : list fileEntry) :
  Forall (λ f, e_dead f = false) fs → NoDup (map (λ f, Path (e_meta f)) fs) →
  (∀ p f, foldl insert_entry ∅ fs !! p = Some f ↔ f ∈ fs ∧ Path (e_meta f) = p) ∧
  sum_sizes (foldl insert_entry ∅ fs) = foldl (λ n f, (n + Size (e_meta f))%Z) 0%Z fs ∧
  size (foldl insert_entry ∅ fs) = length fs.
Proof.
  induction fs as [|g fs IH] using rev_ind; intros Hd Hn.
  { split; [|by split; [|apply map_size_empty]]. intros p f. cbn. rewrite lookup_empty. split; [done|]. by intros [?%elem_of_nil _]. }
  apply Forall_app in Hd as [Hd Hg]. apply (Forall_singleton _ g) in Hg. rewrite map_app in Hn.
  apply NoDup_app in Hn as (Hn & Hfresh & _). destruct (IH Hd Hn) as (Hl & Hs & Hz).
  rewrite !foldl_app. cbn [foldl]. unfold insert_entry at 1 3 5.
  rewrite !(live_entry g Hg).
  assert (foldl insert_entry ∅ fs !! Path (e_meta g) = None) as Hnone.
  { destruct (_ !! _) as [f|] eqn:E; [|done]. apply Hl in E as [Hin Hp].
    exfalso. apply (Hfresh (Path (e_meta g))); [rewrite <-Hp; apply list_elem_of_fmap; by exists f|by left]. }
  split_and!.
  - intros p f. rewrite elem_of_app, list_elem_of_singleton. destruct (decide (p = Path (e_meta g))) as [->|Hne].
    + rewrite lookup_insert_eq. split; [intros [= <-]; auto|]. intros [[Hin| ->] Hp]; [|done].
      assert (foldl insert_entry ∅ fs !! Path (e_meta g) = Some f) by (by apply Hl). congruence.
    + rewrite lookup_insert_ne by done. rewrite Hl. naive_solver.
  - rewrite sum_insert by done. lia.
  - rewrite map_size_insert_None, length_app by done. simpl. lia.
Qed.

(** A saved store loads back, with room for [k] more updates when its live files leave it. *)
Lemma save_load_spec (n k : nat) (s : RootStore) :
  store_ok n s → (Z.of_nat (size (entries s) + k) ≤ 2 ^ 32)%Z →
  ∃ p, save s = Some p ∧
    ∀ s0, st_root s0 = st_root s → st_stream s0 = ∅ →
      ∃ s', loadPersisted s0 (Some p) = Some (Some s') ∧ store_ok k s' ∧
        entries s' = entries s ∧ st_bytes s' = st_bytes s ∧ st_stream s' = ∅ ∧
        st_cfg s' = st_cfg s0 ∧ st_engine s' = st_engine s0 ∧ st_ign s' = st_ign s0 ∧ st_git s' = st_git s0 ∧
        st_follow s' = st_follow s0 ∧ st_disk s' = st_disk s0.
Proof.
  intros Hs. destruct (so_idx _ _ Hs) as (ix & Hix & Hok & Hl). unfold save. rewrite Hix. cbn [mbind option_bind].
  eexists. split; [done|]. intros s0 Hr Hst. cbn [loadPersisted p_Version p_Root p_Files].
  rewrite Hr, !(bool_decide_eq_false_2 (_ ≠ _)) by (by intros []). cbn [orb].
  set (fs := filter (λ f, e_dead f = false) (files ix)).
  assert (Snapshot ix = map entry_data fs) as -> by done.
  assert (length fs ≤ length (files ix)) as Hle by apply length_filter.
  assert (contents (New (st_root s)) = ∅) as He0 by (apply map_empty; intros; unfold contents; cbn; by rewrite lookup_omap, lookup_empty).
  destruct (insert_entries fs) as (Hlook & Hsum & Hsz).
  { apply Forall_forall. by intros f [? _]%list_elem_of_filter. }
  { eapply core_paths_NoDup, Hok. }
  assert (contents ix = foldl insert_entry ∅ fs) as Hci.
  { apply map_eq. intros p. apply option_eq. intros f. rewrite Hlook. by rewrite contents_elem. }
  assert (size (entries s) = length fs) as Hes by (unfold entries; by rewrite Hix, <-Hsz, <-Hci).
  destruct (load_fold fs (New (st_root s))) as (ix' & -> & Hok' & Hc & Hl');
    [apply New_ok|unfold len in *; cbn; lia|]. cbn [mbind option_bind].
  assert (contents ix' = contents ix) as Hcc by (by rewrite Hc, He0, Hci).
  eexists. split; [done|]. set (s' := set_bytes _ _).
  assert (entries s' = entries s) as He by (unfold entries; cbn; by rewrite Hix, Hcc).
  assert (st_bytes s' = st_bytes s) as Hb.
  { rewrite (so_bytes _ _ Hs). cbn. f_equal. unfold entries. rewrite Hix. cbn [from_option].
    rewrite Hci, Hsum. clear. generalize 0%Z. induction fs as [|f fs IH]; intros z; cbn; [done|]. apply IH. }
  split_and!; try done. split.
  - exists ix'. split_and!; [done..|]. cbn in Hl'. unfold len in *. cbn in *. lia.
  - intros p f _. cbn. by rewrite Hst.
  - by rewrite Hb, He, (so_bytes _ _ Hs).
Qed.

Lemma store_ok_size n s : store_ok n s → (Z.of_nat (size (entries s)) ≤ 2 ^ 32)%Z.
Proof.
  intros Hs. destruct (so_idx _ _ Hs) as (ix & Hix & Hok & Hl). unfold entries. rewrite Hix. cbn [from_option].
  destruct (insert_entries (filter (λ f, e_dead f = false) (files ix))) as (Hlook & _ & Hsz).
  { apply Forall_forall. by intros f [? _]%list_elem_of_filter. }
  { eapply core_paths_NoDup, Hok. }
  assert (contents ix = foldl insert_entry ∅ (filter (λ f, e_dead f = false) (files ix))) as ->.
  { apply map_eq. intros p. apply option_eq. intros f. rewrite Hlook. by rewrite contents_elem. }
  rewrite Hsz. assert (length (filter (λ f, e_dead f = false) (files ix)) ≤ length (files ix)) by apply length_filter.
  unfold len in *. lia.
Qed.

(** What is saved loads back: for a store of the same root, the index has the same files with
    the same text and definitions, and the byte counter is what it was. *)
Theorem save_load_roundtrip (n : nat) (s : RootStore) :
  store_ok n s →
  ∃ p, save s = Some p ∧
    ∀ s0, st_root s0 = st_root s → st_stream s0 = ∅ →
      ∃ s', loadPersisted s0 (Some p) = Some (Some s') ∧ store_ok 0 s' ∧
        entries s' = entries s ∧ st_bytes s' = st_bytes s.
Proof.
  intros Hs. destruct (save_load_spec n 0 s Hs) as (p & Hp & Hl); [by rewrite Nat.add_0_r; apply (store_ok_size n)|].
  exists p. split; [done|]. intros s0 Hr Hst. destruct (Hl s0 Hr Hst) as (s' & ? & ? & ? & ? & _). by exists s'.
Qed.
End Persist.

Lemma save_load_roundtrip_witness :
  ∃ s p, indexFile (H := tree_order) (H0 := no_symbols) demo_world demo_store (bs "a.go") = Some s ∧ store_ok 0 s ∧
    save s = Some p ∧ is_Some (loadPersisted (H := tree_order) demo_store (Some p)).
Proof.
  assert (store_ok 1 demo_store) as H1 by (apply new_store_ok; vm_compute; discriminate).
  destruct (indexFile_routed (H := tree_order) (H0 := no_symbols) demo_world 0 demo_store (bs "a.go") H1)
    as (s & Hs & Hok & _ & _ & _ & Hroot).
  destruct (save_load_roundtrip (H := tree_order) 0 s Hok) as (p & Hp & Hload).
  exists s, p. split; [exact Hs|]. split; [exact Hok|]. split; [exact Hp|].
  destruct (Hload demo_store) as (s' & -> & _); [by rewrite Hroot|done|by eexists].
Defined.

(** ** What goes wrong *)

(** Removing a file keeps its bytes in the budget: the counter is no longer the size of the index. *)
Theorem removal_leaks_budget :
  ∃ s s' gone,
    indexFile (H := tree_order) (H0 := no_symbols) demo_world demo_store (bs "a.go") = Some s ∧ st_bytes s = 6%Z ∧
    applyChange (H := tree_order) (H0 := no_symbols) gone 3 s (bs "a.go") = Some (s', false) ∧
    entries s' = ∅ ∧ st_bytes s' = 6%Z.
Proof.
  destruct (indexFile (H := tree_order) (H0 := no_symbols) demo_world demo_store (bs "a.go")) as [s|] eqn:E; [|vm_compute in E; discriminate].
  vm_compute in E. injection E as <-.
  eexists _, _, (mkWorld (λ _, None) (λ _, inr ErrNotExist) (λ _, inr ErrNotExist) (λ _, None) (λ _, inr ErrNotExist)).
  split; [reflexivity|]. split; [reflexivity|]. split; [vm_compute; reflexivity|].
  split; [|reflexivity]. apply (bool_decide_unpack _). vm_compute. exact I.
Qed.

(** A store of the disk engine has no index: the save scheduled by any change, and the reconcile
    started by a change of the rule file, dereference nil. *)
Theorem disk_store_panics `{MapOrder} `{SymbolExtractor} (w : World) (fuel : nat) idx m (s : RootStore) :
  st_idx s = None → save s = None ∧ (st_engine s ≠ bs "mem" → reconcile w fuel idx m s = None).
Proof.
  intros Hi. unfold save. rewrite Hi. split; [done|]. intros He. unfold reconcile.
  destruct (listFiles w fuel s) as [files|]; [|done]. cbn [mbind option_bind].
  set (s1 := set_progress s _ _). change (st_engine s1) with (st_engine s).
  rewrite (bool_decide_eq_false_2 (st_engine s = bs "mem")) by done. rewrite andb_false_r. cbn [andb].
  destruct files as [|f files]; cbn [find_stale].
  - cbn [mbind option_bind map]. unfold indexParallel. cbn [foldl mbind option_bind].
    change (st_idx (streamRetain s1 _)) with (st_idx s). by rewrite Hi.
  - change (st_idx s1) with (st_idx s). by rewrite Hi.
Qed.
