(* ===== verification/Watch.v ===== *)
(** * The watcher: internal/watch/watch.go

    One definition per branch of the event loop.  A watcher keeps the changes it has read until
    they are emitted as a batch: when the debounce timer fires, or when it is asked to flush.
    Events and directories are named by their path relative to the root; the channels are lists
    with the capacity of the code.  fsnotify is outside src/: whether a call of its [Add] succeeds
    is an argument of every step that makes one.  [None] is a walk that runs out of fuel. *)

From S2P Require Import Prelude GoBytes Text GoPath Ignore Walk Conf Symbol Index Engine Store StoreSpec StoreSync.

(** [fsnotify.Event]: the name, and whether its operation includes Create. *)
Record event := mkEvent { ev_Name : bytes; ev_Create : bool }.

(** [Batch]; [b_Done] names the channel the consumer closes. *)
Record Batch := mkBatch { b_Paths : list bytes; b_Rescan : bool; b_Done : option nat }.

(** [Watcher] with the variables of [loop]: the watched directories, [pending], [rescan], whether
    the timer is armed, the batch that [emit] waits to send, the two channels, and whether the
    loop runs. *)
Record Watcher := mkWatcher {
  w_dirs : gset bytes;
  w_pending : gmap bytes unit;
  w_rescan : bool;
  w_timer : bool;
  w_sending : option Batch;
  w_cookies : list bytes;
  w_out : list Batch;
  w_running : bool;
}.

(** The capacity of [cookies] and [out]. *)
Definition chan_cap : nat := 16.

Section Watch.
Context `{MapOrder} (follow : bool) (ignore : bytes → bool → bool).

(** The callback of [addRecursive], and the directory it calls [fw.Add] for. *)
Definition register_fn (path : bytes) (isDir : bool) (fi : FileInfo) : fn_result :=
  if negb isDir then Continue else if ignore path true then SkipDir else Continue.
Definition registered (v : visit) : option bytes :=
  let '(path, isDir, _) := v in if isDir && negb (ignore path true) then Some path else None.

(** [addRecursive]: the directories that are watched after it.  [add] says for which [fw.Add]
    succeeds; the error of one for which it fails is discarded, and the walk goes on. *)
Definition addRecursive (add : bytes → bool) (w : World) (fuel : nat) (dir : bytes) : option (gset bytes) :=
  match Walk w follow register_fn fuel dir with
  | Some vs => Some (list_to_set (filter (λ p, add p = true) (dir :: omap registered (vs : list visit))))
  | None => None
  end.

(** [New] *)
Definition NewWatcher (add : bytes → bool) (w : World) (fuel : nat) : option Watcher :=
  dirs ← addRecursive add w fuel [];
  Some (mkWatcher dirs ∅ false false None [] [] true).

(** A cookie is named by the prefix and something more. *)
Definition cookie_event (ev : event) : bool :=
  let base := path_base (ev_Name ev) in
  (length CookiePrefix <? length base) && has_prefix base CookiePrefix.

(** The directories that are watched in addition after an event. *)
Definition new_dirs (add : bytes → bool) (w : World) (fuel : nat) (ev : event) : option (gset bytes) :=
  if ev_Create ev then
    match Walk.Lstat w (ev_Name ev) with
    | inl fi => if is_dir fi && negb (ignore (ev_Name ev) true) then addRecursive add w fuel (ev_Name ev) else Some ∅
    | inr _ => Some ∅
    end
  else Some ∅.

(** The branch of [fw.Events]: the send of a cookie does not block. *)
Definition loop_event (add : bytes → bool) (w : World) (fuel : nat) (ev : event) (wt : Watcher) : option Watcher :=
  if cookie_event ev then
    Some (if ev_Create ev && (length (w_cookies wt) <? chan_cap)
          then mkWatcher (w_dirs wt) (w_pending wt) (w_rescan wt) (w_timer wt) (w_sending wt)
                 (w_cookies wt ++ [path_base (ev_Name ev)]) (w_out wt) (w_running wt)
          else wt)
  else
    dirs ← new_dirs add w fuel ev;
    Some (mkWatcher (w_dirs wt ∪ dirs) (<[ev_Name ev := tt]> (w_pending wt)) (w_rescan wt) true (w_sending wt)
            (w_cookies wt) (w_out wt) (w_running wt)).

(** The branch of [fw.Errors], for [ErrEventOverflow]. *)
Definition loop_overflow (wt : Watcher) : Watcher :=
  mkWatcher (w_dirs wt) (w_pending wt) true true (w_sending wt) (w_cookies wt) (w_out wt) (w_running wt).

(** The batch of [emit], which then waits for room in [out]; [pending], [rescan] and the timer are
    reset after it. *)
Definition emit (pending : gmap bytes unit) (rescan : bool) (done : option nat) : Batch :=
  mkBatch (range pending).*1 rescan done.
Definition loop_emit (done : option nat) (wt : Watcher) : Watcher :=
  mkWatcher (w_dirs wt) ∅ false false (Some (emit (w_pending wt) (w_rescan wt) done)) (w_cookies wt) (w_out wt)
    (w_running wt).

(** The send of [emit]. *)
Definition loop_send (b : Batch) (wt : Watcher) : Watcher :=
  mkWatcher (w_dirs wt) (w_pending wt) (w_rescan wt) (w_timer wt) None (w_cookies wt) (w_out wt ++ [b])
    (w_running wt).

(** [Close] *)
Definition Close (wt : Watcher) : Watcher :=
  mkWatcher (w_dirs wt) (w_pending wt) (w_rescan wt) (w_timer wt) None (w_cookies wt) (w_out wt) false.

(** Receiving from the channels. *)
Definition set_out (wt : Watcher) (out : list Batch) : Watcher :=
  mkWatcher (w_dirs wt) (w_pending wt) (w_rescan wt) (w_timer wt) (w_sending wt) (w_cookies wt) out (w_running wt).
Definition set_cookies (wt : Watcher) (cookies : list bytes) : Watcher :=
  mkWatcher (w_dirs wt) (w_pending wt) (w_rescan wt) (w_timer wt) (w_sending wt) cookies (w_out wt) (w_running wt).
End Watch.

(** ** The consumer: [watchLoop] of internal/daemon/store.go *)

(** What a batch asks of the store. *)
Inductive action := Change (path : bytes) | Rescan.

Definition batch_actions (b : Batch) : list action :=
  if b_Rescan b then [Rescan] else Change <$> b_Paths b.

(** One of them, and the batch: [None] is a panic.  A reconcile that [applyChange] starts on its own
    goroutine is not part of the batch. *)
Definition apply_action `{MapOrder} `{SymbolExtractor} (w : World) (fuel : nat) (idx : gmap bytes bytes)
    (m : option Manifest) (s : RootStore) (a : action) : option RootStore :=
  match a with
  | Change p => '(s, _) ← applyChange w fuel s p; Some s
  | Rescan => reconcile w fuel idx m s
  end.

(** [watchLoop] for a batch: the store after it, and whether a save has been scheduled, which
    [save] then does on its own goroutine. *)
Definition apply_batch `{MapOrder} `{SymbolExtractor} (w : World) (fuel : nat) (idx : gmap bytes bytes)
    (m : option Manifest) (s : RootStore) (b : Batch) : option (RootStore * bool) :=
  s ← foldl (λ s a, s ← s; apply_action w fuel idx m s a) (Some s) (batch_actions b);
  Some (s, negb (bool_decide (b_Paths b = [])) || b_Rescan b).

Lemma applyChange_no_index `{MapOrder} `{SymbolExtractor} w fuel s p s' r d :
  st_disk s = Some d → st_idx s = None → applyChange w fuel s p = Some (s', r) →
  is_Some (st_disk s') ∧ st_idx s' = None.
Proof.
  intros Hd Hi. unfold applyChange. rewrite Hd. destruct (isCookie p); [by intros [= <- _]; rewrite Hd|].
  repeat case_bool_decide; [by intros [= <- _]; cbn; rewrite Hd|by intros [= <- _]; rewrite Hd|].
  destruct (Walk.Lstat w p) as [fi|err].
  - destruct (is_dir fi); [|destruct (is_regular fi); [|by intros [= <- _]; rewrite Hd]].
    + destruct (ignored s p true); [by intros [= <- _]; rewrite Hd|]. intros (subs & _ & [= <- _])%bind_Some. done.
    + destruct (ignored s p false); intros [= <- _]; [by rewrite Hd|done].
  - destruct (_ && _); [by intros [= <- _]; rewrite Hd|]. intros (d' & _ & [= <- _])%bind_Some. done.
Qed.

(** A batch of changes of a disk store leads to a save, which dereferences nil. *)
Theorem disk_batch_panics `{MapOrder} `{SymbolExtractor} w fuel idx m s b s' saves :
  is_Some (st_disk s) → st_idx s = None → b_Rescan b = false → b_Paths b ≠ [] →
  apply_batch w fuel idx m s b = Some (s', saves) → saves = true ∧ save s' = None.
Proof.
  intros Hd Hi Hr Hp. unfold apply_batch, batch_actions. rewrite Hr, bool_decide_eq_false_2 by done.
  intros (s1 & Hs & [= <- <-])%bind_Some. split; [done|].
  enough (st_idx s1 = None) as E by (unfold save; by rewrite E). clear Hr Hp. revert s Hd Hi Hs.
  induction (b_Paths b) as [|p ps IH]; intros s [d Hd] Hi Hs; [by injection Hs as <-|].
  cbn [fmap list_fmap foldl mbind option_bind apply_action] in Hs.
  destruct (applyChange w fuel s p) as [[s2 r]|] eqn:E; cbn [mbind option_bind] in Hs.
  - destruct (applyChange_no_index _ _ _ _ _ _ _ Hd Hi E) as [Hd2 Hi2]. by apply (IH s2).
  - exfalso. clear -Hs. induction ps as [|q ps IHp]; [done|]. by apply IHp.
Qed.

(** ** What is watched *)

(** The directories [addRecursive] calls [fw.Add] for: those at or below one, reached through
    directories that are not ignored, links apart. *)
Inductive watched_dir (w : World) (ignore : bytes → bool → bool) : bytes → bytes → Prop :=
  | watched_self dir : watched_dir w ignore dir dir
  | watched_below dir es name fi d :
      ReadDir w dir = Some es → (name, false) ∈ es → Walk.Lstat w (child dir name) = inl fi →
      is_dir fi = true → ignore (child dir name) true = false → watched_dir w ignore (child dir name) d →
      watched_dir w ignore dir d.

Section Watched.
Context (w : World) (ignore : bytes → bool → bool).

Lemma register_fn_dir p fi : register_fn ignore p true fi = if ignore p true then SkipDir else Continue.
Proof. done. Qed.

Lemma visited_watched (dir : bytes) (v : visit) (p : bytes) :
  visited w (register_fn ignore) dir v → registered ignore v = Some p → watched_dir w ignore dir p.
Proof.
  induction 1 as [dir es name fi Hr Hin Hl Hd|dir es name fi Hr Hin Hl Hd|dir es name fi v Hr Hin Hl Hd Hs Hv IH];
    cbn [registered].
  - destruct (ignore (child dir name) true) eqn:Ei; cbn [negb andb]; [done|]. intros [= <-].
    by eapply watched_below, watched_self.
  - done.
  - intros Hp. rewrite register_fn_dir in Hs. destruct (ignore (child dir name) true) eqn:Ei; [done|].
    eapply watched_below; [done..|by apply IH].
Qed.

Lemma watched_visited (dir p : bytes) :
  watched_dir w ignore dir p → p = dir ∨ ∃ v, visited w (register_fn ignore) dir v ∧ registered ignore v = Some p.
Proof.
  induction 1 as [dir|dir es name fi d Hr Hin Hl Hd Hi _ IH]; [by left|]. right.
  destruct IH as [->|(v & Hv & Hp)].
  - exists (child dir name, true, fi). split; [by eapply visited_dir|]. cbn. by rewrite Hi.
  - exists v. split; [|done]. eapply visited_below; [done..| |done]. by rewrite register_fn_dir, Hi.
Qed.

Lemma addRecursive_spec (add : bytes → bool) (fuel : nat) (dir : bytes) (dirs : gset bytes) :
  addRecursive false ignore add w fuel dir = Some dirs →
  ∀ p : bytes, p ∈ dirs ↔ watched_dir w ignore dir p ∧ add p = true.
Proof.
  unfold addRecursive. destruct (Walk _ _ _ _ _) as [vs|] eqn:Ew; [|done]. intros [= <-] p.
  assert (never_fails (register_fn ignore)) as Hnf.
  { intros q d fi. unfold register_fn. by destruct d, (ignore q true). }
  pose proof (Walk_visits w _ fuel dir vs Hnf Ew) as Hvs.
  rewrite elem_of_list_to_set, list_elem_of_filter, elem_of_cons, list_elem_of_omap, (and_comm (add p = true)).
  f_equiv. split.
  - intros [->|(v & Hv%Hvs & Hp)]; [apply watched_self|by eapply visited_watched].
  - intros [->|(v & Hv & Hp)]%watched_visited; [by left|right]. exists v. by rewrite Hvs.
Qed.

(** The directory of a visited file is watched. *)
Lemma visited_file_watched (fn : bytes → bool → FileInfo → fn_result) (dir p : bytes) (fi : FileInfo) :
  (∀ q fi, ignore q true = true → fn q true fi = SkipDir) →
  visited w fn dir (p, false, fi) →
  ∃ d es name, p = child d name ∧ ReadDir w d = Some es ∧ (name, false) ∈ es ∧ watched_dir w ignore dir d.
Proof.
  intros Hfn Hv. remember (p, false, fi) as v eqn:Ev. revert Ev.
  induction Hv as [| dir es name fi' Hr Hin Hl Hd|dir es name fi' v Hr Hin Hl Hd Hs Hv IH]; intros Ev; [done| |].
  - injection Ev as <- <-. exists dir, es, name. split_and!; [done..|apply watched_self].
  - destruct (IH Ev) as (d & es' & nm & -> & He & Hn & Hw). exists d, es', nm. split_and!; [done..|].
    eapply watched_below; [done..| |done]. destruct (ignore (child dir name) true) eqn:Ei; [|done].
    by rewrite (Hfn _ _ Ei) in Hs.
Qed.
End Watched.

(** C35. The watcher asks for every file a scan of the store lists.  When symbolic links are not
    followed, registering the root calls [fw.Add] for the directory that holds each file that
    [listFiles] lists, since both walks skip exactly the directories that are ignored: the
    directory is watched if and only if that call of [fw.Add] succeeds.  Nothing makes up for one
    that fails, as its error is discarded. *)
Theorem listed_files_watched `{MapOrder} `{SymbolExtractor} (w : World) (fuel : nat) (s : RootStore)
    (files : list BuildFile) (add : bytes → bool) (dirs : gset bytes) (f : BuildFile) :
  st_follow s = false → listFiles w fuel s = Some files →
  addRecursive false (ignored s) add w fuel [] = Some dirs → f ∈ files →
  ∃ dir es name, Rel f = child dir name ∧ ReadDir w dir = Some es ∧ (name, false) ∈ es ∧
    watched_dir w (ignored s) [] dir ∧ (dir ∈ dirs ↔ add dir = true).
Proof.
  intros Hfo Hl Hd Hf. unfold listFiles in Hl. rewrite Hfo in Hl.
  destruct (Walk _ _ _ _ _) as [vs|] eqn:Ew; [|done]. injection Hl as <-.
  apply list_elem_of_omap in Hf as ([[p isDir] fi] & Hv & Hp). unfold list_file in Hp.
  destruct (isDir || ignored s p false || isCookie p) eqn:Eb; [done|]. injection Hp as <-. cbn [Rel].
  apply orb_false_elim in Eb as [[-> _]%orb_false_elim _].
  assert (never_fails (skip_ignored s)) as Hnf.
  { intros q d i. unfold skip_ignored. by destruct (d && ignored s q true). }
  apply (Walk_visits w _ fuel [] vs Hnf Ew) in Hv.
  destruct (visited_file_watched w (ignored s) (skip_ignored s) [] p fi) as (d & es & name & Hc & He & Hn & Hw).
  { intros q fi' Hq. unfold skip_ignored. by rewrite Hq. }
  { exact Hv. }
  exists d, es, name. split_and!; [done..|]. rewrite (addRecursive_spec w (ignored s) add fuel [] dirs Hd).
  split; [by intros []|done].
Qed.

(** The watcher of [demo_world] when the limit of the watches is reached below [v]. *)
Definition no_more (p : bytes) : bool := negb (bool_decide (p = bs "v")).

Lemma listed_files_watched_witness :
  let s := new_store (bs "/r") (Default 4) [compile (bs "*.log")] in
  ∃ files dirs, listFiles demo_world 3 s = Some files ∧ mkBF (bs "v/c.go") 6 7 ∈ files ∧
    addRecursive false (ignored s) no_more demo_world 3 [] = Some dirs ∧
    ∃ dir es name, bs "v/c.go" = child dir name ∧ ReadDir demo_world dir = Some es ∧ (name, false) ∈ es ∧
      (dir ∈ dirs ↔ no_more dir = true).
Proof.
  intros s.
  assert (listFiles demo_world 3 s = Some [mkBF (bs "a.go") 6 7; mkBF (bs "v/c.go") 6 7]) as Ef by (vm_compute; reflexivity).
  assert (match addRecursive false (ignored s) no_more demo_world 3 [] with Some _ => true | None => false end = true) as Hd
    by (vm_compute; reflexivity).
  destruct (addRecursive false (ignored s) no_more demo_world 3 []) as [dirs|] eqn:Ed; [|discriminate Hd].
  exists [mkBF (bs "a.go") 6 7; mkBF (bs "v/c.go") 6 7], dirs.
  assert (mkBF (bs "v/c.go") 6 7 ∈ [mkBF (bs "a.go") 6 7; mkBF (bs "v/c.go") 6 7]) as Hf by (right; by left).
  split_and!; [done|done|done|].
  destruct (@listed_files_watched tree_order no_symbols demo_world 3 s _ no_more dirs (mkBF (bs "v/c.go") 6 7) eq_refl Ef Ed Hf)
    as (dir & es & name & H1 & H2 & H3 & _ & H4). exists dir, es, name. split_and!; [exact H1|exact H2|exact H3|exact H4..].
Defined.

(** A listed file whose directory is not watched: its changes are not reported. *)
Theorem failed_watch_unnoticed :
  let s := new_store (bs "/r") (Default 4) [compile (bs "*.log")] in
  (λ fs, map Rel fs) <$> listFiles demo_world 3 s = Some [bs "a.go"; bs "v/c.go"] ∧
  elements <$> addRecursive false (ignored s) no_more demo_world 3 [] = Some [[]].
Proof. split; vm_compute; reflexivity. Qed.
