(* ===== verification/Barrier.v ===== *)
(** * The watcher, its consumer and the read-after-write barrier

    The event loop of internal/watch/watch.go, [watchLoop] and [Barrier] of
    internal/daemon/store.go run concurrently over the channels of [Watch.v]: [step] lets any of
    them, or the rest of the world, take the next atomic step.  [b_log] records what the consumer has
    applied to the store.  fsnotify reports the events of the root in the order they happened,
    unless it reports an overflow. *)

From stdpp Require Import relations.
From S2P Require Import Prelude GoBytes Text GoPath Ignore Walk Conf Symbol Index Engine Decimal Store Watch.

(** Where [Barrier] is: outside, draining old cookies, waiting for its cookie, asking the loop to
    flush, waiting for the batch with its channel, and returning.  The flag tells whether the
    cookie was seen; [Finished true] is a return after both. *)
Inductive phase :=
  | Outside
  | Draining
  | Waiting (n : nat)
  | Asking (cookie : bool)
  | Flushing (done : nat) (cookie : bool)
  | Finished (ok : bool).

(** The events and overflows not read yet, the watcher, the batch being applied, what has been
    applied, the closed [Done] channels, the counters of cookies and flushes, and the barrier. *)
Record system := mkSys {
  b_queue : list event;
  b_overflows : nat;
  b_watch : Watcher;
  b_batch : option (list action * option nat);
  b_log : list action;
  b_closed : gset nat;
  b_cookieSeq : nat;
  b_flushes : nat;
  b_phase : phase;
}.

Section Barrier.
Context `{MapOrder} (follow : bool) (ignore : bytes → bool → bool) (pid : nat).

(** The name of the cookie of a number. *)
Definition cookie_name (n : nat) : bytes := CookiePrefix ++ dec pid ++ bs "-" ++ dec n.

(** Steps of the loop, which takes a branch only when no batch waits to be sent. *)
Definition at_select (s : system) : Prop := w_running (b_watch s) = true ∧ w_sending (b_watch s) = None.

Definition set_watch (s : system) (wt : Watcher) : system :=
  mkSys (b_queue s) (b_overflows s) wt (b_batch s) (b_log s) (b_closed s) (b_cookieSeq s) (b_flushes s) (b_phase s).
Definition set_phase (s : system) (p : phase) : system :=
  mkSys (b_queue s) (b_overflows s) (b_watch s) (b_batch s) (b_log s) (b_closed s) (b_cookieSeq s) (b_flushes s) p.
Definition set_queue (s : system) (q : list event) : system :=
  mkSys q (b_overflows s) (b_watch s) (b_batch s) (b_log s) (b_closed s) (b_cookieSeq s) (b_flushes s) (b_phase s).
Definition set_overflows (s : system) (n : nat) : system :=
  mkSys (b_queue s) n (b_watch s) (b_batch s) (b_log s) (b_closed s) (b_cookieSeq s) (b_flushes s) (b_phase s).
Definition set_batch (s : system) (b : option (list action * option nat)) (log : list action) (closed : gset nat) : system :=
  mkSys (b_queue s) (b_overflows s) (b_watch s) b log closed (b_cookieSeq s) (b_flushes s) (b_phase s).

(** The steps of the loop and of the consumer: they need nothing from outside. *)
Inductive internal : system → system → Prop :=
  | loop_reads s ev q add w fuel wt :
      at_select s → b_queue s = ev :: q → loop_event follow ignore add w fuel ev (b_watch s) = Some wt →
      internal s (set_watch (set_queue s q) wt)
  | loop_overflows s n :
      at_select s → b_overflows s = S n → internal s (set_watch (set_overflows s n) (loop_overflow (b_watch s)))
  | loop_fires s :
      at_select s → w_timer (b_watch s) = true → internal s (set_watch s (loop_emit None (b_watch s)))
  | loop_sends s b :
      w_running (b_watch s) = true → w_sending (b_watch s) = Some b → length (w_out (b_watch s)) < chan_cap →
      internal s (set_watch s (loop_send b (b_watch s)))
  | consumer_takes s b out :
      b_batch s = None → w_out (b_watch s) = b :: out →
      internal s (set_watch (set_batch s (Some (batch_actions b, b_Done b)) (b_log s) (b_closed s)) (set_out (b_watch s) out))
  | consumer_applies s a acts d :
      b_batch s = Some (a :: acts, d) → internal s (set_batch s (Some (acts, d)) (b_log s ++ [a]) (b_closed s))
  | consumer_finishes s d :
      b_batch s = Some ([], d) →
      internal s (set_batch s None (b_log s) (match d with Some k => {[k]} ∪ b_closed s | None => b_closed s end)).

(** The steps of [Barrier] and of [Flush].  Writing the cookie puts its event at the end of the
    queue; the counter is an [int64].  A flush is a rendezvous with the loop. *)
Inductive barrier_step : system → system → Prop :=
  | barrier_starts s : b_phase s = Outside → barrier_step s (set_phase s Draining)
  | barrier_drains s c cs :
      b_phase s = Draining → w_cookies (b_watch s) = c :: cs →
      barrier_step s (set_watch s (set_cookies (b_watch s) cs))
  | barrier_writes s :
      let n := S (b_cookieSeq s) in
      b_phase s = Draining → w_cookies (b_watch s) = [] → (Z.of_nat n < 2 ^ 63)%Z →
      barrier_step s
        (mkSys (b_queue s ++ [mkEvent (cookie_name n) true]) (b_overflows s) (b_watch s) (b_batch s) (b_log s)
           (b_closed s) n (b_flushes s) (Waiting n))
  | barrier_cannot_write s :
      b_phase s = Draining → w_cookies (b_watch s) = [] → barrier_step s (set_phase s (Asking false))
  | barrier_receives s n c cs :
      b_phase s = Waiting n → w_cookies (b_watch s) = c :: cs →
      barrier_step s
        (set_phase (set_watch s (set_cookies (b_watch s) cs))
           (if bool_decide (c = cookie_name n) then Asking true else Waiting n))
  | barrier_gives_up s n : b_phase s = Waiting n → barrier_step s (set_phase s (Asking false))
  | flush_starts s c :
      at_select s → b_phase s = Asking c →
      barrier_step s
        (mkSys (b_queue s) (b_overflows s) (loop_emit (Some (b_flushes s)) (b_watch s)) (b_batch s) (b_log s)
           (b_closed s) (b_cookieSeq s) (S (b_flushes s)) (Flushing (b_flushes s) c))
  | flush_done s k c : b_phase s = Flushing k c → k ∈ b_closed s → barrier_step s (set_phase s (Finished c))
  | flush_fails s :
      (∃ c, b_phase s = Asking c) ∨ (∃ k c, b_phase s = Flushing k c) → barrier_step s (set_phase s (Finished false))
  | barrier_returns s ok : b_phase s = Finished ok → barrier_step s (set_phase s Outside).

(** What happens outside: a change of the file system is reported, or lost with an overflow; the
    watcher is closed.  Nobody else creates files with the names of the cookies. *)
Inductive world_step : system → system → Prop :=
  | world_changes s ev :
      (ev_Create ev = true → ∀ n, path_base (ev_Name ev) ≠ cookie_name n) →
      world_step s (set_queue s (b_queue s ++ [ev]))
  | world_overflows s : world_step s (set_overflows s (S (b_overflows s)))
  | world_closes s : world_step s (set_watch s (Close (b_watch s))).

Definition step (s s' : system) : Prop := internal s s' ∨ barrier_step s s' ∨ world_step s s'.

(** The system when the watcher has just started. *)
Definition start (wt : Watcher) : system := mkSys [] 0 wt None [] ∅ 0 0 Outside.
End Barrier.

(** ** Where a change is *)

(** The batches between the loop and the consumer. *)
Definition outbox (wt : Watcher) : list Batch :=
  w_out wt ++ match w_sending wt with Some b => [b] | None => [] end.

(** What reading an event leaves alone. *)
Lemma loop_event_frame `{MapOrder} follow ignore add w fuel ev wt wt' :
  loop_event follow ignore add w fuel ev wt = Some wt' →
  outbox wt' = outbox wt ∧ w_running wt' = w_running wt ∧ w_sending wt' = w_sending wt ∧
  ∀ c, c ∈ w_cookies wt' → c ∈ w_cookies wt ∨ (ev_Create ev = true ∧ c = path_base (ev_Name ev)).
Proof.
  unfold loop_event. destruct (cookie_event ev) eqn:Ec.
  - intros [= <-].
    destruct (ev_Create ev) eqn:Eb; cbn [andb]; [destruct (length (w_cookies wt) <? chan_cap)|];
      (split_and!; [done..|]); cbn [w_cookies]; intros c Hc; auto.
    apply elem_of_app in Hc as [|Hc]; [by left|right]. by apply list_elem_of_singleton in Hc.
  - destruct (new_dirs _ _ _ _ _ _) as [dirs|]; [|done]. cbn [mbind option_bind]. intros [= <-].
    split_and!; [done..|by left].
Qed.

Section Tracking.
Context `{MapOrder} (follow : bool) (ignore : bytes → bool → bool) (pid : nat).
(** A change that is reported when [b_log] has length [L]. *)
Context (e : event) (L : nat).
Hypothesis He : cookie_event e = false.

(** An action that looks at the changed path again. *)
Definition hits (a : action) : Prop := a = Change (ev_Name e) ∨ a = Rescan.

Definition in_log (log : list action) : Prop := ∃ a, a ∈ drop L log ∧ hits a.
Definition in_actions (acts : list action) : Prop := ∃ a, a ∈ acts ∧ hits a.
Definition in_batch (b : option (list action * option nat)) : Prop :=
  match b with Some (acts, _) => in_actions acts | None => False end.

Definition in_outbox (wt : Watcher) : Prop := ∃ b, b ∈ outbox wt ∧ in_actions (batch_actions b).
Definition in_pending (wt : Watcher) : Prop := w_rescan wt = true ∨ is_Some (w_pending wt !! ev_Name e).

(** The loop has read the change. *)
Definition taken (s : system) : Prop :=
  in_pending (b_watch s) ∨ in_outbox (b_watch s) ∨ in_batch (b_batch s) ∨ in_log (b_log s).

Lemma in_log_app log a : L ≤ length log → in_log log ∨ hits a → in_log (log ++ [a]).
Proof.
  intros HL Hin. unfold in_log. rewrite drop_app_le by done. destruct Hin as [(x & Hx & Hh)|Hh].
  - exists x. split; [apply elem_of_app; by left|done].
  - exists a. split; [apply elem_of_app; right; by left|done].
Qed.

Lemma in_pending_emit wt d : in_pending wt → in_actions (batch_actions (emit (w_pending wt) (w_rescan wt) d)).
Proof.
  unfold in_pending, batch_actions, emit. cbn [b_Rescan b_Paths]. intros [->|[[] Hp]].
  - exists Rescan. split; [by left|by right].
  - destruct (w_rescan wt); [exists Rescan; split; [by left|by right]|]. exists (Change (ev_Name e)).
    split; [|by left]. apply list_elem_of_fmap. exists (ev_Name e). split; [done|].
    apply list_elem_of_fmap. exists (ev_Name e, tt). split; [done|by apply elem_of_range].
Qed.

Lemma outbox_emit wt d :
  w_sending wt = None → outbox (loop_emit d wt) = outbox wt ++ [emit (w_pending wt) (w_rescan wt) d].
Proof. intros Hs. unfold outbox. rewrite Hs, app_nil_r. done. Qed.

(** Emitting moves what is pending to the outbox. *)
Lemma emit_taken wt d :
  w_sending wt = None → in_pending wt ∨ in_outbox wt → in_outbox (loop_emit d wt).
Proof.
  intros Hs Hin. unfold in_outbox. rewrite outbox_emit by done. destruct Hin as [Hp|(b & Hb & Hh)].
  - eexists. split; [apply elem_of_app; right; by left|by apply in_pending_emit].
  - exists b. split; [apply elem_of_app; by left|done].
Qed.

Lemma loop_event_pending add w fuel ev wt wt' :
  loop_event follow ignore add w fuel ev wt = Some wt' →
  (in_pending wt → in_pending wt') ∧ (ev = e → in_pending wt').
Proof.
  unfold loop_event. destruct (cookie_event ev) eqn:Ec.
  - intros [= <-]. split; [|by intros ->; congruence].
    by destruct (ev_Create ev && (length (w_cookies wt) <? chan_cap)).
  - destruct (new_dirs _ _ _ _ _ _) as [dirs|]; [|done]. cbn [mbind option_bind]. intros [= <-].
    unfold in_pending; cbn [w_rescan w_pending]. split.
    + intros [|Hp]; [by left|right]. destruct (decide (ev_Name ev = ev_Name e)) as [->|Hne].
      * by rewrite lookup_insert_eq.
      * by rewrite lookup_insert_ne.
    + intros ->. right. by rewrite lookup_insert_eq.
Qed.

Lemma outbox_send wt b : w_sending wt = Some b → outbox (loop_send b wt) = outbox wt.
Proof. intros Hs. unfold outbox. rewrite Hs. cbn. by rewrite app_nil_r. Qed.

(** The loop and the consumer only move a change forward. *)
Lemma internal_taken s s' :
  L ≤ length (b_log s) → internal follow ignore s s' → taken s → taken s'.
Proof.
  unfold taken. intros HL Hi.
  destruct Hi as [s ev q add w fuel wt Hs Hq Hl|s n Hs Hn|s Hs Ht|s b Hr Hs Hc|s b out Hb Ho|s a acts d Hb|s d Hb]; cbn.
  - pose proof (loop_event_frame _ _ _ _ _ _ _ _ Hl) as (Ho & _). apply loop_event_pending in Hl as [Hp _].
    unfold in_outbox. rewrite Ho. intros [?|?]; [left; by apply Hp|by right].
  - intros [|Ht]; [by left; left|]. by right.
  - intros [Hp|[Ho|Hrest]]; right; [left|left|by right]; apply emit_taken; destruct Hs; auto.
  - unfold in_outbox. rewrite (outbox_send _ _ Hs). done.
  - rewrite Hb. intros [Hp|[(b' & Hb' & Hh)|[[]|Hlog]]]; [by left| |by do 3 right].
    unfold outbox in Hb'. rewrite Ho in Hb'. apply elem_of_cons in Hb' as [->|Hb']; [by do 2 right; left|].
    right. left. exists b'. done.
  - rewrite Hb. intros [Hp|[Ho|[(x & [->|Hx]%elem_of_cons & Hh)|Hlog]]]; [by left|by right; left| | |].
    + do 3 right. apply in_log_app; auto.
    + do 2 right. left. by exists x.
    + do 3 right. apply in_log_app; auto.
  - rewrite Hb. intros [Hp|[Ho|[(x & Hx & _)|Hlog]]]; [by left|by right; left| |by do 3 right].
    by apply elem_of_nil in Hx.
Qed.
End Tracking.

(** ** Names of cookies *)

Lemma cookie_name_base pid n : path_base (cookie_name pid n) = cookie_name pid n.
Proof.
  apply path_base_spec; [|by left]. unfold cookie_name. rewrite !elem_of_app.
  assert (∀ k, slash ∉ dec k) as Hd by (intros k Hk%dec_digit; done).
  assert (slash ∉ CookiePrefix) as Hc by (by apply (bool_decide_eq_false_1 _), (@eq_refl bool false)).
  intros [Hk|[Hk|[Hk|Hk]]]; [by apply Hc|by eapply Hd| |by eapply Hd].
  by apply list_elem_of_singleton in Hk.
Qed.

Lemma cookie_name_inj pid a b :
  (Z.of_nat a < 2 ^ 63)%Z → (Z.of_nat b < 2 ^ 63)%Z → cookie_name pid a = cookie_name pid b → a = b.
Proof. intros Ha Hb E%app_inv_head%app_inv_head%app_inv_head. apply dec_inj in E; [done|lia..]. Qed.

(** ** Invariants of the system *)

(** The channel of a batch. *)
Definition batch_done (b : option (list action * option nat)) : option nat :=
  match b with Some (_, d) => d | None => None end.

(** The fields of the system after a step. *)
Ltac sys_simpl :=
  cbn [b_queue b_overflows b_watch b_batch b_log b_closed b_cookieSeq b_flushes b_phase
    set_watch set_phase set_queue set_overflows set_batch batch_done].

Section Invariants.
Context `{MapOrder} (follow : bool) (ignore : bytes → bool → bool) (pid : nat).

(** An event that announces the cookie of a number. *)
Definition announces (ev : event) (n : nat) : Prop := ev_Create ev = true ∧ path_base (ev_Name ev) = cookie_name pid n.

(** Cookies and channels are numbered afresh, and the timer is armed while something is pending. *)
Record sys_ok (s : system) : Prop := {
  ok_cookies : ∀ ev n, ev ∈ b_queue s → b_cookieSeq s < n → (Z.of_nat n < 2 ^ 63)%Z → ¬ announces ev n;
  ok_closed : ∀ k, k ∈ b_closed s → k < b_flushes s;
  ok_batch : ∀ k, batch_done (b_batch s) = Some k → k < b_flushes s;
  ok_outbox : ∀ b k, b ∈ outbox (b_watch s) → b_Done b = Some k → k < b_flushes s;
  ok_timer : w_running (b_watch s) = true →
    w_rescan (b_watch s) = true ∨ w_pending (b_watch s) ≠ ∅ → w_timer (b_watch s) = true;
  ok_seq : (Z.of_nat (b_cookieSeq s) < 2 ^ 63)%Z;
}.

Lemma start_ok wt : w_pending wt = ∅ → w_rescan wt = false → outbox wt = [] → sys_ok (start wt).
Proof.
  intros Hp Hr Ho. split; cbn; try done.
  - intros ev n Hev. by apply elem_of_nil in Hev.
  - intros b k. rewrite Ho. intros Hb. by apply elem_of_nil in Hb.
  - rewrite Hp, Hr. by intros _ [|].
Qed.

Lemma loop_event_timer add w fuel ev wt wt' :
  loop_event follow ignore add w fuel ev wt = Some wt' →
  (w_rescan wt = true ∨ w_pending wt ≠ ∅ → w_timer wt = true) →
  w_rescan wt' = true ∨ w_pending wt' ≠ ∅ → w_timer wt' = true.
Proof.
  unfold loop_event. destruct (cookie_event ev).
  - intros [= <-] Ht. by destruct (ev_Create ev && (length (w_cookies wt) <? chan_cap)).
  - destruct (new_dirs _ _ _ _ _ _); [|done]. cbn [mbind option_bind]. by intros [= <-].
Qed.

Lemma internal_ok s s' : internal follow ignore s s' → sys_ok s → sys_ok s'.
Proof.
  intros Hi [H1 H2 H3 H4 H5 H6].
  destruct Hi as [s ev q add w fuel wt Hs Hq Hl|s n Hs Hn|s Hs Ht|s b Hr Hs Hc|s b out Hb Ho|s a acts d Hb|s d Hb];
    split; try done; sys_simpl.
  - intros ev' n Hev Hn Hb. apply H1; [|done..]. rewrite Hq. by right.
  - apply loop_event_frame in Hl as (-> & _). done.
  - pose proof (loop_event_frame _ _ _ _ _ _ _ _ Hl) as (_ & -> & _). intros Hr.
    eapply loop_event_timer; [done|]. by apply H5.
  - intros b k. rewrite outbox_emit by apply Hs. intros [Hb| ->%list_elem_of_singleton]%elem_of_app; [by eapply H4|done].
  - by intros _ [|].
  - intros b' k. rewrite (outbox_send _ _ Hs). apply H4.
  - intros k Hk. apply (H4 b); [|done]. unfold outbox. rewrite Ho. by left.
  - intros b' k Hb'. apply H4. unfold outbox in *. rewrite Ho. by right.
  - intros k Hk. apply H3. by rewrite Hb.
  - intros k Hk. destruct d as [d|]; [|by apply H2]. apply elem_of_union in Hk as [->%elem_of_singleton|Hk]; [|by apply H2].
    apply H3. by rewrite Hb.
Qed.

Lemma barrier_ok s s' : barrier_step pid s s' → sys_ok s → sys_ok s'.
Proof.
  intros Hi [H1 H2 H3 H4 H5 H6].
  destruct Hi as [s Hp|s c cs Hp Hc|s n Hp Hc Hn|s Hp Hc|s n c cs Hp Hc|s n Hp|s c Hs Hp|s k c Hp Hk|s Hp|s ok Hp];
    split; try done; sys_simpl.
  - intros ev m [Hev| ->%list_elem_of_singleton]%elem_of_app Hm Hb; [apply H1; [done|lia|done]|].
    intros [_ E]. cbn [ev_Name] in E. rewrite cookie_name_base in E. apply cookie_name_inj in E; lia.
  - intros k Hk. apply H2 in Hk. lia.
  - intros k Hk. apply H3 in Hk. lia.
  - intros b k. rewrite outbox_emit by apply Hs. intros [Hb| ->%list_elem_of_singleton]%elem_of_app Hk.
    + specialize (H4 _ _ Hb Hk). lia.
    + injection Hk as <-. lia.
  - by intros _ [|].
Qed.

Lemma world_ok s s' : world_step pid s s' → sys_ok s → sys_ok s'.
Proof.
  intros Hi [H1 H2 H3 H4 H5 H6]. destruct Hi as [s ev Hev|s|s]; split; try done; sys_simpl.
  - intros ev' n [Hin| ->%list_elem_of_singleton]%elem_of_app Hn Hb; [by apply H1|].
    intros [Hc E]. by eapply Hev.
  - intros b k Hb. apply H4. unfold outbox in *. cbn in Hb. rewrite app_nil_r in Hb. apply elem_of_app. by left.
Qed.

Lemma step_ok s s' : step follow ignore pid s s' → sys_ok s → sys_ok s'.
Proof. intros [|[|]]; [by apply internal_ok|by apply barrier_ok|by apply world_ok]. Qed.
End Invariants.

(** ** The barrier *)

Section Tracked.
Context `{MapOrder} (follow : bool) (ignore : bytes → bool → bool) (pid : nat).
Context (e : event) (L : nat).
Hypothesis He : cookie_event e = false.

(** The change is in the queue, ahead of the cookie, which has not been received. *)
Definition before_cookie (n : nat) (s : system) : Prop :=
  ∃ q1 q2, b_queue s = q1 ++ q2 ∧ e ∈ q1 ∧ (∀ ev, ev ∈ q1 → ¬ announces pid ev n) ∧
    cookie_name pid n ∉ w_cookies (b_watch s).

(** The consumer closes channel [k] only after it has applied the change. *)
Definition closes_after (k : nat) (s : system) : Prop :=
  (k ∈ b_closed s → in_log e L (b_log s)) ∧
  (batch_done (b_batch s) = Some k → in_batch e (b_batch s) ∨ in_log e L (b_log s)) ∧
  (∀ o1 b o2, outbox (b_watch s) = o1 ++ b :: o2 → b_Done b = Some k →
     in_batch e (b_batch s) ∨ in_log e L (b_log s) ∨ ∃ b', b' ∈ o1 ++ [b] ∧ in_actions e (batch_actions b')).

(** What holds of the change in each phase, while the loop runs. *)
Definition tracked (s : system) : Prop :=
  match b_phase s with
  | Waiting n => w_running (b_watch s) = true → taken e L s ∨ before_cookie n s
  | Asking true => w_running (b_watch s) = true → taken e L s
  | Flushing k true => (w_running (b_watch s) = true → taken e L s) ∧ closes_after k s
  | Finished true => in_log e L (b_log s)
  | _ => w_running (b_watch s) = true → e ∈ b_queue s ∨ taken e L s
  end.

Lemma closes_after_ext k s s' :
  outbox (b_watch s') = outbox (b_watch s) → b_batch s' = b_batch s → b_log s' = b_log s → b_closed s' = b_closed s →
  closes_after k s → closes_after k s'.
Proof. unfold closes_after. by intros -> -> -> ->. Qed.

Lemma internal_closes k s s' :
  L ≤ length (b_log s) → internal follow ignore s s' → closes_after k s → closes_after k s'.
Proof.
  intros HL Hi.
  destruct Hi as [s ev q add w fuel wt Hs Hq Hl|s n Hs Hn|s Hs Ht|s b Hr Hs Hc|s b out Hb Ho|s a acts d Hb|s d Hb].
  - apply (closes_after_ext k s); try done. sys_simpl. by apply loop_event_frame in Hl as (-> & _).
  - by apply (closes_after_ext k s).
  - intros (H1 & H2 & H3). split; [done|]. split; [done|]. sys_simpl. intros o1 b o2.
    rewrite outbox_emit by apply Hs. intros Eo Hk.
    destruct o2 as [|x o3 _] using rev_ind.
    { apply app_inj_tail in Eo as [_ <-]. done. }
    rewrite app_comm_cons, app_assoc in Eo. apply app_inj_tail in Eo as [Eo _]. by eapply H3.
  - apply (closes_after_ext k s); try done. sys_simpl. by apply outbox_send.
  - intros (H1 & _ & H3). unfold closes_after. sys_simpl. rewrite Hb in H3.
    assert (outbox (b_watch s) = b :: outbox (set_out (b_watch s) out)) as Eo by (unfold outbox; by rewrite Ho).
    split; [done|]. split.
    + intros Hk. destruct (H3 [] b _ Eo Hk) as [[]|[Hin|(b' & Hb' & Hh)]]; [by right|left].
      by apply list_elem_of_singleton in Hb' as ->.
    + intros o1 b0 o2 Eo2 Hk. rewrite Eo2 in Eo. destruct (H3 (b :: o1) b0 o2 Eo Hk) as [[]|[Hin|(b' & Hb' & Hh)]].
      * by right; left.
      * cbn [app] in Hb'. apply elem_of_cons in Hb' as [->|Hb']; [by left|]. right. right. by exists b'.
  - intros (H1 & H2 & H3). unfold closes_after. sys_simpl. rewrite Hb in H2, H3. cbn [in_batch batch_done] in *.
    assert (in_actions e (a :: acts) ∨ in_log e L (b_log s) → in_actions e acts ∨ in_log e L (b_log s ++ [a])) as Hmove.
    { intros [(x & [->|Hx]%elem_of_cons & Hh)|Hlog]; [right; apply in_log_app; auto|left; by exists x|].
      right. apply in_log_app; auto. }
    split; [intros Hk; apply in_log_app; auto|]. split; [intros Hk; auto|].
    intros o1 b o2 Eo Hk. destruct (H3 o1 b o2 Eo Hk) as [Hin|[Hin|Hin]]; [| |by right; right];
      (destruct Hmove as [|]; auto).
  - intros (H1 & H2 & H3). unfold closes_after. sys_simpl. rewrite Hb in H2, H3. cbn [in_batch batch_done] in *.
    assert (¬ in_actions e []) as Hnil by (intros (x & Hx & _); by apply elem_of_nil in Hx).
    split.
    + destruct d as [d|]; [|done]. intros [->%elem_of_singleton|Hk]%elem_of_union; [|by apply H1].
      by destruct (H2 eq_refl).
    + split; [done|]. intros o1 b o2 Eo Hk. destruct (H3 o1 b o2 Eo Hk) as [Hin|Hin]; [by destruct Hnil|by right].
Qed.

(** A fresh channel closes after what is taken. *)
Lemma flush_closes s :
  sys_ok pid s → at_select s → taken e L s →
  closes_after (b_flushes s)
    (mkSys (b_queue s) (b_overflows s) (loop_emit (Some (b_flushes s)) (b_watch s)) (b_batch s) (b_log s)
       (b_closed s) (b_cookieSeq s) (S (b_flushes s)) (Flushing (b_flushes s) true)).
Proof.
  intros [_ H2 H3 H4 _ _] [Hr Hs] Ht. unfold closes_after. sys_simpl. split_and!.
  - intros Hk. apply H2 in Hk. lia.
  - intros Hk. apply H3 in Hk. lia.
  - intros o1 b o2. rewrite outbox_emit by done. intros Eo Hk.
    destruct o2 as [|x o3 _] using rev_ind.
    + rewrite <-Eo. destruct Ht as [Hp|[Ho|[Hb|Hl]]]; [right; right|right; right|by left|by right; left].
      all: rewrite <-(outbox_emit (b_watch s) (Some (b_flushes s)) Hs); apply emit_taken; auto.
    + rewrite app_comm_cons, app_assoc in Eo. apply app_inj_tail in Eo as [Eo _].
      assert (b ∈ outbox (b_watch s)) as Hb by (rewrite Eo; apply elem_of_app; right; by left).
      specialize (H4 _ _ Hb Hk). lia.
Qed.

(** Internal steps keep the phase, and a change stays in the queue or is taken. *)
Lemma internal_frame s s' :
  internal follow ignore s s' →
  b_phase s' = b_phase s ∧ w_running (b_watch s') = w_running (b_watch s) ∧
  (L ≤ length (b_log s) → L ≤ length (b_log s') ∧ (in_log e L (b_log s) → in_log e L (b_log s'))).
Proof.
  intros Hi. destruct Hi as [s ev q add w fuel wt Hs Hq Hl|s n Hs Hn|s Hs Ht|s b Hr Hs Hc|s b out Hb Ho|s a acts d Hb|s d Hb];
    sys_simpl; (split_and!; [done| |]); try done.
  - by apply loop_event_frame in Hl as (_ & -> & _).
  - intros HL. split; [rewrite length_app; lia|]. intros Hin. apply in_log_app; auto.
Qed.

Lemma internal_queue s s' :
  internal follow ignore s s' → e ∈ b_queue s → e ∈ b_queue s' ∨ taken e L s'.
Proof.
  intros Hi Hin. destruct Hi as [s ev q add w fuel wt Hs Hq Hl| | | | | |]; try by left.
  rewrite Hq in Hin. apply elem_of_cons in Hin as [->|Hin]; [right; left|by left].
  by apply (loop_event_pending follow ignore ev He) in Hl as [_ Hp]; apply Hp.
Qed.

Lemma internal_before n s s' :
  internal follow ignore s s' → before_cookie n s → before_cookie n s' ∨ taken e L s'.
Proof.
  intros Hi (q1 & q2 & Eq & Hin & Hann & Hc).
  destruct Hi as [s ev q add w fuel wt Hs Hq Hl|s m Hs Hm|s Hs Ht|s b Hr Hs Hcap|s b out Hb Ho|s a acts d Hb|s d Hb];
    try by (left; exists q1, q2).
  destruct q1 as [|x q1]; [by apply elem_of_nil in Hin|]. rewrite Hq in Eq. injection Eq as <- ->.
  apply elem_of_cons in Hin as [->|Hin].
  { right; left. by apply (loop_event_pending follow ignore ev He) in Hl as [_ Hp]; apply Hp. }
  left. exists q1, q2. split_and!; [done|done|by intros ev' ?; apply Hann; right|].
  sys_simpl. apply loop_event_frame in Hl as (_ & _ & _ & Hcs). intros [?|[? Hn]]%Hcs; [done|].
  apply (Hann ev); [by left|by split].
Qed.

Lemma internal_tracked s s' :
  L ≤ length (b_log s) → internal follow ignore s s' → tracked s → tracked s'.
Proof.
  intros HL Hi. pose proof (internal_frame s s' Hi) as (Hp & Hr & Hlog). destruct (Hlog HL) as [_ Hin].
  pose proof (internal_taken follow ignore e L He s s' HL Hi) as Htk.
  pose proof (internal_queue s s' Hi) as Hq. unfold tracked. rewrite Hp, Hr.
  destruct (b_phase s) as [| |n|[]|k []|[]]; try (intros Ht Hrun; by destruct (Ht Hrun) as [?%Hq|?%Htk]; auto).
  - intros Ht Hrun. destruct (Ht Hrun) as [?%Htk|Hb]; [by left|]. by apply (internal_before n s s' Hi) in Hb as [|]; auto.
  - intros Ht Hrun. by apply Htk, Ht.
  - intros [Ht Hc]. split; [intros Hrun; by apply Htk, Ht|]. by eapply internal_closes.
  - done.
Qed.

Lemma taken_weaken s : (w_running (b_watch s) = true → taken e L s) → w_running (b_watch s) = true → e ∈ b_queue s ∨ taken e L s.
Proof. intros Ht Hr. right. by apply Ht. Qed.

Lemma barrier_tracked s s' : sys_ok pid s → barrier_step pid s s' → tracked s → tracked s'.
Proof.
  intros Hok Hi.
  destruct Hi as [s Hp|s c cs Hp Hc|s n Hp Hc Hn|s Hp Hc|s n c cs Hp Hc|s n Hp|s c Hs Hp|s k c Hp Hk|s Hp|s ok Hp];
    unfold tracked; sys_simpl.
  - by rewrite Hp.
  - by rewrite Hp.
  - rewrite Hp. intros Ht Hrun. destruct (Ht Hrun) as [Hin|Htk]; [right|by left].
    exists (b_queue s), [mkEvent (cookie_name pid n) true]. split_and!; [done|done| |].
    + intros ev Hev. apply (ok_cookies _ _ Hok); [done|lia|done].
    + sys_simpl. rewrite Hc. apply not_elem_of_nil.
  - by rewrite Hp.
  - rewrite Hp. case_bool_decide as Ec; intros Ht Hrun.
    + destruct (Ht Hrun) as [Htk|(q1 & q2 & _ & _ & _ & Hno)]; [done|]. destruct Hno. rewrite Hc, Ec. by left.
    + destruct (Ht Hrun) as [Htk|(q1 & q2 & Eq & Hin & Ha & Hno)]; [by left|right]. exists q1, q2.
      split_and!; [done..|]. sys_simpl. intros Hx. apply Hno. rewrite Hc. by right.
  - rewrite Hp. intros Ht Hrun. destruct (Ht Hrun) as [Htk|(q1 & q2 & Eq & Hin & _)]; [by right|left].
    rewrite Eq. apply elem_of_app. by left.
  - rewrite Hp. assert (taken e L s → taken e L (set_watch s (loop_emit (Some (b_flushes s)) (b_watch s)))) as Hem.
    { intros [Hq|[Ho|Hrest]]; right; [left|left|by right]; apply emit_taken; destruct Hs; auto. }
    destruct c; intros Ht; [split|].
    + intros _. apply Hem, Ht, Hs.
    + apply flush_closes; [done|done|]. apply Ht, Hs.
    + intros Hrun. destruct (Ht Hrun) as [|Htk%Hem]; [by left|by right].
  - rewrite Hp. destruct c; [|done]. intros [_ [Hc _]]. by apply Hc.
  - destruct Hp as [[[] Hp]|(k & [] & Hp)]; rewrite Hp; try done; intros Ht; try destruct Ht as [Ht _]; exact (taken_weaken s Ht).
  - rewrite Hp. destruct ok; [|done]. intros Hl _. right. by do 3 right.
Qed.

Lemma world_tracked s s' : world_step pid s s' → tracked s → tracked s'.
Proof.
  intros Hi. destruct Hi as [s ev Hev|s|s]; unfold tracked; sys_simpl; [|done|].
  - destruct (b_phase s) as [| |n|[]|k []|[]]; try done;
      try (intros Ht Hrun; destruct (Ht Hrun) as [|]; [left; apply elem_of_app; by left|by right]).
    intros Ht Hrun. destruct (Ht Hrun) as [|(q1 & q2 & Eq & Hrest)]; [by left|right].
    exists q1, (q2 ++ [ev]). sys_simpl. by rewrite Eq, app_assoc.
  - destruct (b_phase s) as [| |n|[]|k []|[]]; try done. intros [_ (H1 & H2 & H3)]. split; [done|].
    split_and!; [done..|]. sys_simpl. intros o1 b o2 Eo Hk. unfold outbox in H3, Eo. cbn in Eo. rewrite app_nil_r in Eo.
    eapply (H3 o1 b); [|done]. by rewrite Eo, <-app_assoc, <-app_comm_cons.
Qed.
End Tracked.

(** ** Nothing is left behind *)

Section Delivery.
Context `{MapOrder} (follow : bool) (ignore : bytes → bool → bool) (pid : nat).

Definition batch_load (k : nat) (b : Batch) : nat := k + length (batch_actions b).
Fixpoint out_load (out : list Batch) : nat :=
  match out with [] => 0 | b :: out => batch_load 2 b + out_load out end.

(** What the loop and the consumer have left to do. *)
Definition load (s : system) : nat :=
  let wt := b_watch s in
  7 * (length (b_queue s) + b_overflows s) + (if w_timer wt then 5 else 0) + size (w_pending wt) +
  match w_sending wt with Some b => batch_load 3 b | None => 0 end + out_load (w_out wt) +
  match b_batch s with Some (acts, _) => S (length acts) | None => 0 end.

Lemma out_load_app a b : out_load (a ++ b) = out_load a + out_load b.
Proof. induction a as [|b' a IH]; simpl; [done|lia]. Qed.

Lemma emit_load pending rescan d : batch_load 3 (emit pending rescan d) ≤ 4 + size pending.
Proof.
  unfold batch_load, batch_actions, emit. cbn [b_Rescan b_Paths]. destruct rescan; [simpl; lia|].
  rewrite length_fmap, length_fmap, (Permutation_length (range_perm pending)), length_map_to_list. lia.
Qed.

Lemma event_load add w fuel ev wt wt' :
  loop_event follow ignore add w fuel ev wt = Some wt' →
  w_out wt' = w_out wt ∧ w_sending wt' = w_sending wt ∧
  (if w_timer wt' then 5 else 0) + size (w_pending wt') ≤ 6 + (if w_timer wt then 5 else 0) + size (w_pending wt).
Proof.
  unfold loop_event. destruct (cookie_event ev).
  - intros [= <-]. destruct (ev_Create ev && (length (w_cookies wt) <? chan_cap)); split_and!; simpl; (done || lia).
  - destruct (new_dirs _ _ _ _ _ _); [|done]. cbn [mbind option_bind]. intros [= <-]. split_and!; [done..|].
    cbn [w_timer w_pending]. rewrite map_size_insert. destruct (_ !! _), (w_timer wt); simpl; lia.
Qed.

Lemma internal_load s s' : internal follow ignore s s' → load s' < load s.
Proof.
  intros Hi. destruct Hi as [s ev q add w fuel wt Hs Hq Hl|s n Hs Hn|s Hs Ht|s b Hr Hs Hc|s b out Hb Ho|s a acts d Hb|s d Hb];
    unfold load; sys_simpl.
  - apply event_load in Hl as (-> & -> & Hle). rewrite Hq. cbn [length]. lia.
  - unfold loop_overflow. cbn [w_timer w_pending w_sending w_out]. rewrite Hn. destruct (w_timer (b_watch s)); lia.
  - unfold loop_emit. cbn [w_timer w_pending w_sending w_out]. rewrite Ht, (proj2 Hs), map_size_empty.
    pose proof (emit_load (w_pending (b_watch s)) (w_rescan (b_watch s)) None). lia.
  - unfold loop_send. cbn [w_timer w_pending w_sending w_out]. rewrite Hs, out_load_app. cbn [out_load]. unfold batch_load. lia.
  - unfold set_out. cbn [w_timer w_pending w_sending w_out]. rewrite Hb, Ho. cbn [out_load]. unfold batch_load. lia.
  - rewrite Hb. simpl. lia.
  - rewrite Hb. simpl. lia.
Qed.

Lemma internal_sn s : sn (internal follow ignore) s.
Proof.
  induction s as [s IH] using (well_founded_induction (well_founded_ltof _ load)). constructor. intros s' Hs.
  apply IH. unfold ltof. by apply internal_load.
Qed.

(** When neither can move, everything has been applied. *)
Lemma stuck_drained s :
  sys_ok pid s → w_running (b_watch s) = true → nf (internal follow ignore) s →
  b_queue s = [] ∧ b_overflows s = 0 ∧ outbox (b_watch s) = [] ∧ b_batch s = None ∧
  w_rescan (b_watch s) = false ∧ w_pending (b_watch s) = ∅.
Proof.
  intros Hok Hrun Hnf.
  assert (b_batch s = None) as Hb.
  { destruct (b_batch s) as [[[|a acts] d]|] eqn:E; [| |done]; destruct Hnf; eexists;
      [by eapply consumer_finishes|by eapply consumer_applies]. }
  assert (w_out (b_watch s) = []) as Ho.
  { destruct (w_out (b_watch s)) as [|b out] eqn:E; [done|]. destruct Hnf. eexists. by eapply consumer_takes. }
  assert (w_sending (b_watch s) = None) as Hs.
  { destruct (w_sending (b_watch s)) as [b|] eqn:E; [|done]. destruct Hnf. eexists. eapply loop_sends; [done..|].
    rewrite Ho. unfold chan_cap. simpl. lia. }
  assert (at_select s) as Hsel by done.
  assert (w_timer (b_watch s) = false) as Ht.
  { destruct (w_timer (b_watch s)) eqn:E; [|done]. destruct Hnf. eexists. by eapply loop_fires. }
  assert (¬ (w_rescan (b_watch s) = true ∨ w_pending (b_watch s) ≠ ∅)) as Hp.
  { intros Hp%(ok_timer _ _ Hok Hrun). congruence. }
  split_and!; [| |by unfold outbox; rewrite Ho, Hs|done| |].
  - destruct (b_queue s) as [|ev q] eqn:E; [done|]. destruct Hnf.
    set (w := mkWorld (λ _, None) (λ _, inr ErrOther) (λ _, inr ErrOther) (λ _, None) (λ _, inr ErrOther)).
    assert (∃ wt, loop_event follow ignore (λ _, true) w 0 ev (b_watch s) = Some wt) as [wt Hwt].
    { unfold loop_event, new_dirs. destruct (cookie_event ev), (ev_Create ev); by eexists. }
    eexists. by eapply loop_reads.
  - destruct (b_overflows s) eqn:E; [done|]. destruct Hnf. eexists. by eapply loop_overflows.
  - destruct (w_rescan (b_watch s)); [destruct Hp; by left|done].
  - destruct (decide (w_pending (b_watch s) = ∅)); [done|]. destruct Hp. by right.
Qed.

Lemma internal_star (s s' : system) (e : event) (L : nat) :
  cookie_event e = false → rtc (internal follow ignore) s s' → L ≤ length (b_log s) → e ∈ b_queue s ∨ taken e L s →
  e ∈ b_queue s' ∨ taken e L s'.
Proof.
  intros He Hr. induction Hr as [|s1 s2 s3 Hi _ IH]; [done|]. intros HL Hin.
  destruct (internal_frame follow ignore e L s1 s2 Hi) as (_ & _ & Hlog). destruct (Hlog HL) as [HL2 _].
  apply IH; [done|]. destruct Hin as [Hin|Hin].
  - by apply (internal_queue follow ignore e L He s1 s2 Hi).
  - right. by apply (internal_taken follow ignore e L He s1 s2 HL Hi).
Qed.
End Delivery.

(** ** Properties *)

Section Reach.
Context `{MapOrder} (follow : bool) (ignore : bytes → bool → bool) (pid : nat).

Lemma run_ok s s' : rtc (step follow ignore pid) s s' → sys_ok pid s → sys_ok pid s'.
Proof. intros Hr. induction Hr as [|s1 s2 s3 Hs _ IH]; [done|]. intros Hok. by eapply IH, step_ok. Qed.

Lemma NewWatcher_ok add w fuel wt : NewWatcher follow ignore add w fuel = Some wt → sys_ok pid (start wt).
Proof.
  unfold NewWatcher. destruct (addRecursive _ _ _ _ _ _); [|done]. cbn [mbind option_bind]. intros [= <-].
  by apply start_ok.
Qed.

Lemma step_tracked e L s s' :
  cookie_event e = false → sys_ok pid s → step follow ignore pid s s' → L ≤ length (b_log s) →
  tracked pid e L s → L ≤ length (b_log s') ∧ tracked pid e L s'.
Proof.
  intros He Hok [Hi|[Hi|Hi]] HL Ht.
  - destruct (internal_frame follow ignore e L s s' Hi) as (_ & _ & Hlog). destruct (Hlog HL) as [? _].
    split; [done|]. by apply (internal_tracked follow ignore pid e L He s s').
  - split; [by destruct Hi|by apply (barrier_tracked follow ignore pid e L s s')].
  - split; [by destruct Hi|by apply (world_tracked pid e L s s')].
Qed.

Lemma run_tracked e L s s' :
  cookie_event e = false → rtc (step follow ignore pid) s s' → sys_ok pid s → L ≤ length (b_log s) →
  tracked pid e L s → tracked pid e L s'.
Proof.
  intros He Hr. induction Hr as [|s1 s2 s3 Hs _ IH]; [done|]. intros Hok HL Ht.
  destruct (step_tracked e L s1 s2 He Hok Hs HL Ht) as [HL2 Ht2]. apply IH; [by eapply step_ok|done|done].
Qed.

(** C6. Read-after-write: whatever the interleaving of the event loop, the consumer, the barrier
    and the rest of the world, a change that was reported when no barrier was under way has been
    applied to the store, by looking at its path again or by a reconcile, once a barrier returns
    that received its cookie and whose flush succeeded. *)
Theorem barrier_sees_writes add w fuel wt s s' e :
  NewWatcher follow ignore add w fuel = Some wt →
  rtc (step follow ignore pid) (start wt) s → b_phase s = Outside →
  e ∈ b_queue s → cookie_event e = false →
  rtc (step follow ignore pid) s s' → b_phase s' = Finished true →
  ∃ a, a ∈ drop (length (b_log s)) (b_log s') ∧ (a = Change (ev_Name e) ∨ a = Rescan).
Proof.
  intros Hn Hr Hp Hin He Hr' Hp'.
  assert (tracked pid e (length (b_log s)) s') as Ht.
  { apply (run_tracked e _ s s' He Hr'); [|done|].
    - eapply run_ok; [done|]. by eapply NewWatcher_ok.
    - unfold tracked. rewrite Hp. by left. }
  unfold tracked in Ht. by rewrite Hp' in Ht.
Qed.

(** C7. No change is lost or stuck: from any state that can be reached and whose loop runs, the
    loop and the consumer, left alone, stop after finitely many steps in every order they may take
    them, and when they can no longer move no event, overflow, pending change or batch is left and
    every change that was reported has been applied since. *)
Theorem watch_delivers add w fuel wt s :
  NewWatcher follow ignore add w fuel = Some wt → rtc (step follow ignore pid) (start wt) s →
  w_running (b_watch s) = true →
  sn (internal follow ignore) s ∧
  ∀ s', rtc (internal follow ignore) s s' → nf (internal follow ignore) s' →
    b_queue s' = [] ∧ b_overflows s' = 0 ∧ outbox (b_watch s') = [] ∧ b_batch s' = None ∧
    w_pending (b_watch s') = ∅ ∧
    ∀ e, e ∈ b_queue s → cookie_event e = false →
      ∃ a, a ∈ drop (length (b_log s)) (b_log s') ∧ (a = Change (ev_Name e) ∨ a = Rescan).
Proof.
  intros Hn Hr Hrun. split; [apply internal_sn|]. intros s' Hr' Hnf.
  assert (sys_ok pid s' ∧ w_running (b_watch s') = true) as [Hok Hrun'].
  { assert (sys_ok pid s) as Hok by (eapply run_ok; [done|]; by eapply NewWatcher_ok).
    clear Hr Hnf. induction Hr' as [|s1 s2 s3 Hi _ IH]; [done|].
    destruct (internal_frame follow ignore (mkEvent [] false) 0 s1 s2 Hi) as (_ & Hrr & _).
    apply IH; [by rewrite Hrr|by eapply internal_ok]. }
  destruct (stuck_drained follow ignore pid s' Hok Hrun' Hnf) as (Hq & Hov & Ho & Hb & Hres & Hp).
  split_and!; [done..|]. intros e Hin He.
  destruct (internal_star follow ignore s s' e (length (b_log s)) He Hr') as [Hin'|Ht]; [done|by left| |].
  - rewrite Hq in Hin'. by apply elem_of_nil in Hin'.
  - destruct Ht as [[Hx|[u Hx]]|[(b & Hx & _)|[Hx|Hx]]]; [congruence| | | |exact Hx].
    + by rewrite Hp in Hx.
    + rewrite Ho in Hx. by apply elem_of_nil in Hx.
    + by rewrite Hb in Hx.
Qed.
End Reach.

(** ** A run for the witnesses *)

#[local] Existing Instance tree_order.

Definition demo_event : event := mkEvent (bs "a") true.
Definition nothing : World :=
  mkWorld (λ _, None) (λ _, inr ErrOther) (λ _, inr ErrOther) (λ _, None) (λ _, inr ErrOther).
Definition demo_watcher : Watcher := mkWatcher ({[ [] ]} ∪ ∅) ∅ false false None [] [] true.
Definition demo_start : system := set_queue (start demo_watcher) [demo_event].

Lemma demo_new : @NewWatcher false (λ _ _, false) (λ _, true) nothing 1 = Some demo_watcher.
Proof. reflexivity. Qed.

Lemma demo_changes : rtc (@step tree_order false (λ _ _, false) 7) (start demo_watcher) demo_start.
Proof.
  apply rtc_once. right; right. apply (world_changes 7 (start demo_watcher) demo_event).
  intros _ n E. cbn [ev_Name demo_event] in E. discriminate E.
Qed.

(** The states of a run: the loop reads the change and the cookie, is flushed, and the consumer
    applies the batch. *)
Definition demo_cookie : event := mkEvent (cookie_name 7 1) true.
Definition demo_pending : gmap bytes unit := <[bs "a" := tt]> ∅.
Definition demo_batch : Batch := @emit tree_order demo_pending false (Some 0).
Definition demo_state (q : list event) (dirs : gset bytes) (pending : gmap bytes unit) (timer : bool)
    (sending : option Batch) (cookies : list bytes) (out : list Batch) (b : option (list action * option nat))
    (log : list action) (closed : gset nat) (flushes : nat) (p : phase) : system :=
  mkSys q 0 (mkWatcher dirs pending false timer sending cookies out true) b log closed 1 flushes p.

Lemma demo_actions : batch_actions demo_batch = [Change (bs "a")].
Proof. vm_compute. reflexivity. Qed.

(** A step followed by a change of form. *)
Lemma rtc_to {A} (R : A → A → Prop) (x y y' z : A) : R x y → y = y' → rtc R y' z → rtc R x z.
Proof. intros Hr -> Hz. by eapply rtc_l. Qed.

Ltac demo_reads ev q :=
  match goal with |- step _ _ _ ?s ?s' => left; by apply (loop_reads _ _ s ev q (λ _, true) nothing 1 (b_watch s')) end.

Lemma demo_run :
  ∃ s', rtc (@step tree_order false (λ _ _, false) 7) demo_start s' ∧ b_phase s' = Finished true ∧
    b_log s' = [Change (bs "a")].
Proof.
  set (D := {[ [] ]} ∪ ∅ : gset bytes).
  eexists. split; [|split].
  - eapply rtc_l; [right; left; by apply barrier_starts|].
    eapply (rtc_l _ _ (demo_state [demo_event; demo_cookie] D ∅ false None [] [] None [] ∅ 0 (Waiting 1))).
    { right; left. by apply (barrier_writes 7 (set_phase demo_start Draining)). }
    eapply (rtc_l _ _ (demo_state [demo_cookie] (D ∪ ∅) demo_pending true None [] [] None [] ∅ 0 (Waiting 1))).
    { demo_reads demo_event [demo_cookie]. }
    eapply (rtc_l _ _ (demo_state [] (D ∪ ∅) demo_pending true None [path_base (cookie_name 7 1)] [] None [] ∅ 0 (Waiting 1))).
    { demo_reads demo_cookie ([] : list event). }
    rewrite cookie_name_base.
    eapply rtc_l.
    { right; left. by apply (barrier_receives 7 _ 1 (cookie_name 7 1) []). }
    rewrite bool_decide_eq_true_2 by done.
    change (set_phase _ _) with (demo_state [] (D ∪ ∅) demo_pending true None [] [] None [] ∅ 0 (Asking true)).
    eapply (rtc_to _ _ _ (demo_state [] (D ∪ ∅) ∅ false (Some demo_batch) [] [] None [] ∅ 1 (Flushing 0 true)));
      [right; left; by apply (flush_starts 7 _ true)|reflexivity|].
    eapply (rtc_to _ _ _ (demo_state [] (D ∪ ∅) ∅ false None [] [demo_batch] None [] ∅ 1 (Flushing 0 true)));
      [left; apply (loop_sends _ _ _ demo_batch); [done|done|cbn; unfold chan_cap; lia]|reflexivity|].
    eapply (rtc_to _ _ _ (demo_state [] (D ∪ ∅) ∅ false None [] [] (Some (batch_actions demo_batch, Some 0)) [] ∅ 1
      (Flushing 0 true))); [left; by apply (consumer_takes _ _ _ demo_batch [])|reflexivity|].
    rewrite demo_actions.
    eapply rtc_l; [left; by eapply consumer_applies|]. eapply rtc_l; [left; by eapply consumer_finishes|].
    eapply rtc_once. right; left; eapply flush_done; [done|]. cbn [b_closed set_batch demo_state]. set_solver.
  - reflexivity.
  - reflexivity.
Qed.

Lemma barrier_sees_writes_witness :
  ∃ s', rtc (@step tree_order false (λ _ _, false) 7) demo_start s' ∧ b_phase s' = Finished true ∧
    b_log s' = [Change (bs "a")] ∧
    ∃ a, a ∈ drop 0 (b_log s') ∧ (a = Change (bs "a") ∨ a = Rescan).
Proof.
  destruct demo_run as (s' & Hr & Hp & Hl).
  exists s'. split_and!; [done..|].
  exact (@barrier_sees_writes tree_order false (λ _ _, false) 7 (λ _, true) nothing 1 demo_watcher demo_start s' demo_event
    demo_new demo_changes eq_refl (list_elem_of_here _ _) eq_refl Hr Hp).
Defined.

Lemma watch_delivers_witness :
  sn (@internal tree_order false (λ _ _, false)) demo_start ∧
  ∀ s', rtc (@internal tree_order false (λ _ _, false)) demo_start s' →
    nf (@internal tree_order false (λ _ _, false)) s' →
    ∃ a, a ∈ drop 0 (b_log s') ∧ (a = Change (bs "a") ∨ a = Rescan).
Proof.
  destruct (@watch_delivers tree_order false (λ _ _, false) 7 (λ _, true) nothing 1 demo_watcher demo_start demo_new demo_changes eq_refl)
    as [Hsn Hd].
  split; [exact Hsn|]. intros s' Hr Hnf. destruct (Hd s' Hr Hnf) as (_ & _ & _ & _ & _ & Hall).
  exact (Hall demo_event (list_elem_of_here _ _) eq_refl).
Defined.
