(* ===== verification/Server.v ===== *)
(** * The daemon's handlers: internal/daemon/server.go

    A request and the events sent for it, the choice of the store, the filters of a
    search, and the handlers.  The transport, the progress events and the barrier are not
    here; an error of [newRootStore] is an argument.  [None] is a panic or, for a search of the
    references of an empty name, a loop that does not end. *)

From S2P Require Import Prelude GoBytes Text GoPath Lines Ignore Walk Conf Symbol Strip Extract Refs.
From S2P Require Import Regexp Literal Matcher Index IndexSearch Codec Shard Engine EngineSearch Store Globs.

(** ** Protocol: internal/proto/proto.go *)

Record Request := mkRequest {
  q_Op : bytes; q_Root : bytes; q_Pattern : bytes; q_Fixed : bool; q_NoCase : bool;
  q_Files : bool; q_Count : bool; q_Globs : list bytes; q_Limit : Z; q_NoSync : bool;
  q_MaxColumns : Z; q_Exclude : list bytes; q_Include : list bytes; q_Gitignore : bool;
  q_Hidden : bool; q_Text : bool; q_Follow : bool; q_AllowNested : bool; q_MaxFilesize : Z;
}.

Inductive req_error :=
  | BadPattern | BadGlob | BadExclude | NotIndexed (pattern : bytes)
  | NestedRoots (roots : list bytes) | CreateFailed | UnknownOp (op : bytes).

(** [Event], by type; durations and the version are left out. *)
Inductive Event :=
  | EvMatch (file : bytes) (ln : nat) (text : bytes) (col lineLen : nat)
  | EvSymbol (file : bytes) (ln : Z) (text kind container name : bytes)
  | EvFileCount (file : bytes) (count : nat)
  | EvStreamFile (file : bytes) (size : Z)
  | EvDone (matches fileHits : nat) (truncated : bool)
  | EvError (err : req_error).

(** ** The stores *)

(** The map from [storeKey] to the stores. *)
Abbreviation Stores := (gmap (bytes * bool) RootStore).

Definition covers (root path : bytes) : bool :=
  bool_decide (path = root) || has_prefix path (root ++ [slash]).

Section Stores.
Context `{MapOrder}.

(** The first store of the map whose key passes a test. *)
Definition find_store (sv : Stores) (test : bytes * bool → bool) : option ((bytes * bool) * RootStore) :=
  head (filter (λ ks, test ks.1 = true) (range sv)).

(** The roots strictly below [path]. *)
Definition nested_roots (sv : Stores) (path : bytes) (follow : bool) : list bytes :=
  merge_sort bytes_le
    (omap (λ ks : (bytes * bool) * RootStore,
             if Bool.eqb ks.1.2 follow && has_prefix ks.1.1 (path ++ [slash]) then Some ks.1.1 else None)
       (range sv)).

(** [Server.store]; [create] is what [newRootStore] returns. *)
Definition store (sv : Stores) (path : bytes) (follow allowNested : bool) (create : option RootStore)
  : Stores * (req_error + RootStore) :=
  match find_store sv (λ k, Bool.eqb k.2 follow && covers k.1 path) with
  | Some (_, s) => (sv, inr s)
  | None =>
      let nested := nested_roots sv path follow in
      if negb allowNested && negb (bool_decide (nested = [])) then (sv, inl (NestedRoots nested))
      else match create with
           | None => (sv, inl CreateFailed)
           | Some s => (<[(path, follow) := s]> sv, inr s)
           end
  end.

(** [handleForget]: the stores left, and the key of the store that is closed and whose cache
    is deleted. *)
Definition handleForget (sv : Stores) (root : bytes) : Stores * option (bytes * bool) :=
  match find_store sv (λ k, bool_decide (k.1 = root)) with
  | Some (key, _) => (delete key sv, Some key)
  | None => (sv, None)
  end.
End Stores.

(** [subPrefix] of [prologue]: the path of the request below the root of the store. *)
Definition sub_prefix (root path : bytes) : bytes :=
  if bool_decide (path = root) then [] else drop (S (length root)) path ++ [slash].

(** ** Filters of a search *)

(** [reqOK]: globs, exclusions and hidden files. *)
Definition req_filter (req : Request) : req_error + option (bytes → bool) :=
  match globMatcher (q_Globs req) with
  | None => inl BadGlob
  | Some pm =>
      match excludeIncludeMatcher (q_Exclude req) (q_Include req) with
      | None => inl BadExclude
      | Some exIn =>
          let reqOK := match exIn with
                       | Some ex => Some (λ p, ex p && path_ok pm p)
                       | None => pm
                       end in
          inr (if q_Hidden req then reqOK else Some (λ p, negb (hiddenPath p) && path_ok reqOK p))
      end
  end.

(** [opts.PathMatch]; [git] reads the .gitignore files. *)
Definition search_filter (req : Request) (subPrefix : bytes) (git : bytes → option bytes)
    (reqOK : option (bytes → bool)) : option (bytes → bool) :=
  let pm := if bool_decide (subPrefix = []) then reqOK
            else Some (λ p, has_prefix p subPrefix && path_ok reqOK (trim_prefix p subPrefix)) in
  if q_Gitignore req then
    let incMatch := buildIncludeMatcher (q_Include req) in
    Some (λ p,
      let stripped := if bool_decide (subPrefix = []) then p else trim_prefix p subPrefix in
      if (GitIgnored git ∅ p false).1 && negb (incMatch stripped) then false else path_ok pm p)
  else pm.

(** ** The handlers *)

Definition match_le (a b : Lines.Match) : Prop :=
  bytes_lt (m_Path a) (m_Path b) ∨ (m_Path a = m_Path b ∧ m_Line a ≤ m_Line b).
#[export] Instance match_le_dec : RelDecision match_le.
Proof. intros a b. unfold match_le. apply _. Defined.

Definition hit_le (a b : DefHit) : Prop :=
  bytes_lt (h_Path a) (h_Path b) ∨ (h_Path a = h_Path b ∧ (d_Line (h_Def a) ≤ d_Line (h_Def b))%Z).
#[export] Instance hit_le_dec : RelDecision hit_le.
Proof. intros a b. unfold hit_le. apply _. Defined.

Definition content_le (a b : bytes * bytes) : Prop := bytes_le a.1 b.1.
#[export] Instance content_le_dec : RelDecision content_le.
Proof. intros a b. unfold content_le. apply _. Defined.

(** [sortDefHits] *)
Definition sortDefHits (hits : list DefHit) : list DefHit := merge_sort hit_le hits.

Section Handlers.
Context `{MapOrder} `{UnicodeCase} `{RE : RegexpEngine} `{RS : !RegexpString} `{SymbolExtractor}.
Context `{GoParser} `{TSRegexps}.

(** The search of either engine; [order] is the completion order of the disk engine's jobs. *)
Definition engine_search (w : World) (s : RootStore) (re : Regex) (opts : SearchOpts) (order : list nat)
  : option SearchResult :=
  match st_disk s with
  | Some d => EngineSearch.Search d (fs_of w) re opts order
  | None => ix ← st_idx s; IndexSearch.Search ix re opts
  end.

(** The events of a search result. *)
Definition result_events (req : Request) (subPrefix : bytes) (res : SearchResult) : list Event :=
  let strip := λ p, trim_prefix p subPrefix in
  if q_Count req || q_Files req then
    map (λ p, EvFileCount (strip p) (if q_Count req then default 0 (FileCounts res !! p) else 0))
      (merge_sort bytes_le (range (FileCounts res)).*1)
  else
    map (λ m, if bool_decide (m_Text m = []) && (0 <? m_LineLen m)
              then EvMatch (strip (m_Path m)) (m_Line m) (m_Text m) (m_Col m) (m_LineLen m)
              else EvMatch (strip (m_Path m)) (m_Line m) (m_Text m) 0 0)
      (merge_sort match_le (Matches res)).

(** The options of a search. *)
Definition search_opts (c : Config) (req : Request) (m : Matcher) (lit : bytes) (pm : option (bytes → bool))
  : SearchOpts :=
  let maxCols := if bool_decide (q_MaxColumns req = 0%Z) then MaxColumns c
                 else if (q_MaxColumns req <? 0)%Z then 0%Z else q_MaxColumns req in
  mkOpts lit pm (q_Files req || q_Count req) (q_Limit req) (PlainLit m) (Fold m) maxCols (q_MaxFilesize req).

(** [handleSearch] after the prologue; [git] reads the .gitignore files below the root. *)
Definition handleSearch (c : Config) (w : World) (git : bytes → option bytes) (s : RootStore)
    (subPrefix : bytes) (order : list nat) (req : Request) : option (list Event) :=
  match MatcherFor (q_Pattern req) (q_Fixed req) (q_NoCase req) with
  | None => Some [EvError BadPattern]
  | Some m =>
      lit ← ExtractLiteral (q_Pattern req) (q_Fixed req);
      match req_filter req with
      | inl err => Some [EvError err]
      | inr reqOK =>
          let pm := search_filter req subPrefix git reqOK in
          re ← Re m;
          res ← engine_search w s re (search_opts c req m lit pm) order;
          let streams := map (λ sf, EvStreamFile (trim_prefix (sf_Rel sf) subPrefix) (sf_Size sf))
                           (StreamList s (q_MaxFilesize req) pm) in
          let total := sum_list (range (FileCounts res)).*2 in
          Some (result_events req subPrefix res ++ streams ++
                [EvDone total (size (FileCounts res)) (Truncated res)])
      end
  end.

(** [inSubtree] *)
Definition in_subtree (req : Request) (subPrefix : bytes) (p : bytes) : bool :=
  if negb (bool_decide (subPrefix = [])) && negb (has_prefix p subPrefix) then false
  else q_Hidden req || negb (hiddenPath (trim_prefix p subPrefix)).

Definition hit_event (subPrefix : bytes) (h : DefHit) : Event :=
  EvSymbol (trim_prefix (h_Path h) subPrefix) (d_Line (h_Def h)) (h_Text h) (d_Kind (h_Def h))
    (d_Container (h_Def h)) (d_Name (h_Def h)).

Definition ref_event (req : Request) (subPrefix path content : bytes) (r : Ref) : Event :=
  EvSymbol (trim_prefix path subPrefix) (Z.of_nat (r_Line r)) (LineText content (Z.of_nat (r_Line r)))
    (if r_IsCall r then bs "call" else bs "ref") [] (q_Pattern req).

(** Events cut at a limit, and whether the limit was reached. *)
Definition cut_refs (limit : Z) (evs : list Event) : list Event * bool :=
  if (0 <? limit)%Z && (limit <=? len evs)%Z then (take (Z.to_nat limit) evs, true) else (evs, false).

(** [handleSymbol] after the prologue; [clean] is [filepath.Clean] of the pattern. *)
Definition handleSymbol (w : World) (s : RootStore) (subPrefix clean : bytes) (req : Request)
  : option (list Event) :=
  let inSub := Some (in_subtree req subPrefix) in
  let finish evs trunc := Some (evs ++ [EvDone (length evs) 0 trunc]) in
  if bool_decide (q_Op req = bs "def") then
    hits ← match st_disk s with
           | Some d => EngineSearch.Defs d (fs_of w) (q_Pattern req) (q_NoCase req) inSub
           | None => ix ← st_idx s; Some (IndexSearch.Defs ix (q_Pattern req) (q_NoCase req) inSub)
           end;
    finish (map (hit_event subPrefix) (sortDefHits hits)) false
  else if bool_decide (q_Op req = bs "symbols") then
    hits ← match st_disk s with
           | Some d => Some (EngineSearch.FileDefs (fs_of w) (subPrefix ++ clean))
           | None => ix ← st_idx s; IndexSearch.FileDefs ix (subPrefix ++ clean)
           end;
    match hits with
    | None => Some [EvError (NotIndexed (q_Pattern req))]
    | Some hits => finish (map (hit_event subPrefix) hits) false
    end
  else if bool_decide (q_Op req = bs "refs") then
    files ← match st_disk s with
            | Some d => EngineSearch.FilesContaining d (fs_of w) (q_Pattern req) inSub
            | None => ix ← st_idx s; IndexSearch.FilesContaining ix (q_Pattern req) inSub
            end;
    evs ← mapM (λ pc : bytes * bytes,
             refs ← Refs (S (length pc.2)) pc.1 pc.2 (q_Pattern req);
             Some (map (ref_event req subPrefix pc.1 pc.2) refs)) (merge_sort content_le files);
    let '(evs, trunc) := cut_refs (q_Limit req) (concat evs) in
    finish evs trunc
  else finish [] false.
End Handlers.
