(* ===== verification/ServerSpec.v ===== *)
(** * What the handlers answer

    The filter of a request, the answer to a counting search end to end, and the
    invariant of the map of stores. *)

From S2P Require Import Prelude GoBytes Trigram Text GoPath Lines Ignore Walk Conf Symbol Strip Extract Refs.
From S2P Require Import Regexp Literal Matcher Index IndexSearch Codec Shard Engine EngineSearch Store Globs Server.

(** ** The filter of a request *)

Lemma globMatcher_ok globs pm p :
  globMatcher globs = Some pm →
  path_ok pm p = true ↔ globs = [] ∨ ∃ g, g ∈ globs ∧ (glob_ok g p = true ∨ glob_ok g (path_base p) = true).
Proof.
  unfold globMatcher. case_bool_decide as Hg; [intros [= <-]; cbn; tauto|].
  destruct (negb _); [done|]. intros [= <-]. cbn [path_ok]. rewrite existsb_elem.
  setoid_rewrite orb_true_iff. naive_solver.
Qed.

Lemma excludeInclude_ok exclude include ex p :
  excludeIncludeMatcher exclude include = Some ex →
  path_ok ex p = true ↔ globMatchAny include p = true ∨ globMatchAny exclude p = false.
Proof.
  unfold excludeIncludeMatcher. destruct (_ && _) eqn:E.
  - apply andb_prop in E as [->%bool_decide_eq_true ->%bool_decide_eq_true]. intros [= <-]. cbn. tauto.
  - destruct (_ || _); [done|]. intros [= <-]. cbn [path_ok].
    destruct (decide (include = [])) as [->|Hi]; [rewrite bool_decide_eq_true_2 by done|rewrite bool_decide_eq_false_2 by done];
    (destruct (decide (exclude = [])) as [->|He]; [rewrite (bool_decide_eq_true_2 ([] = [])) by done|rewrite (bool_decide_eq_false_2 (exclude = [])) by done]);
    cbn [negb andb]; try (destruct (globMatchAny include p)); try (destruct (globMatchAny exclude p)); cbn;
    intuition discriminate.
Qed.

(** C33. The filter of a search lets a path through exactly when it lies in the requested subtree and
    the path below it is not hidden (unless hidden files are asked for), matches one of the globs
    when there are some, is included or not excluded (inclusion wins), and is included or not
    excluded by a .gitignore when those are to be honored. *)
Theorem search_filter_spec (req : Request) (subPrefix : bytes) git reqOK p :
  req_filter req = inr reqOK →
  let q := trim_prefix p subPrefix in
  path_ok (search_filter req subPrefix git reqOK) p = true ↔
    has_prefix p subPrefix = true ∧
    (q_Hidden req = true ∨ hiddenPath q = false) ∧
    (q_Globs req = [] ∨ ∃ g, g ∈ q_Globs req ∧ (glob_ok g q = true ∨ glob_ok g (path_base q) = true)) ∧
    (globMatchAny (q_Include req) q = true ∨ globMatchAny (q_Exclude req) q = false) ∧
    (q_Gitignore req = false ∨ globMatchAny (q_Include req) q = true ∨ (GitIgnored git ∅ p false).1 = false).
Proof.
  unfold req_filter. destruct (globMatcher (q_Globs req)) as [pm|] eqn:Eg; [|done].
  destruct (excludeIncludeMatcher _ _) as [ex|] eqn:Ee; [|done]. intros [= <-]. set (q := trim_prefix p subPrefix).
  set (reqOK := match ex with Some e => _ | None => pm end).
  assert (path_ok reqOK q = true ↔ path_ok ex q = true ∧ path_ok pm q = true) as Hreq.
  { unfold reqOK. destruct ex as [e|]; cbn [path_ok]; [apply andb_true_iff|tauto]. }
  set (hid := if q_Hidden req then _ else _).
  assert (path_ok hid q = true ↔ (q_Hidden req = true ∨ hiddenPath q = false) ∧ path_ok reqOK q = true) as Hhid.
  { unfold hid. destruct (q_Hidden req); cbn [path_ok]; [|rewrite andb_true_iff, negb_true_iff]; intuition discriminate. }
  rewrite (globMatcher_ok _ _ q Eg) in Hreq. rewrite (excludeInclude_ok _ _ _ q Ee) in Hreq.
  assert (∀ pm', path_ok pm' p = true ↔ has_prefix p subPrefix = true ∧ path_ok hid q = true →
    path_ok pm' p = true ↔ has_prefix p subPrefix = true ∧ (q_Hidden req = true ∨ hiddenPath q = false) ∧
    (q_Globs req = [] ∨ ∃ g, g ∈ q_Globs req ∧ (glob_ok g q = true ∨ glob_ok g (path_base q) = true)) ∧
    (globMatchAny (q_Include req) q = true ∨ globMatchAny (q_Exclude req) q = false)) as Hpm by (intros; tauto).
  unfold search_filter. set (pm' := if bool_decide (subPrefix = []) then hid else _).
  assert (path_ok pm' p = true ↔ has_prefix p subPrefix = true ∧ path_ok hid q = true) as Hsub.
  { unfold pm'. case_bool_decide as Hs.
    - unfold q, trim_prefix. rewrite Hs, has_prefix_nil_r. cbn. tauto.
    - cbn [path_ok]. apply andb_true_iff. }
  apply Hpm in Hsub. clear Hpm Hhid Hreq.
  destruct (q_Gitignore req).
  2: { rewrite Hsub. split; [intros (? & ? & ? & ?)|intros (? & ? & ? & ? & _)]; split_and!; auto. }
  cbn [path_ok].
  assert ((if bool_decide (subPrefix = []) then p else trim_prefix p subPrefix) = q) as ->.
  { case_bool_decide as Hs; [|done]. unfold q, trim_prefix. by rewrite Hs, has_prefix_nil_r. }
  assert (buildIncludeMatcher (q_Include req) q = globMatchAny (q_Include req) q) as ->.
  { unfold buildIncludeMatcher. by case_bool_decide as Hi; [rewrite Hi|]. }
  assert ((if (GitIgnored git ∅ p false).1 && negb (globMatchAny (q_Include req) q) then false else path_ok pm' p) = true ↔
    path_ok pm' p = true ∧ (globMatchAny (q_Include req) q = true ∨ (GitIgnored git ∅ p false).1 = false)) as ->.
  { destruct (GitIgnored git ∅ p false).1, (globMatchAny (q_Include req) q); cbn [negb andb];
      (split; [intros H; split; auto; discriminate|by intros [? [|]]]). }
  rewrite Hsub. split.
  - intros [(? & ? & ? & ?) ?]. split_and!; auto.
  - intros (? & ? & ? & ? & [|]); [discriminate|split_and!; auto].
Qed.

Lemma search_filter_spec_witness :
  let req := mkRequest (bs "search") (bs "/r") (bs "x") true false false true [bs "*.go"] 0 false 0
    [bs "gen/*"] [] false false false false false 0 in
  ∃ ok, req_filter req = inr ok ∧ path_ok (search_filter req (bs "a/") (λ _, None) ok) (bs "a/b/x.go") = true.
Proof.
  intros req. assert (match req_filter req with inl _ => false | inr _ => true end = true) as Hr by (vm_compute; reflexivity).
  destruct (req_filter req) as [e|ok] eqn:E; [discriminate Hr|].
  exists ok. split; [reflexivity|].
  apply (search_filter_spec req (bs "a/") (λ _, None) ok (bs "a/b/x.go") E).
  split; [vm_compute; reflexivity|]. split; [right; vm_compute; reflexivity|].
  split; [right; exists (bs "*.go"); split; [by left|right; vm_compute; reflexivity]|].
  split; [right; vm_compute; reflexivity|]. left. reflexivity.
Defined.

(** ** The stores *)

Section Stores.
Context `{MapOrder}.

(** No root lies below another of the same kind. *)
Definition not_nested (sv : Stores) : Prop :=
  ∀ r1 r2 f s1 s2, sv !! (r1, f) = Some s1 → sv !! (r2, f) = Some s2 → r1 ≠ r2 → covers r1 r2 = false.

Lemma find_store_Some (sv : Stores) test k s :
  find_store sv test = Some (k, s) → sv !! k = Some s ∧ test k = true.
Proof.
  unfold find_store. intros Hh. apply head_Some_elem_of in Hh.
  apply list_elem_of_filter in Hh as [Ht Hin]. by apply elem_of_range in Hin.
Qed.

Lemma find_store_None (sv : Stores) test k s :
  find_store sv test = None → sv !! k = Some s → test k = false.
Proof.
  unfold find_store. intros Hn%head_None Hk. destruct (test k) eqn:E; [|done].
  assert ((k, s) ∈ filter (λ ks : (bytes * bool) * RootStore, test ks.1 = true) (range sv)) as Hin
    by (apply list_elem_of_filter; split; [done|by apply elem_of_range]).
  rewrite Hn in Hin. by apply elem_of_nil in Hin.
Qed.

(** A request is served by a store whose root is its path or above it, of the same kind, or by a
    new store for the path; without --allow-nested, a new store is refused when a root lies below
    it, so no root of a kind ever lies below another. *)
Theorem store_not_nested (sv : Stores) path follow create sv' r :
  not_nested sv → store sv path follow false create = (sv', r) →
  not_nested sv' ∧
  match r with
  | inr s => ∃ root, sv' !! (root, follow) = Some s ∧ covers root path = true
  | inl _ => sv' = sv
  end.
Proof.
  intros Hn. unfold store. destruct (find_store _ _) as [[k s]|] eqn:Ef.
  - apply find_store_Some in Ef as [Hk [Hf%eqb_prop Hc]%andb_prop]. intros [= <- <-]. split; [done|].
    destruct k as [root f]. cbn in *. subst f. by exists root.
  - pose proof (λ k s, find_store_None sv _ k s Ef) as Hnone. cbn [negb andb].
    destruct (bool_decide (nested_roots sv path follow = [])) eqn:En; cbn [negb].
    + apply bool_decide_eq_true in En. destruct create as [s|]; intros [= <- <-]; [|done]. split.
      * assert (∀ r s', sv !! (r, follow) = Some s' → has_prefix r (path ++ [slash]) = false) as Hbelow.
        { intros root s' Hr. destruct (has_prefix _ _) eqn:E; [|done]. exfalso.
          assert (root ∈ nested_roots sv path follow) as Hin; [|rewrite En in Hin; by apply elem_of_nil in Hin].
          unfold nested_roots. rewrite (merge_sort_Permutation bytes_le). apply list_elem_of_omap.
          exists ((root, follow), s'). split; [by apply elem_of_range|]. cbn. by rewrite eqb_reflx, E. }
        intros r1 r2 f s1 s2 H1%lookup_insert_Some H2%lookup_insert_Some Hne.
        destruct H1 as [[E1 _]|[_ H1]], H2 as [[E2 _]|[_ H2]]; simplify_eq.
        -- unfold covers. rewrite bool_decide_eq_false_2 by done. by eapply Hbelow.
        -- specialize (Hnone _ _ H1). cbn in Hnone. by rewrite eqb_reflx in Hnone.
        -- by eapply Hn.
      * exists path. rewrite lookup_insert_eq. split; [done|]. unfold covers. by rewrite bool_decide_eq_true_2.
    + by intros [= <- <-].
Qed.

(** Forgetting a root keeps its other kind: when both are there, one of the two stays. *)
Theorem forget_one_kind (sv : Stores) root s1 s2 :
  sv !! (root, false) = Some s1 → sv !! (root, true) = Some s2 →
  ∃ f, (handleForget sv root).2 = Some (root, f) ∧ is_Some ((handleForget sv root).1 !! (root, negb f)).
Proof.
  intros H1 H2. unfold handleForget. destruct (find_store _ _) as [[[r f] s]|] eqn:Ef.
  - apply find_store_Some in Ef as [Hk Hr%bool_decide_eq_true]. cbn in Hr. subst r. exists f. split; [done|].
    cbn. rewrite lookup_delete_ne by (intros [= ?]; by destruct f). destruct f; cbn; eauto.
  - apply (find_store_None _ _ _ _ Ef) in H1. cbn in H1. by rewrite bool_decide_eq_true_2 in H1.
Qed.
End Stores.

Lemma store_not_nested_witness :
  let s := mkStore (bs "/r/a") false (Default 1) (bs "mem") None None [] None ∅ StateReady 0 0 (mkSkipped 0 0 0 0) 0 in
  let sv := {[ (bs "/r/a", false) := s ]} : Stores in
  not_nested sv ∧ not_nested (@store tree_order sv (bs "/r") false false (Some s)).1 ∧
  (@store tree_order sv (bs "/r") false false (Some s)).2 = inl (NestedRoots [bs "/r/a"]).
Proof.
  intros s sv. assert (not_nested sv) as Hn.
  { intros r1 r2 f s1 s2 [[= <- <-] _]%lookup_singleton_Some [[= <-] _]%lookup_singleton_Some ?. done. }
  split; [exact Hn|]. split.
  - exact (proj1 (@store_not_nested tree_order sv (bs "/r") false (Some s) _ _ Hn (surjective_pairing _))).
  - vm_compute. reflexivity.
Defined.

(** ** A counting search, end to end *)

(** A file within the size asked for. *)
Definition size_ok (req : Request) (n : Z) : Prop :=
  negb ((0 <? q_MaxFilesize req)%Z && (q_MaxFilesize req <? n)%Z) = true.

Section Count.
Context `{MapOrder} `{UnicodeCase} `{RE : RegexpEngine} `{RS : !RegexpString} `{SymbolExtractor}.

Lemma StreamList_elem s maxFilesize pm p n :
  mkSF p n ∈ StreamList s maxFilesize pm ↔
  ∃ e, st_stream s !! p = Some e ∧ stream_passes maxFilesize pm p e = true ∧ n = se_size e.
Proof.
  unfold StreamList. rewrite (merge_sort_Permutation sf_le), list_elem_of_omap. split.
  - intros ([q e] & Hin%elem_of_range & He). cbn in He. destruct (stream_passes _ _ _ _) eqn:E; [|done].
    injection He as -> <-. by exists e.
  - intros (e & He & Hp & ->). exists (p, e). split; [by apply elem_of_range|]. cbn. by rewrite Hp.
Qed.

Lemma ascii_no_high lit : ascii lit → HasNonASCII lit = false.
Proof.
  intros Ha. unfold HasNonASCII. induction Ha as [|b lit Hb _ IH]; [done|]. cbn.
  unfold is_ascii in Hb. apply Z.ltb_lt in Hb. rewrite bool_decide_eq_false_2 by lia. done.
Qed.

(** The matcher of a fixed ASCII pattern: the pattern itself, folded when case is ignored. *)
Lemma MatcherFor_fixed pattern nocase m :
  ascii pattern → MatcherFor pattern true nocase = Some m →
  PlainLit m = pattern ∧ Fold m = nocase ∧ is_Some (Re m).
Proof.
  intros Ha. unfold MatcherFor. destruct (regexp_Compile _) as [re|]; [|done]. cbn [mbind option_bind PlainLiteral].
  rewrite ascii_no_high by done. destruct nocase; cbn [negb];
    destruct (pickRareByte pattern); intros [= <-]; by split_and!.
Qed.

(** The pruning literal of a fixed pattern. *)
Lemma fixed_prunes (ix : Index) re (opts : SearchOpts) pattern lit :
  pattern ≠ [] → ascii pattern → o_PlainLiteral opts = pattern →
  ExtractLiteral pattern true = Some lit → o_Literal opts = lit → prunes_soundly ix re opts.
Proof.
  intros Hne Ha Hp. unfold ExtractLiteral. intros [= <-] Hl.
  destruct (Nat.ltb_spec (length pattern) 3).
  - intros p f _ _ k. rewrite Hl. intros Hk. by apply has_tri_nil in Hk.
  - apply literal_prunes_soundly; by rewrite ?Hp.
Qed.

(** The counts of a fixed pattern: the indexed files that pass the filters and hold it. *)
Definition file_counts (ix : Index) (req : Request) (pm : option (bytes → bool)) (p : bytes) (n : nat) : Prop :=
  ∃ f locs, contents ix !! p = Some f ∧ size_ok req (Size (e_meta f)) ∧ path_ok pm p = true ∧
    literalFindAll (e_content f) (q_Pattern req) (q_NoCase req) = Some locs ∧ locs ≠ [] ∧ n = length locs.

Lemma fixed_Search c ix req m re pm lit :
  index_ok ix → q_Pattern req ≠ [] → ascii (q_Pattern req) → (q_Limit req ≤ 0)%Z ∨ q_Count req = true →
  MatcherFor (q_Pattern req) true (q_NoCase req) = Some m → Re m = Some re →
  ExtractLiteral (q_Pattern req) true = Some lit →
  ∃ res, IndexSearch.Search ix re (search_opts c req m lit pm) = Some res ∧ Truncated res = false ∧
    ∀ p n, FileCounts res !! p = Some n ↔ file_counts ix req pm p n.
Proof.
  intros Hok Hne Ha Hlim Hm Hre Hx. destruct (MatcherFor_fixed _ _ _ Ha Hm) as (Hpl & Hfold & _).
  set (opts := search_opts c req m lit pm).
  assert (o_PlainLiteral opts = q_Pattern req) as Hlit by exact Hpl.
  destruct (Search_spec ix re opts) as (res & -> & Ht & Hc & _);
    [done|apply literal_locs_ok; by rewrite Hlit|by apply (fixed_prunes ix re opts (q_Pattern req) lit)| |].
  { destruct Hlim as [?|Hq]; [by left|right]. unfold opts, search_opts. cbn [o_FilesOnly]. by rewrite Hq, orb_true_r. }
  exists res. split_and!; [done|done|]. intros p n.
  rewrite Hc. unfold hit_locs, content_locs, entry_passes. rewrite Hlit.
  rewrite bool_decide_eq_false_2 by done. change (o_FoldCase opts) with (Fold m). rewrite Hfold. split.
  - intros (f & Hf' & Hh & ->). pose proof (proj1 (contents_elem ix p f Hok) Hf') as [[Hdead _]%list_elem_of_filter Hp].
    rewrite Hdead, Hp in *. cbn [orb] in *.
    destruct (_ && path_ok _ _) eqn:E; cbn [negb] in Hh |- *; [|done]. apply andb_prop in E as [E1 E2].
    destruct (literalFindAll_spec (e_content f) (q_Pattern req) (q_NoCase req) Hne) as (locs & Hl & _).
    rewrite Hl in *. exists f, locs. done.
  - intros (f & locs & Hf' & Hs & Hp & Hl & Hn & ->). exists f. split; [done|].
    pose proof (proj1 (contents_elem ix p f Hok) Hf') as [[Hdead _]%list_elem_of_filter Hpath].
    rewrite Hdead, Hpath. unfold size_ok in Hs. change (o_PathMatch opts) with pm.
    change (o_MaxFileSize opts) with (q_MaxFilesize req). by rewrite Hs, Hp, Hl.
Qed.

(** The counts among events; the total of an answer is their sum. *)
Definition event_counts (evs : list Event) : list nat :=
  omap (λ ev, match ev with EvFileCount _ n => Some n | _ => None end) evs.

Lemma result_total req subPrefix res :
  q_Count req = true →
  sum_list (event_counts (result_events req subPrefix res)) = sum_list (range (FileCounts res)).*2.
Proof.
  intros Hc. unfold result_events. rewrite Hc. cbn [orb]. unfold event_counts.
  set (count := λ p, default 0 (FileCounts res !! p)).
  trans (sum_list (count <$> merge_sort bytes_le (range (FileCounts res)).*1)).
  - f_equal. induction (merge_sort bytes_le _) as [|p l IH]; [done|]. cbn. by rewrite IH.
  - rewrite (sum_list_with_Permutation_proper id _ (count <$> (range (FileCounts res)).*1))
      by (apply fmap_Permutation, merge_sort_Permutation).
    f_equal. assert (∀ p n, (p, n) ∈ range (FileCounts res) → FileCounts res !! p = Some n) as Hr
      by (intros p n; by rewrite elem_of_range).
    induction (range (FileCounts res)) as [|[p n] l IH]; [done|]. cbn. unfold count at 1. rewrite (Hr p n) by left.
    cbn. f_equal. apply IH. intros q k Hq. apply Hr. by right.
Qed.

Lemma event_counts_app a b : event_counts (a ++ b) = event_counts a ++ event_counts b.
Proof. apply omap_app. Qed.

Lemma stream_counts_nil {A} (f : A → Event) l : (∀ x, ∃ p n, f x = EvStreamFile p n) → event_counts (map f l) = [].
Proof. intros Hf. induction l as [|x l IH]; [done|]. cbn. destruct (Hf x) as (p & n & ->). exact IH. Qed.

Lemma handleSearch_count_spec c w git s ix subPrefix order req m reqOK :
  st_disk s = None → st_idx s = Some ix → index_ok ix →
  q_Fixed req = true → ascii (q_Pattern req) → q_Pattern req ≠ [] → q_Count req = true →
  MatcherFor (q_Pattern req) true (q_NoCase req) = Some m → req_filter req = inr reqOK →
  let pm := search_filter req subPrefix git reqOK in
  ∃ evs hits, handleSearch c w git s subPrefix order req =
      Some (evs ++ [EvDone (sum_list (event_counts evs)) hits false]) ∧
    (∀ file n, EvFileCount file n ∈ evs ↔ ∃ p, file = trim_prefix p subPrefix ∧ file_counts ix req pm p n) ∧
    (∀ file n, EvStreamFile file n ∈ evs ↔ ∃ p e, file = trim_prefix p subPrefix ∧ st_stream s !! p = Some e ∧
       size_ok req (se_size e) ∧ path_ok pm p = true ∧ n = se_size e) ∧
    Forall (λ ev, match ev with EvFileCount _ _ | EvStreamFile _ _ => True | _ => False end) evs.
Proof.
  intros Hd Hi Hok Hfix Ha Hne Hcount Hm Hf pm.
  destruct (MatcherFor_fixed _ _ _ Ha Hm) as (_ & _ & [re Hre]).
  unfold handleSearch. rewrite Hfix, Hm. destruct (ExtractLiteral (q_Pattern req) true) as [lit|] eqn:Hx; [|done].
  cbn [mbind option_bind]. rewrite Hf, Hre. cbn [mbind option_bind]. unfold engine_search. rewrite Hd, Hi.
  cbn [mbind option_bind]. fold pm. destruct (fixed_Search c ix req m re pm lit) as (res & -> & Ht & Hc);
    [done|done|done|by right|done..|].
  cbn [mbind option_bind]. rewrite Ht, app_assoc, <-(result_total req subPrefix) by done.
  set (streams := map (λ sf, EvStreamFile _ _) _).
  exists (result_events req subPrefix res ++ streams), (size (FileCounts res)). split.
  { rewrite event_counts_app. unfold streams. rewrite stream_counts_nil by (intros x; by eexists _, _).
    by rewrite app_nil_r. }
  unfold streams.
  unfold result_events. rewrite Hcount. cbn [orb].
  split_and!; [intros file n; rewrite elem_of_app, !list_elem_of_fmap..|].
  - split.
    + intros [(p & [= -> ->] & Hp)|(sf & [=] & _)]. rewrite (merge_sort_Permutation bytes_le) in Hp.
      apply list_elem_of_fmap in Hp as ([q k] & -> & Hk%elem_of_range). cbn [fst].
      rewrite Hk. exists q. split; [done|]. by apply Hc.
    + intros (p & -> & Hk%Hc). left. exists p. split; [by rewrite Hk|]. rewrite (merge_sort_Permutation bytes_le).
      apply list_elem_of_fmap. exists (p, n). split; [done|]. by apply elem_of_range.
  - split.
    + intros [(p & [=] & _)|([p k] & [= -> ->] & Hin)]. apply StreamList_elem in Hin as (e & He & [Hs Hp]%andb_prop & ->).
      exists p, e. done.
    + intros (p & e & -> & He & Hs & Hp & ->). right. exists (mkSF p (se_size e)). split; [done|].
      apply StreamList_elem. exists e. split_and!; [done| |done]. unfold stream_passes. by rewrite Hs, Hp.
  - apply Forall_app; split; by apply Forall_map, Forall_forall.
Qed.

(** C21. A counting search of a literal with the in-memory engine, end to end: for a fixed
    non-empty ASCII pattern that compiles and valid globs, whatever the limit, the answer has one count for each indexed file
    that passes the size and path filters and holds the literal, with the number of its
    occurrences, under its path below the requested directory; it announces exactly the files of
    the stream manifest that pass the same filters; it ends with the sum of the counts. *)
Theorem handleSearch_count c w git s ix subPrefix order req m reqOK :
  st_disk s = None → st_idx s = Some ix → index_ok ix →
  q_Fixed req = true → ascii (q_Pattern req) → q_Pattern req ≠ [] → q_Count req = true →
  MatcherFor (q_Pattern req) true (q_NoCase req) = Some m → req_filter req = inr reqOK →
  let pm := search_filter req subPrefix git reqOK in
  let strip := λ p, trim_prefix p subPrefix in
  ∃ evs hits, handleSearch c w git s subPrefix order req =
      Some (evs ++ [EvDone (sum_list (event_counts evs)) hits false]) ∧
    (∀ file n, EvFileCount file n ∈ evs ↔ ∃ p f locs, file = strip p ∧ contents ix !! p = Some f ∧
       size_ok req (Size (e_meta f)) ∧ path_ok pm p = true ∧
       literalFindAll (e_content f) (q_Pattern req) (q_NoCase req) = Some locs ∧ locs ≠ [] ∧ n = length locs) ∧
    (∀ file n, EvStreamFile file n ∈ evs ↔ ∃ p e, file = strip p ∧ st_stream s !! p = Some e ∧
       size_ok req (se_size e) ∧ path_ok pm p = true ∧ n = se_size e).
Proof.
  intros Hd Hi Hok Hfix Ha Hne Hcount Hm Hf pm strip.
  destruct (handleSearch_count_spec c w git s ix subPrefix order req m reqOK) as (evs & hits & Hs & Hc & Hst & _); [done..|].
  exists evs, hits. split_and!; [done| |done]. intros file n. rewrite Hc. unfold file_counts. split.
  - intros (p & Hp & f & locs & Hrest). by exists p, f, locs.
  - intros (p & f & locs & Hp & Hrest). exists p. split; [done|]. by exists f, locs.
Qed.
End Count.

Lemma handleSearch_count_witness :
  let req := mkRequest (bs "search") (bs "/r") (bs "hello") true true false true [bs "*.txt"] 0 false 0
    [] [] false false false false false 0 in
  ∃ w s evs hits,
    @handleSearch tree_order latin1_case (one_engine hello_re) (Build_RegexpString (one_engine hello_re) (λ _, []))
      (Default 1) w (λ _, None) s [] [] req =
      Some (evs ++ [EvDone (sum_list (event_counts evs)) hits false]) ∧
    EvFileCount (bs "c.txt") 2 ∈ evs.
Proof.
  intros req.
  destruct (@run_updates_spec tree_order no_symbols (New (bs "/r")) demo_updates) as (ix & _ & Hok & Hc);
    [apply New_ok|vm_compute; discriminate|].
  set (w := mkWorld (λ _, None) (λ _, inr ErrOther) (λ _, inr ErrOther) (λ _, None) (λ _, inr ErrOther)).
  set (s := mkStore (bs "/r") false (Default 1) (bs "mem") (Some ix) None [] None ∅ StateReady 0 0 (mkSkipped 0 0 0 0) 0).
  assert (match req_filter req with inl _ => false | inr _ => true end = true) as Hr by (vm_compute; reflexivity).
  assert (path_ok (search_filter req [] (λ _, None) match req_filter req with inr ok => ok | inl _ => None end)
    (bs "c.txt") = true) as Hp by (vm_compute; reflexivity).
  destruct (req_filter req) as [e|ok] eqn:E; [discriminate Hr|].
  destruct (@handleSearch_count tree_order latin1_case (one_engine hello_re)
    (Build_RegexpString (one_engine hello_re) (λ _, [])) (Default 1) w (λ _, None) s ix [] [] req
    (@mkMatcher (one_engine hello_re) (Some tt) (bs "hello") true (chr "h") true) ok) as (evs & hits & Hs & Hcnt & _);
    [reflexivity|reflexivity|exact Hok|reflexivity|repeat (constructor; [reflexivity|]); constructor|discriminate
    |reflexivity|vm_compute; reflexivity|exact E|].
  exists w, s, evs, hits. split; [exact Hs|]. apply Hcnt.
  exists (bs "c.txt"), (mkEntry (mkMeta (bs "c.txt") 11 1) (bs "hello" ++ newline :: bs "hello") [] false), [(0, 5); (6, 11)].
  split; [reflexivity|]. split; [rewrite Hc; vm_compute; reflexivity|]. split; [reflexivity|].
  split; [exact Hp|]. split; [vm_compute; reflexivity|]. split; [discriminate|reflexivity].
Defined.
