(* ===== verification/Client.v ===== *)
(** * The command line client: cmd/gcgrep

    [streamSearch] reads the events of the daemon, prints what they report and, when the
    last one arrives, scans the files of the stream manifest from disk.  The output is
    the list of the events shown; [show] is the text of one.  Flags, the connection and
    the standard error are not here.  [None] is a panic. *)

From S2P Require Import Prelude GoBytes Text GoPath Lines Ignore Walk Conf Regexp Literal Matcher.
From S2P Require Import Index IndexSearch Scan Codec Shard Engine Decimal Symbol Store Server.

(** ** Sizes: [parseSize] *)

Definition size_suffix (c : byte) : option Z :=
  if bool_decide (c ∈ [x6b; x4b]) then Some (2 ^ 10)%Z
  else if bool_decide (c ∈ [x6d; x4d]) then Some (2 ^ 20)%Z
  else if bool_decide (c ∈ [x67; x47]) then Some (2 ^ 30)%Z
  else None.

(** The loop over the digits, on an [int64]. *)
Fixpoint size_digits (n : Z) (s : bytes) : option Z :=
  match s with
  | [] => Some n
  | c :: s => if in_range 48 57 c then size_digits (i64 (n * 10 + (b2z c - 48))) s else None
  end.

(** [parseSize]: [None] is an error. *)
Definition parseSize (s : bytes) : option Z :=
  match last s with
  | None => Some 0%Z
  | Some c =>
      let '(mult, s) := match size_suffix c with
                        | Some k => (k, take (length s - 1) s)
                        | None => (1%Z, s)
                        end in
      if bool_decide (s = []) then None
      else n ← size_digits 0 s; Some (i64 (n * mult))
  end.

(** ** Scanning stream files: cmd/gcgrep/stream.go *)

Record streamScan := mkScan {
  ss_out : list Event;
  ss_limitLeft : Z;
  ss_matches : nat;
  ss_fileHits : nat;
  ss_truncated : bool;
  ss_unreadable : nat;
}.

Section Client.
Context `{RegexpEngine}.

(** [filesOnly] *)
Definition filesOnly (req : Request) : bool := q_Files req || q_Count req.

(** [emitFileCount] *)
Definition emitFileCount (req : Request) (rel : bytes) (count : nat) : Event :=
  EvFileCount rel (if q_Count req then count else 0).

(** [emitMatch] *)
Definition emitMatch (displayCols : Z) (ss : streamScan) (rel : bytes) (ln : nat) (text : bytes) (col : nat)
  : option streamScan :=
  rendered ← TruncateWindow text (Z.of_nat col) displayCols;
  Some (mkScan (ss_out ss ++ [EvMatch rel ln rendered 0 0])
          (if (0 <? ss_limitLeft ss)%Z then ss_limitLeft ss - 1 else ss_limitLeft ss)%Z
          (ss_matches ss) (ss_fileHits ss) (ss_truncated ss) (ss_unreadable ss)).

Definition set_truncated (ss : streamScan) : streamScan :=
  mkScan (ss_out ss) (ss_limitLeft ss) (ss_matches ss) (ss_fileHits ss) true (ss_unreadable ss).
Definition add_unreadable (ss : streamScan) : streamScan :=
  mkScan (ss_out ss) (ss_limitLeft ss) (ss_matches ss) (ss_fileHits ss) (ss_truncated ss) (S (ss_unreadable ss)).

(** The loop of [scanFile]: the number of matches and the state. *)
Fixpoint scanFile_loop (fuel : nat) (req : Request) (mat : Matcher) (displayCols : Z) (rel r : bytes)
    (lineNo fileMatches : nat) (ss : streamScan) : option (nat * streamScan) :=
  match fuel with
  | O => None
  | S fuel =>
      let '(line, r, eof) := ReadBytes r in
      let next lineNo fileMatches ss :=
        if eof then Some (fileMatches, ss) else scanFile_loop fuel req mat displayCols rel r lineNo fileMatches ss in
      if bool_decide (line = []) then next lineNo fileMatches ss
      else
        let lineNo := S lineNo in
        let line := trim_newline line in
        loc ← FindFirst mat line;
        match loc with
        | None => next lineNo fileMatches ss
        | Some (a, _) =>
            let fileMatches := S fileMatches in
            if negb (filesOnly req) then
              if bool_decide (ss_limitLeft ss = 0%Z) then Some (fileMatches, set_truncated ss)
              else ss ← emitMatch displayCols ss rel lineNo line a; next lineNo fileMatches ss
            else if q_Files req then Some (fileMatches, ss)
            else next lineNo fileMatches ss
        end
  end.

(** [scanFile]; [file] is the content on disk, [None] when it cannot be opened. *)
Definition scanFile (req : Request) (mat : Matcher) (displayCols : Z) (file : option bytes) (rel : bytes)
    (ss : streamScan) : option streamScan :=
  match file with
  | None => Some (add_unreadable ss)
  | Some content =>
      if isBinary content && negb (q_Text req) then Some ss
      else
        '(n, ss) ← scanFile_loop (S (length content)) req mat displayCols rel content 0 0 ss;
        if 0 <? n then
          let out := if filesOnly req then [emitFileCount req rel n] else [] in
          Some (mkScan (ss_out ss ++ out) (ss_limitLeft ss) (ss_matches ss + n) (S (ss_fileHits ss))
                  (ss_truncated ss) (ss_unreadable ss))
        else Some ss
  end.

(** The loop of [scanStreams]. *)
Fixpoint scan_streams (req : Request) (mat : Matcher) (displayCols : Z) (read : bytes → option bytes)
    (files : list bytes) (ss : streamScan) : option streamScan :=
  match files with
  | [] => Some ss
  | rel :: files =>
      if bool_decide (ss_limitLeft ss = 0%Z) && negb (filesOnly req) then Some (set_truncated ss)
      else ss ← scanFile req mat displayCols (read rel) rel ss; scan_streams req mat displayCols read files ss
  end.

(** [scanStreams] *)
Definition scanStreams (req : Request) (displayCols limitLeft : Z) (read : bytes → option bytes)
    (files : list bytes) : option streamScan :=
  let ss := mkScan [] limitLeft 0 0 false 0 in
  if bool_decide (files = []) then Some ss
  else match MatcherFor (q_Pattern req) (q_Fixed req) (q_NoCase req) with
       | None => Some ss
       | Some m => scan_streams req m displayCols read files ss
       end.

(** ** Rendering: [lineReader] *)

(** The file read last, none before the first one, and its lines. *)
Definition lineReader : Type := option bytes * list bytes.

(** [render]; reading fails with the text of its error. *)
Definition render (read : bytes → bytes + bytes) (lr : lineReader) (path : bytes) (line col lineLen : nat)
    (maxCols : Z) : option (lineReader * bytes) :=
  let loaded := if bool_decide (lr.1 = Some path) then inl lr
                else match read path with
                     | inl content => inl (Some path, lines content)
                     | inr err => inr err
                     end in
  match loaded with
  | inr err => Some (lr, bs "[line unavailable: " ++ err ++ bs ", " ++ dec lineLen ++ bs " bytes]")
  | inl lr =>
      match (if bool_decide (1 ≤ line) then lr.2 !! (line - 1) else None) with
      | Some l =>
          if bool_decide (length l = lineLen) then
            text ← TruncateWindow l (Z.of_nat col) maxCols; Some (lr, text)
          else Some (lr, bs "[line changed on disk, " ++ dec lineLen ++ bs " bytes at match time]")
      | None => Some (lr, bs "[line changed on disk, " ++ dec lineLen ++ bs " bytes at match time]")
      end
  end.

(** ** The event loop: [streamSearch] *)

Record clientState := mkClient {
  cl_out : list Event;
  cl_matched : bool;
  cl_streams : list bytes;
  cl_recv : nat;
  cl_lr : lineReader;
}.

(** [limitLeft] *)
Definition limitLeft (req : Request) (recv : nat) : Z :=
  if (q_Limit req <=? 0)%Z then (-1)%Z
  else let left := (q_Limit req - Z.of_nat recv)%Z in if (0 <? left)%Z then left else 0%Z.

Definition show_event (cl : clientState) (ev : Event) (matched : bool) (recv : nat) : clientState :=
  mkClient (cl_out cl ++ [ev]) (cl_matched cl || matched) (cl_streams cl) (cl_recv cl + recv) (cl_lr cl).

(** One event: the state, or the exit code when the loop ends. *)
Definition client_event (req : Request) (jsonOut : bool) (displayCols : Z) (read : bytes → bytes + bytes)
    (cl : clientState) (ev : Event) : option (clientState + list Event * Z) :=
  let open := λ p, match read p with inl c => Some c | inr _ => None end in
  match ev with
  | EvStreamFile file _ =>
      Some (inl (mkClient (cl_out cl) (cl_matched cl) (cl_streams cl ++ [file]) (cl_recv cl) (cl_lr cl)))
  | EvDone n hits trunc =>
      ss ← scanStreams req displayCols (limitLeft req (cl_recv cl)) open (cl_streams cl);
      let out := cl_out cl ++ ss_out ss in
      let found := if jsonOut then 0 <? n + ss_matches ss
                   else cl_matched cl || (0 <? ss_matches ss) || (0 <? n) in
      let dones := if jsonOut
                   then [EvDone (n + ss_matches ss) (hits + ss_fileHits ss) (trunc || ss_truncated ss)]
                   else [] in
      Some (inr (out ++ dones, if found then 0%Z else 1%Z))
  | EvError _ => Some (inr (if jsonOut then cl_out cl ++ [ev] else cl_out cl, 2%Z))
  | EvMatch file ln text col lineLen =>
      if jsonOut then Some (inl (show_event cl ev false 1))
      else if bool_decide (text = []) && (0 <? lineLen) then
        '(lr, text) ← render read (cl_lr cl) file ln col lineLen displayCols;
        Some (inl (show_event (mkClient (cl_out cl) (cl_matched cl) (cl_streams cl) (cl_recv cl) lr)
                     (EvMatch file ln text 0 0) true 1))
      else Some (inl (show_event cl ev true 1))
  | EvSymbol _ _ _ _ _ _ => Some (inl (show_event cl ev (negb jsonOut) 1))
  | EvFileCount _ _ => Some (inl (show_event cl ev (negb jsonOut) 0))
  end.

(** The loop: the events shown and the exit code; 2 when the connection is lost. *)
Fixpoint client_loop (req : Request) (jsonOut : bool) (displayCols : Z) (read : bytes → bytes + bytes)
    (evs : list Event) (cl : clientState) : option (list Event * Z) :=
  match evs with
  | [] => Some (cl_out cl, 2%Z)
  | ev :: evs =>
      r ← client_event req jsonOut displayCols read cl ev;
      match r with
      | inl cl => client_loop req jsonOut displayCols read evs cl
      | inr res => Some res
      end
  end.

(** [streamSearch], given the events of the connection and the configured width. *)
Definition streamSearch (c : Config) (req : Request) (jsonOut : bool) (read : bytes → bytes + bytes)
    (evs : list Event) : option (list Event * Z) :=
  let displayCols := if bool_decide (q_MaxColumns req = 0%Z) then MaxColumns c else q_MaxColumns req in
  client_loop req jsonOut displayCols read evs (mkClient [] false [] 0 (None, [])).

(** The text printed for an event, after the prefix of the path argument. *)
Definition show (req : Request) (prefix : bytes) (ev : Event) : bytes :=
  match ev with
  | EvMatch file ln text _ _ => prefix ++ file ++ bs ":" ++ dec ln ++ bs ":" ++ text ++ [newline]
  | EvSymbol file ln text kind container name =>
      let qual := if negb (bool_decide (container = [])) then kind ++ bs " " ++ container ++ bs "." ++ name
                  else if negb (bool_decide (name = [])) && negb (bool_decide (kind ∈ [bs "call"; bs "ref"]))
                       then kind ++ bs " " ++ name else kind in
      prefix ++ file ++ bs ":" ++ dec (Z.to_nat ln) ++ bs ": [" ++ qual ++ bs "] " ++ TrimSpace text ++ [newline]
  | EvFileCount file n =>
      if q_Count req then prefix ++ file ++ bs ":" ++ dec n ++ [newline] else prefix ++ file ++ [newline]
  | _ => []
  end.
End Client.

(** ** Scanning a stream file *)

(** The options of a scan that keeps every line. *)
Definition scan_opts : SearchOpts := mkOpts [] None false 0 [] false 0 0.

(** The matching lines of a content. *)
Definition stream_hits `{RegexpEngine} (mat : Matcher) (rel content : bytes) : list Lines.Match :=
  hits_from rel mat scan_opts 1 (text_lines content).

Definition window (displayCols : Z) (m : Lines.Match) : bytes :=
  default [] (TruncateWindow (m_Text m) (Z.of_nat (m_Col m)) displayCols).

(** The event of a matching line. *)
Definition stream_event (displayCols : Z) (m : Lines.Match) : Event :=
  EvMatch (m_Path m) (m_Line m) (window displayCols m) 0 0.

(** How many of [n] lines a budget leaves; a negative budget is no limit. *)
Definition within (limitLeft : Z) (n : nat) : nat :=
  if (limitLeft <? 0)%Z then n else n `min` Z.to_nat limitLeft.

(** The matches [scanFile] counts for [n] matching lines. *)
Definition counted (req : Request) (limitLeft : Z) (n : nat) : nat :=
  if filesOnly req then (if q_Files req then n `min` 1 else n)
  else if (limitLeft <? 0)%Z then n else n `min` S (Z.to_nat limitLeft).

(** What [scanFile] adds for the matching lines [hs] of a file. *)
Definition scanned (req : Request) (displayCols : Z) (rel : bytes) (hs : list Lines.Match) (ss : streamScan)
  : streamScan :=
  if bool_decide (hs = []) then ss
  else
    let L := ss_limitLeft ss in
    let n := length hs in
    let out := if filesOnly req
               then [EvFileCount rel (if q_Count req then counted req L n else 0)]
               else stream_event displayCols <$> take (within L n) hs in
    mkScan (ss_out ss ++ out)
      (if filesOnly req || (L <? 0)%Z then L else L - Z.of_nat (within L n))%Z
      (ss_matches ss + counted req L n) (S (ss_fileHits ss))
      (ss_truncated ss || negb (filesOnly req) && (within L n <? n)) (ss_unreadable ss).

Lemma TruncateWindow_total line off cols : TruncateWindow line off cols = Some (default [] (TruncateWindow line off cols)).
Proof.
  destruct (decide (0 < cols)%Z) as [H0|H0], (decide (cols < len line)%Z) as [H1|H1].
  { destruct (TruncateWindow_window line off cols H0 H1) as (? & _ & _ & _ & ? & _ & _ & ->). done. }
  all: unfold TruncateWindow.
  - by rewrite (proj2 (Z.leb_le (len line) cols)), orb_true_r by lia.
  - by rewrite (proj2 (Z.leb_le cols 0)) by lia.
  - by rewrite (proj2 (Z.leb_le cols 0)) by lia.
Qed.

(** What the loop of [scanFile] adds for the matching lines [hs]. *)
Definition loop_out (req : Request) (displayCols : Z) (hs : list Lines.Match) (ss : streamScan) : streamScan :=
  if filesOnly req then ss
  else
    let L := ss_limitLeft ss in
    mkScan (ss_out ss ++ (stream_event displayCols <$> take (within L (length hs)) hs))
      (if L <? 0 then L else L - Z.of_nat (within L (length hs)))%Z
      (ss_matches ss) (ss_fileHits ss) (ss_truncated ss || (within L (length hs) <? length hs))
      (ss_unreadable ss).

Section ScanFile.
Context `{RegexpEngine} (req : Request) (mat : Matcher) (displayCols : Z) (rel : bytes).
Hypothesis Hmat : matcher_ok mat.

Lemma loop_out_nil ss : loop_out req displayCols [] ss = ss.
Proof.
  unfold loop_out, within. destruct (filesOnly req); [done|]. destruct ss as [o L m h t u]. simpl.
  destruct (Z.ltb_spec L 0); simpl; rewrite app_nil_r, orb_false_r; f_equal; lia.
Qed.

(** The state after a line is shown. *)
Definition shown (m : Lines.Match) (ss : streamScan) : streamScan :=
  mkScan (ss_out ss ++ [stream_event displayCols m])
    (if 0 <? ss_limitLeft ss then ss_limitLeft ss - 1 else ss_limitLeft ss)%Z
    (ss_matches ss) (ss_fileHits ss) (ss_truncated ss) (ss_unreadable ss).

Lemma emitMatch_shown ss n line a :
  emitMatch displayCols ss rel n line a = Some (shown (line_match rel scan_opts n line a) ss).
Proof. unfold emitMatch. by rewrite TruncateWindow_total. Qed.

Lemma within_S L n : L ≠ 0%Z → within L (S n) = S (within (if 0 <? L then L - 1 else L)%Z n).
Proof.
  intros HL. unfold within. destruct (Z.ltb_spec 0 L), (Z.ltb_spec L 0); try lia.
  destruct (Z.ltb_spec (L - 1) 0); lia.
Qed.

Lemma counted_S L n :
  L ≠ 0%Z → filesOnly req = false →
  counted req L (S n) = S (counted req (if 0 <? L then L - 1 else L)%Z n).
Proof.
  intros HL Hf. unfold counted. rewrite Hf. destruct (Z.ltb_spec 0 L), (Z.ltb_spec L 0); try lia.
  destruct (Z.ltb_spec (L - 1) 0); lia.
Qed.

Lemma loop_out_cons m hs ss :
  ss_limitLeft ss ≠ 0%Z → filesOnly req = false →
  loop_out req displayCols hs (shown m ss) = loop_out req displayCols (m :: hs) ss.
Proof.
  intros HL Hf. unfold loop_out. rewrite Hf. cbn [length].
  rewrite (within_S _ _ HL). cbn [ss_limitLeft shown ss_out ss_matches ss_fileHits ss_truncated ss_unreadable
    take fmap list_fmap].
  rewrite <-app_assoc. f_equal.
  destruct (Z.ltb_spec 0 (ss_limitLeft ss)).
  - rewrite !(proj2 (Z.ltb_ge _ 0)) by lia. lia.
  - by rewrite (proj2 (Z.ltb_lt (ss_limitLeft ss) 0)) by lia.
Qed.

Lemma loop_out_stop m hs ss :
  ss_limitLeft ss = 0%Z → filesOnly req = false →
  loop_out req displayCols (m :: hs) ss = set_truncated ss ∧ counted req (ss_limitLeft ss) (length (m :: hs)) = 1.
Proof.
  intros HL Hf. unfold loop_out, counted, within, set_truncated. rewrite Hf, HL. simpl.
  rewrite app_nil_r, orb_true_r. split; [done|lia].
Qed.

(** One iteration: the line [line] of the content, and what follows. *)
Lemma scan_line_step lineNo k line ls ss (rest : nat → streamScan → option (nat * streamScan)) :
  let hs := hits_from rel mat scan_opts (S lineNo) (line :: ls) in
  let hs' := hits_from rel mat scan_opts (S (S lineNo)) ls in
  (∀ k ss, rest k ss = Some (k + counted req (ss_limitLeft ss) (length hs'), loop_out req displayCols hs' ss)) →
  (loc ← FindFirst mat line;
   match loc with
   | None => rest k ss
   | Some (a, _) =>
       if negb (filesOnly req) then
         if bool_decide (ss_limitLeft ss = 0%Z) then Some (S k, set_truncated ss)
         else ss ← emitMatch displayCols ss rel (S lineNo) line a; rest (S k) ss
       else if q_Files req then Some (S k, ss) else rest (S k) ss
   end) = Some (k + counted req (ss_limitLeft ss) (length hs), loop_out req displayCols hs ss).
Proof.
  intros hs hs' Hrest. rewrite (finds_total mat Hmat). cbn [mbind option_bind].
  subst hs. cbn [hits_from]. destruct (finds mat line) as [[a b]|]; [|done]. fold hs'.
  set (m := line_match rel scan_opts (S lineNo) line a).
  destruct (filesOnly req) eqn:Hf; cbn [negb].
  - unfold loop_out, counted. rewrite Hf. cbn [length]. destruct (q_Files req) eqn:Hq.
    + do 2 f_equal. lia.
    + rewrite Hrest. unfold loop_out, counted. rewrite Hf, Hq. do 2 f_equal. lia.
  - case_bool_decide as HL.
    + destruct (loop_out_stop m hs' ss HL Hf) as [-> ->]. do 2 f_equal. lia.
    + rewrite emitMatch_shown. cbn [mbind option_bind]. fold m. rewrite Hrest, loop_out_cons by done.
      cbn [length]. rewrite counted_S by done. cbn [shown ss_limitLeft]. do 2 f_equal. lia.
Qed.

Lemma scanFile_loop_spec fuel r lineNo k ss :
  length r < fuel →
  scanFile_loop fuel req mat displayCols rel r lineNo k ss =
    let hs := hits_from rel mat scan_opts (S lineNo) (text_lines r) in
    Some (k + counted req (ss_limitLeft ss) (length hs), loop_out req displayCols hs ss).
Proof.
  revert r lineNo k ss. induction fuel as [|fuel IH]; intros r lineNo k ss Hf; [lia|].
  cbn [scanFile_loop]. unfold ReadBytes. destruct (index_byte r newline) as [i|] eqn:Ei.
  - rewrite (text_lines_cons _ _ Ei). pose proof (index_byte_split _ _ _ Ei) as [Hs Hn].
    apply index_byte_Some in Ei as [Hi _]. pose proof (lookup_lt_Some _ _ _ Hi) as Hil.
    rewrite (take_S_r _ _ _ Hi). rewrite bool_decide_eq_false_2 by (by destruct (take i r)).
    rewrite trim_newline_app. apply (scan_line_step lineNo k (take i r) (text_lines (drop (S i) r)) ss
      (λ k ss, scanFile_loop fuel req mat displayCols rel (drop (S i) r) (S lineNo) k ss)).
    intros k' ss'. apply IH. rewrite length_drop. lia.
  - apply index_byte_None in Ei.
    assert (∀ k ss, (Some (k, ss) : option (nat * streamScan)) =
      Some (k + counted req (ss_limitLeft ss) (length (A:=Lines.Match) []), loop_out req displayCols [] ss)) as Hnil.
    { intros k' ss'. rewrite loop_out_nil. unfold counted, within. simpl.
      destruct (filesOnly req), (q_Files req), (ss_limitLeft ss' <? 0)%Z; do 2 f_equal; lia. }
    case_bool_decide as Hne.
    { subst r. cbn [text_lines hits_from]. apply Hnil. }
    rewrite trim_newline_none, (text_lines_one _ Hne Ei) by done.
    by apply (scan_line_step lineNo k r [] ss (λ k ss, Some (k, ss))).
Qed.
End ScanFile.

(** ** The stream files of a search *)

Section Streams.
Context `{RegexpEngine} (req : Request) (mat : Matcher) (displayCols : Z).
Hypothesis Hmat : matcher_ok mat.

Lemma loop_out_scanned rel hs ss :
  (if 0 <? counted req (ss_limitLeft ss) (length hs) then
     let st := loop_out req displayCols hs ss in
     let out := if filesOnly req
                then [EvFileCount rel (if q_Count req then counted req (ss_limitLeft ss) (length hs) else 0)] else [] in
     mkScan (ss_out st ++ out) (ss_limitLeft st) (ss_matches st + counted req (ss_limitLeft ss) (length hs))
       (S (ss_fileHits st)) (ss_truncated st) (ss_unreadable st)
   else loop_out req displayCols hs ss) = scanned req displayCols rel hs ss.
Proof.
  destruct hs as [|m hs].
  { unfold scanned. rewrite bool_decide_eq_true_2, loop_out_nil by done.
    unfold counted. simpl. by destruct (filesOnly req), (q_Files req), (ss_limitLeft ss <? 0)%Z. }
  rewrite (proj2 (Nat.ltb_lt 0 _)).
  2: { unfold counted. destruct (filesOnly req), (q_Files req), (ss_limitLeft ss <? 0)%Z; simpl; lia. }
  unfold scanned, loop_out. rewrite bool_decide_eq_false_2 by done.
  destruct (filesOnly req); cbn [negb andb orb ss_out ss_limitLeft ss_matches ss_fileHits ss_truncated ss_unreadable].
  - by rewrite orb_false_r.
  - by rewrite app_nil_r.
Qed.

(** The scan of a stream file against the reference. *)
Definition stream_scan (file : option bytes) (rel : bytes) (ss : streamScan) : streamScan :=
  match file with
  | None => add_unreadable ss
  | Some content =>
      if isBinary content && negb (q_Text req) then ss
      else scanned req displayCols rel (stream_hits mat rel content) ss
  end.

Lemma scanFile_reference file rel ss :
  scanFile req mat displayCols file rel ss = Some (stream_scan file rel ss).
Proof.
  unfold scanFile, stream_scan. destruct file as [content|]; [|done].
  destruct (isBinary content && negb (q_Text req)); [done|].
  rewrite (scanFile_loop_spec req mat displayCols rel Hmat) by lia. cbv zeta. cbn [mbind option_bind Nat.add].
  fold (stream_hits mat rel content). rewrite <-loop_out_scanned.
  by destruct (0 <? counted req (ss_limitLeft ss) (length (stream_hits mat rel content))).
Qed.

Definition match_event (ev : Event) : bool :=
  match ev with EvMatch _ _ _ _ _ | EvSymbol _ _ _ _ _ _ => true | _ => false end.

(** The lines of matches among events. *)
Definition match_lines (evs : list Event) : nat := length (List.filter match_event evs).

Lemma match_lines_app a b : match_lines (a ++ b) = match_lines a + match_lines b.
Proof. unfold match_lines. by rewrite List.filter_app, length_app. Qed.

Lemma match_lines_stream hs : match_lines (stream_event displayCols <$> hs) = length hs.
Proof. unfold match_lines. induction hs as [|m hs IH]; [done|]. cbn. by rewrite IH. Qed.

(** A scan keeps the budget: what is shown and what is left add up. *)
Lemma stream_scan_budget file rel ss :
  (0 ≤ ss_limitLeft ss)%Z → filesOnly req = false →
  let ss' := stream_scan file rel ss in
  (0 ≤ ss_limitLeft ss')%Z ∧
  (Z.of_nat (match_lines (ss_out ss')) + ss_limitLeft ss' = Z.of_nat (match_lines (ss_out ss)) + ss_limitLeft ss)%Z.
Proof.
  intros HL Hf. unfold stream_scan. destruct file as [content|]; [|done].
  destruct (isBinary content && negb (q_Text req)); [done|].
  set (hs := stream_hits mat rel content). unfold scanned. case_bool_decide; [done|].
  rewrite Hf. cbn [orb]. rewrite (proj2 (Z.ltb_ge (ss_limitLeft ss) 0)) by lia.
  assert (within (ss_limitLeft ss) (length hs) = length hs `min` Z.to_nat (ss_limitLeft ss)) as Hw.
  { unfold within. by rewrite (proj2 (Z.ltb_ge (ss_limitLeft ss) 0)) by lia. }
  cbn [ss_limitLeft ss_out]. rewrite match_lines_app, match_lines_stream, length_take, Hw. lia.
Qed.

Lemma scan_streams_budget read files ss :
  (0 ≤ ss_limitLeft ss)%Z → filesOnly req = false →
  ∃ ss', scan_streams req mat displayCols read files ss = Some ss' ∧ (0 ≤ ss_limitLeft ss')%Z ∧
    (Z.of_nat (match_lines (ss_out ss')) + ss_limitLeft ss' = Z.of_nat (match_lines (ss_out ss)) + ss_limitLeft ss)%Z.
Proof.
  intros HL Hf. revert ss HL. induction files as [|rel files IH]; intros ss HL; [by exists ss|].
  cbn [scan_streams]. destruct (bool_decide _ && _); [by exists (set_truncated ss)|].
  rewrite scanFile_reference. cbn [mbind option_bind].
  destruct (stream_scan_budget (read rel) rel ss HL Hf) as [H1 H2].
  destruct (IH _ H1) as (ss' & -> & H3 & H4). exists ss'. split_and!; [done|done|lia].
Qed.

Lemma scan_streams_fold read files ss :
  (ss_limitLeft ss < 0)%Z ∨ filesOnly req = true →
  scan_streams req mat displayCols read files ss =
    Some (foldl (λ ss rel, stream_scan (read rel) rel ss) ss files).
Proof.
  revert ss. induction files as [|rel files IH]; intros ss HL; [done|]. cbn [scan_streams foldl].
  replace (bool_decide (ss_limitLeft ss = 0%Z) && negb (filesOnly req)) with false.
  2: { destruct HL as [HL| ->]; [by rewrite bool_decide_eq_false_2 by lia|by rewrite andb_false_r]. }
  rewrite scanFile_reference. cbn [mbind option_bind]. apply IH.
  destruct HL as [HL| ->]; [left|by right]. unfold stream_scan.
  destruct (read rel) as [content|]; [|done]. destruct (isBinary content && negb (q_Text req)); [done|].
  unfold scanned. case_bool_decide; [done|]. cbn [ss_limitLeft].
  by rewrite (proj2 (Z.ltb_lt _ _) HL), orb_true_r.
Qed.
End Streams.

(** ** The cache of [lineReader] *)

(** The line read from disk, as [render] shows it with an empty cache. *)
Definition rendered_line (read : bytes → bytes + bytes) (path : bytes) (line col lineLen : nat) (maxCols : Z) : bytes :=
  match read path with
  | inr err => bs "[line unavailable: " ++ err ++ bs ", " ++ dec lineLen ++ bs " bytes]"
  | inl content =>
      match (if bool_decide (1 ≤ line) then lines content !! (line - 1) else None) with
      | Some l =>
          if bool_decide (length l = lineLen) then default [] (TruncateWindow l (Z.of_nat col) maxCols)
          else bs "[line changed on disk, " ++ dec lineLen ++ bs " bytes at match time]"
      | None => bs "[line changed on disk, " ++ dec lineLen ++ bs " bytes at match time]"
      end
  end.

(** The cache holds the lines of the file it names. *)
Definition cache_ok (read : bytes → bytes + bytes) (lr : lineReader) : Prop :=
  ∀ path, lr.1 = Some path → ∃ content, read path = inl content ∧ lr.2 = lines content.

Lemma render_cached read lr path line col lineLen maxCols :
  cache_ok read lr →
  ∃ lr', render read lr path line col lineLen maxCols
         = Some (lr', rendered_line read path line col lineLen maxCols) ∧ cache_ok read lr'.
Proof.
  intros Hc. unfold render, rendered_line. case_bool_decide as Hp.
  - destruct (Hc _ Hp) as (content & -> & ->). exists lr. split; [|done].
    destruct (if bool_decide (1 ≤ line) then _ else None) as [l|]; [|done].
    case_bool_decide; [|done]. by rewrite TruncateWindow_total.
  - destruct (read path) as [content|err] eqn:E; [|by exists lr].
    exists (Some path, lines content). split; [|intros p [= <-]; by exists content]. cbn [snd].
    destruct (if bool_decide (1 ≤ line) then _ else None) as [l|]; [|done].
    case_bool_decide; [|done]. by rewrite TruncateWindow_total.
Qed.

(** ** The event loop against a reference *)

(** The events that end the loop. *)
Definition terminal (ev : Event) : bool :=
  match ev with EvDone _ _ _ | EvError _ => true | _ => false end.

(** The events before the one that ends the loop, and that one. *)
Fixpoint body (evs : list Event) : list Event :=
  match evs with
  | [] => []
  | ev :: evs => if terminal ev then [] else ev :: body evs
  end.
Definition ending (evs : list Event) : option Event := List.find terminal evs.

Definition stream_files (evs : list Event) : list bytes :=
  omap (λ ev, match ev with EvStreamFile f _ => Some f | _ => None end) evs.

(** An event as it is shown, none for a stream file. *)
Definition shown_as (jsonOut : bool) (displayCols : Z) (read : bytes → bytes + bytes) (ev : Event) : option Event :=
  match ev with
  | EvStreamFile _ _ => None
  | EvMatch file ln text col lineLen =>
      if negb jsonOut && bool_decide (text = []) && (0 <? lineLen)
      then Some (EvMatch file ln (rendered_line read file ln col lineLen displayCols) 0 0) else Some ev
  | _ => Some ev
  end.

(** An event that counts as a match for the exit code. *)
Definition found_event (ev : Event) : bool :=
  match ev with EvFileCount _ _ => true | _ => match_event ev end.

Definition ok_file (r : bytes + bytes) : option bytes := match r with inl c => Some c | inr _ => None end.

(** The end of the loop, for the stream files scanned. *)
Definition client_end (jsonOut : bool) (out : list Event) (matched : bool) (ss : streamScan) (ev : option Event)
  : list Event * Z :=
  match ev with
  | Some (EvDone n hits trunc) =>
      (out ++ ss_out ss ++
         (if jsonOut then [EvDone (n + ss_matches ss) (hits + ss_fileHits ss) (trunc || ss_truncated ss)] else []),
       if negb jsonOut && matched || (0 <? ss_matches ss) || (0 <? n) then 0%Z else 1%Z)
  | Some ev => (out ++ (if jsonOut then [ev] else []), 2%Z)
  | None => (out, 2%Z)
  end.

Section Loop.
Context `{RegexpEngine} (req : Request) (jsonOut : bool) (displayCols : Z) (read : bytes → bytes + bytes).

Lemma scanStreams_total limitLeft (open : bytes → option bytes) files :
  ∃ ss, scanStreams req displayCols limitLeft open files = Some ss.
Proof.
  unfold scanStreams. case_bool_decide; [by eexists|].
  destruct (MatcherFor _ _ _) as [m|] eqn:Em; [|by eexists]. apply MatcherFor_ok in Em.
  generalize (mkScan [] limitLeft 0 0 false 0). clear -Em. induction files as [|f files IH]; intros ss; [by eexists|].
  cbn [scan_streams]. destruct (bool_decide _ && _); [by eexists|].
  rewrite (scanFile_reference req m displayCols Em). apply IH.
Qed.

(** One event that does not end the loop. *)
Lemma client_event_step ev cl :
  terminal ev = false → cache_ok read (cl_lr cl) →
  ∃ cl', client_event req jsonOut displayCols read cl ev = Some (inl cl') ∧ cache_ok read (cl_lr cl') ∧
    cl_streams cl' = cl_streams cl ++ stream_files [ev] ∧
    cl_recv cl' = cl_recv cl + match_lines [ev] ∧
    cl_out cl' = cl_out cl ++ omap (shown_as jsonOut displayCols read) [ev] ∧
    negb jsonOut && cl_matched cl' = negb jsonOut && (cl_matched cl || found_event ev).
Proof.
  intros Ht Hc. destruct ev as [file ln text col lineLen|? ? ? ? ? ?|? ?|file sz|? ? ?|?]; try done;
    cbn [client_event].
  1: destruct jsonOut; cbn [negb];
    [|destruct (bool_decide (text = []) && (0 <? lineLen)) eqn:Hl;
      [destruct (render_cached read (cl_lr cl) file ln col lineLen displayCols Hc) as (lr & -> & Hlr);
       cbn [mbind option_bind]|]].
  all: eexists; (split; [reflexivity|]); (split; [done|]);
    cbn [cl_streams cl_recv cl_out cl_matched show_event stream_files omap list_omap shown_as negb andb
      found_event match_event];
    try rewrite Hl; unfold match_lines; cbn; rewrite ?app_nil_r, ?orb_true_r, ?orb_false_r; split_and!; try done;
    try lia; destruct jsonOut; cbn [negb andb]; by rewrite ?orb_true_r.
Qed.

Lemma client_end_matched out m m' ss ev :
  negb jsonOut && m = negb jsonOut && m' → client_end jsonOut out m ss ev = client_end jsonOut out m' ss ev.
Proof. intros E. unfold client_end. destruct ev as [[]|]; try done. by rewrite E. Qed.

Lemma client_loop_spec evs cl :
  cache_ok read (cl_lr cl) →
  ∃ ss, scanStreams req displayCols (limitLeft req (cl_recv cl + match_lines (body evs))) (λ p, ok_file (read p))
          (cl_streams cl ++ stream_files (body evs)) = Some ss ∧
    client_loop req jsonOut displayCols read evs cl = Some
      (client_end jsonOut (cl_out cl ++ omap (shown_as jsonOut displayCols read) (body evs))
         (cl_matched cl || existsb found_event (body evs)) ss (ending evs)).
Proof.
  revert cl. induction evs as [|ev evs IH]; intros cl Hc.
  { cbn. destruct (scanStreams_total (limitLeft req (cl_recv cl + 0)) (λ p, ok_file (read p)) (cl_streams cl ++ []))
      as [ss Hss]. exists ss. split; [exact Hss|]. cbn [client_end ending List.find]. by rewrite app_nil_r. }
  destruct (terminal ev) eqn:Ht.
  - unfold ending. cbn [List.find client_loop body]. rewrite Ht. cbn [match_lines stream_files omap list_omap existsb].
    unfold match_lines. cbn [List.filter length]. rewrite Nat.add_0_r, !app_nil_r, orb_false_r.
    destruct (scanStreams_total (limitLeft req (cl_recv cl)) (λ p, ok_file (read p)) (cl_streams cl)) as [ss Hss].
    exists ss. split; [exact Hss|].
    destruct ev as [| | | |n hits trunc|err]; try done; cbn [client_event client_end].
    2: { cbn [mbind option_bind]. destruct jsonOut; by rewrite ?app_nil_r. }
    unfold ok_file in Hss. rewrite Hss. cbn [mbind option_bind]. rewrite <-app_assoc.
    do 2 f_equal. destruct jsonOut; cbn [negb andb orb]; [|done].
    destruct (Nat.ltb_spec 0 n), (Nat.ltb_spec 0 (ss_matches ss)), (Nat.ltb_spec 0 (n + ss_matches ss)); done || lia.
  - assert (ending (ev :: evs) = ending evs) as -> by (unfold ending; simpl; by rewrite Ht).
    cbn [client_loop body]. rewrite Ht.
    destruct (client_event_step ev cl Ht Hc) as (cl' & -> & Hc' & H1 & H2 & H3 & H4).
    cbn [mbind option_bind]. destruct (IH cl' Hc') as (ss & Hss & Hl). exists ss. split.
    + rewrite <-Hss, H1, H2. change (ev :: body evs) with ([ev] ++ body evs).
      unfold stream_files. rewrite match_lines_app, omap_app, app_assoc, Nat.add_assoc. done.
    + rewrite Hl, H3. f_equal. change (ev :: body evs) with ([ev] ++ body evs). rewrite omap_app, app_assoc.
      apply client_end_matched. cbn [app existsb]. rewrite orb_assoc.
      destruct jsonOut; [done|]. simpl in H4 |- *. by rewrite H4.
Qed.
End Loop.

(** ** Sizes against decimal numbers *)

Lemma size_digits_digits fuel z acc :
  (0 ≤ z < 10 ^ Z.of_nat fuel)%Z → (z < 2 ^ 63)%Z →
  size_digits 0 (digits fuel z acc) = size_digits z acc.
Proof.
  revert z acc. induction fuel as [|fuel IH]; intros z acc Hz Hb.
  { change (10 ^ Z.of_nat 0)%Z with 1%Z in Hz. by assert (z = 0)%Z as -> by lia. }
  cbn [digits]. pose proof (Z.mod_pos_bound z 10 ltac:(lia)) as Hm.
  assert (∀ n, (0 ≤ n)%Z → (n * 10 + z mod 10 < 2 ^ 63)%Z →
    size_digits n (z2b (48 + z mod 10) :: acc) = size_digits (n * 10 + z mod 10) acc) as Hc.
  { intros n Hn Hn2. cbn [size_digits]. unfold in_range. rewrite b2z_z2b, (Z.mod_small (48 + _)) by lia.
    rewrite bool_decide_eq_true_2, i64_small by lia. f_equal. lia. }
  pose proof (Z.div_mod z 10 ltac:(lia)) as Hdm.
  destruct (Z.ltb_spec z 10).
  - rewrite Hc by (rewrite ?Z.mod_small; lia). f_equal. rewrite Z.mod_small; lia.
  - rewrite Nat2Z.inj_succ, Z.pow_succ_r in Hz by lia. rewrite IH.
    + rewrite Hc by (try apply Z.div_pos; lia). f_equal. lia.
    + split; [apply Z.div_pos; lia|]. apply Z.div_lt_upper_bound; lia.
    + apply Z.div_lt_upper_bound; lia.
Qed.

Lemma size_suffix_digit c : in_range 48 57 c = true → size_suffix c = None.
Proof. by destruct c. Qed.

(** What may follow the number, and its factor. *)
Definition size_suffixes : list (bytes * Z) :=
  [([], 1%Z); (bs "k", 2 ^ 10); (bs "K", 2 ^ 10); (bs "m", 2 ^ 20); (bs "M", 2 ^ 20); (bs "g", 2 ^ 30);
   (bs "G", 2 ^ 30)]%Z.

Lemma parseSize_split s suf k :
  (suf, k) ∈ size_suffixes → s ≠ [] → (∀ c, c ∈ s → in_range 48 57 c = true) →
  parseSize (s ++ suf) = (n ← size_digits 0 s; Some (i64 (n * k))).
Proof.
  intros Hs Hne Hd. unfold size_suffixes in Hs. rewrite !elem_of_cons, elem_of_nil in Hs.
  destruct (exists_last Hne) as (l & x & Hl).
  assert (size_suffix x = None) as Hx.
  { apply size_suffix_digit, Hd. rewrite Hl. apply elem_of_app. right. by left. }
  unfold parseSize. destruct Hs as [[= -> ->]|Hs].
  { rewrite app_nil_r, Hl, last_snoc, Hx. rewrite bool_decide_eq_false_2 by (by destruct l). done. }
  assert (∃ c, suf = [c] ∧ size_suffix c = Some k) as (c & -> & Hc).
  { destruct_or! Hs; try done; injection Hs as -> ->; eexists; (split; [reflexivity|]); vm_compute; reflexivity. }
  rewrite last_snoc, Hc, length_app, Nat.add_sub, take_app_length, bool_decide_eq_false_2 by done. done.
Qed.

(** ** Properties *)

(** The size option reads back a decimal number in front of a suffix: [parseSize] gives it
    times the factor of the suffix, when that fits 63 bits. *)
Theorem parseSize_reads n suf k :
  (suf, k) ∈ size_suffixes → (Z.of_nat n * k < 2 ^ 63)%Z →
  parseSize (dec n ++ suf) = Some (Z.of_nat n * k)%Z.
Proof.
  intros Hs Hb.
  assert (1 ≤ k)%Z as Hk.
  { unfold size_suffixes in Hs. rewrite !elem_of_cons, elem_of_nil in Hs. destruct_or! Hs; simplify_eq; lia. }
  rewrite (parseSize_split _ _ k Hs); [|apply dec_not_nil|].
  - unfold dec. rewrite size_digits_digits by nia. cbn [size_digits mbind option_bind]. by rewrite i64_small by nia.
  - intros c [Hc|]%digits_range; [by apply elem_of_nil in Hc|done|lia].
Qed.

Lemma parseSize_reads_witness : parseSize (bs "50M") = Some 52428800%Z.
Proof. apply (parseSize_reads 50 (bs "M") (2 ^ 20)); [apply (bool_decide_unpack _)|]; vm_compute; reflexivity. Defined.

(** Numbers past 63 bits wrap: this limit is below zero, which the search takes as no limit. *)
Theorem parseSize_wraps :
  parseSize (bs "9223372036854775808") = Some (- 2 ^ 63)%Z ∧ parseSize (bs "17179869184G") = Some 0%Z.
Proof. split; vm_compute; reflexivity. Qed.

(** C32. The client finds in the stream files what the disk engine would find in them: with no
    limit and no list or count mode, [scanStreams] reports for every file, in the order they were
    announced, the matching lines of the engine's scan, each cut to a window, and counts them. *)
Theorem scanStreams_is_scan `{RegexpEngine} req displayCols (read : bytes → option bytes) files mat :
  MatcherFor (q_Pattern req) (q_Fixed req) (q_NoCase req) = Some mat →
  filesOnly req = false → q_Text req = false →
  let hits rel := match read rel with Some c => scan_lines rel mat scan_opts c | None => [] end in
  ∃ ss, scanStreams req displayCols (-1) read files = Some ss ∧
    ss_out ss = concat (map (λ rel, stream_event displayCols <$> hits rel) files) ∧
    ss_matches ss = length (concat (map hits files)) ∧ ss_truncated ss = false.
Proof.
  intros Hm Hf Ht hits. pose proof (MatcherFor_ok _ _ _ _ Hm) as Hok.
  unfold scanStreams. rewrite Hm. case_bool_decide as Hn; [subst; by eexists|].
  rewrite (scan_streams_fold req mat displayCols Hok) by (left; done). eexists. split; [reflexivity|].
  assert (∀ rel ss, ss_limitLeft ss = (-1)%Z → ss_truncated ss = false →
    let ss' := stream_scan req mat displayCols (read rel) rel ss in
    ss_out ss' = ss_out ss ++ (stream_event displayCols <$> hits rel) ∧
    ss_matches ss' = ss_matches ss + length (hits rel) ∧ ss_limitLeft ss' = (-1)%Z ∧ ss_truncated ss' = false) as Hstep.
  { intros rel ss HL Htr. unfold stream_scan, hits, scan_lines, scan_cap. destruct (read rel) as [c|].
    2: { cbn. rewrite app_nil_r. split_and!; (done || lia). }
    rewrite Ht, andb_true_r. cbn [negb]. destruct (isBinary c).
    { cbn. rewrite app_nil_r. split_and!; (done || lia). }
    unfold capped, scan_opts at 1 3. cbn [o_FilesOnly o_Limit Z.ltb Z.compare].
    fold (stream_hits mat rel c). unfold scanned. case_bool_decide as Hh.
    { rewrite Hh. cbn. rewrite app_nil_r. split_and!; (done || lia). }
    unfold counted, within. rewrite Hf, HL, Htr. cbn [Z.ltb Z.compare negb andb orb ss_out ss_matches ss_limitLeft
      ss_truncated]. rewrite firstn_all, Nat.ltb_irrefl. done. }
  revert Hstep. generalize (stream_scan req mat displayCols) as sc. intros sc Hstep.
  assert (∀ ss, ss_limitLeft ss = (-1)%Z → ss_truncated ss = false →
    let ss' := foldl (λ ss rel, sc (read rel) rel ss) ss files in
    ss_out ss' = ss_out ss ++ concat (map (λ rel, stream_event displayCols <$> hits rel) files) ∧
    ss_matches ss' = ss_matches ss + length (concat (map hits files)) ∧ ss_truncated ss' = false) as Hall.
  { clear Hn. induction files as [|rel files IH]; intros ss HL Htr; cbn [foldl map concat].
    { rewrite app_nil_r. split_and!; (done || simpl; lia). }
    destruct (Hstep rel ss HL Htr) as (H1 & H2 & H3 & H4). destruct (IH _ H3 H4) as (H5 & H6 & H7).
    split_and!; [|rewrite H6, H2, length_app; lia|done]. by rewrite H5, H1, <-app_assoc. }
  by apply Hall.
Qed.

(** A request for a fixed text, and the files [a], [b]. *)
Definition demo_request (limit : Z) : Request :=
  mkRequest (bs "search") (bs "/r") (bs "lo") true false false false [] limit false 0 [] [] false false false
    false false 0.
Definition demo_files (p : bytes) : option bytes :=
  if bool_decide (p = bs "a") then Some (bs "hello" ++ newline :: bs "x" ++ newline :: bs "low")
  else if bool_decide (p = bs "b") then Some (bs "lo" ++ [x00]) else None.

Lemma scanStreams_is_scan_witness :
  let re := one_engine hello_re in
  ∃ mat ss, @MatcherFor re (bs "lo") true false = Some mat ∧
    @scanStreams re (demo_request 0) 0 (-1) demo_files [bs "a"; bs "b"; bs "c"] = Some ss ∧
    ss_out ss = [EvMatch (bs "a") 1 (bs "hello") 0 0; EvMatch (bs "a") 3 (bs "low") 0 0] ∧ ss_matches ss = 2.
Proof.
  intros re. eexists.
  destruct (@scanStreams_is_scan re (demo_request 0) 0 demo_files [bs "a"; bs "b"; bs "c"] _ eq_refl eq_refl eq_refl)
    as (ss & Hss & Ho & Hm & _).
  exists ss. split; [reflexivity|]. split; [exact Hss|]. rewrite Ho, Hm. split; vm_compute; reflexivity.
Defined.

(** [streamSearch] against the reference. *)
Lemma streamSearch_run `{RegexpEngine} c req jsonOut read evs :
  let displayCols := if bool_decide (q_MaxColumns req = 0%Z) then MaxColumns c else q_MaxColumns req in
  ∃ ss,
    scanStreams req displayCols (limitLeft req (match_lines (body evs))) (λ p, ok_file (read p))
      (stream_files (body evs)) = Some ss ∧
    streamSearch c req jsonOut read evs = Some
      (client_end jsonOut (omap (shown_as jsonOut displayCols read) (body evs))
         (existsb found_event (body evs)) ss (ending evs)).
Proof.
  intros displayCols.
  destruct (client_loop_spec req jsonOut displayCols read evs (mkClient [] false [] 0 (None, []))) as (ss & Hss & Hl);
    [done|]. by exists ss.
Qed.

(** C22. [streamSearch] always answers, whatever the daemon sends and the files hold.  It shows,
    in order, every event before the one that ends the search, a location that came without its
    line shown with the line on disk (the cache of [lineReader] makes no difference), then what
    the scan of the announced stream files gives under the budget that is left; it ends with 2
    after an error or a lost connection, else with 0 when anything was found and with 1 when not. *)
Theorem streamSearch_spec `{RegexpEngine} c req jsonOut read evs :
  let displayCols := if bool_decide (q_MaxColumns req = 0%Z) then MaxColumns c else q_MaxColumns req in
  ∃ ss,
    scanStreams req displayCols (limitLeft req (match_lines (body evs))) (λ p, ok_file (read p))
      (stream_files (body evs)) = Some ss ∧
    streamSearch c req jsonOut read evs = Some
      (client_end jsonOut (omap (shown_as jsonOut displayCols read) (body evs))
         (existsb found_event (body evs)) ss (ending evs)).
Proof. apply streamSearch_run. Qed.

Lemma limitLeft_range req recv : (0 < q_Limit req)%Z → (0 ≤ limitLeft req recv ∧ limitLeft req recv + Z.of_nat recv ≤ Z.max (q_Limit req) (Z.of_nat recv))%Z.
Proof.
  intros Hl. unfold limitLeft. rewrite (proj2 (Z.leb_gt _ _)) by lia.
  destruct (Z.ltb_spec 0 (q_Limit req - Z.of_nat recv)); lia.
Qed.

Lemma match_lines_shown jsonOut displayCols read evs :
  match_lines (omap (shown_as jsonOut displayCols read) evs) = match_lines evs.
Proof.
  induction evs as [|ev evs IH]; [done|].
  change (ev :: evs) with ([ev] ++ evs). rewrite omap_app, !match_lines_app, IH. f_equal.
  unfold match_lines. destruct ev as [file ln text col lineLen| | | | |]; try done. cbn [omap list_omap shown_as].
  by destruct (negb jsonOut && bool_decide (text = []) && (0 <? lineLen)).
Qed.

(** The limit of a search holds across the daemon and the client: with [Limit] lines asked
    for, the lines shown are at most [Limit], or the ones the daemon itself sent when these are
    more. *)
Theorem streamSearch_limit `{RegexpEngine} c req jsonOut read evs out code :
  (0 < q_Limit req)%Z → filesOnly req = false →
  streamSearch c req jsonOut read evs = Some (out, code) →
  (Z.of_nat (match_lines out) ≤ Z.max (q_Limit req) (Z.of_nat (match_lines (body evs))))%Z.
Proof.
  intros Hl Hf. unfold streamSearch. set (displayCols := if bool_decide _ then _ else _).
  destruct (client_loop_spec req jsonOut displayCols read evs (mkClient [] false [] 0 (None, []))) as (ss & Hss & ->);
    [done|]. cbn [cl_recv cl_streams cl_out cl_matched app Nat.add orb] in *. intros E.
  pose proof (limitLeft_range req (match_lines (body evs)) Hl) as Hr.
  assert (Z.of_nat (match_lines (ss_out ss)) ≤ limitLeft req (match_lines (body evs)))%Z as Hb.
  { assert (match_lines [] = 0) as H0 by done.
    revert Hss. unfold scanStreams. case_bool_decide; [intros [= <-]; cbn [ss_out]; lia|].
    destruct (MatcherFor _ _ _) as [m|] eqn:Em; [|intros [= <-]; cbn [ss_out]; lia]. apply MatcherFor_ok in Em.
    destruct (scan_streams_budget req m displayCols Em (λ p, ok_file (read p)) (stream_files (body evs))
      (mkScan [] (limitLeft req (match_lines (body evs))) 0 0 false 0)) as (ss' & -> & Hb1 & Hb2); [simpl; lia|done|].
    intros [= <-]. cbn [ss_out ss_limitLeft] in *. lia. }
  unfold client_end in E.
  assert (∀ ev, ending evs = Some ev → terminal ev = true) as Ht by (intros ev [_ ?]%List.find_some; done).
  destruct (ending evs) as [[]|]; try (specialize (Ht _ eq_refl); discriminate Ht);
    injection E as <- _; rewrite ?match_lines_app, match_lines_shown;
    destruct jsonOut; rewrite ?app_nil_r, ?match_lines_app; change (match_lines [EvDone _ _ _]) with 0;
    change (match_lines [EvError _]) with 0; change (match_lines []) with 0; lia.
Qed.

Lemma streamSearch_limit_witness :
  let re := one_engine hello_re in
  let evs := [EvMatch (bs "z") 4 (bs "lo") 0 2; EvStreamFile (bs "a") 11; EvStreamFile (bs "b") 3; EvDone 1 1 false] in
  let read p := match demo_files p with Some c => inl c | None => inr (bs "gone") end in
  ∃ out, @streamSearch re (Default 4) (demo_request 2) false read evs = Some (out, 0%Z) ∧
    out = [EvMatch (bs "z") 4 (bs "lo") 0 2; EvMatch (bs "a") 1 (bs "hello") 0 0] ∧
    (Z.of_nat (match_lines out) ≤ 2)%Z.
Proof.
  intros re evs read. eexists. split; [vm_compute; reflexivity|]. split; [reflexivity|].
  apply (@streamSearch_limit re (Default 4) (demo_request 2) false read evs _ 0); vm_compute; reflexivity.
Defined.

(** A scan that the limit cuts counts a match that it does not show. *)
Theorem truncated_scan_counts :
  let re := one_engine hello_re in
  ∃ ss, @scanStreams re (demo_request 1) 0 1 demo_files [bs "a"] = Some ss ∧
    match_lines (ss_out ss) = 1 ∧ ss_matches ss = 2 ∧ ss_truncated ss = true.
Proof. intros re. eexists. split; [vm_compute; reflexivity|]. split_and!; vm_compute; reflexivity. Qed.
