(* ===== verification/Daemon.v ===== *)
(** * The daemon's life: internal/daemon/server.go and [newRootStore], [Close] of store.go

    A store is created from what an earlier daemon saved, brought up to date with the disk,
    serves requests and is saved when it is closed.  The first pass over the disk is one step here
    (the watcher of [Barrier.v] collects the changes made meanwhile); the progress events, the
    sockets and the caches on disk are left out. *)

From S2P Require Import Prelude GoBytes Text GoPath Lines Ignore Walk Conf Symbol Strip Extract Refs.
From S2P Require Import Regexp Literal Matcher Index IndexSearch Codec Shard Engine EngineSearch.
From S2P Require Import Store StoreSpec StoreSync Globs Server Client.

(** ** A store *)

(** The .gitignore of a directory, which is [.] for the root. *)
Definition git_file (w : World) (dir : bytes) : option bytes :=
  match Walk.ReadFile w (child (if bool_decide (dir = bs ".") then [] else dir) (bs ".gitignore")) with
  | inl c => Some c
  | inr _ => None
  end.

Section Daemon.
Context `{MapOrder} `{SymbolExtractor}.

(** The store of [newRootStore] before its engine is chosen. *)
Definition blank_store (w : World) (root : bytes) (c : Config) (follow : bool) : RootStore :=
  let control := match Walk.ReadFile w ControlFile with inl x => Some x | inr _ => None end in
  mkStore root follow c (if bool_decide (Conf.Engine c = bs "auto") then bs "mem" else Conf.Engine c)
    None None (AddPatterns (load_rules control) (Exclude c))
    (if Gitignore c then Some (git_file w) else None) ∅ StateIndexing 0 0 (mkSkipped 0 0 0 0) 0.

(** The pass of the disk engine: [hasShards] decides between reconciling and building. *)
Definition has_shards (idx : gmap bytes bytes) : bool :=
  existsb (λ pe, has_suffix pe.1 (bs ".idx")) (range idx).
Definition disk_pass (w : World) (fuel : nat) (idx : gmap bytes bytes) (s : RootStore) : option RootStore :=
  files ← listFiles w fuel s;
  let s := set_progress s (st_indexed s) (len files) in
  d ← st_disk s;
  if has_shards idx then
    d ← Engine.Reconcile d files; Some (set_disk s (st_engine s) (Some d))
  else
    '(d, _) ← FullBuild d (fs_of w) files;
    Some (set_progress (set_disk s (st_engine s) (Some d)) (st_indexed s + Engine.totalFiles d) (st_total s)).

(** [newRootStore] and the pass it starts: [file] is the persisted index, [idx] and [m] the shard
    directory and its manifest. *)
Definition newRootStore (w : World) (fuel : nat) (idx : gmap bytes bytes) (m : option Manifest)
    (file : option persisted) (root : bytes) (c : Config) (follow : bool) : option RootStore :=
  let s := blank_store w root c follow in
  s ← (if bool_decide (st_engine s = bs "disk") then disk_pass w fuel idx (initDiskEngine s idx m)
       else
         loaded ← loadPersisted s file;
         match loaded with
         | None => fullScan w fuel idx m (set_state (set_idx s (Some (New root))) StateIndexing)
         | Some s => reconcile w fuel idx m (set_state s StateReconciling)
         end);
  Some (set_state s StateReady).

(** [Close]: what it saves. *)
Definition CloseStore (s : RootStore) : option (option persisted) :=
  match st_idx s with
  | Some _ => p ← save s; Some (Some p)
  | None => Some None
  end.

(** ** The server *)

(** [doStop]: every store is closed. *)
Definition doStop (sv : Stores) : option (list ((bytes * bool) * option persisted)) :=
  mapM (λ ks : (bytes * bool) * RootStore, p ← CloseStore ks.2; Some (ks.1, p)) (range sv).

(** [RootStatus], without the cache directory. *)
Record RootStatus := mkStatus {
  rs_Root : bytes; rs_State : StoreState; rs_Files : Z; rs_SizeMB : Z; rs_Skipped : Skipped;
  rs_StreamFiles : nat; rs_Follow : bool; rs_Engine : bytes;
}.

(** One root of [handleStatus], and the reply, sorted by root. *)
Definition root_status (ks : (bytes * bool) * RootStore) : RootStatus :=
  let '((root, follow), s) := ks in
  let '(files, sizeMB, engine) :=
    match st_disk s with
    | Some d => (EngineSearch.NumFiles d, Z.shiftr (EngineSearch.TotalBytes d) 20, bs "disk")
    | None => (match st_idx s with Some ix => Z.of_nat (IndexSearch.NumFiles ix) | None => 0%Z end,
               Z.shiftr (st_bytes s) 20, bs "mem")
    end in
  mkStatus root (st_state s) files sizeMB (st_skipped s) (streamCount s) follow engine.

Definition status_le (a b : RootStatus) : Prop := bytes_le (rs_Root a) (rs_Root b).
#[export] Instance status_le_dec : RelDecision status_le.
Proof. intros a b. unfold status_le. apply _. Defined.

Definition handleStatus (sv : Stores) : list RootStatus := merge_sort status_le (map root_status (range sv)).
End Daemon.

Section Handle.
Context `{MapOrder} `{UnicodeCase} `{RE : RegexpEngine} `{RS : !RegexpString} `{SymbolExtractor}.
Context `{GoParser} `{TSRegexps}.

(** [prologue]: [create] is what [newRootStore] returns and [sync] what the store is once it is
    ready and the barrier has returned, [None] when it was closed meanwhile. *)
Definition prologue (sv : Stores) (req : Request) (create : option RootStore)
    (sync : RootStore → option RootStore) : Stores * option (req_error + RootStore * bytes) :=
  let '(sv, r) := store sv (q_Root req) (q_Follow req) (q_AllowNested req) create in
  match r with
  | inl err => (sv, Some (inl err))
  | inr s => (sv, s ← sync s; Some (inr (s, sub_prefix (st_root s) (q_Root req))))
  end.

(** What a request is answered with: events, the roots, or nothing when the store went away. *)
Inductive reply := Events (evs : list Event) | Status (roots : list RootStatus) | Hangup.

(** [handle]: the stores after it and the reply; [clean] is [filepath.Clean] of the pattern.  A bad
    pattern is refused before the store is looked up. *)
Definition handle (c : Config) (w : World) (create : option RootStore) (sync : RootStore → option RootStore)
    (order : list nat) (clean : bytes) (sv : Stores) (req : Request) : option (Stores * reply) :=
  let op := q_Op req in
  let run (serve : RootStore → bytes → option (list Event)) :=
    match prologue sv req create sync with
    | (sv, Some (inr (s, subPrefix))) => evs ← serve s subPrefix; Some (sv, Events evs)
    | (sv, Some (inl err)) => Some (sv, Events [EvError err])
    | (sv, None) => Some (sv, Hangup)
    end in
  if bool_decide (op = bs "search") then
    match MatcherFor (q_Pattern req) (q_Fixed req) (q_NoCase req) with
    | None => Some (sv, Events [EvError BadPattern])
    | Some _ => run (λ s subPrefix, handleSearch c w (git_file w) s subPrefix order req)
    end
  else if bool_decide (op = bs "def") || bool_decide (op = bs "refs") || bool_decide (op = bs "symbols") then
    run (λ s subPrefix, handleSymbol w s subPrefix clean req)
  else if bool_decide (op = bs "status") then Some (sv, Status (handleStatus sv))
  else if bool_decide (op = bs "forget") then Some ((handleForget sv (q_Root req)).1, Events [EvDone 0 0 false])
  else if bool_decide (op = bs "stop") then Some (sv, Events [EvDone 0 0 false])
  else Some (sv, Events [EvError (UnknownOp op)]).

(** ** The protocol *)

(** An answer of the daemon: events that leave the client's loop running, then one that ends it. *)
Definition answer (evs : list Event) : Prop :=
  ∃ before ev, evs = before ++ [ev] ∧ terminal ev = true ∧ Forall (λ x, terminal x = false) before.

Lemma answer_one ev : terminal ev = true → answer [ev].
Proof. intros Ht. by exists [], ev. Qed.

Lemma answer_snoc evs ev : Forall (λ x, terminal x = false) evs → terminal ev = true → answer (evs ++ [ev]).
Proof. intros Hf Ht. by exists evs, ev. Qed.

Lemma handleSearch_answer c w git s subPrefix order req evs :
  handleSearch c w git s subPrefix order req = Some evs → answer evs.
Proof.
  unfold handleSearch. destruct (MatcherFor _ _ _) as [m|]; [|intros [= <-]; by apply answer_one].
  destruct (ExtractLiteral _ _) as [lit|]; [|done]. cbn [mbind option_bind].
  destruct (req_filter req) as [err|ok]; [intros [= <-]; by apply answer_one|].
  destruct (Re m) as [re|]; [|done]. cbn [mbind option_bind].
  destruct (engine_search _ _ _ _ _) as [res|]; [|done]. cbn [mbind option_bind]. intros [= <-].
  rewrite app_assoc. apply answer_snoc; [|done]. apply Forall_app. split.
  - unfold result_events. destruct (q_Count req || q_Files req); apply Forall_map, Forall_forall; [done|].
    intros x _. by destruct (bool_decide (m_Text x = []) && (0 <? m_LineLen x)).
  - by apply Forall_map, Forall_forall.
Qed.

Lemma handleSymbol_answer w s subPrefix clean req evs :
  handleSymbol w s subPrefix clean req = Some evs → answer evs.
Proof.
  unfold handleSymbol. repeat case_bool_decide.
  - destruct (match st_disk s with Some d => _ | None => _ end) as [hits|]; [|done]. cbn [mbind option_bind].
    intros [= <-]. apply answer_snoc; [|done]. by apply Forall_map, Forall_forall.
  - destruct (match st_disk s with Some d => _ | None => _ end) as [hits|]; [|done]. cbn [mbind option_bind].
    destruct hits as [hits|]; intros [= <-]; [|by apply answer_one].
    apply answer_snoc; [|done]. by apply Forall_map, Forall_forall.
  - destruct (match st_disk s with Some d => _ | None => _ end) as [files|]; [|done]. cbn [mbind option_bind].
    destruct (mapM _ _) as [evss|] eqn:Em; [|done]. cbn [mbind option_bind].
    assert (Forall (λ x, terminal x = false) (concat evss)) as Hall.
    { apply Forall_concat, Forall_forall. intros l Hl. apply mapM_Some_1 in Em.
      apply list_elem_of_lookup in Hl as [i Hi]. destruct (Forall2_lookup_r _ _ _ _ _ Em Hi) as (pc & _ & Hp).
      destruct (Refs _ _ _ _) as [refs|]; [|done]. cbn in Hp. injection Hp as <-. by apply Forall_map, Forall_forall. }
    unfold cut_refs. destruct (_ && _); intros [= <-]; (apply answer_snoc; [|done]); [by apply Forall_take|done].
  - intros [= <-]. by apply answer_one.
Qed.
End Handle.

(** The client's view of an answer. *)
Lemma answer_body evs : answer evs → ∃ ev, evs = body evs ++ [ev] ∧ ending evs = Some ev ∧ terminal ev = true.
Proof.
  intros (before & ev & -> & Ht & Hf). exists ev. unfold ending.
  induction Hf as [|x before Hx _ (IH1 & IH2 & _)]; cbn [app body List.find].
  - by rewrite Ht.
  - rewrite Hx. split_and!; [by cbn [app]; rewrite <-IH1|done|done].
Qed.

Section Properties.
Context `{MapOrder} `{UnicodeCase} `{RE : RegexpEngine} `{RS : !RegexpString} `{SymbolExtractor}.
Context `{GoParser} `{TSRegexps}.

(** C23. The protocol between daemon and client: whatever the request and the state of the daemon, a
    reply made of events ends with its only terminal event, so the client shows every event before
    it and never reports a lost connection: it returns 2 exactly when the daemon sent an error. *)
Theorem handle_streamSearch c cl w create sync order clean sv req sv' evs jsonOut read :
  handle c w create sync order clean sv req = Some (sv', Events evs) →
  ∃ ev out code, evs = body evs ++ [ev] ∧ terminal ev = true ∧
    streamSearch cl req jsonOut read evs = Some (out, code) ∧
    (code = 2%Z ↔ ∃ err, ev = EvError err).
Proof.
  intros Hh.
  assert (answer evs) as Ha.
  { revert Hh. unfold handle, prologue.
    destruct (store sv (q_Root req) (q_Follow req) (q_AllowNested req) create) as [sv1 [err|s]].
    - repeat case_bool_decide; cbn [orb]; try (destruct (MatcherFor _ _ _)); intros [= _ <-]; by apply answer_one.
    - destruct (sync s) as [s1|]; cbn [mbind option_bind];
        repeat case_bool_decide; cbn [orb]; try (destruct (MatcherFor _ _ _)); try done;
        try (intros [= _ <-]; by apply answer_one).
      all: try (destruct (handleSearch _ _ _ _ _ _ _) as [es|] eqn:E; [|done]; cbn [mbind option_bind];
        intros [= _ <-]; by eapply handleSearch_answer).
      all: destruct (handleSymbol _ _ _ _ _) as [es|] eqn:E; [|done]; cbn [mbind option_bind];
        intros [= _ <-]; by eapply handleSymbol_answer. }
  destruct (answer_body evs Ha) as (ev & He & Hend & Ht).
  destruct (streamSearch_run cl req jsonOut read evs) as (ss & _ & Hs).
  exists ev. destruct (client_end jsonOut _ _ ss (ending evs)) as [out code] eqn:Ec in Hs. exists out, code.
  split_and!; [done|done|done|]. rewrite Hend in Ec. unfold client_end in Ec.
  destruct ev; try done; injection Ec as _ <-.
  - destruct (_ || _); split; (done || by intros [? [=]]).
  - split; [eauto|done].
Qed.

(** The files listed depend on the rules only. *)
Lemma listFiles_eq w fuel s s' :
  st_follow s' = st_follow s → st_ign s' = st_ign s → st_git s' = st_git s →
  listFiles w fuel s' = listFiles w fuel s.
Proof.
  intros Hf Hi Hg. unfold listFiles, list_file, skip_ignored, ignored. by rewrite Hf, Hi, Hg.
Qed.

(** A file [newRootStore] can load: none, or what a store of the same root wrote. *)
Definition saved_file (root : bytes) (k : nat) (file : option persisted) : Prop :=
  ∀ p, file = Some p → ∃ n s, store_ok n s ∧ st_root s = root ∧ save s = Some p ∧
    (Z.of_nat (size (entries s) + k) ≤ 2 ^ 32)%Z.

(** Whatever was saved before, a new store agrees with the disk. *)
Lemma newRootStore_agrees w fuel idx m root c follow file files :
  Conf.Engine c = bs "mem" → saved_file root (length files) file →
  listFiles w fuel (blank_store w root c follow) = Some files → (Z.of_nat (length files) ≤ 2 ^ 32)%Z →
  (∀ f, f ∈ files → Walk.Stat w (Rel f) = inl (mkInfo (bf_Size f) (bf_MtimeNS f) ModeRegular)) →
  ∃ s', newRootStore w fuel idx m file root c follow = Some s' ∧ st_state s' = StateReady ∧
    (∀ q, q ∈ map Rel files → agrees w s' q) ∧
    (∀ q, q ∉ map Rel files → entries s' !! q = None ∧ st_stream s' !! q = None).
Proof.
  intros He Hf Hl Hn Hstat. unfold newRootStore. change (st_engine (blank_store w root c follow))
    with (if bool_decide (Conf.Engine c = bs "auto") then bs "mem" else Conf.Engine c).
  rewrite He, !bool_decide_eq_false_2 by done. set (b := blank_store w root c follow) in *.
  destruct file as [p|].
  - destruct (Hf p eq_refl) as (n & s & Hs & <- & Hp & Hk).
    destruct (save_load_spec n (length files) s Hs Hk) as (p' & Hp' & Hload).
    assert (p' = p) as -> by congruence.
    destruct (Hload b eq_refl eq_refl) as (s1 & -> & Hs1 & _ & _ & _ & Hc1 & He1 & Hi1 & Hg1 & Hf1 & _).
    cbn [mbind option_bind].
    destruct (reconcile_spec w fuel idx m (set_state s1 StateReconciling) files) as (s2 & -> & Hag & Hno).
    + by apply (store_ok_eq _ s1).
    + rewrite <-Hl. by apply listFiles_eq.
    + done.
    + change (st_cfg (set_state s1 _)) with (st_cfg s1). rewrite Hc1. change (st_cfg b) with c. by rewrite He.
    + exists (set_state s2 StateReady). split_and!; [done|done|exact Hag|exact Hno].
  - cbn [loadPersisted mbind option_bind]. change (st_root b) with root.
    destruct (fullScan_spec w fuel idx m (set_state (set_idx b (Some (New root))) StateIndexing) files)
      as (s2 & -> & _ & Htr & Hno).
    + by apply (empty_ok _ root).
    + by apply (New_entries _ root).
    + done.
    + rewrite <-Hl. by apply listFiles_eq.
    + change (st_cfg (set_state (set_idx b _) _)) with c. by rewrite He.
    + exists (set_state s2 StateReady). split_and!; [done|done| |exact Hno]. intros q Hq. left. by apply Htr.
Qed.

(** C12. A restart loses nothing and keeps nothing stale: when the daemon closes a store, the store
    that the next daemon creates for the same root from what was saved holds, once it is ready,
    every file the disk then has, as it has it (an unchanged size and time stand for an unchanged
    file), and no other. *)
Theorem restart_agrees w fuel idx m c follow s n files :
  store_ok n s → Conf.Engine c = bs "mem" →
  listFiles w fuel (blank_store w (st_root s) c follow) = Some files →
  (∀ f, f ∈ files → Walk.Stat w (Rel f) = inl (mkInfo (bf_Size f) (bf_MtimeNS f) ModeRegular)) →
  (Z.of_nat (size (entries s) + length files) ≤ 2 ^ 32)%Z →
  ∃ p s', CloseStore s = Some (Some p) ∧
    newRootStore w fuel idx m (Some p) (st_root s) c follow = Some s' ∧ st_state s' = StateReady ∧
    (∀ q, q ∈ map Rel files → agrees w s' q) ∧
    (∀ q, q ∉ map Rel files → entries s' !! q = None ∧ st_stream s' !! q = None).
Proof.
  intros Hs He Hl Hstat Hn. destruct (save_load_spec n (length files) s Hs Hn) as (p & Hp & _).
  destruct (newRootStore_agrees w fuel idx m (st_root s) c follow (Some p) files) as (s' & Hs' & Hr & Hag & Hno); [done| |done|lia|done|].
  { intros q [= <-]. by exists n, s. }
  exists p, s'. split; [|done]. unfold CloseStore. destruct (so_idx _ _ Hs) as (ix & -> & _). by rewrite Hp.
Qed.
End Properties.

(** ** Witnesses *)

Definition empty_store : RootStore := new_store (bs "/r") (Default 1) [].

Lemma handle_streamSearch_witness :
  let re := one_engine hello_re in
  let rs := Build_RegexpString re (λ _, []) in
  let gp := Build_GoParser (λ _, None) in
  let ts := Build_TSRegexps (λ _, []) (λ _, []) (λ _, []) (λ _, []) (λ _, []) in
  let rq := mkRequest (bs "search") (bs "/r") (bs "lo") true false false false [] 0 false 0 [] [] false false false
    false false 0 in
  ∃ sv' out,
    @handle tree_order latin1_case re rs no_symbols gp ts (Default 1) demo_world (Some empty_store) Some [] [] ∅ rq
      = Some (sv', Events [EvDone 0 0 false]) ∧
    @streamSearch re (Default 1) rq false (λ _, inr []) [EvDone 0 0 false] = Some (out, 1%Z).
Proof.
  intros re rs gp ts rq.
  assert (@handle tree_order latin1_case re rs no_symbols gp ts (Default 1) demo_world (Some empty_store) Some [] [] ∅ rq
    = Some (<[(bs "/r", false) := empty_store]> ∅, Events [EvDone 0 0 false])) as Hh by reflexivity.
  destruct (@handle_streamSearch tree_order latin1_case re rs no_symbols gp ts (Default 1) (Default 1) demo_world
    (Some empty_store) Some [] [] ∅ rq _ [EvDone 0 0 false] false (λ _, inr []) Hh) as (ev & out & code & _ & _ & Hs & _).
  exists (<[(bs "/r", false) := empty_store]> ∅), out. split; [exact Hh|]. rewrite Hs. do 2 f_equal.
  vm_compute in Hs. by injection Hs as <- <-.
Defined.

(** The configuration of a daemon that keeps to the in-memory engine. *)
Definition mem_config : Config :=
  Conf.Load (λ k, if bool_decide (k = bs "GCGREP_ENGINE") then Some (bs "mem") else None) 4.

Lemma restart_agrees_witness :
  ∃ s p s', indexFile (H := tree_order) (H0 := no_symbols) demo_world demo_store (bs "a.go") = Some s ∧
    CloseStore s = Some (Some p) ∧
    newRootStore (H := tree_order) (H0 := no_symbols) demo_world 3 ∅ None (Some p) (st_root s) mem_config false = Some s' ∧
    agrees (H := no_symbols) demo_world s' (bs "v/c.go").
Proof.
  assert (store_ok 1 demo_store) as H1 by (apply new_store_ok; vm_compute; discriminate).
  destruct (indexFile_routed (H := tree_order) (H0 := no_symbols) demo_world 0 demo_store (bs "a.go") H1)
    as (s & Hs & Hok & _ & _ & _ & Hroot).
  assert (from_option (λ s, size (entries s)) 99
    (indexFile (H := tree_order) (H0 := no_symbols) demo_world demo_store (bs "a.go")) = 1) as Hsz by (vm_compute; reflexivity).
  rewrite Hs in Hsz. cbn [from_option] in Hsz.
  set (fs := [mkBF (bs "a.go") 6 7; mkBF (bs "b.log") 1 7; mkBF (bs "v/c.go") 6 7]).
  destruct (restart_agrees (H := tree_order) (H1 := no_symbols) demo_world 3 ∅ None mem_config false s 0 fs)
    as (p & s' & Hc & Hn & _ & Hag & _); [exact Hok|vm_compute; reflexivity| | | |].
  - rewrite Hroot. vm_compute. reflexivity.
  - intros f Hf. unfold fs in Hf. rewrite !elem_of_cons in Hf.
    destruct Hf as [->|[->|[->|Hf]]]; [vm_compute; reflexivity..|by apply elem_of_nil in Hf].
  - rewrite Hsz. vm_compute. discriminate.
  - exists s, p, s'. split; [exact Hs|]. split; [exact Hc|]. split; [exact Hn|].
    apply Hag. right. right. by left.
Defined.
