(* ===== verification/Follow.v ===== *)
(** * The history of a disk store: internal/daemon/store.go on the disk engine

    A store of the disk engine goes from its creation through changes of the repository,
    cycles of [rebuild], the end of the daemon and its restart; a search at any point of
    its history is a scan of the files the repository then has, apart from the new files
    that a cycle has dropped. *)

From S2P Require Import Prelude GoBytes Trigram Text GoPath Lines Ignore Walk Conf Symbol Regexp Literal Matcher.
From S2P Require Import Index IndexSearch Codec Shard ShardLayout ShardRead ShardSpec Engine Decimal Rebuild Scan.
From S2P Require Import EngineSearch EngineSpec EngineScan EngineBuild EngineRestart RebuildSpec Dir Crash.
From S2P Require Import Track TrackRebuild Store StoreSpec StoreSync Watch Strip Extract Refs Globs Server Client Daemon.

(** ** A store on the repository *)

Section Follow.
Context `{MapOrder} `{SymbolExtractor} (content_at : bytes → Z * Z → bytes).

(** A size and a modification time stand for a content, in every state of the repository. *)
Definition dated (fs : FS) : Prop :=
  ∀ p c st, Engine.ReadFile fs p = Some c → Engine.Stat fs p = Some st → c = content_at p st.
Definition dated_input (f : input) : Prop :=
  in_content f = content_at (path_of f) (Size (in_meta f), MtimeNS (in_meta f)).

(** The store [s] follows the repository [w], whose files are [files], apart from the files [lost]. *)
Record follows (w : World) (files : list BuildFile) (lost : gset bytes) (s : RootStore) (d : DiskEngine)
    (parts : list (list input)) : Prop := {
  fl_listed : ∃ fuel, listFiles w fuel s = Some files;
  fl_disk : st_disk s = Some d;
  fl_tracking : tracking (fs_of w) (listed files ∖ lost) d parts;
  fl_named : named d;
  fl_manifest : manifest d = Some (ManifestFromShards (shards (snapshot d)) (seqNo (snapshot d)));
  fl_dated f : f ∈ concat parts → dated_input f;
}.

(** ** A change *)

(** The event [rel] of the watcher reports how the repository went from [w0] to [w]:
    a file was written, a directory appeared, or what was at [rel] is gone. *)
Definition reported (w0 : World) (files0 : list BuildFile) (w : World) (files : list BuildFile) (fuel : nat)
    (s : RootStore) (rel : bytes) : Prop :=
  let change C := changed_in C (fs_of w0) (fs_of w) (listed files0) (listed files) in
  listFiles w fuel s = Some files ∧ isCookie rel = false ∧ rel ≠ bs "." ∧ rel ≠ ControlFile ∧
  match Walk.Lstat w rel with
  | inr _ =>
      (ignored s rel true && ignored s rel false) = false ∧ change (at_or_below rel) ∧
      ∀ p, at_or_below rel p → p ∉ listed files ∧ ¬ readable (fs_of w) p
  | inl fi =>
      if is_dir fi then
        ignored s rel true = false ∧
        ∃ subs, listUnder w fuel s rel = Some subs ∧ change (λ p, p ∈ subs) ∧ ∀ p, p ∈ subs → p ∈ listed files
      else if is_regular fi then ignored s rel false = false ∧ change (λ p, p ∈ [rel]) ∧ rel ∈ listed files
      else change (λ _, False)
  end.

(** The paths such an event makes the engine look at. *)
Definition touched (w : World) (fuel : nat) (s : RootStore) (rel p : bytes) : Prop :=
  match Walk.Lstat w rel with
  | inr _ => at_or_below rel p
  | inl fi => if is_dir fi then p ∈ default [] (listUnder w fuel s rel)
              else if is_regular fi then p ∈ [rel] else False
  end.
#[export] Instance touched_dec w fuel s rel p : Decision (touched w fuel s rel p).
Proof. unfold touched. destruct (Walk.Lstat w rel) as [fi|]; [|apply _]. destruct (is_dir fi), (is_regular fi); apply _. Defined.

(** The lost files that stay lost: one that changes is dirty again. *)
Definition still_lost (w : World) (fuel : nat) (s : RootStore) (rel : bytes) (lost : gset bytes) : gset bytes :=
  filter (λ p, ¬ touched w fuel s rel p) lost.

Lemma changed_apart (C : bytes → Prop) (fs0 fs : FS) (L0 L lost lost' : gset bytes) :
  changed_in C fs0 fs L0 L → (∀ p, ¬ C p → p ∈ lost' ↔ p ∈ lost) → changed_in C fs0 fs (L0 ∖ lost) (L ∖ lost').
Proof.
  intros Hch Hl p Hp. destruct (Hch p Hp) as (H1 & H2 & H3). split_and!; [done..|].
  rewrite !elem_of_difference, H3, (Hl p Hp). done.
Qed.

Lemma still_lost_apart w fuel s rel lost (C : bytes → Prop) :
  (∀ p, touched w fuel s rel p ↔ C p) →
  (∀ p, C p → p ∉ still_lost w fuel s rel lost) ∧ ∀ p, ¬ C p → p ∈ still_lost w fuel s rel lost ↔ p ∈ lost.
Proof. intros HC. unfold still_lost. split; intros p Hp; rewrite elem_of_filter, HC; tauto. Qed.

Lemma change_follows w0 files0 lost w files fuel s d parts rel :
  follows w0 files0 lost s d parts → reported w0 files0 w files fuel s rel →
  ∃ s' d', applyChange w fuel s rel = Some (s', false) ∧
    follows w files (still_lost w fuel s rel lost) s' d' parts ∧ snapshot d' = snapshot d.
Proof.
  intros [_ Hd Ht Hn Hm Hdt] (Hl & Hc & Hr1 & Hr2 & Hev). unfold applyChange.
  pose proof (still_lost_apart w fuel s rel lost) as Hlost. unfold touched in Hlost. set (lost' := still_lost _ _ _ _ _) in *.
  assert (∀ d', ∃ fuel, listFiles w fuel (set_disk s (st_engine s) (Some d')) = Some files) as Hls.
  { intros d'. exists fuel. rewrite <-Hl. by apply listFiles_eq. }
  rewrite Hc, !bool_decide_eq_false_2 by tauto. rewrite Hd.
  assert (∀ d', snapshot d' = snapshot d → pending d' = pending d → named d') as Hnm.
  { intros d' E1 E2. destruct Hn as [[H1 H2] H3 H4]. split; unfold old_names; by rewrite ?E1, ?E2. }
  destruct (Walk.Lstat w rel) as [fi|err].
  - destruct (is_dir fi); [|destruct (is_regular fi)].
    + destruct Hev as (Hi & subs & Hsub & Hch & Hin). rewrite Hi, Hsub. cbn [mbind option_bind].
      eexists _, (foldl MarkDirty d subs). split; [done|]. split; [|by rewrite MarkDirty_all].
      rewrite Hsub in Hlost. destruct (Hlost (λ p, p ∈ subs)) as [Hno Hkeep]; [done|].
      pose proof (written_tracking _ _ _ _ _ _ subs Ht (changed_apart _ _ _ _ _ _ _ Hch Hkeep)) as Ht'.
      rewrite MarkDirty_all in Ht' |- *. split; try done; [|by apply Hnm].
      apply Ht'. intros p Hp. apply elem_of_difference. auto.
    + destruct Hev as (Hi & Hch & Hin). rewrite Hi. eexists _, (MarkDirty d rel). split; [done|]. split; [|done].
      destruct (Hlost (λ p, p ∈ [rel])) as [Hno Hkeep]; [done|].
      pose proof (written_tracking _ _ _ _ _ _ [rel] Ht (changed_apart _ _ _ _ _ _ _ Hch Hkeep)) as Ht'.
      split; try done; [|by apply Hnm]. apply Ht'. intros p Hp. pose proof (Hno p Hp).
      apply list_elem_of_singleton in Hp as ->. by apply elem_of_difference.
    + exists s, d. split; [done|]. split; [|done]. destruct (Hlost (λ _, False)) as [_ Hkeep]; [done|].
      split; try done; [by exists fuel|]. eapply unchanged_tracking, changed_apart; done.
  - destruct Hev as (-> & Hch & Hgone). destruct (Hlost (at_or_below rel)) as [_ Hkeep]; [done|].
    destruct (gone_tracking _ _ _ _ _ _ rel Ht (changed_apart _ _ _ _ _ _ _ Hch Hkeep)) as (d' & -> & E1 & E2 & E3 & E4 & E5 & Ht').
    { intros p Hp. destruct (Hgone p Hp). split; [|done]. rewrite elem_of_difference. tauto. }
    cbn [mbind option_bind]. eexists _, d'. split; [done|]. split; [|done]. split; try done; [by apply Hnm|].
    by rewrite E2, E5.
Qed.

(** ** A cycle of rebuild *)

(** What a cycle needs, for the files the shards are made of. *)
Definition cycle_fits (fs : FS) (L : gset bytes) (d : DiskEngine) : Prop :=
  ∃ parts, in_order (InlineKB (cfg d)) d parts ∧ rebuild_fits fs L d parts.

(** How the repository changes while a cycle runs: the changes come after the cycle has read the
    files, and their marks are in the dirty list when it ends. *)
Definition arrived (w0 : World) (files0 : list BuildFile) (w : World) (files : list BuildFile)
    (during : list (bytes * bool)) (d' : DiskEngine) : Prop :=
  changed_in (λ p, p ∈ during.*1) (fs_of w0) (fs_of w) (listed files0) (listed files) ∧
  ∀ p, p ∈ during.*1 → dirty d' !! p = Some (negb (bool_decide (p ∈ listed files))).

(** The lost files after a cycle: those of before, unless they have just changed, and the dropped ones. *)
Definition lost_after (files0 : list BuildFile) (lost : gset bytes) (during : list (bytes * bool))
    (d d' : DiskEngine) : gset bytes :=
  filter (λ p, p ∉ during.*1) lost ∪ dropped d d' (listed files0).

Lemma marks_other (during : list (bytes * bool)) (m : gmap bytes bool) p : p ∉ during.*1 → marks during m !! p = m !! p.
Proof.
  unfold marks. revert m. induction during as [|[q b] during IH]; intros m Hp; [done|].
  apply not_elem_of_cons in Hp as [Hq Hp]. cbn [foldl fst snd]. by rewrite IH, lookup_insert_ne.
Qed.

(** The marks that arrive make no other difference to a cycle. *)
Lemma rebuild_during e fs (during : list (bytes * bool)) e' :
  rebuild e fs during = Some e' → ∃ e1, rebuild e fs [] = Some e1 ∧ e' = set_dirty e1 (dirty e') ∧
    ∀ p, p ∉ during.*1 → dirty e' !! p = dirty e1 !! p.
Proof.
  unfold rebuild, rebuild_io. cbn [foldl]. destruct (bool_decide (dirty e = ∅)).
  - intros [= <-]. eexists. split; [done|]. split; [done|]. intros p Hp. cbn [dirty set_dirty]. by apply marks_other.
  - destruct (rebuild_build written e fs) as [[def p]|]; [|done]. cbn [mbind option_bind].
    destruct (cleanPending _ _) as [idx rem]. intros [= <-]. eexists. split; [done|]. split; [done|].
    intros q Hq. cbn [dirty]. rewrite !cleared. fold (marks during (dirty e)). by rewrite !marks_other.
Qed.

(** The engine after a cycle over a repository that does not change accounts for all files but the dropped ones. *)
Lemma rebuild_covers w files lost s d parts :
  follows w files lost s d parts → cycle_fits (fs_of w) (listed files) d →
  ∃ d' parts', rebuild d (fs_of w) [] = Some d' ∧ cfg d' = cfg d ∧ named d' ∧
    manifest d' = Some (ManifestFromShards (shards (snapshot d')) (seqNo (snapshot d'))) ∧
    covering (fs_of w) (listed files ∖ (lost ∪ dropped d d' (listed files))) d' parts' ∧
    (one_gap (fs_of w) d → in_order (InlineKB (cfg d')) d' parts') ∧
    ∀ f, f ∈ concat parts' → f ∈ concat parts ∨ Engine.ReadFile (fs_of w) (path_of f) = Some (in_content f) ∧
      Engine.Stat (fs_of w) (path_of f) = Some (Size (in_meta f), MtimeNS (in_meta f)).
Proof.
  intros [_ _ Ht Hn Hm _] (parts0 & Ho & Hf). destruct (decide (dirty d = ∅)) as [E|E].
  { exists d, parts. split; [unfold rebuild, rebuild_io; rewrite bool_decide_eq_true_2 by done; by destruct d; cbn in *; subst|].
    assert (dropped d d (listed files) = ∅) as -> by (unfold dropped; rewrite E; apply set_eq; set_solver).
    rewrite union_empty_r_L. split_and!; [done..|apply Ht|by intros _; apply Ht|by left]. }
  apply (rebuild_fits_parts _ _ _ _ parts Ho (tr_order _ _ _ _ Ht)) in Hf.
  assert (rebuild_fits (fs_of w) (listed files ∖ lost) d parts) as Hf'.
  { destruct Hf as [? ? Hu ?]. split; try done. intros p c [Hp _]%elem_of_difference. by apply Hu. }
  destruct (rebuild_keeps _ _ _ _ Ht Hn Hf' E) as (d' & parts' & Hr & Hc & Hn' & Hm' & Hcov & Hord & Hsrc).
  exists d', parts'. split_and!; [done..| |done|done].
  assert (listed files ∖ (lost ∪ dropped d d' (listed files)) =
    listed files ∖ lost ∖ dropped d d' (listed files ∖ lost)) as ->; [|done].
  apply set_eq. intros p. unfold dropped. set_solver.
Qed.

Lemma rebuild_follows w0 files0 lost s d parts w files during d' :
  follows w0 files0 lost s d parts → dated (fs_of w0) → cycle_fits (fs_of w0) (listed files0) d → one_gap (fs_of w0) d →
  rebuild d (fs_of w0) during = Some d' → arrived w0 files0 w files during d' →
  (∃ fuel, listFiles w fuel s = Some files) →
  ∃ parts', follows w files (lost_after files0 lost during d d') (set_disk s (st_engine s) (Some d')) d' parts'.
Proof.
  intros Hfo Hw Hf Hgap Hr [Hch Hmk] [fuel Hl]. destruct (rebuild_during _ _ _ _ Hr) as (d1 & Hr1 & Ed & Hout).
  destruct (rebuild_covers _ _ _ _ _ _ Hfo Hf) as (d2 & parts' & Hr2 & Hc & Hn & Hm & Hcov & Hord & Hsrc).
  rewrite Hr1 in Hr2. injection Hr2 as <-. exists parts'. split.
  - exists fuel. rewrite <-Hl. by apply listFiles_eq.
  - done.
  - assert (tracking (fs_of w) (listed files ∖ lost_after files0 lost during d d') (set_dirty d1 (dirty d')) parts') as Ht;
      [|by rewrite <-Ed in Ht]. eapply (marked_tracking (λ p, p ∈ during.*1)).
    + split; [by apply Hord|exact Hcov].
    + apply changed_apart; [exact Hch|]. intros p Hp. unfold lost_after. rewrite !elem_of_union, elem_of_filter.
      unfold dropped. rewrite !elem_of_filter, (Hout p Hp). tauto.
    + intros p. destruct (decide (p ∈ during.*1)); [by left|by right].
    + exact Hout.
    + intros p Hp. rewrite (Hmk p Hp). destruct (decide _) as [[Hin _]%elem_of_difference|Hno].
      { by rewrite bool_decide_eq_true_2. }
      assert (p ∉ listed files) as Hnl.
      { intros Hin. apply Hno, elem_of_difference. split; [done|]. unfold lost_after, dropped.
        intros [[? _]%elem_of_filter|[(_ & E & _) _]%elem_of_filter]%elem_of_union; [done|]. by rewrite (Hmk p Hp) in E. }
      by rewrite bool_decide_eq_false_2.
  - rewrite Ed. destruct Hn as [[H1 H2] H3 H4]. by split.
  - by rewrite Ed.
  - intros f [Hin|[Hc1 Hst]]%Hsrc; [by apply Hfo|]. unfold dated_input. by eapply Hw.
Qed.

(** ** A new store *)

(** The configuration of the engine, as [initDiskEngine] makes it. *)
Definition engine_config (c : Config) : DiskEngineConfig :=
  mkCfg (mkSizes (i64 (Z.shiftl (ShardTargetMB c) 20)) (i64 (Z.shiftl (ShardMinMB c) 20))
           (i64 (Z.shiftl (ShardMaxMB c) 20))) (Conf.RebuildThreshold c) (Conf.SearchWorkers c) (ShardInlineKB c).

Lemma newRootStore_disk w fuel idx m file root c follow files :
  Conf.Engine c = bs "disk" → listFiles w fuel (blank_store w root c follow) = Some files →
  newRootStore w fuel idx m file root c follow =
    (if has_shards idx then
       d ← Engine.Reconcile (NewDiskEngine (engine_config c) idx m) files;
       Some (set_state (set_disk (set_progress (initDiskEngine (blank_store w root c follow) idx m) 0 (len files))
               (bs "disk") (Some d)) StateReady)
     else
       '(d, _) ← FullBuild (NewDiskEngine (engine_config c) idx m) (fs_of w) files;
       Some (set_state (set_progress (set_disk (set_progress (initDiskEngine (blank_store w root c follow) idx m) 0 (len files))
               (bs "disk") (Some d)) (0 + Engine.totalFiles d) (len files)) StateReady)).
Proof.
  intros He Hl. unfold newRootStore. set (b := blank_store w root c follow) in *.
  assert (st_engine b = bs "disk") as Eb.
  { unfold b, blank_store. cbn [st_engine]. rewrite He. by rewrite bool_decide_eq_false_2 by by vm_compute. }
  rewrite Eb, bool_decide_eq_true_2 by done. unfold disk_pass.
  assert (listFiles w fuel (initDiskEngine b idx m) = Some files) as ->.
  { rewrite <-Hl. by apply listFiles_eq. }
  cbn [mbind option_bind]. change (st_disk (set_progress (initDiskEngine b idx m) _ _))
    with (Some (NewDiskEngine (engine_config c) idx m)). cbn [mbind option_bind].
  change (st_engine (set_progress (initDiskEngine b idx m) _ _)) with (st_engine b). rewrite Eb.
  destruct (has_shards idx).
  - by destruct (Engine.Reconcile _ _).
  - by destruct (FullBuild _ _ _) as [[d r]|].
Qed.

(** A store over an empty directory of shards builds them. *)
Lemma create_follows w fuel idx m file root c follow files :
  Conf.Engine c = bs "disk" → has_shards idx = false →
  listFiles w fuel (blank_store w root c follow) = Some files →
  build_fits (fs_of w) (engine_config c) files → stats_match (fs_of w) files → no_utf16 (fs_of w) files →
  dated (fs_of w) →
  ∃ s d parts, newRootStore w fuel idx m file root c follow = Some s ∧ st_idx s = None ∧ follows w files ∅ s d parts.
Proof.
  intros He Hi Hl Hf Hst Hu Hw. rewrite (newRootStore_disk _ _ _ _ _ _ _ _ files He Hl), Hi.
  destruct (FullBuild_named (fs_of w) (NewDiskEngine (engine_config c) idx m) files Hf eq_refl)
    as (d & parts & -> & Hfb & _ & _ & _ & Hn). cbn [mbind option_bind].
  pose proof (built_tracking _ _ _ _ _ Hfb Hst Hu eq_refl) as Ht.
  eexists _, d, parts. split; [done|]. split; [done|]. split; try done; [|by rewrite difference_empty_L|apply Hfb|].
  { exists fuel. rewrite <-Hl. by apply listFiles_eq. }
  intros f Hin. unfold dated_input.
  assert (dirty d !! path_of f = None) as Hnone by by rewrite (fb_dirty _ _ _ _ _ Hfb).
  destruct (cv_clean _ _ _ _ (tr_covers _ _ _ _ Ht) f Hin Hnone) as (_ & Hr & Hs). by eapply Hw.
Qed.

(** A store over the shards of an earlier one reconciles them. *)
Lemma restart_follows w0 files0 lost s0 d0 parts w fuel file root c follow files :
  follows w0 files0 lost s0 d0 parts → Conf.Engine c = bs "disk" → ShardInlineKB c = InlineKB (cfg d0) →
  has_shards (idx_files d0) = true → listFiles w fuel (blank_store w root c follow) = Some files →
  stats_match (fs_of w) files → (∀ f, f ∈ files → is_Some (Engine.ReadFile (fs_of w) (Rel f))) → dated (fs_of w) →
  ∃ s d, newRootStore w fuel (idx_files d0) (manifest d0) file root c follow = Some s ∧ st_idx s = None ∧
    follows w files ∅ s d parts.
Proof.
  intros [_ Hd Ht Hn Hm Hdt] He Hkb Hi Hl Hst Hrd Hw. rewrite (newRootStore_disk _ _ _ _ _ _ _ _ files He Hl), Hi.
  destruct (restart_tracking (fs_of w0) (fs_of w) _ d0 parts (engine_config c) files Ht Hkb Hm Hst)
    as (d & -> & _ & Es & Ep & Em & Htd).
  { intros f i Hf Hin Ep Esz Emt. destruct (Hrd f Hf) as [x Hx]. rewrite Hx. f_equal.
    rewrite (Hdt i Hin), Ep, Esz, Emt. by apply Hw; [|apply Hst]. }
  cbn [mbind option_bind]. eexists _, d. split; [done|]. split; [done|]. destruct Hn as [[H1 H2] H3 H4]. split; try done.
  - exists fuel. rewrite <-Hl. by apply listFiles_eq.
  - by rewrite difference_empty_L.
  - split; unfold old_names; rewrite ?Es, ?Ep; [by split|by intros n ?%elem_of_nil|done].
  - by rewrite Em, Es.
Qed.

(** ** The history *)

(** A store that serves, and what is left of one when its daemon has ended: its directory. *)
Inductive life := Up (s : RootStore) | Down (d : DiskEngine).

(** The repositories, listings and lives a store of the disk engine goes through, with the files
    that cycles of [rebuild] have dropped and that have not changed since.

    - The daemon may end at any time between two other steps: it is stopped or killed, or a save
      panics, which every batch of changes schedules ([disk_batch_panics]).
    - A cycle may drop new files in the range of a shard; those outside every range lie in one gap between
      the ranges, or the shards are no longer in order ([rebuild_breaks_ranges]).
    - Changes that arrive while a cycle runs come after it has read the files, and their marks survive
      it ([arrived]), unlike that of [rebuild_loses_mark].
    - The files a cycle makes fit the format, and no file is UTF-16 ([cycle_fits]).
    - A store is created and restarted while the repository stays as it is, with its files readable, and a change
      is an event of the watcher that reports how the repository has changed ([reported]).
    - A file with the size and the modification time of before has the content of before ([dated]). *)
Inductive disk_run : World → list BuildFile → gset bytes → life → Prop :=
  | run_create w fuel idx m file root c follow files s :
      Conf.Engine c = bs "disk" → has_shards idx = false →
      listFiles w fuel (blank_store w root c follow) = Some files →
      build_fits (fs_of w) (engine_config c) files → stats_match (fs_of w) files → no_utf16 (fs_of w) files →
      dated (fs_of w) →
      newRootStore w fuel idx m file root c follow = Some s → disk_run w files ∅ (Up s)
  | run_change w0 files0 lost s0 w files fuel s rel b :
      disk_run w0 files0 lost (Up s0) → reported w0 files0 w files fuel s0 rel →
      applyChange w fuel s0 rel = Some (s, b) → disk_run w files (still_lost w fuel s0 rel lost) (Up s)
  | run_rebuild w0 files0 lost s d w files during d' :
      disk_run w0 files0 lost (Up s) → st_disk s = Some d → dated (fs_of w0) → cycle_fits (fs_of w0) (listed files0) d →
      one_gap (fs_of w0) d → rebuild d (fs_of w0) during = Some d' → arrived w0 files0 w files during d' →
      (∃ fuel, listFiles w fuel s = Some files) →
      disk_run w files (lost_after files0 lost during d d') (Up (set_disk s (st_engine s) (Some d')))
  | run_ends w files lost s d :
      disk_run w files lost (Up s) → st_disk s = Some d → disk_run w files lost (Down d)
  | run_restart w0 files0 lost d0 w fuel file root c follow files s :
      disk_run w0 files0 lost (Down d0) → Conf.Engine c = bs "disk" → ShardInlineKB c = InlineKB (cfg d0) →
      has_shards (idx_files d0) = true → listFiles w fuel (blank_store w root c follow) = Some files →
      stats_match (fs_of w) files → (∀ f, f ∈ files → is_Some (Engine.ReadFile (fs_of w) (Rel f))) → dated (fs_of w) →
      newRootStore w fuel (idx_files d0) (manifest d0) file root c follow = Some s → disk_run w files ∅ (Up s).

Definition life_follows (w : World) (files : list BuildFile) (lost : gset bytes) (l : life) : Prop :=
  match l with
  | Up s => st_idx s = None ∧ ∃ d parts, follows w files lost s d parts
  | Down d => ∃ s parts, follows w files lost s d parts
  end.

Lemma disk_run_follows w files lost l : disk_run w files lost l → life_follows w files lost l.
Proof.
  induction 1 as [w fuel idx m file root c follow files s He Hi Hl Hf Hst Hu Hw Hs
    |w0 files0 lost s0 w files fuel s rel b _ [Hi (d & parts & Hfo)] Hev Hs
    |w0 files0 lost s d w files during d' _ [Hi (d1 & parts & Hfo)] Hd Hw Hf Hgap Hr Har Hl
    |w files lost s d _ [Hi (d1 & parts & Hfo)] Hd
    |w0 files0 lost d0 w fuel file root c follow files s _ (s0 & parts & Hfo) He Hkb Hi Hl Hst Hrd Hw Hs]; cbn [life_follows].
  - destruct (create_follows w fuel idx m file root c follow files He Hi Hl Hf Hst Hu Hw) as (s' & d & parts & E & ? & ?).
    rewrite E in Hs. injection Hs as <-. split; [done|by exists d, parts].
  - destruct (applyChange_no_index _ _ _ _ _ _ _ (fl_disk _ _ _ _ _ _ Hfo) Hi Hs) as [_ Hi'].
    destruct (change_follows _ _ _ _ _ _ _ _ _ _ Hfo Hev) as (s' & d' & E & ? & _). rewrite E in Hs.
    injection Hs as <- _. split; [done|by exists d', parts].
  - assert (d1 = d) as -> by (pose proof (fl_disk _ _ _ _ _ _ Hfo); congruence). split; [done|].
    exists d'. by eapply rebuild_follows.
  - assert (d1 = d) as -> by (pose proof (fl_disk _ _ _ _ _ _ Hfo); congruence). by exists s, parts.
  - destruct (restart_follows _ _ _ _ _ _ w fuel file root c follow files Hfo He Hkb Hi Hl Hst Hrd Hw) as (s' & d & E & ? & ?).
    rewrite E in Hs. injection Hs as <-. split; [done|by exists d, parts].
Qed.
End Follow.

(** ** Answers *)

(** The matches of a file, and those of all files but some. *)
Lemma hits_from_path `{RegexpEngine} rel mat opts n ls m : m ∈ hits_from rel mat opts n ls → m_Path m = rel.
Proof.
  revert n. induction ls as [|line ls IH]; intros n; cbn [hits_from]; [by intros ?%elem_of_nil|].
  destruct (finds mat line) as [[a b]|]; [|apply IH]. intros [->|?]%elem_of_cons; [done|by eapply IH].
Qed.

Lemma dirty_hits_path `{RegexpEngine} fs mat opts p m : m ∈ dirty_hits fs mat opts p → m_Path m = p.
Proof.
  unfold dirty_hits. destruct (negb _); [by intros ?%elem_of_nil|].
  destruct (Engine.Stat fs p) as [[size t]|]; [|by intros ?%elem_of_nil].
  destruct (_ && _); [by intros ?%elem_of_nil|]. destruct (Engine.ReadFile fs p) as [c|]; [|by intros ?%elem_of_nil].
  unfold scan_lines. destruct (isBinary c); [by intros ?%elem_of_nil|]. intros Hm. apply (hits_from_path p mat opts 1 (text_lines c)).
  unfold scan_cap, capped in Hm. assert (∀ n l, m ∈ take n l → m ∈ l) as Htake.
  { intros n l Hin. eapply elem_of_sublist; [exact Hin|apply sublist_take]. }
  destruct (o_FilesOnly opts); [by eapply Htake|]. destruct (0 <? o_Limit opts)%Z; [by eapply Htake|done].
Qed.

Lemma hits_apart (hits : bytes → list Lines.Match) (L D : gset bytes) :
  (∀ p m, m ∈ hits p → m_Path m = p) →
  concat (map hits (elements (L ∖ D))) ≡ₚ filter (λ m, m_Path m ∉ D) (concat (map hits (elements L))).
Proof.
  intros Hp. assert (elements L ≡ₚ elements (L ∖ D) ++ elements (L ∩ D)) as HL.
  { assert (L = L ∖ D ∪ L ∩ D) as HE by (apply set_eq; intros p; destruct (decide (p ∈ D)); set_solver).
    trans (elements (L ∖ D ∪ L ∩ D)); [by rewrite <-HE|apply elements_disj_union; set_solver]. }
  rewrite (concat_Permutation _ _ (fmap_Permutation hits _ _ HL)). rewrite map_app, concat_app, filter_app.
  rewrite (filter_every _ (concat (map hits (elements (L ∖ D))))), (filter_none _ (concat (map hits (elements (L ∩ D))))).
  - by rewrite app_nil_r.
  - intros m. rewrite list_elem_of_In, in_concat. intros (x & Hx & Hm). apply list_elem_of_In in Hx, Hm.
    apply list_elem_of_fmap in Hx as (p & -> & Hin%elem_of_elements). rewrite (Hp p m Hm). set_solver.
  - intros m. rewrite list_elem_of_In, in_concat. intros (x & Hx & Hm). apply list_elem_of_In in Hx, Hm.
    apply list_elem_of_fmap in Hx as (p & -> & Hin%elem_of_elements). rewrite (Hp p m Hm). set_solver.
Qed.

(** ** Properties *)

(** C4. A search of a disk store is a scan of the repository apart from the files that rebuilds have
    dropped.  The store goes through any sequence of the steps of [disk_run]: its creation, changes the
    watcher reports, cycles of [rebuild] during which further changes may arrive, the end of the
    daemon at any point, by a stop or by the panic of the save that a change schedules,
    and restarts after the repository has changed.  [lost] has the files that were new in the range of a
    shard when a cycle ran and have not changed since; a restart empties it.
    While the store serves, a search with no limit for a literal that every matching line contains
    does not panic, whatever the order in which its jobs finish; its matches are those of the
    files that [listFiles] lists at that point and that are not lost, as they are on disk, each once,
    and its counts are theirs; a save, however, panics.  Cycles are those whose files fit the format,
    whose new files outside every range lie in one gap between the ranges, and whose marks from changes that arrive
    are left; UTF-16 files are excluded.  Stores are created and restarted on a quiet repository; a change outside a cycle is
    reported when it has happened and is none of the ignore file; a size and a modification time stand for a content ([dated]). *)
Theorem disk_run_search `{MapOrder} `{SymbolExtractor} `{RegexpEngine} `{!RegexpString} content_at w files lost s re opts :
  let mat := search_matcher re opts in let hits := dirty_hits (fs_of w) mat opts in
  disk_run content_at w files lost (Up s) →
  matcher_ok mat → (o_Limit opts ≤ 0)%Z → lit_required mat (o_Literal opts) →
  (∃ fuel, listFiles w fuel s = Some files) ∧ save s = None ∧
  ∃ d, st_disk s = Some d ∧ ∀ order, order ≡ₚ seq 0 (length (shards (snapshot d))) →
    ∃ res, EngineSearch.Search d (fs_of w) re opts order = Some res ∧ Truncated res = false ∧
      (o_FilesOnly opts = true → Matches res = []) ∧
      (o_FilesOnly opts = false → Matches res ≡ₚ concat (map hits (elements (listed files ∖ lost)))) ∧
      ∀ p n, FileCounts res !! p = Some n ↔ (p ∈ listed files ∧ p ∉ lost) ∧ hits p ≠ [] ∧ n = length (hits p).
Proof.
  intros mat hits [Hi (d & parts & Hfo)]%disk_run_follows Hmat Hl Hlit. split; [apply Hfo|].
  split; [unfold save; by rewrite Hi|]. exists d. split; [apply Hfo|]. intros order Ho.
  setoid_rewrite <-elem_of_difference.
  eapply covering_search; [apply (tr_covers _ _ _ _ (fl_tracking _ _ _ _ _ _ _ Hfo))|done..].
Qed.

(** C10. A change reaches the disk engine.  A store that follows the repository, apart from the files [lost],
    handles an event of the watcher that reports how the repository changed (a file written
    or created, a directory that appeared, a file or a directory that is gone)
    without a panic and follows the repository as it then is, with the same shards; the files the event
    makes it look at are no longer lost. *)
Theorem applyChange_disk `{MapOrder} `{SymbolExtractor} content_at w0 files0 lost w files fuel s d parts rel :
  follows content_at w0 files0 lost s d parts → reported w0 files0 w files fuel s rel →
  ∃ s' d', applyChange w fuel s rel = Some (s', false) ∧
    follows content_at w files (still_lost w fuel s rel lost) s' d' parts ∧ snapshot d' = snapshot d.
Proof. apply change_follows. Qed.

(** C9. What a rebuild does to the answers.  In a store with a history of [disk_run], a cycle of [rebuild] over a repository
    that does not change, wherever its new files lie, when the files it makes fit the
    format and none is UTF-16, does not panic, and a search with no limit for a required literal after it finds
    exactly the matches and the counts a search before it finds, except those of the files it drops: the
    files that were dirty, not indexed and in the range of a shard, and whose mark it has cleared. *)
Theorem rebuild_answers `{MapOrder} `{SymbolExtractor} `{RegexpEngine} `{!RegexpString}
    content_at w files lost s d re opts :
  let mat := search_matcher re opts in
  disk_run content_at w files lost (Up s) → st_disk s = Some d → cycle_fits (fs_of w) (listed files) d →
  matcher_ok mat → (o_Limit opts ≤ 0)%Z → lit_required mat (o_Literal opts) →
  ∃ d', rebuild d (fs_of w) [] = Some d' ∧
    let D := dropped d d' (listed files) in
    ∀ order order', order ≡ₚ seq 0 (length (shards (snapshot d))) → order' ≡ₚ seq 0 (length (shards (snapshot d'))) →
    ∃ res res', EngineSearch.Search d (fs_of w) re opts order = Some res ∧
      EngineSearch.Search d' (fs_of w) re opts order' = Some res' ∧
      Matches res' ≡ₚ filter (λ m, m_Path m ∉ D) (Matches res) ∧
      ∀ p, FileCounts res' !! p = if decide (p ∈ D) then None else FileCounts res !! p.
Proof.
  intros mat Hrun Hd Hf Hmat Hl Hlit. apply disk_run_follows in Hrun as [_ (d1 & parts & Hfo)].
  assert (d1 = d) as -> by (pose proof (fl_disk _ _ _ _ _ _ _ Hfo); congruence).
  destruct (rebuild_covers _ _ _ _ _ _ _ Hfo Hf) as (d' & parts' & Hr & _ & _ & _ & Hcov & _ & _). exists d'.
  split; [done|]. intros D order order' Ho Ho'. fold D in Hcov. rewrite <-difference_difference_l_L in Hcov.
  destruct (covering_search _ _ _ _ re opts order (tr_covers _ _ _ _ (fl_tracking _ _ _ _ _ _ _ Hfo)) Hmat Hl Hlit Ho)
    as (res & -> & _ & Hm1 & Hm2 & Hc).
  destruct (covering_search _ _ _ _ re opts order' Hcov Hmat Hl Hlit Ho') as (res' & -> & _ & Hm1' & Hm2' & Hc').
  exists res, res'. split_and!; [done..| |].
  - destruct (o_FilesOnly opts); [by rewrite Hm1, Hm1'|]. rewrite Hm2, Hm2' by done.
    apply hits_apart. intros p m. apply dirty_hits_path.
  - intros p. apply option_eq. intros n. rewrite Hc'. destruct (decide (p ∈ D)); [set_solver|].
    rewrite Hc, elem_of_difference. tauto.
Qed.

(** ** Witnesses *)

(** The configuration of a daemon that keeps to the disk engine, and [demo_world] with some
    of two further files: [k.go], which sorts between those of before, and [z.go], which sorts after them. *)
Definition disk_config : Config :=
  Conf.Load (λ k, if bool_decide (k = bs "GCGREP_ENGINE") then Some (bs "disk") else None) 4.
Definition grown_stat (new : list bytes) (p : bytes) : FileInfo + fs_error :=
  if bool_decide (p ∈ new) then inl (mkInfo 6 9 ModeRegular) else demo_stat p.
Definition grown_world (new : list bytes) : World :=
  mkWorld (λ p, if bool_decide (p = []) then
                  Some (filter (λ e, e.1 ∈ new ∨ e.1 ∉ [bs "k.go"; bs "z.go"])
                    [(bs "a.go", false); (bs "b.log", false); (bs "k.go", false); (bs "v", false); (bs "z.go", false)])
                else ReadDir demo_world p)
    (grown_stat new) (grown_stat new) (λ _, None) (λ p, inl (demo_content p)).
Definition demo_at (p : bytes) (st : Z * Z) : bytes := demo_content p.

Definition first_list : list BuildFile := [mkBF (bs "a.go") 6 7; mkBF (bs "b.log") 1 7; mkBF (bs "v/c.go") 6 7].
Definition first_engine : DiskEngine :=
  from_option fst (NewDiskEngine (engine_config disk_config) ∅ None)
    (@FullBuild tree_order no_symbols (NewDiskEngine (engine_config disk_config) ∅ None) (fs_of (grown_world [])) first_list).
Definition first_store : RootStore :=
  default demo_store (newRootStore (H := tree_order) (H0 := no_symbols) (grown_world []) 3 ∅ None None (bs "/r") disk_config false).

(** The store once the two files have been reported, and once a cycle of [rebuild] has run. *)
Definition k_go : bytes := bs "k.go".
Definition z_go : bytes := bs "z.go".
Definition store_with (d : DiskEngine) : RootStore := set_disk first_store (bs "disk") (Some d).
Definition k_engine : DiskEngine := MarkDirty first_engine k_go.
Definition kz_engine : DiskEngine := MarkDirty k_engine z_go.
Definition cycle_engine : DiskEngine :=
  default first_engine (@rebuild tree_order no_symbols kz_engine (fs_of (grown_world [k_go; z_go])) []).
Definition k_list : list BuildFile :=
  [mkBF (bs "a.go") 6 7; mkBF (bs "b.log") 1 7; mkBF k_go 6 9; mkBF (bs "v/c.go") 6 7].
Definition kz_list : list BuildFile := k_list ++ [mkBF z_go 6 9].

Lemma demo_dated w : Walk.ReadFile w = Walk.ReadFile demo_world → dated demo_at (fs_of w).
Proof. intros Hw p c st. unfold fs_of. cbn [Engine.ReadFile]. rewrite Hw. by intros [= <-] _. Qed.

Lemma first_fits : @build_fits tree_order no_symbols (fs_of (grown_world [])) (engine_config disk_config) first_list.
Proof.
  split; [|split; [done|apply (bool_decide_unpack _); vm_compute; exact I]].
  assert (GroupByDirBoundary first_list (ShardSize (engine_config disk_config)) = [first_list]) as ->
    by (vm_compute; reflexivity).
  repeat constructor; apply (bool_decide_unpack _); vm_compute; exact I.
Qed.

Lemma first_text : no_utf16 (fs_of (grown_world [])) first_list.
Proof.
  intros f c Hf Hc. unfold first_list in Hf. repeat (apply elem_of_cons in Hf as [->|Hf];
    [vm_compute in Hc; injection Hc as <-; vm_compute; reflexivity|]). destruct (not_elem_of_nil _ Hf).
Qed.

Lemma first_run : @disk_run tree_order no_symbols demo_at (grown_world []) first_list ∅ (Up first_store).
Proof.
  apply (run_create demo_at (grown_world []) 3 ∅ None None (bs "/r") disk_config false).
  1-3: vm_compute; reflexivity.
  - exact first_fits.
  - intros f Hf. unfold first_list in Hf.
    repeat (apply elem_of_cons in Hf as [->|Hf]; [vm_compute; reflexivity|]). destruct (not_elem_of_nil _ Hf).
  - exact first_text.
  - by apply demo_dated.
  - unfold first_store. assert (is_Some (newRootStore (H := tree_order) (H0 := no_symbols)
      (grown_world []) 3 ∅ None None (bs "/r") disk_config false)) as [s ->]; [|done].
    apply (bool_decide_unpack _). vm_compute. exact I.
Qed.

(** A new file is reported. *)
Lemma grown_reported new n (files0 files : list BuildFile) s :
  listFiles (grown_world (new ++ [n])) 3 s = Some files → isCookie n = false → n ∉ [bs "."; ControlFile] →
  ignored s n false = false → (∀ p, p ∈ listed files ↔ p ∈ listed files0 ∨ p = n) →
  reported (grown_world new) files0 (grown_world (new ++ [n])) files 3 s n.
Proof.
  intros Hl Hc Hn Hi HL. split; [exact Hl|]. split; [exact Hc|]. split; [set_solver|]. split; [set_solver|].
  assert (Walk.Lstat (grown_world (new ++ [n])) n = inl (mkInfo 6 9 ModeRegular)) as ->.
  { cbn [grown_world Walk.Lstat]. unfold grown_stat. by rewrite bool_decide_eq_true_2 by set_solver. }
  change (is_dir (mkInfo 6 9 ModeRegular)) with false. change (is_regular (mkInfo 6 9 ModeRegular)) with true.
  cbv iota beta. split; [exact Hi|]. split; [|apply HL; by right].
  intros p Hp. assert (p ≠ n) as Hne by (intros ->; apply Hp; by left). split; [done|]. split.
  - unfold fs_of, grown_world. cbn [Walk.Stat Engine.Stat]. unfold grown_stat.
    by rewrite (bool_decide_ext (p ∈ new ++ [n]) (p ∈ new)) by set_solver.
  - rewrite HL. naive_solver.
Qed.

Lemma grown_listed (files0 files : list BuildFile) n :
  map Rel files ≡ₚ n :: map Rel files0 → ∀ p, p ∈ listed files ↔ p ∈ listed files0 ∨ p = n.
Proof. intros Hp p. unfold listed. rewrite !elem_of_list_to_set, Hp, elem_of_cons. naive_solver. Qed.

Lemma k_reported : reported (grown_world []) first_list (grown_world [k_go]) k_list 3 first_store k_go.
Proof.
  apply (grown_reported [] k_go); [vm_compute; reflexivity|vm_compute; reflexivity| |vm_compute; reflexivity|].
  - apply (bool_decide_unpack _). vm_compute. exact I.
  - apply grown_listed. symmetry. exact (Permutation_middle [bs "a.go"; bs "b.log"] [bs "v/c.go"] k_go).
Qed.

Lemma z_reported : reported (grown_world [k_go]) k_list (grown_world [k_go; z_go]) kz_list 3 (store_with k_engine) z_go.
Proof.
  apply (grown_reported [k_go] z_go); [vm_compute; reflexivity|vm_compute; reflexivity| |vm_compute; reflexivity|].
  - apply (bool_decide_unpack _). vm_compute. exact I.
  - apply grown_listed. exact (symmetry (Permutation_cons_append (map Rel k_list) z_go)).
Qed.

Lemma still_lost_none w fuel s rel : still_lost w fuel s rel ∅ = ∅.
Proof. apply set_eq. unfold still_lost. set_solver. Qed.

Lemma k_run : @disk_run tree_order no_symbols demo_at (grown_world [k_go]) k_list ∅ (Up (store_with k_engine)).
Proof.
  pose proof (run_change (H := tree_order) (H0 := no_symbols) demo_at (grown_world []) first_list ∅ first_store (grown_world [k_go]) k_list 3
    (store_with k_engine) k_go false first_run k_reported ltac:(vm_compute; reflexivity)) as Hr.
  by rewrite still_lost_none in Hr.
Qed.

Lemma kz_run : @disk_run tree_order no_symbols demo_at (grown_world [k_go; z_go]) kz_list ∅ (Up (store_with kz_engine)).
Proof.
  pose proof (run_change (H := tree_order) (H0 := no_symbols) demo_at (grown_world [k_go]) k_list ∅ (store_with k_engine)
    (grown_world [k_go; z_go]) kz_list 3 (store_with kz_engine) z_go false k_run z_reported ltac:(vm_compute; reflexivity)) as Hr.
  by rewrite still_lost_none in Hr.
Qed.

Lemma kz_fits : @cycle_fits tree_order no_symbols (fs_of (grown_world [k_go; z_go])) (listed kz_list) kz_engine.
Proof.
  destruct (@FullBuild_spec tree_order no_symbols (fs_of (grown_world [])) (NewDiskEngine (engine_config disk_config) ∅ None)
    first_list first_fits) as (e & He & Hfb).
  assert (first_engine = e) as E by (unfold first_engine; by rewrite He).
  set (parts := parts_of _ _) in Hfb. exists parts. rewrite <-E in Hfb. clear E.
  split; [destruct (fb_order _ _ _ _ _ Hfb); by split|].
  assert (parts = [@inputs_of no_symbols (fs_of (grown_world [])) [mkBF (bs "a.go") 6 7; mkBF (bs "v/c.go") 6 7]]) as ->
    by (vm_compute; reflexivity).
  split.
  - constructor; [|constructor]. split; apply (bool_decide_unpack _); vm_compute; exact I.
  - split; apply (bool_decide_unpack _); vm_compute; exact I.
  - intros p c (f & Hf & <-)%listed_elem Hc. unfold kz_list, k_list in Hf. cbn [app] in Hf.
    repeat (apply elem_of_cons in Hf as [->|Hf]; [vm_compute in Hc; injection Hc as <-; vm_compute; reflexivity|]).
    destruct (not_elem_of_nil _ Hf).
  - vm_compute. reflexivity.
Qed.

Lemma cycle_rebuilt :
  @rebuild tree_order no_symbols kz_engine (fs_of (grown_world [k_go; z_go])) [] = Some cycle_engine.
Proof.
  unfold cycle_engine.
  assert (is_Some (@rebuild tree_order no_symbols kz_engine (fs_of (grown_world [k_go; z_go])) [])) as [d ->]; [|done].
  apply (bool_decide_unpack _). vm_compute. exact I.
Qed.

(** The cycle drops [k.go], which lies in the range of the only shard, and makes a shard of [z.go]. *)
Lemma cycle_drops : dropped kz_engine cycle_engine (listed kz_list) = {[k_go]}.
Proof. apply (bool_decide_unpack _). vm_compute. exact I. Qed.

Lemma cycle_run :
  @disk_run tree_order no_symbols demo_at (grown_world [k_go; z_go]) kz_list {[k_go]} (Up (store_with cycle_engine)).
Proof.
  pose proof (run_rebuild (H := tree_order) (H0 := no_symbols) demo_at (grown_world [k_go; z_go]) kz_list ∅ (store_with kz_engine)
    kz_engine (grown_world [k_go; z_go]) kz_list [] cycle_engine kz_run eq_refl (demo_dated (grown_world [k_go; z_go]) eq_refl) kz_fits
    ltac:(apply (bool_decide_unpack _); vm_compute; exact I) cycle_rebuilt) as Hr.
  assert (lost_after kz_list ∅ [] kz_engine cycle_engine = {[k_go]}) as El.
  { unfold lost_after. rewrite cycle_drops. apply set_eq. set_solver. }
  rewrite El in Hr. apply Hr.
  - split; intros p Hp; [|destruct (not_elem_of_nil p Hp)].
    split; [reflexivity|]. split; [reflexivity|exact (iff_refl _)].
  - exists 3. vm_compute. reflexivity.
Qed.

(** The daemon ends; the next one starts over the shards of the cycle and finds the file that was lost. *)
Lemma restarted_run : ∃ s, @disk_run tree_order no_symbols demo_at (grown_world [k_go; z_go]) kz_list ∅ (Up s).
Proof.
  assert (is_Some (newRootStore (H := tree_order) (H0 := no_symbols) (grown_world [k_go; z_go]) 3 (idx_files cycle_engine)
    (manifest cycle_engine) None (bs "/r") disk_config false)) as [s Hs] by (apply (bool_decide_unpack _); vm_compute; exact I).
  exists s. eapply (run_restart demo_at (grown_world [k_go; z_go]) kz_list {[k_go]} cycle_engine (grown_world [k_go; z_go]) 3 None
    (bs "/r") disk_config false kz_list s); [by eapply run_ends; [exact cycle_run|]|..];
    try (vm_compute; reflexivity); [| |by apply demo_dated|exact Hs].
  - intros f Hf. unfold kz_list, k_list in Hf. cbn [app] in Hf.
    repeat (apply elem_of_cons in Hf as [->|Hf]; [vm_compute; reflexivity|]). destruct (not_elem_of_nil _ Hf).
  - intros f _. by eexists.
Qed.

Lemma func_required (opts := mkOpts (bs "func") None false 0 (bs "func") true 0 0) :
  let RS := Build_RegexpString (one_engine hello_re) (λ _, bs "func") in
  @matcher_ok (one_engine hello_re) (@search_matcher (one_engine hello_re) RS tt opts) ∧
  @lit_required (one_engine hello_re) (@search_matcher (one_engine hello_re) RS tt opts) (bs "func").
Proof.
  intros RS. assert (@matcher_ok (one_engine hello_re) (@search_matcher (one_engine hello_re) RS tt opts)) as Hm.
  { split; [|done]. intros Hh. vm_compute in Hh. discriminate. }
  split; [exact Hm|].
  apply (@plain_required latin1_case (one_engine hello_re) (@search_matcher (one_engine hello_re) RS tt opts));
    [exact Hm|vm_compute; discriminate|apply (bool_decide_unpack _); vm_compute; exact I].
Qed.

Lemma disk_run_search_witness :
  let RS := Build_RegexpString (one_engine hello_re) (λ _, bs "func") in
  let opts := mkOpts (bs "func") None false 0 (bs "func") true 0 0 in
  ∃ res, @EngineSearch.Search tree_order (one_engine hello_re) RS cycle_engine (fs_of (grown_world [k_go; z_go])) tt opts [1; 0]
      = Some res ∧
    FileCounts res !! z_go = Some 1 ∧ FileCounts res !! bs "b.log" = None ∧ FileCounts res !! k_go = None.
Proof.
  intros RS opts. destruct func_required as [Hm Hlit].
  destruct (@disk_run_search tree_order no_symbols (one_engine hello_re) RS demo_at (grown_world [k_go; z_go]) kz_list {[k_go]}
    (store_with cycle_engine) tt opts cycle_run Hm ltac:(vm_compute; discriminate) Hlit) as (_ & _ & d & Hd & Hs).
  assert (st_disk (store_with cycle_engine) = Some cycle_engine) as E by reflexivity.
  rewrite E in Hd. apply (inj Some) in Hd. subst d.
  assert (length (shards (snapshot cycle_engine)) = 2) as Hn by (vm_compute; reflexivity).
  destruct (Hs [1; 0]) as (res & Hr & _ & _ & _ & Hc); [rewrite Hn; apply perm_swap|].
  exists res. split; [exact Hr|]. split; [|split].
  - apply Hc. split; [split; apply (bool_decide_unpack _); vm_compute; exact I|].
    split; [vm_compute; discriminate|vm_compute; reflexivity].
  - destruct (FileCounts res !! bs "b.log") as [n|] eqn:En; [|reflexivity].
    apply Hc in En as (_ & Hx & _). destruct Hx. vm_compute. reflexivity.
  - destruct (FileCounts res !! k_go) as [n|] eqn:En; [|reflexivity].
    apply Hc in En as ((_ & Hx) & _ & _). destruct Hx. apply elem_of_singleton. reflexivity.
Defined.

Lemma applyChange_disk_witness :
  ∃ s' d', applyChange (H := tree_order) (H0 := no_symbols) (grown_world [k_go]) 3 first_store k_go = Some (s', false) ∧
    st_disk s' = Some d' ∧ snapshot d' = snapshot first_engine.
Proof.
  destruct (disk_run_follows (H := tree_order) (H0 := no_symbols) demo_at _ _ _ _ first_run) as [_ (d & parts & Hf)].
  assert (st_disk first_store = Some first_engine) as E by (vm_compute; reflexivity).
  assert (d = first_engine) as -> by (pose proof (fl_disk _ _ _ _ _ _ _ Hf); congruence).
  destruct (@applyChange_disk tree_order no_symbols demo_at (grown_world []) first_list ∅ (grown_world [k_go]) k_list 3 first_store
    first_engine parts k_go Hf k_reported) as (s' & d' & Ha & Hf' & Hs).
  exists s', d'. split; [exact Ha|]. split; [exact (fl_disk _ _ _ _ _ _ _ Hf')|exact Hs].
Defined.

Lemma rebuild_answers_witness :
  let RS := Build_RegexpString (one_engine hello_re) (λ _, bs "func") in
  let opts := mkOpts (bs "func") None false 0 (bs "func") true 0 0 in
  ∃ res res', length (shards (snapshot cycle_engine)) = 2 ∧
    @EngineSearch.Search tree_order (one_engine hello_re) RS kz_engine (fs_of (grown_world [k_go; z_go])) tt opts [0] = Some res ∧
    @EngineSearch.Search tree_order (one_engine hello_re) RS cycle_engine (fs_of (grown_world [k_go; z_go])) tt opts [1; 0]
      = Some res' ∧
    Matches res' ≡ₚ filter (λ m, m_Path m ∉ ({[k_go]} : gset bytes)) (Matches res).
Proof.
  intros RS opts. destruct func_required as [Hm Hlit].
  destruct (@rebuild_answers tree_order no_symbols (one_engine hello_re) RS demo_at (grown_world [k_go; z_go]) kz_list ∅
    (store_with kz_engine) kz_engine tt opts kz_run eq_refl kz_fits Hm ltac:(vm_compute; discriminate) Hlit) as (d' & Hr & Hs).
  rewrite cycle_rebuilt in Hr. apply (inj Some) in Hr. subst d'. cbv zeta in Hs. rewrite cycle_drops in Hs.
  assert (length (shards (snapshot cycle_engine)) = 2) as Hn by (vm_compute; reflexivity).
  destruct (Hs [0] [1; 0]) as (res & res' & H1 & H2 & Hp & _); [vm_compute; reflexivity|rewrite Hn; apply perm_swap|].
  exists res, res'. split; [exact Hn|]. split; [exact H1|]. split; [exact H2|exact Hp].
Defined.
