(* ===== verification/Persist.v ===== *)
(** * The caches of a store: [save], [loadPersisted], [DeleteCache] and [CacheInfo] of internal/daemon/store.go

    The index file of a root in the cache directory, written under a temporary name and renamed, with the
    errors of each call; what a crash of the daemon leaves of it, and what the next daemon makes of
    that.  Store.v has the contents of the file ([persisted]). *)

From S2P Require Import Prelude GoBytes Text GoPath Lines Ignore Walk Conf Symbol Strip Extract Refs.
From S2P Require Import Regexp Literal Matcher Index IndexSearch Codec Shard Engine EngineSearch.
From S2P Require Import Store StoreSpec StoreSync Globs Server Client Daemon Dir.

(** ** Names in the cache directory *)

(** [sha256.Sum256] *)
Class Sha256 := Sum256 : bytes → bytes.

(** [hex.EncodeToString] *)
Definition hex_digits : bytes := bs "0123456789abcdef".
Definition hex_digit (n : N) : byte := nth (N.to_nat n) hex_digits "0"%byte.
Definition hex_encode (b : bytes) : bytes :=
  concat (map (λ c, [hex_digit (Byte.to_N c / 16); hex_digit (Byte.to_N c mod 16)]) b).

(** [encoding/gob] and [compress/gzip]: a persisted index as bytes. *)
Class PersistCodec := { encode : persisted → bytes; decode : bytes → option persisted }.

Section Caches.
Context `{Sha256}.

(** The root and whether links are followed, as one string. *)
Definition cache_key (root : bytes) (follow : bool) : bytes :=
  root ++ if follow then "000"%byte :: bs "follow" else [].

Definition indexPath (root : bytes) (follow : bool) : bytes :=
  bs "index-" ++ hex_encode (take 8 (Sum256 (cache_key root follow))) ++ bs ".gob.gz".

Definition shardDir (root : bytes) (follow : bool) : bytes :=
  bs "shards-" ++ hex_encode (take 8 (Sum256 (cache_key root follow))).

(** The names in a directory. *)
Definition in_dir (dir name : bytes) : bool := has_prefix name (dir ++ bs "/").

(** [dirSize]: the sizes of the files in a directory. *)
Definition dirSize (d : dir) (dir : bytes) : Z :=
  foldr (λ nd total, total + len nd.2)%Z 0%Z (map_to_list (filter (λ nd : bytes * bytes, in_dir dir nd.1 = true) d)).

(** [CacheInfo]: the directory, [None] for the cache directory itself, and the size of the caches. *)
Definition CacheInfo (d : dir) (s : RootStore) : option bytes * Z :=
  let dir := match st_disk s with Some _ => Some (shardDir (st_root s) (st_follow s)) | None => None end in
  let size := match dir with Some dir => dirSize d dir | None => 0%Z end in
  (dir, (size + match d !! indexPath (st_root s) (st_follow s) with Some data => len data | None => 0 end)%Z).

(** [DeleteCache]: two removals, and [os.RemoveAll] of the shard directory. *)
Definition remove_all (d : dir) (name : bytes) : dir :=
  filter (λ nd : bytes * bytes, nd.1 ≠ name ∧ in_dir name nd.1 = false) d.
Definition DeleteCache (d : dir) (s : RootStore) : dir :=
  let index := indexPath (st_root s) (st_follow s) in
  remove_all (exec_all [ORemove index; ORemove (tmp_of index)] d) (shardDir (st_root s) (st_follow s)).

(** ** The index file *)

Context `{PersistCodec}.

(** What can go wrong in [save]: the file cannot be opened, the encoder or one of the two closes fails when
    some bytes are in the file, the renaming fails. *)
Inductive save_fault := NoFault | OpenFails | WriteFails (k : nat) | RenameFails.

(** [save] once the index has been copied. *)
Definition save_ops (name : bytes) (p : persisted) (fault : save_fault) : list op :=
  let tmp := tmp_of name in
  match fault with
  | NoFault => [OWrite tmp (encode p); ORename tmp name]
  | OpenFails => []
  | WriteFails k => [OWrite tmp (take k (encode p)); ORemove tmp]
  | RenameFails => [OWrite tmp (encode p); ORemove tmp]
  end.

(** [save] of a store, and the first half of [loadPersisted]: a file that is missing or
    damaged is none. *)
Definition save_to (d : dir) (s : RootStore) (fault : save_fault) : option dir :=
  p ← save s;
  Some (exec_all (save_ops (indexPath (st_root s) (st_follow s)) p fault) d).
Definition index_file (d : dir) (root : bytes) (follow : bool) : option persisted :=
  data ← d !! indexPath root follow; decode data.
End Caches.

(** ** Names *)

Lemma indexPath_plain `{Sha256} root follow : plain (indexPath root follow).
Proof. unfold plain, has_suffix, indexPath. rewrite !reverse_app. reflexivity. Qed.

Lemma hex_digit_length b : length (hex_encode b) = 2 * length b.
Proof. induction b as [|c b IH]; [done|]. cbn [hex_encode map concat]. rewrite length_app. cbn [length] in *. unfold hex_encode in IH. lia. Qed.

Lemma hex_byte_inj a b :
  hex_digit (Byte.to_N a / 16) = hex_digit (Byte.to_N b / 16) →
  hex_digit (Byte.to_N a mod 16) = hex_digit (Byte.to_N b mod 16) → a = b.
Proof.
  assert (∀ n, (n < 16)%N → Byte.to_N (hex_digit n) = if (n <? 10)%N then (n + 48)%N else (n + 87)%N) as Hd.
  { intros n Hn. assert (n ∈ map N.of_nat (seq 0 16)) as Hin.
    { apply list_elem_of_fmap. exists (N.to_nat n). rewrite elem_of_seq. split; lia. }
    clear Hn. revert n Hin. apply Forall_forall. repeat constructor. }
  pose proof (Byte.to_N_bounded a) as Ha. pose proof (Byte.to_N_bounded b) as Hb.
  assert (Byte.to_N a / 16 < 16)%N as Ha1 by (apply N.Div0.div_lt_upper_bound; lia).
  assert (Byte.to_N b / 16 < 16)%N as Hb1 by (apply N.Div0.div_lt_upper_bound; lia).
  pose proof (N.mod_lt (Byte.to_N a) 16 ltac:(done)) as Ha2. pose proof (N.mod_lt (Byte.to_N b) 16 ltac:(done)) as Hb2.
  intros E1%(f_equal Byte.to_N) E2%(f_equal Byte.to_N). rewrite !Hd in E1, E2 by done.
  assert (∀ x y, (if (x <? 10)%N then x + 48 else x + 87)%N = (if (y <? 10)%N then y + 48 else y + 87)%N → x = y) as Hx.
  { intros x y. destruct (N.ltb_spec x 10), (N.ltb_spec y 10); lia. }
  apply Hx in E1, E2. assert (Byte.to_N a = Byte.to_N b) as E.
  { rewrite (N.div_mod' (Byte.to_N a) 16), (N.div_mod' (Byte.to_N b) 16). by rewrite E1, E2. }
  pose proof (Byte.of_to_N a) as Oa. pose proof (Byte.of_to_N b) as Ob. rewrite E in Oa. congruence.
Qed.

#[export] Instance hex_encode_inj : Inj (=) (=) hex_encode.
Proof.
  intros a. induction a as [|x a IH]; intros [|y b]; cbn [hex_encode map concat app]; intros E; try done.
  injection E as E1 E2 E. f_equal; [by apply hex_byte_inj|by apply IH].
Qed.

Section Names.
Context `{Sha256}.
Hypothesis Hlen : ∀ b, length (Sum256 b) = 32.

(** The hash that names the caches of a store. *)
Definition cache_hash (s : RootStore) : bytes := take 8 (Sum256 (cache_key (st_root s) (st_follow s))).

Lemma cache_hash_length s : length (hex_encode (cache_hash s)) = 16.
Proof. rewrite hex_digit_length. unfold cache_hash. rewrite length_take, Hlen. done. Qed.

Lemma indexPath_hash s s' :
  indexPath (st_root s) (st_follow s) = indexPath (st_root s') (st_follow s') → cache_hash s = cache_hash s'.
Proof. unfold indexPath. intros E%app_inv_head%app_inv_tail. by apply (inj hex_encode). Qed.

(** No name is in the shard directories of two hashes. *)
Lemma in_dir_hash s s' n :
  in_dir (shardDir (st_root s) (st_follow s)) n = true → in_dir (shardDir (st_root s') (st_follow s')) n = true →
  cache_hash s = cache_hash s'.
Proof.
  unfold in_dir, shardDir. rewrite !has_prefix_spec. intros [t1 ->] [t2 E]. apply (inj hex_encode).
  rewrite <-!app_assoc in E. apply app_inv_head in E. apply app_inj_1 in E; [by destruct E|].
  fold (cache_hash s) (cache_hash s'). by rewrite !cache_hash_length.
Qed.

(** What [DeleteCache] takes away. *)
Definition cached (s : RootStore) (n : bytes) : Prop :=
  let index := indexPath (st_root s) (st_follow s) in let dir := shardDir (st_root s) (st_follow s) in
  n = index ∨ n = tmp_of index ∨ n = dir ∨ in_dir dir n = true.

Lemma DeleteCache_lookup d s n :
  (cached s n → DeleteCache d s !! n = None) ∧ (¬ cached s n → DeleteCache d s !! n = d !! n).
Proof.
  unfold DeleteCache, remove_all, cached. cbn [exec_all foldl exec]. set (dir := shardDir _ _). set (index := indexPath _ _). split.
  - intros Hn. apply map_lookup_filter_None. destruct (decide (n = index)) as [->|N1]; [left|destruct (decide (n = tmp_of index)) as [->|N2]; [left|right]].
    + rewrite lookup_delete. destruct (decide _); [done|]. apply lookup_delete_eq.
    + apply lookup_delete_eq.
    + intros x _ [Hd Hi]. cbn in *. destruct Hn as [?|[?|[?|?]]]; congruence.
  - intros Hn. apply option_eq. intros x. rewrite map_lookup_filter_Some, !lookup_delete_ne by (intros <-; tauto). cbn [fst].
    split; [by intros [? _]|]. intros Hx. split; [done|]. split; [tauto|]. destruct (in_dir dir n); [tauto|done].
Qed.

(** The hash in a name of the cache directory. *)
Definition name_hash (n : bytes) : bytes :=
  take 16 (drop (if has_prefix n (bs "index-") then 6 else 7) n).

Lemma cached_hash s n : cached s n → name_hash n = hex_encode (cache_hash s).
Proof.
  assert (∀ a t : bytes, length a = 16 → take 16 (a ++ t) = a) as Ht.
  { intros a t E. rewrite take_app_le by lia. apply take_ge. lia. }
  pose proof (cache_hash_length s) as El. intros [->|[->|[->|Hn]]].
  - unfold name_hash, indexPath. apply Ht, El.
  - unfold name_hash, tmp_of, indexPath. rewrite <-!app_assoc. apply Ht, El.
  - unfold name_hash, shardDir. rewrite <-(app_nil_r (hex_encode _)). apply Ht, El.
  - unfold in_dir, shardDir in Hn. apply has_prefix_spec in Hn as [t ->]. unfold name_hash. rewrite <-!app_assoc.
    apply Ht, El.
Qed.

(** The caches of another hash are other files. *)
Lemma cached_apart s s' n : cache_hash s ≠ cache_hash s' → cached s n → ¬ cached s' n.
Proof. intros Hne Hs%cached_hash Hs'%cached_hash. apply Hne, (inj hex_encode). congruence. Qed.
End Names.

(** ** Deleting *)

(** [DeleteCache], behind gcgrep forget: nothing is left of the caches of the store (a new store finds no index and
    [CacheInfo] counts no byte), and the caches of a store with another hash stay as they are. *)
Theorem DeleteCache_exact `{Sha256} `{PersistCodec} (d : dir) (s s' : RootStore) :
  (∀ b, length (Sum256 b) = 32) → cache_hash s ≠ cache_hash s' →
  index_file (DeleteCache d s) (st_root s) (st_follow s) = None ∧ (CacheInfo (DeleteCache d s) s).2 = 0%Z ∧
  index_file (DeleteCache d s) (st_root s') (st_follow s') = index_file d (st_root s') (st_follow s') ∧
  CacheInfo (DeleteCache d s) s' = CacheInfo d s'.
Proof.
  intros Hl Hne. assert (∀ n, cached s n → DeleteCache d s !! n = None) as H1 by (intros n; apply DeleteCache_lookup).
  assert (∀ n, cached s' n → DeleteCache d s !! n = d !! n) as H2.
  { intros n Hn. apply DeleteCache_lookup. intros Hs. by apply (cached_apart Hl s s' n). }
  assert (DeleteCache d s !! indexPath (st_root s) (st_follow s) = None) as Hi by (apply H1; by left).
  assert (DeleteCache d s !! indexPath (st_root s') (st_follow s') = d !! indexPath (st_root s') (st_follow s')) as Hi'
    by (apply H2; by left).
  split_and!.
  - unfold index_file. by rewrite Hi.
  - unfold CacheInfo. cbn [snd]. rewrite Hi. destruct (st_disk s); [|done]. unfold dirSize.
    assert (filter (λ nd : bytes * bytes, in_dir (shardDir (st_root s) (st_follow s)) nd.1 = true) (DeleteCache d s) = ∅) as ->.
    { apply map_empty. intros n. apply map_lookup_filter_None. right. intros x Hx Hd. cbn in Hd.
      rewrite H1 in Hx; [done|]. by do 3 right. }
    by rewrite map_to_list_empty.
  - unfold index_file. by rewrite Hi'.
  - unfold CacheInfo. rewrite Hi'. destruct (st_disk s'); [|done]. do 2 f_equal. unfold dirSize. do 2 f_equal.
    apply map_filter_strong_ext. intros n x. cbn. split; intros [Hd Hx]; (split; [done|]); [rewrite <-H2|rewrite H2];
      (done || by do 3 right).
Qed.

(** ** Saving *)

Section Saving.
Context `{Sha256} `{PersistCodec}.

Lemma save_ops_crash n p fault d d' :
  crash (save_ops n p fault) d d' → same_files d' d ∨ (fault = NoFault ∧ same_files d' (<[n := encode p]> d)).
Proof.
  assert (∀ data, crash [OWrite (tmp_of n) data; ORemove (tmp_of n)] d d' → same_files d' d) as Hrm.
  { intros data Hc. inversion Hc as [|? ? k|? ? ? ? H1]; subst; [done|apply tmp_same|].
    inversion H1 as [| |? ? ? ? H2]; subst; [apply tmp_same|]. inversion H2; subst. cbn [exec].
    intros m Hm. rewrite lookup_delete_ne by by apply tmp_not_plain. by apply tmp_same. }
  destruct fault; cbn [save_ops]; intros Hc.
  - apply replace_crash in Hc as [?|?]; auto.
  - inversion Hc; subst. by left.
  - left. by eapply Hrm.
  - left. by eapply Hrm.
Qed.

Lemma index_file_same d d' root follow : same_files d d' → index_file d root follow = index_file d' root follow.
Proof. intros Hd. unfold index_file. by rewrite (Hd _ (indexPath_plain root follow)). Qed.
End Saving.

(** What package gob and gzip do: a persisted index is read back as it was written. *)
Definition codec_lossless `{PersistCodec} : Prop := ∀ p, decode (encode p) = Some p.

(** C13. A daemon that dies while it saves loses nothing.  Whatever point of [save] it has reached, and whatever call
    of it failed, the next daemon's store for the root agrees with the disk once it is ready: it starts from the index
    of before, from the new one, or from none, and never from a part of one. *)
Theorem crash_restart_agrees `{MapOrder} `{SymbolExtractor} `{Sha256} `{PersistCodec}
    w fuel idx m c follow n s p fault d d' files :
  codec_lossless → store_ok n s → save s = Some p → st_follow s = follow → Conf.Engine c = bs "mem" →
  saved_file (st_root s) (length files) (index_file d (st_root s) follow) →
  (Z.of_nat (size (entries s) + length files) ≤ 2 ^ 32)%Z →
  crash (save_ops (indexPath (st_root s) follow) p fault) d d' →
  listFiles w fuel (blank_store w (st_root s) c follow) = Some files →
  (∀ f, f ∈ files → Walk.Stat w (Rel f) = inl (mkInfo (bf_Size f) (bf_MtimeNS f) ModeRegular)) →
  (index_file d' (st_root s) follow = index_file d (st_root s) follow ∨ index_file d' (st_root s) follow = Some p) ∧
  ∃ s', newRootStore w fuel idx m (index_file d' (st_root s) follow) (st_root s) c follow = Some s' ∧
    st_state s' = StateReady ∧ (∀ q, q ∈ map Rel files → agrees w s' q) ∧
    (∀ q, q ∉ map Rel files → entries s' !! q = None ∧ st_stream s' !! q = None).
Proof.
  intros Hc Hs Hp Hf He Hold Hn Hcr Hl Hstat.
  assert (index_file d' (st_root s) follow = index_file d (st_root s) follow ∨
          index_file d' (st_root s) follow = Some p) as Hi.
  { apply save_ops_crash in Hcr as [Hd|[_ Hd]]; [left|right]; rewrite (index_file_same _ _ _ _ Hd); [done|].
    unfold index_file. rewrite lookup_insert_eq. apply Hc. }
  split; [done|]. apply newRootStore_agrees; [done| |done|lia|done].
  destruct Hi as [->| ->]; [done|]. intros p' [= <-]. by exists n, s.
Qed.

(** [Close] does not stop the timer that [scheduleSave] set: when it fires after [forget] has deleted the caches, the
    index is back. *)
Theorem timer_undoes_forget `{Sha256} `{PersistCodec} d s p :
  codec_lossless → save s = Some p →
  ∃ d', save_to (DeleteCache d s) s NoFault = Some d' ∧ index_file d' (st_root s) (st_follow s) = Some p.
Proof.
  intros Hc Hp. unfold save_to. rewrite Hp. cbn [mbind option_bind]. eexists. split; [done|]. unfold index_file.
  pose proof (replace_done (indexPath (st_root s) (st_follow s)) (encode p) (DeleteCache d s)) as Hd.
  unfold save_ops, replace_ops in *. rewrite (Hd _ (indexPath_plain _ _)), lookup_insert_eq. apply Hc.
Qed.

(** ** Two saves at once

    [saveMu] guards the timer, not [save]: the save of a timer and that of [Close] may overlap.  They open the same
    temporary file, each with an offset of its own. *)

Record disk := mkDisk { k_names : gmap bytes nat; k_data : gmap nat bytes; k_next : nat }.

(** A writer: the file it has open, where it is in it, and what it has still to write. *)
Record writer := mkWriter { wr_file : nat; wr_off : nat; wr_rest : bytes }.

Inductive save_act := SOpen | SWrite (n : nat) | SRename.

(** [os.OpenFile] with O_CREATE and O_TRUNC. *)
Definition open_trunc (k : disk) (name : bytes) : disk * nat :=
  match k_names k !! name with
  | Some i => (mkDisk (k_names k) (<[i := []]> (k_data k)) (k_next k), i)
  | None => (mkDisk (<[name := k_next k]> (k_names k)) (<[k_next k := []]> (k_data k)) (S (k_next k)), k_next k)
  end.

(** A write at an offset: a gap is filled with zeros. *)
Definition write_at (off : nat) (b data : bytes) : bytes :=
  take off (data ++ replicate (off - length data) "000"%byte) ++ b ++ drop (off + length b) data.

(** A step of [save] for the file [name]. *)
Definition save_step (name : bytes) (k : disk) (w : writer) (a : save_act) : disk * writer :=
  match a with
  | SOpen => let '(k, i) := open_trunc k (tmp_of name) in (k, mkWriter i 0 (wr_rest w))
  | SWrite n =>
      let b := take n (wr_rest w) in
      (mkDisk (k_names k) (alter (write_at (wr_off w) b) (wr_file w) (k_data k)) (k_next k),
       mkWriter (wr_file w) (wr_off w + length b) (drop n (wr_rest w)))
  | SRename =>
      match k_names k !! tmp_of name with
      | Some i => (mkDisk (<[name := i]> (delete (tmp_of name) (k_names k))) (k_data k) (k_next k), w)
      | None => (k, w)
      end
  end.

(** Two writers, one after another as the list says. *)
Definition save_steps (name : bytes) (a b : bytes) (acts : list (bool * save_act)) : option bytes :=
  let '(k, _, _) := foldl (λ '(k, w1, w2) '(second, act),
      if second : bool then let '(k, w2) := save_step name k w2 act in (k, w1, w2)
      else let '(k, w1) := save_step name k w1 act in (k, w1, w2))
    (mkDisk ∅ ∅ 0, mkWriter 0 0 a, mkWriter 0 0 b) acts in
  i ← k_names k !! name; k_data k !! i.

(** One save alone leaves what it wrote; two that overlap leave a mixture of both. *)
Theorem overlapping_saves_mix :
  let alone := [(false, SOpen); (false, SWrite 4); (false, SWrite 20); (false, SRename)] in
  let mixed := [(false, SOpen); (false, SWrite 4); (true, SOpen); (true, SWrite 20); (false, SWrite 20);
                (false, SRename); (true, SRename)] in
  save_steps (bs "i") (bs "old index") (bs "new") alone = Some (bs "old index") ∧
  save_steps (bs "i") (bs "old index") (bs "new") mixed = Some (bs "new" ++ "000"%byte :: bs "index").
Proof. split; vm_compute; reflexivity. Qed.

(** ** Witnesses *)

(** A hash and a codec for the examples: the first bytes of the text, and the bits of the number of a record. *)
Definition pad_hash : Sha256 := λ b, take 32 (b ++ replicate 32 "000"%byte).

Lemma pad_hash_length b : length (@Sum256 pad_hash b) = 32.
Proof. unfold Sum256, pad_hash. rewrite length_take, length_app, length_replicate. lia. Qed.

#[export] Instance meta_eq_dec : EqDecision FileMeta.
Proof. solve_decision. Defined.
#[export] Instance meta_countable : Countable FileMeta :=
  inj_countable' (λ m, (Path m, Size m, MtimeNS m)) (λ '(p, s, t), mkMeta p s t) ltac:(by intros []).
#[export] Instance def_countable : Countable Def :=
  inj_countable' (λ d, (d_Name d, d_Kind d, d_Container d, d_Line d)) (λ '(n, k, c, l), mkDef n k c l) ltac:(by intros []).
#[export] Instance persisted_eq_dec : EqDecision persisted.
Proof. solve_decision. Defined.
#[export] Instance persisted_countable : Countable persisted :=
  inj_countable' (λ p, (p_Version p, p_Root p, p_Files p)) (λ '(v, r, f), mkPersisted v r f) ltac:(by intros []).

Fixpoint pos_bytes (p : positive) : bytes :=
  match p with xH => [] | xO p => "0"%byte :: pos_bytes p | xI p => "1"%byte :: pos_bytes p end.
Fixpoint bytes_pos (b : bytes) : positive :=
  match b with [] => xH | c :: b => if bool_decide (c = "0"%byte) then xO (bytes_pos b) else xI (bytes_pos b) end.
Lemma bytes_pos_bytes p : bytes_pos (pos_bytes p) = p.
Proof. induction p as [p IH|p IH|]; cbn; by rewrite ?IH. Qed.

Definition bit_codec : PersistCodec := {|
  encode p := pos_bytes (countable.encode p); decode b := countable.decode (bytes_pos b);
|}.
Lemma bit_codec_lossless : @codec_lossless bit_codec.
Proof. intros p. cbn [encode decode bit_codec]. by rewrite bytes_pos_bytes, decode_encode. Qed.

Lemma DeleteCache_exact_witness :
  let s := new_store (bs "/r") (Default 1) [] in let s' := new_store (bs "/s") (Default 1) [] in
  let d : dir := <[@indexPath pad_hash (bs "/r") false := bs "1"]> (<[@indexPath pad_hash (bs "/s") false := bs "23"]> ∅) in
  (@CacheInfo pad_hash d s).2 = 1%Z ∧ (@CacheInfo pad_hash (@DeleteCache pad_hash d s) s).2 = 0%Z ∧
  (@CacheInfo pad_hash (@DeleteCache pad_hash d s) s').2 = 2%Z.
Proof.
  intros s s' d. destruct (@DeleteCache_exact pad_hash bit_codec d s s' pad_hash_length) as (_ & H1 & _ & H2).
  - intros E. vm_compute in E. discriminate.
  - split; [vm_compute; reflexivity|]. split; [exact H1|]. rewrite H2. vm_compute. reflexivity.
Defined.

Lemma crash_restart_agrees_witness :
  ∃ s p d' s', indexFile (H := tree_order) (H0 := no_symbols) demo_world demo_store (bs "a.go") = Some s ∧
    save s = Some p ∧
    crash (@save_ops bit_codec (@indexPath pad_hash (st_root s) false) p NoFault) ∅ d' ∧
    newRootStore (H := tree_order) (H0 := no_symbols) demo_world 3 ∅ None
      (@index_file pad_hash bit_codec d' (st_root s) false) (st_root s) mem_config false = Some s' ∧
    agrees (H := no_symbols) demo_world s' (bs "v/c.go").
Proof.
  assert (store_ok 1 demo_store) as H1 by (apply new_store_ok; vm_compute; discriminate).
  destruct (indexFile_routed (H := tree_order) (H0 := no_symbols) demo_world 0 demo_store (bs "a.go") H1)
    as (s & Hs & Hok & _ & _ & _ & Hroot).
  assert (from_option (λ s, (size (entries s), st_follow s)) (99, true)
    (indexFile (H := tree_order) (H0 := no_symbols) demo_world demo_store (bs "a.go")) = (1, false)) as Hsz
    by (vm_compute; reflexivity).
  rewrite Hs in Hsz. cbn [from_option] in Hsz. injection Hsz as Hsz Hfo.
  destruct (@save_load_spec tree_order 0 0 s Hok) as (p & Hp & _); [rewrite Hsz; vm_compute; discriminate|].
  set (fs := [mkBF (bs "a.go") 6 7; mkBF (bs "b.log") 1 7; mkBF (bs "v/c.go") 6 7]).
  set (d' := <[tmp_of (@indexPath pad_hash (st_root s) false) := take 3 (@encode bit_codec p)]> (∅ : dir)).
  assert (crash (@save_ops bit_codec (@indexPath pad_hash (st_root s) false) p NoFault) ∅ d') as Hcr by apply crash_torn.
  destruct (@crash_restart_agrees tree_order no_symbols pad_hash bit_codec demo_world 3 ∅ None mem_config false 0 s p
    NoFault ∅ d' fs bit_codec_lossless Hok Hp Hfo) as (_ & s' & Hn & _ & Hag & _); [vm_compute; reflexivity| | |exact Hcr| | |].
  - intros q Hq. unfold index_file in Hq. by rewrite lookup_empty in Hq.
  - rewrite Hsz. vm_compute. discriminate.
  - rewrite Hroot. vm_compute. reflexivity.
  - intros f Hf. unfold fs in Hf. rewrite !elem_of_cons in Hf.
    destruct Hf as [->|[->|[->|Hf]]]; [vm_compute; reflexivity..|by apply elem_of_nil in Hf].
  - exists s, p, d', s'. split; [exact Hs|]. split; [exact Hp|]. split; [exact Hcr|]. split; [exact Hn|].
    apply Hag. right. right. by left.
Defined.
