(* ===== verification/Lifecycle.v ===== *)
(** * The end of the daemon: [Serve], [stopAll], [doStop], [handleForget] of internal/daemon/server.go, [Close] of store.go

    The goroutines that take part when the daemon stops: the accept loop, the one that stops the stores, the
    requests that create and forget stores.  A store is a number here, as the goroutines share it by
    reference: the map gives the store of a root, [d_closed] has the stores whose channel is
    closed and [d_saved] those [Close] has saved (with what Daemon.v says).  Locks make the accesses to the map atomic;
    everything else interleaves.  What a forget does after [Close], deleting the caches, is in Persist.v; which
    store serves a request, in Server.v. *)

From stdpp Require Import relations.
From S2P Require Import Prelude.

(** ** Closing a store *)

(** Where a call of [Close] is: at the test of the channel, past it, and past closing the channel, the watcher
    and the disk engine. *)
Inductive close_phase := Checking | Closing | Saving.
Inductive close_result := Goes (ph : close_phase) | Ends | Panics.

(** [Close], a step at a time: closing a channel twice panics. *)
Definition close_at (closed saved : gset nat) (o : nat) (ph : close_phase) : gset nat * gset nat * close_result :=
  match ph with
  | Checking => (closed, saved, if bool_decide (o ∈ closed) then Ends else Goes Closing)
  | Closing => if bool_decide (o ∈ closed) then (closed, saved, Panics) else ({[o]} ∪ closed, saved, Goes Saving)
  | Saving => (closed, {[o]} ∪ saved, Ends)
  end.

(** ** The daemon *)

(** [stopAll], which runs once: not called, the channel [quit] closed, closing the stores that are left, the channel
    [stopped] closed. *)
Inductive stop_phase := NotAsked | Quitting | Working (left : list nat) (ph : close_phase) | Stopped.

(** [Serve]: in [Accept], with the error it returned, waiting for [stopped], returned without or with an error. *)
Inductive serve_phase := Accepting | Failed | Awaiting | Returned (ok : bool).

(** [Server] and the process: the map of the stores and the number of the next one, the closed and the saved stores,
    the calls of [Close] that forget makes and all stores ever forgotten (kept for the theorems), the copy of the map [doStop]
    works on, its state, the listener, [Serve], and whether a goroutine has panicked. *)
Record daemon := mkDaemon {
  d_stores : gmap (bytes * bool) nat;
  d_next : nat;
  d_closed : gset nat;
  d_saved : gset nat;
  d_forgets : list (nat * close_phase);
  d_forgotten : gset nat;
  d_collected : list nat;
  d_stop : stop_phase;
  d_listening : bool;
  d_serve : serve_phase;
  d_panicked : bool;
}.

Definition quit (d : daemon) : Prop := d_stop d ≠ NotAsked.

Definition set_stores (d : daemon) (m : gmap (bytes * bool) nat) (next : nat) : daemon :=
  mkDaemon m next (d_closed d) (d_saved d) (d_forgets d) (d_forgotten d) (d_collected d) (d_stop d) (d_listening d)
    (d_serve d) (d_panicked d).
Definition set_stop (d : daemon) (st : stop_phase) : daemon :=
  mkDaemon (d_stores d) (d_next d) (d_closed d) (d_saved d) (d_forgets d) (d_forgotten d) (d_collected d) st
    (d_listening d) (d_serve d) (d_panicked d).
Definition set_serve (d : daemon) (sp : serve_phase) : daemon :=
  mkDaemon (d_stores d) (d_next d) (d_closed d) (d_saved d) (d_forgets d) (d_forgotten d) (d_collected d) (d_stop d)
    (d_listening d) sp (d_panicked d).
Definition set_forgets (d : daemon) (fs : list (nat * close_phase)) : daemon :=
  mkDaemon (d_stores d) (d_next d) (d_closed d) (d_saved d) fs (d_forgotten d) (d_collected d) (d_stop d)
    (d_listening d) (d_serve d) (d_panicked d).
Definition set_closing (d : daemon) (closed saved : gset nat) (panicked : bool) : daemon :=
  mkDaemon (d_stores d) (d_next d) closed saved (d_forgets d) (d_forgotten d) (d_collected d) (d_stop d)
    (d_listening d) (d_serve d) panicked.

(** A process that has not ended. *)
Definition alive (d : daemon) : Prop := d_panicked d = false ∧ ∀ ok, d_serve d ≠ Returned ok.

(** What goes on by itself: [doStop], the calls of [Close] of the forgotten stores, the accept loop. *)
Inductive internal : daemon → daemon → Prop :=
  | stop_collects d l :
      d_stop d = Quitting → l ≡ₚ (map_to_list (d_stores d)).*2 →
      internal d (mkDaemon (d_stores d) (d_next d) (d_closed d) (d_saved d) (d_forgets d) (d_forgotten d) l
                    (Working l Checking) (d_listening d) (d_serve d) (d_panicked d))
  | stop_closes d o left ph closed saved ph' :
      d_stop d = Working (o :: left) ph → close_at (d_closed d) (d_saved d) o ph = (closed, saved, Goes ph') →
      internal d (set_stop (set_closing d closed saved false) (Working (o :: left) ph'))
  | stop_next d o left ph closed saved :
      d_stop d = Working (o :: left) ph → close_at (d_closed d) (d_saved d) o ph = (closed, saved, Ends) →
      internal d (set_stop (set_closing d closed saved false) (Working left Checking))
  | stop_panics d o left ph closed saved :
      d_stop d = Working (o :: left) ph → close_at (d_closed d) (d_saved d) o ph = (closed, saved, Panics) →
      internal d (set_closing d closed saved true)
  | stop_finishes d ph : d_stop d = Working [] ph → internal d (set_stop d Stopped)
  | forget_closes d l1 o ph l2 closed saved ph' :
      d_forgets d = l1 ++ (o, ph) :: l2 → close_at (d_closed d) (d_saved d) o ph = (closed, saved, Goes ph') →
      internal d (set_forgets (set_closing d closed saved false) (l1 ++ (o, ph') :: l2))
  | forget_ends d l1 o ph l2 closed saved :
      d_forgets d = l1 ++ (o, ph) :: l2 → close_at (d_closed d) (d_saved d) o ph = (closed, saved, Ends) →
      internal d (set_forgets (set_closing d closed saved false) (l1 ++ l2))
  | forget_panics d l1 o ph l2 closed saved :
      d_forgets d = l1 ++ (o, ph) :: l2 → close_at (d_closed d) (d_saved d) o ph = (closed, saved, Panics) →
      internal d (set_closing d closed saved true)
  | listener_closes d :
      quit d → d_listening d = true →
      internal d (mkDaemon (d_stores d) (d_next d) (d_closed d) (d_saved d) (d_forgets d) (d_forgotten d)
                    (d_collected d) (d_stop d) false (d_serve d) (d_panicked d))
  | accept_closed d : d_serve d = Accepting → d_listening d = false → internal d (set_serve d Failed)
  | serve_quits d : d_serve d = Failed → quit d → internal d (set_serve d Awaiting)
  | serve_fails d : d_serve d = Failed → ¬ quit d → internal d (set_serve d (Returned false))
  | serve_returns d : d_serve d = Awaiting → d_stop d = Stopped → internal d (set_serve d (Returned true)).

(** What clients, signals and the network do: stop, a request for a root without a store, forget, an error of [Accept]. *)
Inductive world_step : daemon → daemon → Prop :=
  | stop_asked d : d_stop d = NotAsked → world_step d (set_stop d Quitting)
  | store_made d k :
      d_stores d !! k = None → world_step d (set_stores d (<[k := d_next d]> (d_stores d)) (S (d_next d)))
  | forget_takes d k o :
      d_stores d !! k = Some o →
      world_step d (mkDaemon (delete k (d_stores d)) (d_next d) (d_closed d) (d_saved d) (d_forgets d ++ [(o, Checking)])
                      ({[o]} ∪ d_forgotten d) (d_collected d) (d_stop d) (d_listening d) (d_serve d) (d_panicked d))
  | accept_fails d : d_serve d = Accepting → world_step d (set_serve d Failed).

Definition step (d d' : daemon) : Prop := alive d ∧ (internal d d' ∨ world_step d d').
Definition own_step (d d' : daemon) : Prop := alive d ∧ internal d d'.

(** [NewServer], and [Serve] in its loop. *)
Definition NewServer : daemon := mkDaemon ∅ 0 ∅ ∅ [] ∅ [] NotAsked true Accepting false.

(** ** Invariants *)

(** The stores [doStop] has still to close, and whether it is saving this one. *)
Definition left_of (st : stop_phase) : list nat := match st with Working l _ => l | _ => [] end.
Definition saving (st : stop_phase) (o : nat) : Prop := ∃ l, st = Working (o :: l) Saving.

(** Who has closed what: [doStop] the stores it is through with, the calls for [forget] theirs. *)
Record closing_ok (d : daemon) : Prop := {
  co_collected : NoDup (d_collected d);
  co_done : ∃ don, d_collected d = don ++ left_of (d_stop d) ∧ (∀ o, o ∈ don → o ∈ d_closed d) ∧
    ∀ o, o ∈ d_closed d → o ∈ d_forgotten d ∨ o ∈ don ∨ saving (d_stop d) o;
  co_saving : ∀ o, saving (d_stop d) o → o ∈ d_closed d;
  co_saved : ∀ o, o ∈ d_closed d → o ∈ d_saved d ∨ (o, Saving) ∈ d_forgets d ∨ saving (d_stop d) o;
  co_forgets : NoDup (d_forgets d).*1;
  co_forgotten : ∀ o, o ∈ (d_forgets d).*1 → o ∈ d_forgotten d;
  co_twice : ∀ o ph, (o, ph) ∈ d_forgets d → ph ≠ Saving → o ∈ d_closed d → o ∈ d_collected d;
  co_panic : d_panicked d = true → ∃ o, o ∈ d_collected d ∧ o ∈ d_forgotten d;
}.

(** The map has each store once, and none that was forgotten. *)
Record map_ok (d : daemon) : Prop := {
  mo_next : ∀ k o, d_stores d !! k = Some o → o < d_next d;
  mo_once : ∀ k k' o, d_stores d !! k = Some o → d_stores d !! k' = Some o → k = k';
  mo_forgotten : ∀ o, o ∈ d_forgotten d → o < d_next d ∧ ∀ k, d_stores d !! k ≠ Some o;
  mo_early : d_stop d = NotAsked ∨ d_stop d = Quitting → d_collected d = [];
}.

(** How far the accept loop can be. *)
Definition serve_ok (d : daemon) : Prop :=
  match d_serve d with
  | Awaiting => quit d
  | Returned true => d_stop d = Stopped ∧ d_panicked d = false
  | Returned false => ¬ quit d
  | _ => True
  end.

Lemma NewServer_ok : closing_ok NewServer ∧ map_ok NewServer ∧ serve_ok NewServer.
Proof.
  split; [|split; [|done]].
  - split; cbn; try constructor; try done; try set_solver.
    + exists []. split_and!; [done|set_solver..].
    + by intros o [l [=]].
  - split; cbn; try done; set_solver.
Qed.

Lemma map_step d d' : internal d d' ∨ world_step d d' → map_ok d → map_ok d'.
Proof.
  intros Hs [H1 H2 H3 H4]. destruct Hs as [Hi|Hw].
  - destruct Hi; (split; cbn; try done; try (by intros [|]); try (intros [E|E]; congruence)).
  - destruct Hw as [d Hn|d k Hk|d k o Hk|d Ha]; (split; cbn; try done).
    + intros _. apply H4. by left.
    + intros k' o. rewrite lookup_insert. destruct (decide (k = k')); [intros [= <-]; lia|]. intros ?%H1. lia.
    + intros k1 k2 o. rewrite !lookup_insert. repeat destruct (decide _); subst; try done.
      * intros [= <-] ?%H1. lia.
      * intros ?%H1 [= <-]. lia.
      * apply H2.
    + intros o Ho. destruct (H3 o Ho) as [Hlt Hno]. split; [lia|]. intros k'. rewrite lookup_insert.
      destruct (decide (k = k')); [intros [= <-]; lia|apply Hno].
    + intros k' o' [_ Hk']%lookup_delete_Some. by eapply H1.
    + intros k1 k2 o' [_ Hk1]%lookup_delete_Some [_ Hk2]%lookup_delete_Some. by eapply H2.
    + intros o' [->%elem_of_singleton|Ho]%elem_of_union.
      * split; [by eapply H1|]. intros k' [Hne Hk']%lookup_delete_Some. apply Hne. by eapply H2.
      * destruct (H3 o' Ho) as [Hlt Hno]. split; [done|]. intros k' [_ Hk']%lookup_delete_Some. by eapply Hno.
Qed.

Lemma serve_step d d' : alive d → internal d d' ∨ world_step d d' → serve_ok d → serve_ok d'.
Proof.
  unfold serve_ok, quit. intros [Hp Ha] [Hi|Hw] Hs.
  - destruct Hi; cbn; try done; destruct (d_serve d) as [| | |[]] eqn:E; try done; try (by destruct (Ha true));
      try (by destruct (Ha false)); try congruence.
  - destruct Hw; cbn; try done; destruct (d_serve d) as [| | |[]] eqn:E; try done; try (by destruct (Ha true));
      try (by destruct (Ha false)); try congruence.
Qed.

Lemma saving_head o l ph o' : saving (Working (o :: l) ph) o' ↔ o' = o ∧ ph = Saving.
Proof. split; [by intros [l' [= -> _ ->]]|intros [-> ->]; by exists l]. Qed.

(** The two facts about the store [doStop] is at: it is not through with it, and not closing it twice by itself. *)
Lemma stop_at d o l ph :
  closing_ok d → d_stop d = Working (o :: l) ph → o ∈ d_collected d ∧
  (o ∈ d_closed d → ph ≠ Saving → o ∈ d_forgotten d).
Proof.
  intros [Hnd (don & Hc & _ & Hw) _ _ _ _ _] E. rewrite E in *. cbn [left_of] in Hc. split; [rewrite Hc; set_solver|].
  intros Ho Hph. destruct (Hw o Ho) as [|[Hd|[_ ?]%saving_head]]; [done| |done].
  rewrite Hc in Hnd. apply NoDup_app in Hnd as (_ & Hno & _). destruct (Hno o Hd). by left.
Qed.

Lemma stores_NoDup d : map_ok d → NoDup (map_to_list (d_stores d)).*2.
Proof.
  intros Hm. apply NoDup_fmap_2_strong; [|apply NoDup_map_to_list].
  intros [k o] [k' o'] Hk%elem_of_map_to_list Hk'%elem_of_map_to_list E. cbn in E. subst o'.
  by rewrite (mo_once _ Hm k k' o Hk Hk').
Qed.

(** The step of [Close] of one store changes what the map says of that store only. *)
Lemma close_at_spec closed saved o ph closed' saved' r :
  close_at closed saved o ph = (closed', saved', r) →
  match ph, r with
  | Checking, Goes ph' => ph' = Closing ∧ o ∉ closed ∧ closed' = closed ∧ saved' = saved
  | Checking, Ends => o ∈ closed ∧ closed' = closed ∧ saved' = saved
  | Closing, Goes ph' => ph' = Saving ∧ o ∉ closed ∧ closed' = {[o]} ∪ closed ∧ saved' = saved
  | Closing, Panics => o ∈ closed ∧ closed' = closed ∧ saved' = saved
  | Saving, Ends => closed' = closed ∧ saved' = {[o]} ∪ saved
  | _, _ => False
  end.
Proof. destruct ph; cbn; [case_bool_decide..|]; by intros [= <- <- <-]. Qed.

Lemma closing_stop d d' o l ph closed saved r :
  closing_ok d → d_stop d = Working (o :: l) ph → close_at (d_closed d) (d_saved d) o ph = (closed, saved, r) →
  d' = (match r with
        | Goes ph' => set_stop (set_closing d closed saved false) (Working (o :: l) ph')
        | Ends => set_stop (set_closing d closed saved false) (Working l Checking)
        | Panics => set_closing d closed saved true
        end) → closing_ok d'.
Proof.
  intros Hok E Hc%close_at_spec ->. destruct (stop_at d o l ph Hok E) as [Hin Hf].
  destruct Hok as [H1 (don & Hd & Hdc & Hw) Hsv H3 H4 H5 H6 H7]. rewrite E in *. cbn [left_of] in Hd.
  setoid_rewrite saving_head in Hw. setoid_rewrite saving_head in H3. setoid_rewrite saving_head in Hsv.
  assert (∀ x, ¬ saving (Working l Checking) x) as Hns by (by intros x [? ?]).
  destruct ph, r as [ph'| |]; try done; try (destruct Hc as (-> & Hno & -> & ->)); try (destruct Hc as (Hyes & -> & ->));
    try (destruct Hc as (-> & ->)); (split; cbn [set_stop set_closing d_collected d_stop d_closed d_saved d_forgets
    d_forgotten d_panicked left_of]; try exact H1; try exact H4; try exact H5; try exact H6; try done).
  - exists don. setoid_rewrite saving_head. naive_solver.
  - setoid_rewrite saving_head. naive_solver.
  - setoid_rewrite saving_head. naive_solver.
  - exists (don ++ [o]). rewrite <-app_assoc. set_solver.
  - by intros x ?%Hns.
  - naive_solver.
  - exists don. setoid_rewrite saving_head. set_solver.
  - setoid_rewrite saving_head. set_solver.
  - setoid_rewrite saving_head. set_solver.
  - intros x ph' Hx Hph [->%elem_of_singleton|Hcl]%elem_of_union; [done|by eapply H6].
  - rewrite E. exists don. setoid_rewrite saving_head. naive_solver.
  - rewrite E. setoid_rewrite saving_head. naive_solver.
  - rewrite E. setoid_rewrite saving_head. naive_solver.
  - intros _. exists o. naive_solver.
  - exists (don ++ [o]). rewrite <-app_assoc. set_solver.
  - by intros x ?%Hns.
  - set_solver.
Qed.

Lemma elem_of_mid {A} (x y : A) l1 l2 : x ∈ l1 ++ y :: l2 ↔ x = y ∨ x ∈ l1 ++ l2.
Proof. set_solver. Qed.

(** The same for a call of [forget]. *)
Lemma closing_forget d d' l1 o l2 ph closed saved r :
  closing_ok d → d_forgets d = l1 ++ (o, ph) :: l2 → close_at (d_closed d) (d_saved d) o ph = (closed, saved, r) →
  d' = (match r with
        | Goes ph' => set_forgets (set_closing d closed saved false) (l1 ++ (o, ph') :: l2)
        | Ends => set_forgets (set_closing d closed saved false) (l1 ++ l2)
        | Panics => set_closing d closed saved true
        end) → closing_ok d'.
Proof.
  intros [H1 (don & Hd & Hdc & Hw) Hsv H3 H4 H5 H6 H7] E Hc%close_at_spec ->.
  assert (o ∈ d_forgotten d) as Hof by (apply H5; rewrite E, fmap_app; set_solver).
  assert (∀ x p, (x, p) ∈ l1 ++ l2 → x ≠ o) as Hother.
  { rewrite E, fmap_app in H4. cbn in H4. intros x p Hx ->. apply NoDup_app in H4 as (_ & Hn & [Hn' _]%NoDup_cons).
    apply elem_of_app in Hx as [Hx|Hx]; apply (list_elem_of_fmap_2 fst) in Hx; [apply (Hn o Hx); by left|done]. }
  assert (sublist (l1 ++ l2) (l1 ++ (o, ph) :: l2)) as Hsub by (apply sublist_app; [done|by constructor]).
  rewrite E in *.
  assert (∀ ph', (l1 ++ (o, ph') :: l2).*1 = (l1 ++ (o, ph) :: l2).*1) as Hfst by (intros; by rewrite !fmap_app).
  setoid_rewrite elem_of_mid in H3. setoid_rewrite elem_of_mid in H6.
  destruct ph, r as [ph'| |]; try done; try (destruct Hc as (-> & Hno & -> & ->)); try (destruct Hc as (Hyes & -> & ->));
    try (destruct Hc as (-> & ->)); (split; cbn [set_forgets set_closing d_collected d_stop d_closed d_saved d_forgets
    d_forgotten d_panicked]; rewrite ?Hfst, ?E; try exact H1; try exact Hsv; try exact H4; try exact H5; try done).
  all: try (exists don; set_solver).
  all: try (eapply sublist_NoDup; [exact H4|by apply fmap_sublist]).
  all: try (intros x Hx; apply H5; revert Hx; rewrite !fmap_app; set_solver).
  all: try (setoid_rewrite elem_of_mid; set_solver).
  all: try (intros x p Hx; apply (H6 x p); by right).
  all: try (intros x Hx; destruct (H3 x Hx) as [|[[[=]|]|]]; set_solver).
  - intros x Hx. apply elem_of_union. right. by apply Hsv.
  - intros _. exists o. split; [|done]. apply (H6 o Closing); [by left|done|done].
Qed.

(** A change of [stop_phase] in which no store is touched. *)
Lemma closing_relabel d st :
  closing_ok d → left_of st = left_of (d_stop d) → (∀ o, ¬ saving (d_stop d) o) → (∀ o, ¬ saving st o) →
  closing_ok (set_stop d st).
Proof.
  intros [H1 (don & Hd & Hdc & Hw) Hsv H3 H4 H5 H6 H7] El Hn Hn'. split; cbn; try done.
  - exists don. rewrite El. split_and!; [done|done|]. intros o Ho. destruct (Hw o Ho) as [|[|[]%Hn]]; auto.
  - by intros o []%Hn'.
  - intros o Ho. destruct (H3 o Ho) as [|[|[]%Hn]]; auto.
Qed.

(** Every step keeps the invariants. *)
Lemma closing_step d d' :
  alive d → map_ok d → closing_ok d → internal d d' ∨ world_step d d' → closing_ok d'.
Proof.
  intros [Hp _] Hm Hok [Hi|Hw].
  - destruct Hi as [d l E Hl|d o l ph c s ph' E Hc|d o l ph c s E Hc|d o l ph c s E Hc|d ph E|d l1 o ph l2 c s ph' E Hc
      |d l1 o ph l2 c s E Hc|d l1 o ph l2 c s E Hc|d Hq Hl|d Ha Hl|d Hf Hq|d Hf Hq|d Ha Hst];
      try (by eapply closing_stop); try (by eapply closing_forget); try (by destruct Hok).
    + pose proof (stores_NoDup d Hm) as Hnd. rewrite <-Hl in Hnd. destruct Hok as [H1 (don & Hd & Hdc & Hw) Hsv H3 H4 H5 H6 H7].
      rewrite (mo_early _ Hm) in Hd by by right. rewrite E in *. symmetry in Hd. apply app_eq_nil in Hd as [-> _].
      assert (∀ o st, saving Quitting o → saving st o) as Hq by (by intros o st [? ?]).
      split; cbn; try done.
      * exists []. set_solver.
      * intros o [l' [=]].
      * naive_solver.
      * intros o ph Ho Hph Hcl. specialize (H6 o ph Ho Hph Hcl). rewrite (mo_early _ Hm) in H6 by by right.
        by apply elem_of_nil in H6.
      * congruence.
    + apply closing_relabel; [done|by rewrite E|rewrite E|]; by intros o [l [=]].
  - destruct Hw as [d E|d k Hk|d k o Hk|d Ha]; try (by destruct Hok).
    + apply closing_relabel; [done|by rewrite E|rewrite E|]; by intros o [l [=]].
    + assert (o ∉ d_forgotten d) as Hnf by (intros Hf; by destruct (mo_forgotten _ Hm o Hf) as [_ Hn]; destruct (Hn k)).
      destruct Hok as [H1 (don & Hd & Hdc & Hw) Hsv H3 H4 H5 H6 H7]. split; cbn; try done.
      * exists don. set_solver.
      * set_solver.
      * rewrite fmap_app. apply NoDup_app. split_and!; [done| |apply NoDup_singleton].
        intros x Hx%H5 ->%list_elem_of_singleton. done.
      * rewrite fmap_app. set_solver.
      * intros x ph [Hx|[= -> ->]%list_elem_of_singleton]%elem_of_app Hph Hcl; [by eapply H6|].
        rewrite Hd. destruct (Hw o Hcl) as [?|[?|[l Hl]]]; [done|set_solver|]. rewrite Hl. cbn. set_solver.
      * congruence.
Qed.

Definition daemon_ok (d : daemon) : Prop := closing_ok d ∧ map_ok d ∧ serve_ok d.

Lemma daemon_step d d' : step d d' → daemon_ok d → daemon_ok d'.
Proof.
  intros [Ha Hs] (Hc & Hm & Hv). split_and!; [by eapply closing_step|by eapply map_step|by eapply serve_step].
Qed.

Lemma daemon_run d d' : rtc step d d' → daemon_ok d → daemon_ok d'.
Proof. induction 1 as [|d1 d2 d3 Hs _ IH]; [done|]. intros Hok. apply IH. by eapply daemon_step. Qed.

Lemma reach_ok d : rtc step NewServer d → daemon_ok d.
Proof. intros Hr. apply (daemon_run NewServer); [done|apply NewServer_ok]. Qed.

(** A store that was there when stop was asked for: it is still there and will be collected, or was, or has been forgotten. *)
Definition kept (o : nat) (d : daemon) : Prop :=
  o ∈ d_forgotten d ∨ o ∈ d_collected d ∨
  ((d_stop d = NotAsked ∨ d_stop d = Quitting) ∧ ∃ k, d_stores d !! k = Some o).

Lemma kept_step o d d' : map_ok d → step d d' → kept o d → kept o d'.
Proof.
  unfold kept. intros Hm [_ [Hi|Hw]] Hk.
  - destruct Hi as [d l E Hl|d o' l ph c s ph' E Hc|d o' l ph c s E Hc|d o' l ph c s E Hc|d ph E|d l1 o' ph l2 c s ph' E Hc
      |d l1 o' ph l2 c s E Hc|d l1 o' ph l2 c s E Hc|d Hq Hl|d Ha Hl|d Hf Hq|d Hf Hq|d Ha Hst]; cbn; try done.
    + destruct Hk as [|[Hc|[_ [k Hk]]]]; [by left| |].
      * rewrite (mo_early _ Hm) in Hc by by right. by apply elem_of_nil in Hc.
      * right. left. rewrite Hl. apply list_elem_of_fmap. exists (k, o). by rewrite elem_of_map_to_list.
    + destruct Hk as [|[|[[|] _]]]; [by left|by right; left|congruence..].
    + destruct Hk as [|[|[[|] _]]]; [by left|by right; left|congruence..].
    + destruct Hk as [|[|[[|] _]]]; [by left|by right; left|congruence..].
  - destruct Hw as [d E|d k Hk'|d k o' Hk'|d Ha]; cbn; try done.
    + destruct Hk as [|[|[_ Hk]]]; [by left|by right; left|]. right. right. split; [by right|done].
    + destruct Hk as [|[|[Hs [k' Hk]]]]; [by left|by right; left|]. right. right. split; [done|]. exists k'.
      rewrite lookup_insert_ne; [done|congruence].
    + destruct Hk as [Hf|[|[Hs [k2 Hk]]]]; [left; set_solver|by right; left|].
      destruct (decide (k = k2)) as [->|Hne]; [left; set_solver|]. right. right. split; [done|]. exists k2.
      by rewrite lookup_delete_ne.
Qed.

(** C14. What a stop saves: when [Serve] returns without an error, every store the daemon had when it was asked to stop
    has been closed and saved, in every interleaving of the goroutines, except for those a forget has taken
    meanwhile (whose own call of [Close] may still be saving), and nothing has panicked. *)
Theorem serve_returns_saved d k o d' :
  rtc step NewServer d → d_stop d = NotAsked → d_stores d !! k = Some o →
  rtc step d d' → d_serve d' = Returned true →
  d_panicked d' = false ∧ (o ∈ d_forgotten d' ∨ (o ∈ d_closed d' ∧ o ∈ d_saved d')).
Proof.
  intros Hr Hs Ho Hr' Hret. assert (kept o d') as Hk.
  { assert (daemon_ok d) as Hok by by apply reach_ok. assert (kept o d) as Hk by (right; right; eauto). clear -Hok Hk Hr'.
    induction Hr' as [|d1 d2 d3 Hs _ IH]; [done|]. apply IH; [by eapply daemon_step|].
    eapply kept_step; [apply Hok|done..]. }
  assert (rtc step NewServer d') as (Hc & Hm & Hv)%reach_ok by by etrans.
  unfold serve_ok in Hv. rewrite Hret in Hv. destruct Hv as [Hst Hp]. split; [done|].
  assert (∀ x, ¬ saving (d_stop d') x) as Hns by (rewrite Hst; by intros x [l [=]]).
  destruct Hk as [|[Hin|[[E|E] _]]]; [by left| |congruence..].
  destruct (co_done _ Hc) as (don & Hd & Hcl & _). rewrite Hst, app_nil_r in Hd. rewrite Hd in Hin. apply Hcl in Hin.
  destruct (co_saved _ Hc o Hin) as [|[Hf|[]%Hns]]; [by right|]. left. apply (co_forgotten _ Hc).
  by apply (list_elem_of_fmap_2 fst) in Hf.
Qed.

(** The only way in which the daemon can panic while it closes its stores is a forget that runs at the same time as a stop:
    some store was both among those the stop collected and forgotten. *)
Theorem close_panics_only d :
  rtc step NewServer d → d_panicked d = true → ∃ o, o ∈ d_collected d ∧ o ∈ d_forgotten d.
Proof. intros (Hc & _ & _)%reach_ok. apply (co_panic _ Hc). Qed.

(** ** The stop comes to an end *)

Definition phase_load (ph : close_phase) : nat := match ph with Checking => 3 | Closing => 2 | Saving => 1 end.
Definition work_load (l : list nat) (ph : close_phase) : nat :=
  match l with [] => 1 | _ :: l => 3 * length l + 1 + phase_load ph end.
Definition stop_load (d : daemon) : nat :=
  match d_stop d with
  | NotAsked | Stopped => 0
  | Quitting => 3 * size (d_stores d) + 5
  | Working l ph => work_load l ph
  end.
Definition serve_load (sp : serve_phase) : nat :=
  match sp with Accepting => 3 | Failed => 2 | Awaiting => 1 | Returned _ => 0 end.
Definition load (d : daemon) : nat :=
  stop_load d + sum_list_with (λ f, phase_load f.2) (d_forgets d) + (if d_listening d then 1 else 0) +
  serve_load (d_serve d) + (if d_panicked d then 0 else 1).

Lemma work_load_le l ph : work_load l ph ≤ 3 * length l + 1.
Proof. destruct l as [|o l]; cbn [length work_load]; [lia|]. destruct ph; cbn [phase_load]; lia. Qed.

Lemma close_at_load closed saved o ph c s ph' :
  close_at closed saved o ph = (c, s, Goes ph') → phase_load ph' < phase_load ph.
Proof. intros Hc%close_at_spec. destruct ph; try done; destruct Hc as (-> & _); cbn; lia. Qed.

Lemma own_load d d' : own_step d d' → load d' < load d.
Proof.
  intros [[Hp _] Hi].
  destruct Hi as [d l E Hl|d o l ph c s ph' E Hc|d o l ph c s E Hc|d o l ph c s E Hc|d ph E|d l1 o ph l2 c s ph' E Hc
      |d l1 o ph l2 c s E Hc|d l1 o ph l2 c s E Hc|d Hq Hl|d Ha Hl|d Hf Hq|d Hf Hq|d Ha Hst];
    unfold load, stop_load; cbn -[work_load Nat.mul]; rewrite ?Hp, ?E, ?Hl, ?Ha, ?Hf; cbn [serve_load].
  - pose proof (work_load_le l Checking). pose proof (Permutation_length Hl) as Hlen.
    rewrite length_fmap, length_map_to_list in Hlen. lia.
  - apply close_at_load in Hc. cbn [work_load]. lia.
  - pose proof (work_load_le l Checking). cbn [work_load]. destruct ph; cbn [phase_load]; lia.
  - lia.
  - cbn [work_load]. lia.
  - apply close_at_load in Hc. rewrite !sum_list_with_app. cbn. lia.
  - rewrite !sum_list_with_app. cbn. destruct ph; cbn; lia.
  - lia.
  - lia.
  - lia.
  - lia.
  - lia.
  - lia.
Qed.

Lemma own_sn d : sn own_step d.
Proof.
  induction d as [d IH] using (well_founded_induction (well_founded_ltof _ load)). constructor. intros d' Hs.
  apply IH. unfold ltof. by apply own_load.
Qed.

Lemma own_quit d d' : own_step d d' → quit d → quit d'.
Proof. intros [_ Hi]. unfold quit. destruct Hi; cbn; congruence. Qed.

(** Something can always go on until the process has ended. *)
Lemma stop_progress d : alive d → quit d → ∃ d', internal d d'.
Proof.
  intros [Hp Ha] Hq. destruct (d_stop d) as [| |[|o l] ph|] eqn:E; [done|eexists; by eapply stop_collects|
    eexists; by eapply stop_finishes| |].
  - destruct (close_at (d_closed d) (d_saved d) o ph) as [[c s] [ph'| |]] eqn:Hc; eexists;
      [by eapply stop_closes|by eapply stop_next|by eapply stop_panics].
  - destruct (d_listening d) eqn:El; [eexists; by apply listener_closes|].
    destruct (d_serve d) as [| | |ok] eqn:Es; [eexists; by apply accept_closed|eexists; by apply serve_quits|
      eexists; by apply serve_returns|by destruct (Ha ok)].
Qed.

(** C8. A stop always comes to an end: once it has been asked for, the goroutines of the daemon, left alone, can only make finitely
    many steps in whatever order, and when none can move [Serve] has returned without an error (or the process has
    panicked, see [close_panics_only]). *)
Theorem stop_completes d :
  rtc step NewServer d → quit d →
  sn own_step d ∧
  ∀ d', rtc own_step d d' → nf own_step d' → d_serve d' = Returned true ∨ d_panicked d' = true.
Proof.
  intros Hr Hq. split; [apply own_sn|]. intros d' Hr' Hnf.
  assert (quit d' ∧ rtc step NewServer d') as [Hq' Hreach].
  { clear Hnf. induction Hr' as [|d1 d2 d3 Hs _ IH]; [done|]. apply IH; [|by eapply own_quit].
    eapply rtc_r; [done|]. split; [apply Hs|left; apply Hs]. }
  apply reach_ok in Hreach as (_ & _ & Hv). unfold serve_ok in Hv.
  destruct (d_panicked d') eqn:Hp; [by right|left].
  destruct (d_serve d') as [| | |[]] eqn:Es; try done.
  all: destruct (stop_progress d') as [d2 Hi]; [split; [done|congruence]|done|].
  all: destruct Hnf; exists d2; split; [split; [done|congruence]|done].
Qed.

(** ** Runs *)

Definition demo_key : bytes * bool := (bs "/r", false).

(** The next step of a concrete run. *)
Ltac alive_now := split; [reflexivity|intros ok; discriminate].
Tactic Notation "own" uconstr(c) := eapply rtc_l; [split; [alive_now|left; eapply c; (reflexivity || discriminate)]|cbn].
Tactic Notation "world" uconstr(c) := eapply rtc_l; [split; [alive_now|right; eapply c; reflexivity]|cbn].

Definition one_store : daemon := set_stores NewServer (<[demo_key := 0]> ∅) 1.

Lemma one_store_reach : rtc step NewServer one_store.
Proof. apply rtc_once. split; [alive_now|]. right. by apply (store_made NewServer demo_key). Qed.

(** The state in which [Serve] has returned. *)
Definition ended (stores : gmap (bytes * bool) nat) (next : nat) (closed : gset nat) (collected : list nat) : daemon :=
  mkDaemon stores next closed closed [] ∅ collected Stopped false (Returned true) false.

Lemma stop_run : rtc step one_store (ended (<[demo_key := 0]> ∅) 1 {[0]} [0]).
Proof.
  unfold one_store. cbn. world stop_asked. own (stop_collects _ [0]). own (stop_closes _ 0 [] Checking).
  own (stop_closes _ 0 [] Closing). own (stop_next _ 0 [] Saving). own (stop_finishes _ Checking).
  own listener_closes. own accept_closed. own serve_quits. own serve_returns. reflexivity.
Qed.

(** A forget that takes a store the stop has collected: both pass the test of [Close], and the second to close the
    channel panics, before the stores that are left are saved. *)
Theorem forget_during_stop_panics :
  ∃ d, rtc step NewServer d ∧ d_panicked d = true ∧ d_saved d = ∅.
Proof.
  eexists. split; [|split].
  - etrans; [exact one_store_reach|]. unfold one_store. cbn. world stop_asked. own (stop_collects _ [0]).
    own (stop_closes _ 0 [] Checking). world (forget_takes _ demo_key 0). own (forget_closes _ [] 0 Checking []).
    own (forget_closes _ [] 0 Closing []). own (stop_panics _ 0 [] Closing). reflexivity.
  - reflexivity.
  - reflexivity.
Qed.

(** A store that a request makes after the stop has copied the map is never closed or saved. *)
Theorem late_store_unsaved :
  ∃ d, rtc step NewServer d ∧ d_serve d = Returned true ∧ d_stores d !! demo_key = Some 0 ∧ d_saved d = ∅.
Proof.
  eexists. split; [|split; [|split]].
  - unfold NewServer. world stop_asked. own (stop_collects _ []). world (store_made _ demo_key).
    own (stop_finishes _ Checking). own listener_closes. own accept_closed. own serve_quits. own serve_returns.
    reflexivity.
  - reflexivity.
  - reflexivity.
  - reflexivity.
Qed.

Lemma serve_returns_saved_witness :
  let d' := ended (<[demo_key := 0]> ∅) 1 {[0]} [0] in
  rtc step one_store d' ∧ d_serve d' = Returned true ∧
  d_panicked d' = false ∧ (0 ∈ d_forgotten d' ∨ (0 ∈ d_closed d' ∧ 0 ∈ d_saved d')).
Proof.
  intros d'. split; [exact stop_run|]. split; [reflexivity|].
  exact (serve_returns_saved one_store demo_key 0 d' one_store_reach eq_refl eq_refl stop_run eq_refl).
Defined.

Lemma stop_completes_witness :
  let d := set_stop one_store Quitting in
  sn own_step d ∧ ∀ d', rtc own_step d d' → nf own_step d' → d_serve d' = Returned true ∨ d_panicked d' = true.
Proof.
  intros d. apply (stop_completes d); [|discriminate]. eapply rtc_r; [exact one_store_reach|].
  split; [alive_now|]. right. by apply stop_asked.
Defined.

Lemma close_panics_only_witness : ∃ d, d_panicked d = true ∧ ∃ o, o ∈ d_collected d ∧ o ∈ d_forgotten d.
Proof.
  destruct forget_during_stop_panics as (d & Hr & Hp & _). exists d. split; [exact Hp|].
  exact (close_panics_only d Hr Hp).
Defined.
