(* ===== verification/Spawn.v ===== *)
(** * The endpoint of the daemon and its start: internal/ipc/ipc_unix.go, connectOrSpawn and cmdDaemon of cmd/gcgrep/main.go

    Daemons and clients are processes of one host that share a socket file.  Each makes one system call
    at a time, and the calls of different processes interleave.  A daemon probes the socket,
    removes it when nobody answers and binds its own; a client dials, and starts a daemon when nobody answers. *)

From stdpp Require Import relations.
From S2P Require Import Prelude.

(** ** The processes *)

(** Where a daemon is: in [Listen] before the dial, before [os.Remove], before [net.Listen]; in [Run]; ended
    with an exit code, or killed. *)
Inductive daemon_phase := Probing | Removing | Binding | Serving | Exited (code : Z) | Killed.
#[export] Instance daemon_phase_eq_dec : EqDecision daemon_phase.
Proof. solve_decision. Defined.

(** Where a client is in [connectOrSpawn]: before its first dial, before it starts a daemon, in the loop that waits for
    it, with a connection to a daemon, or with an error. *)
Inductive client_phase := Dialling | Spawning | Polling | Connected (p : nat) | NoDaemon.

(** The socket file with the process that bound it, the processes, and the number of the next daemon. *)
Record host := mkHost {
  h_socket : option nat;
  h_daemons : gmap nat daemon_phase;
  h_clients : gmap nat client_phase;
  h_next : nat;
}.

Definition set_daemon (h : host) (p : nat) (ph : daemon_phase) : host :=
  mkHost (h_socket h) (<[p := ph]> (h_daemons h)) (h_clients h) (h_next h).
Definition set_client (h : host) (c : nat) (ph : client_phase) : host :=
  mkHost (h_socket h) (h_daemons h) (<[c := ph]> (h_clients h)) (h_next h).
Definition set_socket (h : host) (s : option nat) : host :=
  mkHost s (h_daemons h) (h_clients h) (h_next h).

(** [Dial]: a socket file answers when the process that bound it still listens, and accepts the connection
    before the timeout of the dial; [answers] says whether it does. *)
Definition Dial (h : host) (answers : bool) : option nat :=
  p ← h_socket h;
  match h_daemons h !! p with Some Serving => if answers then Some p else None | _ => None end.

(** [cmdDaemon]: its exit code, from whether [CacheDir], [Listen] and [Run] succeed. *)
Definition cmdDaemon (cacheDir listen run : bool) : Z :=
  if negb cacheDir then 2%Z else if negb listen then 2%Z else if negb run then 2%Z else 0%Z.

(** The next call of [Listen] in the process [p]; a dial that times out is a socket nobody listens on. *)
Definition Listen (h : host) (p : nat) (answers : bool) : option host :=
  match h_daemons h !! p with
  | Some Probing =>
      Some (set_daemon h p match Dial h answers with Some _ => Exited (cmdDaemon true false false) | None => Removing end)
  | Some Removing => Some (set_socket (set_daemon h p Binding) None)
  | Some Binding =>
      Some match h_socket h with
           | None => set_socket (set_daemon h p Serving) (Some p)
           | Some _ => set_daemon h p (Exited (cmdDaemon true false false))
           end
  | _ => None
  end.

(** The end of [Run] in the process [p]: closing the listener unlinks the path of the socket. *)
Definition Run_end (h : host) (p : nat) (ok : bool) : option host :=
  match h_daemons h !! p with
  | Some Serving => Some (set_socket (set_daemon h p (Exited (cmdDaemon true true ok))) None)
  | _ => None
  end.

(** [spawnDaemon]: a new process. *)
Definition spawnDaemon (h : host) : host :=
  mkHost (h_socket h) (<[h_next h := Probing]> (h_daemons h)) (h_clients h) (S (h_next h)).

(** The next call of [connectOrSpawn] in the process [c]; [spawns] says whether a process can be started. *)
Definition connectOrSpawn (h : host) (c : nat) (spawns answers : bool) : option host :=
  match h_clients h !! c with
  | Some Dialling => Some (set_client h c match Dial h answers with Some p => Connected p | None => Spawning end)
  | Some Spawning => Some (if spawns then set_client (spawnDaemon h) c Polling else set_client h c NoDaemon)
  | Some Polling => Some (set_client h c match Dial h answers with Some p => Connected p | None => Polling end)
  | _ => None
  end.

(** ** The host *)

(** A step of the daemon [p]; [answers] says whether a live daemon answers a dial of it. *)
Inductive daemon_step (answers : bool) (p : nat) : host → host → Prop :=
  | listens h h' : Listen h p answers = Some h' → daemon_step answers p h h'
  | ends h ok h' : Run_end h p ok = Some h' → daemon_step answers p h h'
  | killed h ph : h_daemons h !! p = Some ph → ph ∈ [Probing; Removing; Binding; Serving] →
      daemon_step answers p h (set_daemon h p Killed).

(** A step of a client: a new one, a call, the deadline, or [gcgrep daemon] from a shell. *)
Inductive client_step (answers : bool) : host → host → Prop :=
  | arrives h c : h_clients h !! c = None → client_step answers h (set_client h c Dialling)
  | calls h c spawns h' : connectOrSpawn h c spawns answers = Some h' → client_step answers h h'
  | deadline h c : h_clients h !! c = Some Polling → client_step answers h (set_client h c NoDaemon)
  | from_shell h : client_step answers h (spawnDaemon h).

(** The steps of a host in which the daemon [p] runs on and answers every dial in time: those of
    clients and of the other daemons.  In general a dial may time out. *)
Definition step_around (p : nat) (h h' : host) : Prop :=
  client_step true h h' ∨ ∃ q, q ≠ p ∧ daemon_step true q h h'.
Definition step (h h' : host) : Prop := ∃ answers, client_step answers h h' ∨ ∃ q, daemon_step answers q h h'.

(** ** A daemon that is up *)

(** [p] serves, the socket is its own, and no other daemon is past its probe; the numbers are fresh. *)
Record settled (p : nat) (h : host) : Prop := {
  se_socket : h_socket h = Some p;
  se_serving : h_daemons h !! p = Some Serving;
  se_others q ph : q ≠ p → h_daemons h !! q = Some ph → ph ∉ [Removing; Binding; Serving];
  se_next q : is_Some (h_daemons h !! q) → q < h_next h;
}.

Lemma settled_dial p h : settled p h → Dial h true = Some p.
Proof. intros [Hs Hp _ _]. unfold Dial. rewrite Hs. cbn. by rewrite Hp. Qed.

Lemma settled_client p h c ph : settled p h → settled p (set_client h c ph).
Proof. intros []. by split. Qed.

Lemma settled_spawn p h : settled p h → settled p (spawnDaemon h).
Proof.
  intros [Hs Hp Ho Hn]. assert (h_next h ≠ p) as Hne by (pose proof (Hn p (mk_is_Some _ _ Hp)); lia).
  split; cbn; [done|by rewrite lookup_insert_ne| |].
  - intros q ph Hq [[<- <-]|[_ Hl]]%lookup_insert_Some; [by apply (bool_decide_unpack _)|by eapply Ho].
  - intros q [->|[_ Hq%Hn]]%lookup_insert_is_Some; lia.
Qed.

Lemma settled_other p q h ph :
  settled p h → q ≠ p → is_Some (h_daemons h !! q) → ph ∉ [Removing; Binding; Serving] → settled p (set_daemon h q ph).
Proof.
  intros [Hs Hp Ho Hn] Hq Hin Hph. split; cbn; [done|by rewrite lookup_insert_ne| |].
  - intros r ph' Hr [[<- <-]|[_ Hl]]%lookup_insert_Some; [done|by eapply Ho].
  - intros r [<-|[_ Hr]]%lookup_insert_is_Some; by apply Hn.
Qed.

(** A client that has a connection keeps it, and a new connection is one to [p]. *)
Definition connects_to (p : nat) (h h' : host) : Prop :=
  ∀ c q, h_clients h' !! c = Some (Connected q) → h_clients h !! c = Some (Connected q) ∨ q = p.

Lemma connects_refl p h h' : h_clients h' = h_clients h → connects_to p h h'.
Proof. intros E c q. rewrite E. by left. Qed.

Lemma connects_one p h h' c ph :
  h_clients h' = <[c := ph]> (h_clients h) → (∀ q, ph = Connected q → q = p) → connects_to p h h'.
Proof. intros E Hph d q. rewrite E. intros [[<- Hq]|[_ Hd]]%lookup_insert_Some; [right; by apply Hph|by left]. Qed.

Lemma settled_client_step p h h' : settled p h → client_step true h h' → settled p h' ∧ connects_to p h h'.
Proof.
  intros Hs Hst. pose proof (settled_dial p h Hs) as Hd. destruct Hst as [h c Hc|h c spawns h' Hc|h c Hc|h].
  - split; [by apply settled_client|by eapply connects_one].
  - unfold connectOrSpawn in Hc. rewrite Hd in Hc.
    destruct (h_clients h !! c) as [[]|]; try done; [| |]; injection Hc as <-.
    + split; [by apply settled_client|]. eapply connects_one; [done|]. by intros q [= ->].
    + destruct spawns; (split; [|by eapply connects_one]); apply settled_client; [by apply settled_spawn|done].
    + split; [by apply settled_client|]. eapply connects_one; [done|]. by intros q [= ->].
  - split; [by apply settled_client|by eapply connects_one].
  - split; [by apply settled_spawn|by apply connects_refl].
Qed.

Lemma settled_daemon_step p q h h' : settled p h → q ≠ p → daemon_step true q h h' → settled p h' ∧ h_clients h' = h_clients h.
Proof.
  intros Hs Hq Hst. pose proof (settled_dial p h Hs) as Hd. pose proof (se_others p h Hs q) as Ho.
  destruct Hst as [h h' Hl|h ok h' Hr|h ph Hp _].
  - unfold Listen in Hl. rewrite Hd in Hl. destruct (h_daemons h !! q) as [ph|] eqn:E; [|done].
    specialize (Ho ph Hq eq_refl). destruct ph; try done; try (by destruct Ho; apply (bool_decide_unpack _)).
    injection Hl as <-. split; [|done]. apply settled_other; [done|done|by eexists|by apply (bool_decide_unpack _)].
  - unfold Run_end in Hr. destruct (h_daemons h !! q) as [ph|] eqn:E; [|done].
    specialize (Ho ph Hq eq_refl). destruct ph; try done. by destruct Ho; apply (bool_decide_unpack _).
  - split; [|done]. apply settled_other; [done|done|by eexists|by apply (bool_decide_unpack _)].
Qed.

Lemma settled_run p h h' : settled p h → rtc (step_around p) h h' → settled p h' ∧ connects_to p h h'.
Proof.
  intros Hs Hrun. revert Hs. induction Hrun as [h|h h1 h' Hst _ IH]; intros Hs; [split; [done|by apply connects_refl]|].
  assert (settled p h1 ∧ connects_to p h h1) as [Hs1 Hc1].
  { destruct Hst as [Hc|(q & Hq & Hd)]; [by apply settled_client_step|].
    destruct (settled_daemon_step p q h h1 Hs Hq Hd) as [? ?]. split; [done|by apply connects_refl]. }
  destruct (IH Hs1) as [Hs' Hc']. split; [done|]. intros c q Hq. destruct (Hc' c q Hq) as [H1| ->]; [by apply Hc1|by right].
Qed.

(** ** Properties *)

(** C15. A daemon that is up alone stays alone as long as it answers.  When a daemon serves, the
    socket is its own and no other daemon is past its probe ([settled]), then for as long as it
    runs and every dial of it is answered before its timeout, whatever clients and the other daemons do,
    including daemons that clients or a shell start meanwhile: it can be dialled, every connection
    that is made is one to it, and no other daemon gets past its probe, so none serves.  Without
    either condition two daemons serve: [spawn_race_two_daemons], [slow_daemon_displaced]. *)
Theorem daemon_stays_alone p h h' :
  settled p h → rtc (step_around p) h h' →
  Dial h' true = Some p ∧ connects_to p h h' ∧
  ∀ q ph, q ≠ p → h_daemons h' !! q = Some ph → ph = Probing ∨ (∃ code, ph = Exited code) ∨ ph = Killed.
Proof.
  intros Hs Hrun. destruct (settled_run p h h' Hs Hrun) as [Hs' Hc]. split; [by apply settled_dial|]. split; [done|].
  intros q ph Hq Hp. pose proof (se_others p h' Hs' q ph Hq Hp) as Ho.
  destruct ph; try (by destruct Ho; apply (bool_decide_unpack _)); eauto.
Qed.

(** The client on its own: it dials, starts a daemon, the daemon comes up, it dials again. *)
Definition cold_start (h : host) (c : nat) : option host :=
  let p := h_next h in
  h ← connectOrSpawn h c true true;
  h ← connectOrSpawn h c true true;
  h ← Listen h p true;
  h ← Listen h p true;
  h ← Listen h p true;
  connectOrSpawn h c true true.

(** A client starts the daemon.  When no daemon runs, whether the last one has left a socket file or not, a
    client and the daemon it starts get to a connection between them, when the daemon answers the dial in
    time, and the daemon is up. *)
Theorem cold_start_connects h c :
  h_clients h !! c = Some Dialling →
  (∀ q ph, h_daemons h !! q = Some ph → q < h_next h ∧ ph ∉ [Probing; Removing; Binding; Serving]) →
  ∃ h', cold_start h c = Some h' ∧ rtc step h h' ∧
    h_clients h' !! c = Some (Connected (h_next h)) ∧ settled (h_next h) h'.
Proof.
  intros Hc Hd. set (p := h_next h).
  assert (∀ q, h_daemons h !! q ≠ Some Serving) as Hno.
  { intros q Hq. destruct (Hd q _ Hq) as [_ Hn]. by destruct Hn; apply (bool_decide_unpack _). }
  assert (∀ s cl n ds, (∀ q, ds !! q ≠ Some Serving) → Dial (mkHost s ds cl n) true = None) as Hdial.
  { intros s cl n ds Hds. unfold Dial. cbn. destruct s as [q|]; [|done]. cbn. specialize (Hds q).
    destruct (ds !! q) as [[]|]; done. }
  set (ds1 := <[p := Probing]> (h_daemons h)).
  assert (∀ ph, ph ≠ Serving → ∀ q, (<[p := ph]> ds1) !! q ≠ Some Serving) as Hds.
  { intros ph Hph q. unfold ds1. rewrite insert_insert_eq, lookup_insert. destruct (decide (p = q)); [congruence|apply Hno]. }
  set (cl2 := <[c := Polling]> (<[c := Spawning]> (h_clients h))).
  set (h1 := set_client h c Spawning). set (h2 := mkHost (h_socket h) ds1 cl2 (S p)).
  set (h3 := mkHost (h_socket h) (<[p := Removing]> ds1) cl2 (S p)).
  set (h4 := mkHost None (<[p := Binding]> (<[p := Removing]> ds1)) cl2 (S p)).
  set (h5 := mkHost (Some p) (<[p := Serving]> (<[p := Binding]> (<[p := Removing]> ds1))) cl2 (S p)).
  set (h6 := set_client h5 c (Connected p)).
  assert (connectOrSpawn h c true true = Some h1) as E1.
  { unfold connectOrSpawn. rewrite Hc. destruct h as [s ds cl n]. by rewrite Hdial. }
  assert (connectOrSpawn h1 c true true = Some h2) as E2.
  { unfold connectOrSpawn, h1. cbn. by rewrite lookup_insert_eq. }
  assert (Listen h2 p true = Some h3) as E3.
  { unfold Listen. assert (Dial h2 true = None) as ->.
    { unfold h2. apply Hdial. intros q. unfold ds1. rewrite lookup_insert. destruct (decide (p = q)); [done|apply Hno]. }
    unfold h2, ds1 at 1. cbn [h_daemons]. by rewrite lookup_insert_eq. }
  assert (Listen h3 p true = Some h4) as E4 by (unfold Listen, h3; cbn; by rewrite lookup_insert_eq).
  assert (Listen h4 p true = Some h5) as E5 by (unfold Listen, h4; cbn; by rewrite lookup_insert_eq).
  assert (settled p h5) as Hs5.
  { split; cbn; [done|apply lookup_insert_eq| |].
    - intros q ph Hq. unfold ds1. rewrite !insert_insert_eq, lookup_insert_ne by done. intros Hl.
      destruct (Hd q ph Hl) as [_ Hn]. clear -Hn. set_solver.
    - intros q. unfold ds1. rewrite !insert_insert_eq. intros [->|[_ [ph Hl]]]%lookup_insert_is_Some; [lia|].
      destruct (Hd q ph Hl) as [? _]. unfold p. lia. }
  assert (connectOrSpawn h5 c true true = Some h6) as E6.
  { unfold connectOrSpawn. rewrite (settled_dial p h5 Hs5). unfold h5, cl2 at 1. cbn [h_clients]. by rewrite lookup_insert_eq. }
  exists h6. split_and!.
  - unfold cold_start. fold p. rewrite E1. cbn [mbind option_bind]. rewrite E2. cbn [mbind option_bind].
    rewrite E3. cbn [mbind option_bind]. rewrite E4. cbn [mbind option_bind]. by rewrite E5.
  - eapply rtc_l; [exists true; left; by eapply calls|]. eapply rtc_l; [exists true; left; by eapply calls|].
    do 3 (eapply rtc_l; [exists true; right; exists p; by eapply listens|]).
    eapply rtc_l; [exists true; left; by eapply calls|]. done.
  - apply lookup_insert_eq.
  - by apply settled_client.
Qed.

(** A host with a client and the socket file of a daemon that was killed. *)
Definition stale_host : host := mkHost (Some 0) {[0 := Killed]} {[7 := Dialling]} 1.

Lemma cold_start_connects_witness :
  ∃ h', cold_start stale_host 7 = Some h' ∧ h_clients h' !! 7 = Some (Connected 1) ∧ Dial h' true = Some 1.
Proof.
  destruct (cold_start_connects stale_host 7) as (h' & E & _ & Hc & Hs).
  - reflexivity.
  - intros q ph Hq. unfold stale_host in Hq. cbn [h_daemons] in Hq. apply lookup_singleton_Some in Hq as [<- <-]. split; [cbn; lia|apply (bool_decide_unpack _); vm_compute; exact I].
  - exists h'. split; [exact E|]. split; [exact Hc|]. exact (settled_dial _ _ Hs).
Defined.

Lemma daemon_stays_alone_witness :
  let h := mkHost (Some 0) {[0 := Serving]} ∅ 1 in
  let h' := set_client (set_client h 7 Dialling) 7 (Connected 0) in
  rtc (step_around 0) h h' ∧ Dial h' true = Some 0.
Proof.
  intros h h'. assert (rtc (step_around 0) h h') as Hrun.
  { eapply rtc_l; [left; apply (arrives true h 7); reflexivity|].
    eapply rtc_l; [left; apply (calls true (set_client h 7 Dialling) 7 true); reflexivity|]. apply rtc_refl. }
  split; [exact Hrun|]. apply (daemon_stays_alone 0 h h'); [|exact Hrun].
  split; [reflexivity|reflexivity| |].
  - intros q ph Hq Hl. unfold h in Hl; cbn [h_daemons] in Hl; apply lookup_singleton_Some in Hl as [<- _]. destruct (Hq eq_refl).
  - intros q [ph Hl]. unfold h in Hl; cbn [h_daemons] in Hl; apply lookup_singleton_Some in Hl as [<- _]. cbn. lia.
Defined.

(** The race of two daemons that start together: both see the stale file, the first removes it, binds and serves a
    client, and the second removes the file of the first and binds its own. *)
Definition race : option host :=
  let h := mkHost (Some 0) {[0 := Killed]} {[7 := Dialling; 8 := Dialling]} 1 in
  h ← connectOrSpawn h 7 true true; h ← connectOrSpawn h 8 true true;
  h ← connectOrSpawn h 7 true true; h ← connectOrSpawn h 8 true true;
  h ← Listen h 1 true; h ← Listen h 2 true;
  h ← Listen h 1 true; h ← Listen h 1 true; h ← connectOrSpawn h 7 true true;
  h ← Listen h 2 true; h ← Listen h 2 true; connectOrSpawn h 8 true true.

(** Concurrent spawns are not harmless: after the race two daemons serve, each has a client, and only the second can
    be dialled; when the first one then stops, it unlinks the socket of the second, and nobody can be dialled. *)
Theorem spawn_race_two_daemons :
  (λ h, (h_daemons h !! 1, h_daemons h !! 2, h_clients h !! 7, h_clients h !! 8, Dial h true)) <$> race =
    Some (Some Serving, Some Serving, Some (Connected 1), Some (Connected 2), Some 2) ∧
  (λ h, Dial h true) <$> (h ← race; Run_end h 1 true) = Some None.
Proof. split; vm_compute; reflexivity. Qed.

(** A daemon that serves, and another that is started and whose probe of it times out. *)
Definition displaced : option host :=
  let h := mkHost (Some 0) {[0 := Serving]} {[7 := Connected 0]} 1 in
  let h := spawnDaemon h in
  h ← Listen h 1 false; h ← Listen h 1 true; Listen h 1 true.

(** A daemon that is alive but does not answer the probe within its 200 milliseconds is taken for dead:
    the other daemon removes its socket and serves beside it, and the first can no longer be dialled. *)
Theorem slow_daemon_displaced :
  (λ h, (h_daemons h !! 0, h_daemons h !! 1, h_clients h !! 7, Dial h true)) <$> displaced =
    Some (Some Serving, Some Serving, Some (Connected 0), Some 1).
Proof. vm_compute. reflexivity. Qed.
