(* ===== verification/Args.v ===== *)
(** * The command line: cmd/gcgrep/main.go

    [parseArgs] over Go's package flag, the choice of the command, and the commands that talk to
    the daemon.  Resolving a path is an interface of the operating system; a connection is what a
    request is answered with.  Messages on the standard error are left out, an error is a value.
    [None] is a panic, or a request the daemon never answers. *)

From stdpp Require Import functions.
From S2P Require Import Prelude GoBytes Text GoPath Lines Walk Conf Symbol Strip Extract Regexp Literal Matcher.
From S2P Require Import Index IndexSearch Engine EngineSearch Scan Store Globs Decimal Server ServerSpec Client Daemon.

(** ** Numbers and truth values: [strconv.ParseBool], [strconv.ParseInt(s, 0, 64)] *)

Definition ParseBool (s : bytes) : option bool :=
  if bool_decide (s ∈ [bs "1"; bs "t"; bs "T"; bs "true"; bs "TRUE"; bs "True"]) then Some true
  else if bool_decide (s ∈ [bs "0"; bs "f"; bs "F"; bs "false"; bs "FALSE"; bs "False"]) then Some false
  else None.

(** strconv's [lower]: [c | 0x20]. *)
Definition lower_digit (c : byte) : Z := Z.lor (b2z c) 32.

(** The base of a number by its prefix, and its digits. *)
Definition base_of (s : bytes) : Z * bytes :=
  match s with
  | c :: r =>
      if bool_decide (c = chr "0") then
        match r with
        | p :: ((_ :: _) as ds) =>
            if bool_decide (lower_digit p = 98%Z) then (2%Z, ds)
            else if bool_decide (lower_digit p = 111%Z) then (8%Z, ds)
            else if bool_decide (lower_digit p = 120%Z) then (16%Z, ds)
            else (8%Z, r)
        | _ => (8%Z, r)
        end
      else (10%Z, s)
  | [] => (10%Z, s)
  end.

Definition digit_of (c : byte) : option Z :=
  if in_range 48 57 c then Some (b2z c - 48)%Z
  else if bool_decide (97 ≤ lower_digit c ≤ 122)%Z then Some (lower_digit c - 97 + 10)%Z
  else None.

(** The loop of [ParseUint]; an overflow is an error, here the range check at its end. *)
Fixpoint uint_loop (base acc : Z) (s : bytes) : option Z :=
  match s with
  | [] => Some acc
  | c :: s =>
      if bool_decide (c = chr "_") then uint_loop base acc s
      else d ← digit_of c; if (base <=? d)%Z then None else uint_loop base (acc * base + d) s
  end.

(** The loop of [underscoreOK]: [saw] is a digit, an underscore, or neither. *)
Inductive seen := SawNothing | SawDigit | SawUnderscore | SawOther.

#[export] Instance seen_eq_dec : EqDecision seen.
Proof. solve_decision. Defined.

Fixpoint underscore_loop (hex : bool) (saw : seen) (s : bytes) : bool :=
  match s with
  | [] => negb (bool_decide (saw = SawUnderscore))
  | c :: s =>
      if in_range 48 57 c || hex && bool_decide (97 ≤ lower_digit c ≤ 102)%Z then underscore_loop hex SawDigit s
      else if bool_decide (c = chr "_") then
        if bool_decide (saw = SawDigit) then underscore_loop hex SawUnderscore s else false
      else if bool_decide (saw = SawUnderscore) then false
      else underscore_loop hex SawOther s
  end.

(** [underscoreOK], after the sign. *)
Definition underscoreOK (s : bytes) : bool :=
  match s with
  | z :: p :: r =>
      if bool_decide (z = chr "0") && bool_decide (lower_digit p ∈ [98; 111; 120]%Z)
      then underscore_loop (bool_decide (lower_digit p = 120%Z)) SawDigit r
      else underscore_loop false SawNothing s
  | _ => underscore_loop false SawNothing s
  end.

(** [strconv.ParseInt(s, 0, 64)]: [None] is an error, of syntax or of range. *)
Definition ParseInt (s : bytes) : option Z :=
  let '(neg, s) := match s with
                   | c :: r => if bool_decide (c = chr "+") then (false, r)
                               else if bool_decide (c = chr "-") then (true, r) else (false, s)
                   | [] => (false, [])
                   end in
  if bool_decide (s = []) then None
  else
    let '(base, ds) := base_of s in
    n ← uint_loop base 0 ds;
    if bool_decide (chr "_" ∈ ds) && negb (underscoreOK s) then None
    else
      let n := if (neg : bool) then (- n)%Z else n in
      if bool_decide (- 2 ^ 63 ≤ n < 2 ^ 63)%Z then Some n else None.

(** ** The flags of a search *)

(** The variables the flags write, by kind. *)
Inductive bool_dest :=
  | NoCase | Fixed | Files | Count | JsonOut | NoSync | Gitignore | Hidden | TextFlag | Follow | AllowNested.
Inductive int_dest := LimitFlag | MaxColumnsFlag.
Inductive multi_dest := Globs | Excludes | Includes.
Inductive dest := DBool (d : bool_dest) | DInt (d : int_dest) | DMulti (d : multi_dest) | DMaxFilesize.

#[export] Instance bool_dest_eq_dec : EqDecision bool_dest.
Proof. solve_decision. Defined.
#[export] Instance int_dest_eq_dec : EqDecision int_dest.
Proof. solve_decision. Defined.
#[export] Instance multi_dest_eq_dec : EqDecision multi_dest.
Proof. solve_decision. Defined.

(** The flags [parseArgs] registers. *)
Definition flag_table : list (bytes * dest) :=
  [(bs "i", DBool NoCase); (bs "F", DBool Fixed); (bs "l", DBool Files); (bs "c", DBool Count);
   (bs "g", DMulti Globs); (bs "exclude", DMulti Excludes); (bs "include", DMulti Includes);
   (bs "json", DBool JsonOut); (bs "limit", DInt LimitFlag); (bs "no-sync", DBool NoSync);
   (bs "max-columns", DInt MaxColumnsFlag); (bs "gitignore", DBool Gitignore); (bs "hidden", DBool Hidden);
   (bs "a", DBool TextFlag); (bs "text", DBool TextFlag); (bs "L", DBool Follow); (bs "follow", DBool Follow);
   (bs "allow-nested", DBool AllowNested); (bs "max-filesize", DMaxFilesize)].

Definition formal (name : bytes) : option dest :=
  snd <$> List.find (λ f : bytes * dest, bool_decide (f.1 = name)) flag_table.

(** The values of the variables. *)
Record vars := mkVars {
  v_bool : bool_dest → bool; v_int : int_dest → Z; v_multi : multi_dest → list bytes; v_size : bytes;
}.

(** Their defaults. *)
Definition initial (c : Config) : vars :=
  mkVars (λ _, false) (λ d, match d with LimitFlag => Limit c | MaxColumnsFlag => 0%Z end) (λ _, []) [].

(** [Value.Set] of a flag: [None] is an error. *)
Definition set_flag (d : dest) (value : bytes) (vs : vars) : option vars :=
  match d with
  | DBool d => b ← ParseBool value; Some (mkVars (<[d := b]> (v_bool vs)) (v_int vs) (v_multi vs) (v_size vs))
  | DInt d => n ← ParseInt value; Some (mkVars (v_bool vs) (<[d := n]> (v_int vs)) (v_multi vs) (v_size vs))
  | DMulti d => Some (mkVars (v_bool vs) (v_int vs) (<[d := v_multi vs d ++ [value]]> (v_multi vs)) (v_size vs))
  | DMaxFilesize => Some (mkVars (v_bool vs) (v_int vs) (v_multi vs) value)
  end.

(** ** [flag.FlagSet.Parse] *)

Inductive flag_error :=
  | FlagHelp | FlagSyntax (s : bytes) | FlagUndefined (name : bytes) | FlagValue (name value : bytes)
  | FlagNeedsArgument (name : bytes).

(** What an argument is: no flag, the end of the flags, a malformed flag, or a flag. *)
Inductive arg := NoFlag | EndOfFlags | BadFlag | Flag (name : bytes) (value : option bytes).

(** The text after the minuses. *)
Definition flag_body (name : bytes) : arg :=
  match name with
  | [] => BadFlag
  | c :: r =>
      if bool_decide (c = chr "-") || bool_decide (c = chr "=") then BadFlag
      else match index_byte r (chr "=") with
           | Some i => Flag (c :: take i r) (Some (drop (S i) r))
           | None => Flag name None
           end
  end.

Definition classify (s : bytes) : arg :=
  match s with
  | c :: c' :: r =>
      if bool_decide (c = chr "-") then
        if bool_decide (c' = chr "-") then if bool_decide (r = []) then EndOfFlags else flag_body r
        else flag_body (c' :: r)
      else NoFlag
  | _ => NoFlag
  end.

(** [Parse]: the variables and the arguments left. *)
Fixpoint Parse (vs : vars) (args : list bytes) : flag_error + vars * list bytes :=
  match args with
  | [] => inr (vs, [])
  | s :: args' =>
      match classify s with
      | NoFlag => inr (vs, args)
      | EndOfFlags => inr (vs, args')
      | BadFlag => inl (FlagSyntax s)
      | Flag name value =>
          match formal name with
          | None => inl (if bool_decide (name ∈ [bs "help"; bs "h"]) then FlagHelp else FlagUndefined name)
          | Some (DBool b) =>
              let v := default (bs "true") value in
              match set_flag (DBool b) v vs with
              | Some vs => Parse vs args'
              | None => inl (FlagValue name v)
              end
          | Some d =>
              match value, args' with
              | Some v, _ =>
                  match set_flag d v vs with Some vs => Parse vs args' | None => inl (FlagValue name v) end
              | None, v :: args'' =>
                  match set_flag d v vs with Some vs => Parse vs args'' | None => inl (FlagValue name v) end
              | None, [] => inl (FlagNeedsArgument name)
              end
          end
      end
  end.

(** ** Requests from arguments *)

(** The calls of the operating system: [filepath.Abs], [filepath.EvalSymlinks] and whether
    [os.Stat] finds a directory. *)
Class OS := {
  os_Abs : bytes → option bytes;
  os_EvalSymlinks : bytes → option bytes;
  os_Stat : bytes → option bool;
}.

Record cliOpts := mkCli { o_req : Request; o_jsonOut : bool; o_pathArg : bytes }.

Inductive cli_error :=
  | EFlag (err : flag_error) | ESize (s : bytes) | EUsage | ENoPath (path : bytes)
  | ENotDirectory (path : bytes) | ENotFile (path : bytes).

(** The request of a search, from the variables. *)
Definition request_of (vs : vars) (maxFilesize : Z) (pattern root : bytes) : Request :=
  {| q_Op := bs "search"; q_Root := root; q_Pattern := pattern; q_Fixed := v_bool vs Fixed;
     q_NoCase := v_bool vs NoCase; q_Files := v_bool vs Files; q_Count := v_bool vs Count;
     q_Globs := v_multi vs Globs; q_Limit := v_int vs LimitFlag; q_NoSync := v_bool vs NoSync;
     q_MaxColumns := v_int vs MaxColumnsFlag; q_Exclude := v_multi vs Excludes; q_Include := v_multi vs Includes;
     q_Gitignore := v_bool vs Gitignore; q_Hidden := v_bool vs Hidden; q_Text := v_bool vs TextFlag;
     q_Follow := v_bool vs Follow; q_AllowNested := v_bool vs AllowNested; q_MaxFilesize := maxFilesize |}.

(** [filepath.Dir] of a clean absolute path. *)
Definition path_dir (p : bytes) : bytes :=
  match last_index_byte p slash with
  | Some 0 => [slash]
  | Some i => take i p
  | None => bs "."
  end.

Section Commands.
Context `{OS}.

(** A path argument: absolute, its links resolved where they can be. *)
Definition absolute (path : bytes) : option bytes :=
  abs ← os_Abs path; Some (default abs (os_EvalSymlinks abs)).

Definition resolve (path : bytes) : option (bytes * bool) := abs ← absolute path; d ← os_Stat abs; Some (abs, d).

(** [parseArgs] *)
Definition parseArgs (c : Config) (args : list bytes) : cli_error + cliOpts :=
  match Parse (initial c) args with
  | inl err => inl (EFlag err)
  | inr (vs, rest) =>
      match parseSize (v_size vs) with
      | None => inl (ESize (v_size vs))
      | Some maxFilesize =>
          let search (pattern path : bytes) :=
            match resolve path with
            | None => inl (ENoPath path)
            | Some (abs, false) => inl (ENotDirectory path)
            | Some (abs, true) => inr (mkCli (request_of vs maxFilesize pattern abs) (v_bool vs JsonOut) path)
            end in
          match rest with
          | [pattern] => search pattern (bs ".")
          | [pattern; path] => search pattern path
          | _ => inl EUsage
          end
      end
  end.

(** [parseSymbolsFile] *)
Definition parseSymbolsFile (args : list bytes) : cli_error + cliOpts :=
  match args with
  | [file] =>
      match resolve file with
      | None => inl (ENoPath file)
      | Some (abs, true) => inl (ENotFile file)
      | Some (abs, false) =>
          inr (mkCli (mkRequest [] (path_dir abs) (path_base abs) false false false false [] 0 false 0 [] [] false
                        false false false false 0) false (bs "."))
      end
  | _ => inl EUsage
  end.

Definition set_op (op : bytes) (r : Request) : Request :=
  {| q_Op := op; q_Root := q_Root r; q_Pattern := q_Pattern r; q_Fixed := q_Fixed r; q_NoCase := q_NoCase r;
     q_Files := q_Files r; q_Count := q_Count r; q_Globs := q_Globs r; q_Limit := q_Limit r;
     q_NoSync := q_NoSync r; q_MaxColumns := q_MaxColumns r; q_Exclude := q_Exclude r; q_Include := q_Include r;
     q_Gitignore := q_Gitignore r; q_Hidden := q_Hidden r; q_Text := q_Text r; q_Follow := q_Follow r;
     q_AllowNested := q_AllowNested r; q_MaxFilesize := q_MaxFilesize r |}.

(** ** The commands *)

(** A connection: what a request is answered with, [None] when the daemon cannot be reached. *)
Abbreviation conn := (option (Request → list Event)).

Section Search.
Context `{RegexpEngine} (c : Config) (connect : conn) (read : bytes → bytes → bytes + bytes).

(** [streamSearch] over a connection; [read] reads a file below a root. *)
Definition send (o : cliOpts) : option (list Event * Z) :=
  match connect with
  | None => Some ([], 2%Z)
  | Some serve => streamSearch c (o_req o) (o_jsonOut o) (read (q_Root (o_req o))) (serve (o_req o))
  end.

(** [cmdSearch] *)
Definition cmdSearch (args : list bytes) : option (list Event * Z) :=
  match parseArgs c args with
  | inl _ => Some ([], 2%Z)
  | inr o => send o
  end.

(** [cmdSymbol] *)
Definition cmdSymbol (op : bytes) (args : list bytes) : option (list Event * Z) :=
  match (if bool_decide (op = bs "symbols") then parseSymbolsFile args else parseArgs c args) with
  | inl _ => Some ([], 2%Z)
  | inr o => send (mkCli (set_op op (o_req o)) (o_jsonOut o) (o_pathArg o))
  end.
End Search.

(** [cmdForget] against the stores of a daemon, if one runs: the stores left, whether each root named was
    indexed, and the exit code. *)
Fixpoint forget_loop `{MapOrder} (sv : option Stores) (args : list bytes) (out : list (bytes * bool)) (rc : Z)
  : option Stores * list (bytes * bool) * Z :=
  match args with
  | [] => (sv, out, rc)
  | p :: args =>
      match absolute p with
      | None => forget_loop sv args out 2
      | Some abs =>
          match sv with
          | None => (None, out, 1%Z)
          | Some stores =>
              let '(stores, found) := handleForget stores abs in
              forget_loop (Some stores) args (out ++ [(abs, bool_decide (is_Some found))]) rc
          end
      end
  end.

Definition cmdForget `{MapOrder} (sv : option Stores) (args : list bytes) : option Stores * list (bytes * bool) * Z :=
  if bool_decide (args = []) then (sv, [], 2%Z) else forget_loop sv args [] 0.
End Commands.

(** [run]: the command of the arguments. *)
Inductive command :=
  | CmdSymbol (op : bytes) (args : list bytes) | CmdDaemon | CmdForget (args : list bytes)
  | CmdSimple (op : bytes) | CmdVersion | CmdHelp | CmdSearch (args : list bytes).

Definition run (args : list bytes) : command :=
  match args with
  | [] => CmdSearch args
  | a :: rest =>
      if bool_decide (a ∈ [bs "def"; bs "refs"; bs "symbols"]) then CmdSymbol a rest
      else if bool_decide (a = bs "daemon") then CmdDaemon
      else if bool_decide (a = bs "forget") then CmdForget rest
      else if bool_decide (a ∈ [bs "stop"; bs "status"]) then CmdSimple a
      else if bool_decide (a ∈ [bs "version"; bs "--version"; bs "-V"]) then CmdVersion
      else if bool_decide (a ∈ [bs "help"; bs "--help"; bs "-h"]) then CmdHelp
      else CmdSearch args
  end.

(** ** What the flags of a command line set *)

Inductive value := VBool (d : bool_dest) (b : bool) | VInt (d : int_dest) (n : Z) | VMulti (d : multi_dest) (v : bytes)
  | VMaxFilesize (v : bytes).

(** A flag as it is written: with one minus or two, its value after an equals sign or in the next
    argument; a bare boolean flag is true. *)
Record setting := mkSetting { s_name : bytes; s_value : value; s_double : bool; s_joined : bool }.

Definition dest_of (v : value) : dest :=
  match v with
  | VBool d _ => DBool d | VInt d _ => DInt d | VMulti d _ => DMulti d | VMaxFilesize _ => DMaxFilesize
  end.

Definition fmt_int (n : Z) : bytes :=
  if (n <? 0)%Z then chr "-" :: digits 20 (- n) [] else digits 20 n [].

Definition value_text (v : value) : bytes :=
  match v with
  | VBool _ b => if b then bs "true" else bs "false"
  | VInt _ n => fmt_int n
  | VMulti _ v | VMaxFilesize v => v
  end.

Definition render_flag (s : setting) : list bytes :=
  let flag := (if s_double s then bs "--" else bs "-") ++ s_name s in
  let joined := [flag ++ chr "=" :: value_text (s_value s)] in
  match s_value s with
  | VBool _ b => if b && negb (s_joined s) then [flag] else joined
  | v => if s_joined s then joined else [flag; value_text v]
  end.

Definition setting_ok (s : setting) : Prop :=
  formal (s_name s) = Some (dest_of (s_value s)) ∧
  match s_value s with VInt _ n => (- 2 ^ 63 ≤ n < 2 ^ 63)%Z | _ => True end.

(** The last value of a variable counts; globs accumulate. *)
Definition bools (d : bool_dest) (ss : list setting) : list bool :=
  omap (λ s, match s_value s with VBool d' b => if decide (d = d') then Some b else None | _ => None end) ss.
Definition ints (d : int_dest) (ss : list setting) : list Z :=
  omap (λ s, match s_value s with VInt d' n => if decide (d = d') then Some n else None | _ => None end) ss.
Definition multis (d : multi_dest) (ss : list setting) : list bytes :=
  omap (λ s, match s_value s with VMulti d' v => if decide (d = d') then Some v else None | _ => None end) ss.
Definition sizes (ss : list setting) : list bytes :=
  omap (λ s, match s_value s with VMaxFilesize v => Some v | _ => None end) ss.

Definition chosen (c : Config) (ss : list setting) : vars :=
  mkVars (λ d, default (v_bool (initial c) d) (last (bools d ss))) (λ d, default (v_int (initial c) d) (last (ints d ss)))
    (λ d, multis d ss) (default [] (last (sizes ss))).

(** ** Numbers read back *)

Lemma uint_loop_digits base acc ds :
  base = 10%Z → Forall (λ c, in_range 48 57 c = true) ds →
  uint_loop base acc ds = Some (foldl (λ n b, (10 * n + (b2z b - 48))%Z) acc ds).
Proof.
  intros -> Hd. revert acc. induction Hd as [|c ds Hc _ IH]; intros acc; [done|]. cbn [uint_loop foldl].
  rewrite bool_decide_eq_false_2 by (intros ->; vm_compute in Hc; done). unfold digit_of. rewrite Hc.
  cbn [mbind option_bind]. unfold in_range in Hc. apply bool_decide_eq_true_1 in Hc.
  rewrite (proj2 (Z.leb_gt 10 _)) by lia. rewrite IH. do 2 f_equal. lia.
Qed.

(** A positive number has no leading zero. *)
Lemma digits_head fuel z acc :
  (0 < z < 10 ^ Z.of_nat fuel)%Z → ∃ c l, digits fuel z acc = c :: l ∧ c ≠ chr "0" ∧ in_range 48 57 c = true.
Proof.
  revert z acc. induction fuel as [|fuel IH]; intros z acc Hz.
  { change (10 ^ Z.of_nat 0)%Z with 1%Z in Hz. lia. }
  cbn [digits]. pose proof (Z.mod_pos_bound z 10 ltac:(lia)) as Hm. destruct (Z.ltb_spec z 10).
  - rewrite Z.mod_small by lia. eexists _, _. split; [done|]. split.
    + intros E%(f_equal b2z). rewrite b2z_z2b, Z.mod_small in E by lia. change (b2z (chr "0")) with 48%Z in E. lia.
    + unfold in_range. rewrite b2z_z2b, Z.mod_small, bool_decide_eq_true by lia. lia.
  - rewrite Nat2Z.inj_succ, Z.pow_succ_r in Hz by lia. apply IH.
    split; [apply Z.div_str_pos; lia|apply Z.div_lt_upper_bound; lia].
Qed.

Lemma digits_all fuel z : (0 ≤ z)%Z → Forall (λ c, in_range 48 57 c = true) (digits fuel z []).
Proof. intros Hz. apply Forall_forall. intros c [Hc|Hc]%digits_range; [by apply elem_of_nil in Hc|done|done]. Qed.

Lemma base_of_digits z : (0 ≤ z < 10 ^ 20)%Z → ∃ base ds, base_of (digits 20 z []) = (base, ds) ∧
  uint_loop base 0 ds = Some z ∧ chr "_" ∉ ds ∧ digits 20 z [] ≠ [].
Proof.
  intros Hz. destruct (decide (z = 0%Z)) as [->|Hn].
  { eexists _, _. split; [reflexivity|]. split; [done|]. split; [apply not_elem_of_nil|done]. }
  destruct (digits_head 20 z []) as (c & l & E & Hc & _); [change (Z.of_nat 20) with 20%Z; lia|].
  pose proof (digits_all 20 z ltac:(lia)) as Hall. pose proof (digits_val 20 z []) as Hv.
  rewrite E in *. exists 10%Z, (c :: l). unfold base_of. rewrite bool_decide_eq_false_2 by done. split; [done|]. split.
  - rewrite uint_loop_digits by done. f_equal. unfold dec_val, len in Hv. rewrite Hv; [cbn [length foldl]; lia|].
    change (Z.of_nat 20) with 20%Z. lia.
  - split; [|done]. intros Hin. rewrite Forall_forall in Hall. specialize (Hall _ Hin). by vm_compute in Hall.
Qed.

Lemma ParseInt_fmt n : (- 2 ^ 63 ≤ n < 2 ^ 63)%Z → ParseInt (fmt_int n) = Some n.
Proof.
  intros Hn. unfold fmt_int. destruct (Z.ltb_spec n 0).
  - destruct (base_of_digits (- n)) as (base & ds & Hb & Hu & Hin & Hne); [lia|].
    unfold ParseInt. cbn [bool_decide]. rewrite (bool_decide_eq_false_2 (chr "-" = chr "+")) by done.
    rewrite (bool_decide_eq_true_2 (chr "-" = chr "-")) by done. rewrite bool_decide_eq_false_2 by done.
    rewrite Hb, Hu. cbn [mbind option_bind]. rewrite (bool_decide_eq_false_2 (_ ∈ _)) by done. cbn [andb].
    rewrite Z.opp_involutive, bool_decide_eq_true_2 by lia. done.
  - destruct (base_of_digits n) as (base & ds & Hb & Hu & Hin & Hne); [lia|].
    pose proof (digits_all 20 n ltac:(lia)) as Hall. unfold ParseInt.
    destruct (digits 20 n []) as [|c l] eqn:E; [done|]. inversion Hall as [|? ? Hc ?]; subst.
    rewrite !(bool_decide_eq_false_2 (c = _)) by (intros ->; by vm_compute in Hc).
    rewrite bool_decide_eq_false_2 by done.
    rewrite Hb, Hu. cbn [mbind option_bind]. rewrite (bool_decide_eq_false_2 (_ ∈ _)) by done. cbn [andb].
    rewrite bool_decide_eq_true_2 by lia. done.
Qed.

(** ** Flags read back *)

(** The effect of a setting. *)
Definition apply_value (v : value) (vs : vars) : vars :=
  match v with
  | VBool d b => mkVars (<[d := b]> (v_bool vs)) (v_int vs) (v_multi vs) (v_size vs)
  | VInt d n => mkVars (v_bool vs) (<[d := n]> (v_int vs)) (v_multi vs) (v_size vs)
  | VMulti d v => mkVars (v_bool vs) (v_int vs) (<[d := v_multi vs d ++ [v]]> (v_multi vs)) (v_size vs)
  | VMaxFilesize v => mkVars (v_bool vs) (v_int vs) (v_multi vs) v
  end.

Lemma set_flag_text s vs :
  setting_ok s → set_flag (dest_of (s_value s)) (value_text (s_value s)) vs = Some (apply_value (s_value s) vs).
Proof.
  intros [_ Hv]. destruct (s_value s) as [d [|]|d n|d v|v]; try done.
  cbn [dest_of set_flag value_text]. by rewrite ParseInt_fmt.
Qed.

(** A registered name is not empty and cannot be taken for something else. *)
Lemma formal_name name d :
  formal name = Some d → ∃ c r, name = c :: r ∧ c ≠ chr "-" ∧ c ≠ chr "=" ∧ chr "=" ∉ r.
Proof.
  unfold formal. destruct (List.find _ _) as [[n d']|] eqn:E; [|done]. intros _.
  apply List.find_some in E as [Hin Hn]. apply bool_decide_eq_true_1 in Hn. cbn in Hn. subst n.
  apply list_elem_of_In in Hin.
  assert (Forall (λ f : bytes * dest, match f.1 with
    | c :: r => bool_decide (c ≠ chr "-") && bool_decide (c ≠ chr "=") && bool_decide (chr "=" ∉ r)
    | [] => false end = true) flag_table) as Hall by (repeat constructor).
  rewrite Forall_forall in Hall. specialize (Hall _ Hin). cbn in Hall. destruct name as [|c r]; [done|].
  exists c, r. apply andb_prop in Hall as [[H1 H2]%andb_prop H3].
  by rewrite bool_decide_eq_true in H1, H2, H3.
Qed.

Lemma index_byte_app_notin a c r : c ∉ a → index_byte (a ++ c :: r) c = Some (length a).
Proof.
  induction a as [|x a IH]; intros Ha; simpl; [by rewrite bool_decide_eq_true_2|].
  apply not_elem_of_cons in Ha as [Hx Ha]. rewrite bool_decide_eq_false_2 by done. by rewrite IH.
Qed.

(** A flag of either form is recognised, with or without a value. *)
Lemma classify_flag s v :
  setting_ok s →
  let flag := (if s_double s then bs "--" else bs "-") ++ s_name s in
  classify flag = Flag (s_name s) None ∧ classify (flag ++ chr "=" :: v) = Flag (s_name s) (Some v).
Proof.
  intros [Hf _]. destruct (formal_name _ _ Hf) as (c & r & -> & H1 & H2 & H3).
  assert (flag_body (c :: r) = Flag (c :: r) None ∧ flag_body (c :: r ++ chr "=" :: v) = Flag (c :: r) (Some v)) as [E1 E2].
  { cbn [flag_body]. rewrite !bool_decide_eq_false_2 by done. cbn [orb].
    rewrite (proj2 (index_byte_None r _)), index_byte_app_notin by done.
    rewrite take_app_length. split; [done|].
    rewrite cons_middle, app_assoc. by rewrite drop_app_length' by (rewrite length_app; cbn; lia). }
  destruct (s_double s); change (bs "--") with [chr "-"; chr "-"]; change (bs "-") with [chr "-"];
    cbn [app classify]; rewrite bool_decide_eq_true_2 by done.
  - rewrite !bool_decide_eq_false_2 by done. done.
  - rewrite bool_decide_eq_false_2 by done. done.
Qed.

Lemma Parse_render s vs rest :
  setting_ok s → Parse vs (render_flag s ++ rest) = Parse (apply_value (s_value s) vs) rest.
Proof.
  intros Hs. pose proof (set_flag_text s vs Hs) as Hset.
  destruct (classify_flag s (value_text (s_value s)) Hs) as [Hn Hv]. destruct Hs as [Hf _]. unfold render_flag.
  destruct (s_value s) as [d [|]|d n|d v|v] eqn:E; destruct (s_joined s); cbn [andb negb app Parse];
    rewrite ?Hn, ?Hv, Hf; cbn [dest_of default from_option id value_text]; cbn [dest_of value_text] in Hset; rewrite Hset; done.
Qed.

Lemma Parse_settings ss vs rest :
  Forall setting_ok ss →
  Parse vs (concat (map render_flag ss) ++ rest) = Parse (foldl (λ vs s, apply_value (s_value s) vs) vs ss) rest.
Proof.
  intros Hss. revert vs. induction Hss as [|s ss Hs _ IH]; intros vs; [done|]. cbn [map concat foldl].
  by rewrite <-app_assoc, Parse_render, IH.
Qed.

(** Two sets of variables with the same values. *)
Definition vars_eq (a b : vars) : Prop :=
  (∀ d, v_bool a d = v_bool b d) ∧ (∀ d, v_int a d = v_int b d) ∧ (∀ d, v_multi a d = v_multi b d) ∧
  v_size a = v_size b.

Lemma request_of_vars a b n pattern root : vars_eq a b → request_of a n pattern root = request_of b n pattern root.
Proof. intros (Hb & Hi & Hm & _). unfold request_of. by rewrite !Hb, !Hi, !Hm. Qed.

(** Setting one after another is choosing the last. *)
Lemma settings_chosen c ss : vars_eq (foldl (λ vs s, apply_value (s_value s) vs) (initial c) ss) (chosen c ss).
Proof.
  induction ss as [|s ss IH] using rev_ind; [done|]. rewrite foldl_app. cbn [foldl].
  destruct IH as (Hb & Hi & Hm & Hs). unfold chosen, bools, ints, multis, sizes in *. cbn [v_bool v_int v_multi v_size] in *.
  split_and!; [intros d'|intros d'|intros d'|]; cbn [v_bool v_int v_multi v_size]; rewrite omap_app;
    cbn [omap list_omap]; destruct (s_value s) as [d b|d n|d v|v]; cbn [apply_value v_bool v_int v_multi v_size];
    rewrite ?app_nil_r; try done.
  - destruct (decide (d' = d)) as [->|]; [by rewrite fn_lookup_insert, last_snoc|].
    by rewrite fn_lookup_insert_ne, app_nil_r by done.
  - destruct (decide (d' = d)) as [->|]; [by rewrite fn_lookup_insert, last_snoc|].
    by rewrite fn_lookup_insert_ne, app_nil_r by done.
  - destruct (decide (d' = d)) as [->|]; [by rewrite fn_lookup_insert, Hm|].
    by rewrite fn_lookup_insert_ne, app_nil_r by done.
  - by rewrite last_snoc.
Qed.

(** C38. The request of a command line is what its flags say, whichever way they are written: with one
    minus or two, with the value joined or apart, in any order and number.  The last value of a
    variable counts, globs accumulate, and after the two minuses any pattern is taken as it is. *)
Theorem parseArgs_roundtrip `{OS} c ss pattern path abs size :
  Forall setting_ok ss → resolve path = Some (abs, true) → parseSize (v_size (chosen c ss)) = Some size →
  parseArgs c (concat (map render_flag ss) ++ [bs "--"; pattern; path]) =
    inr (mkCli (request_of (chosen c ss) size pattern abs) (v_bool (chosen c ss) JsonOut) path).
Proof.
  intros Hss Hp Hn. unfold parseArgs. rewrite Parse_settings by done. cbn [Parse].
  change (classify (bs "--")) with EndOfFlags. cbv iota.
  pose proof (settings_chosen c ss) as Heq. pose proof Heq as (Hb & _ & _ & Hs).
  rewrite Hs, Hn, Hp. by rewrite (request_of_vars _ _ _ _ _ Heq), Hb.
Qed.

(** The tree of the examples. *)
Definition demo_os : OS := Build_OS (λ p, Some (bs "/home/" ++ p)) (λ _, None) (λ _, Some true).
Definition demo_settings : list setting :=
  [mkSetting (bs "i") (VBool NoCase true) false false; mkSetting (bs "limit") (VInt LimitFlag (-7)) true true;
   mkSetting (bs "g") (VMulti Globs (bs "*.go")) false false; mkSetting (bs "i") (VBool NoCase false) true true;
   mkSetting (bs "max-filesize") (VMaxFilesize (bs "2K")) true false;
   mkSetting (bs "g") (VMulti Globs (bs "-x")) true true].

Lemma parseArgs_roundtrip_witness :
  concat (map render_flag demo_settings) ++ [bs "--"; bs "-v"; bs "src"] =
    [bs "-i"; bs "--limit=-7"; bs "-g"; bs "*.go"; bs "--i=false"; bs "--max-filesize"; bs "2K"; bs "--g=-x";
     bs "--"; bs "-v"; bs "src"] ∧
  ∃ o, @parseArgs demo_os (Default 1) (concat (map render_flag demo_settings) ++ [bs "--"; bs "-v"; bs "src"]) = inr o ∧
    q_NoCase (o_req o) = false ∧ q_Limit (o_req o) = (-7)%Z ∧ q_Globs (o_req o) = [bs "*.go"; bs "-x"] ∧
    q_MaxFilesize (o_req o) = 2048%Z ∧ q_Pattern (o_req o) = bs "-v" ∧ q_Root (o_req o) = bs "/home/src".
Proof.
  split; [reflexivity|]. eexists. split.
  - apply (@parseArgs_roundtrip demo_os (Default 1) demo_settings (bs "-v") (bs "src") (bs "/home/src") 2048).
    + repeat (constructor; [split; [reflexivity|first [exact I|cbn; lia]]|]); constructor.
    + reflexivity.
    + reflexivity.
  - split_and!; reflexivity.
Defined.
