(* ===== verification/Status.v ===== *)
(** * gcgrep status and gcgrep stop: [cmdSimple] of cmd/gcgrep/main.go, over [handleStatus]

    What the two commands print on the standard output and return, for a daemon with given stores and
    caches. *)

From S2P Require Import Prelude GoBytes Text GoPath Lines Ignore Walk Conf Symbol Strip Extract Regexp Literal Matcher.
From S2P Require Import Index IndexSearch Codec Shard Engine EngineSearch Store StoreSpec Globs Server Client Daemon Dir Persist Args.

(** One root of a reply to status: with the cache directory and the size of the caches in megabytes. *)
Record root_reply := mkRoot { r_status : RootStatus; r_cacheDir : bytes; r_cacheMB : Z }.

(** The reply of the daemon: an event of the type status, done or error, another one, or no event that can be
    decoded. *)
Inductive simple_reply :=
  | RStatus (pid : Z) (roots : list root_reply) | RDone | RError | ROther | RLost.

(** ** The daemon *)

Section Daemon.
Context `{MapOrder} `{Sha256}.

(** One root of [handleStatus]; [cacheDir] is the cache directory and [d] the files in it. *)
Definition root_reply_of (cacheDir : bytes) (d : dir) (ks : (bytes * bool) * RootStore) : root_reply :=
  let '(sub, size) := CacheInfo d ks.2 in
  mkRoot (root_status ks) (match sub with Some sub => child cacheDir sub | None => cacheDir end) (Z.shiftr size 20).

Definition root_le (a b : root_reply) : Prop := status_le (r_status a) (r_status b).
#[export] Instance root_le_dec : RelDecision root_le.
Proof. intros a b. unfold root_le. apply _. Defined.

(** [handleStatus] with the caches. *)
Definition status_reply (pid : Z) (cacheDir : bytes) (d : dir) (sv : Stores) : simple_reply :=
  RStatus pid (merge_sort root_le (map (root_reply_of cacheDir d) (range sv))).
End Daemon.

(** ** The client *)

Definition state_word (st : StoreState) : bytes :=
  match st with StateIndexing => bs "indexing" | StateReconciling => bs "reconciling" | StateReady => bs "ready" end.

(** A part of a line that is there when a number is positive. *)
Definition when_positive (n : Z) (before after : bytes) : bytes :=
  if (0 <? n)%Z then before ++ fmt_int n ++ after else [].

(** The line of a root. *)
Definition status_extra (r : root_reply) : bytes :=
  let st := r_status r in let sk := rs_Skipped st in
  when_positive (skippedLarge sk) (bs "  skipped ") (bs " files > GCGREP_MAX_FILESIZE_MB") ++
  when_positive (skippedBudget sk) (bs "  skipped ") (bs " files over GCGREP_MAX_INDEX_MB") ++
  when_positive (skippedBinary sk) (bs "  skipped ") (bs " binary files") ++
  when_positive (skippedError sk) (bs "  skipped ") (bs " unreadable files") ++
  when_positive (Z.of_nat (rs_StreamFiles st)) (bs "  ") (bs " stream-set files (scanned from disk at query time)") ++
  (if bool_decide (r_cacheDir r = []) then []
   else bs "  cache: " ++ r_cacheDir r ++ bs " (" ++ fmt_int (r_cacheMB r) ++ bs "MB)").
Definition status_mode (st : RootStatus) : bytes :=
  (if rs_Follow st then bs " (-L)" else []) ++ (if bool_decide (rs_Engine st = bs "disk") then bs " [disk]" else []).
Definition status_line (r : root_reply) : bytes :=
  let st := r_status r in
  bs "  " ++ rs_Root st ++ status_mode st ++ bs "  [" ++ state_word (rs_State st) ++ bs "]  " ++
  fmt_int (rs_Files st) ++ bs " files, " ++ fmt_int (rs_SizeMB st) ++ bs "MB" ++ status_extra r ++ [newline].

Definition status_text (pid : Z) (roots : list root_reply) : bytes :=
  bs "daemon running, pid " ++ fmt_int pid ++ [newline] ++ concat (map status_line roots) ++
  (if bool_decide (roots = []) then bs "  (no roots indexed yet)" ++ [newline] else []).

(** [cmdSimple]: the standard output and the exit code; no connection is [None]. *)
Definition cmdSimple (op : bytes) (conn : option simple_reply) : bytes * Z :=
  match conn with
  | None => if bool_decide (op = bs "stop") then (bs "gcgrep: daemon not running" ++ [newline], 0%Z) else ([], 1%Z)
  | Some RLost => ([], 2%Z)
  | Some (RStatus pid roots) => (status_text pid roots, 0%Z)
  | Some RDone => (bs "gcgrep: daemon stopped" ++ [newline], 0%Z)
  | Some RError => ([], 2%Z)
  | Some ROther => ([], 0%Z)
  end.

(** ** Properties *)

#[export] Instance root_le_trans : Transitive root_le.
Proof. intros a b c. unfold root_le, status_le. apply transitivity. Qed.
#[export] Instance root_le_total : Total root_le.
Proof. intros a b. unfold root_le, status_le. apply total, _. Qed.

(** gcgrep status prints every store the daemon has exactly once, with and without -L apart, in the order of their
    roots, after the line of the process, and succeeds. *)
Theorem cmd_status_lists `{MapOrder} `{Sha256} (pid : Z) (cacheDir : bytes) (d : dir) (sv : Stores) :
  ∃ stores, stores ≡ₚ map_to_list sv ∧ Sorted bytes_le (map (λ ks : (bytes * bool) * RootStore, ks.1.1) stores) ∧
    cmdSimple (bs "status") (Some (status_reply pid cacheDir d sv)) =
    (bs "daemon running, pid " ++ fmt_int pid ++ [newline] ++
       concat (map (λ ks, status_line (root_reply_of cacheDir d ks)) stores) ++
       (if bool_decide (sv = ∅) then bs "  (no roots indexed yet)" ++ [newline] else []), 0%Z).
Proof.
  set (rs := merge_sort root_le (map (root_reply_of cacheDir d) (range sv))).
  assert (rs ≡ₚ map (root_reply_of cacheDir d) (range sv)) as Hp by apply merge_sort_Permutation.
  apply Permutation_map_inv in Hp as (stores & Hrs & Hst). exists stores. split; [rewrite <-Hst; apply range_perm|].
  split.
  - assert (Sorted root_le rs) as Hso by apply (Sorted_merge_sort _).
    apply (Sorted_fmap (λ r, rs_Root (r_status r)) root_le bytes_le) in Hso; [|done]. rewrite Hrs, <-list_fmap_compose in Hso.
    erewrite map_ext; [exact Hso|]. intros [[root follow] s]. unfold compose, root_reply_of, root_status. cbn [fst snd].
    destruct (CacheInfo d s) as [sub size]. by destruct (st_disk s).
  - assert (bool_decide (rs = []) = bool_decide (sv = ∅)) as Hb.
    { apply bool_decide_ext. rewrite Hrs. rewrite <-map_to_list_empty_iff. split; intros E.
      - apply map_eq_nil in E as ->. apply Permutation_nil_r. by rewrite <-Hst, range_perm.
      - assert (stores ≡ₚ []) as ->%Permutation_nil_r; [|done]. by rewrite <-Hst, range_perm, E. }
    unfold status_reply, cmdSimple. fold rs. unfold status_text. by rewrite Hb, Hrs, map_map.
Qed.

(** A line as the client prints it. *)
Example status_line_disk :
  status_line (mkRoot (mkStatus (bs "/src/app") StateReady 1204 37 (mkSkipped 2 0 5 0) 7 true (bs "disk"))
    (bs "/c/shards-00ff") 12) =
  bs "  /src/app (-L) [disk]  [ready]  1204 files, 37MB  skipped 2 files > GCGREP_MAX_FILESIZE_MB  skipped 5 binary files  7 stream-set files (scanned from disk at query time)  cache: /c/shards-00ff (12MB)"
    ++ [newline].
Proof. vm_compute. reflexivity. Qed.
