(* ===== verification/Grep.v ===== *)
(** * A search from the command line to the exit code

    The client parses its arguments, the daemon answers from the index and announces the files
    it left to the client, the client scans these, and the exit code says whether anything was
    found.  The theorem composes the specifications of the three parts. *)

From S2P Require Import Prelude GoBytes Text GoPath Lines Walk Conf Symbol Strip Extract Trigram Regexp Literal Matcher.
From S2P Require Import Index IndexSearch Engine EngineSearch Scan Store StoreSpec StoreSync Globs Server ServerSpec Client Daemon Args.

(** A text holds a literal, up to ASCII case when [fold]. *)
Definition holds (lit : bytes) (fold : bool) (text : bytes) : Prop := ∃ i, match_at lit fold (drop i text) = true.

Lemma match_at_short lit fold : lit ≠ [] → match_at lit fold [] = false.
Proof.
  intros Hne. destruct (match_at lit fold []) eqn:E; [|done]. apply match_at_length in E. by destruct lit; simpl in *; [|lia].
Qed.

Lemma holds_within lit fold text :
  lit ≠ [] → holds lit fold text ↔ ∃ i, i ≤ length text ∧ match_at lit fold (drop i text) = true.
Proof.
  intros Hne. split; [|intros (i & _ & Hi); by exists i]. intros [i Hi]. exists i. split; [|done].
  destruct (decide (i ≤ length text)); [done|]. rewrite drop_ge in Hi by lia. by rewrite match_at_short in Hi.
Qed.

Lemma literalFindAll_holds content lit fold locs :
  lit ≠ [] → literalFindAll content lit fold = Some locs → (locs ≠ [] ↔ holds lit fold content).
Proof.
  intros Hne Hl. destruct (literalFindAll_spec content lit fold Hne) as (locs' & Hl' & H1 & _ & H3).
  rewrite Hl in Hl'. injection Hl' as <-. rewrite holds_within by done. split.
  - intros Hn. destruct locs as [|[a b] locs]; [done|]. destruct (H1 a b) as (_ & -> & Hb & Hp); [by left|].
    exists a. split; [lia|done].
  - intros (i & Hi & Hp). destruct (H3 i) as (a & b & Hin & _); [lia..|done|]. intros ->. by apply elem_of_nil in Hin.
Qed.

(** ** A literal of one line *)

(** The bytes up to a byte a prefix lacks decide whether it is one. *)
Lemma has_prefix_stop s p c rest : c ∉ p → has_prefix (s ++ c :: rest) p = has_prefix s p.
Proof.
  revert s. induction p as [|x p IH]; intros s Hc; [by rewrite !has_prefix_nil_r|].
  apply not_elem_of_cons in Hc as [Hx Hc]. destruct s as [|y s]; cbn [app has_prefix].
  - by rewrite bool_decide_eq_false_2.
  - by rewrite IH.
Qed.

Lemma lower_newline c : lower c = newline → c = newline.
Proof. destruct c; vm_compute; congruence. Qed.

Lemma match_at_line lit fold s rest :
  newline ∉ lit → match_at lit fold (s ++ newline :: rest) = match_at lit fold s.
Proof.
  intros Hn. unfold match_at. destruct fold; [|by apply has_prefix_stop]. rewrite map_app. cbn [map].
  change (lower newline) with newline. apply has_prefix_stop. intros (c & Hc & Hin)%list_elem_of_fmap.
  symmetry in Hc. apply lower_newline in Hc as ->. done.
Qed.

Lemma holds_app_newline lit fold a b :
  lit ≠ [] → newline ∉ lit → holds lit fold (a ++ newline :: b) ↔ holds lit fold a ∨ holds lit fold b.
Proof.
  intros Hne Hn. split.
  - intros [i Hi]. destruct (decide (i ≤ length a)).
    + left. exists i. rewrite drop_app_le in Hi by done. by rewrite match_at_line in Hi.
    + right. exists (i - S (length a)). rewrite drop_app_ge in Hi by lia.
      replace (i - length a) with (S (i - S (length a))) in Hi by lia. done.
  - intros [Hh|[i Hi]].
    + apply holds_within in Hh as (i & Hle & Hi); [|done]. exists i. by rewrite drop_app_le, match_at_line.
    + exists (S (length a) + i). rewrite drop_app_ge by lia.
      by replace (S (length a) + i - length a) with (S i) by lia.
Qed.

(** A text holds a literal of one line when one of its lines does. *)
Lemma holds_lines lit fold text :
  lit ≠ [] → newline ∉ lit → holds lit fold text ↔ ∃ line, line ∈ text_lines text ∧ holds lit fold line.
Proof.
  intros Hne Hn. induction text as [text IH] using (induction_ltof1 _ length). unfold ltof in IH.
  destruct (index_byte text newline) as [i|] eqn:E.
  - rewrite (text_lines_cons _ _ E). pose proof E as [Hs Ha]%index_byte_split. rewrite Nat.add_1_r in Hs.
    rewrite Hs at 1. rewrite holds_app_newline by done. rewrite (IH (drop (S i) text)).
    2: { apply index_byte_Some in E as [Hi%lookup_lt_Some _]. rewrite length_drop. lia. }
    setoid_rewrite elem_of_cons. split.
    + intros [Hh|(l & Hl & Hh)]; eauto.
    + intros (l & [->|Hl] & Hh); eauto.
  - destruct (decide (text = [])) as [->|Ht].
    + split; [intros [i Hi]; rewrite drop_nil, match_at_short in Hi by done; done|].
      intros (l & Hl & _). by apply elem_of_nil in Hl.
    + rewrite text_lines_one by (done || by apply index_byte_None). split.
      * intros Hh. exists text. split; [by left|done].
      * by intros (l & ->%list_elem_of_singleton & Hh).
Qed.

(** ** The stream files *)

Section Streams.
Context `{RegexpEngine} (req : Request) (mat : Matcher) (displayCols : Z).
Hypothesis Hmat : matcher_ok mat.

Lemma finds_literal line :
  PlainLit mat ≠ [] → is_Some (finds mat line) ↔ holds (PlainLit mat) (Fold mat) line.
Proof.
  intros Hne. unfold finds. rewrite FindFirst_spec, bool_decide_eq_false_2 by done. cbn [default from_option id].
  unfold first_span. rewrite fmap_is_Some, holds_within by done. split.
  - intros [i (Hi & Hp & _)%find_suffix_Some]. eauto.
  - intros (i & Hi & Hp). destruct (find_suffix _ line) eqn:E; [done|].
    by rewrite (proj1 (find_suffix_None _ _) E i Hi) in Hp.
Qed.

Lemma stream_hits_from rel n ls :
  hits_from rel mat scan_opts n ls ≠ [] ↔ ∃ line, line ∈ ls ∧ is_Some (finds mat line).
Proof.
  revert n. induction ls as [|line ls IH]; intros n; cbn [hits_from].
  - split; [done|]. intros (l & Hl & _). by apply elem_of_nil in Hl.
  - setoid_rewrite elem_of_cons. destruct (finds mat line) as [[a b]|] eqn:E.
    + split; [|done]. intros _. exists line. split; [by left|by rewrite E].
    + rewrite IH. split; [intros (l & Hl & Hf); by eauto|].
      intros (l & [->|Hl] & Hf); [rewrite E in Hf; by destruct Hf|by eauto].
Qed.

Lemma stream_hits_literal rel content :
  PlainLit mat ≠ [] → newline ∉ PlainLit mat →
  stream_hits mat rel content ≠ [] ↔ holds (PlainLit mat) (Fold mat) content.
Proof.
  intros Hne Hn. unfold stream_hits. rewrite stream_hits_from, holds_lines by done.
  split; intros (l & Hl & Hf); exists l; (split; [done|]); by apply finds_literal.
Qed.

(** A stream file that is scanned and has a match. *)
Definition stream_found (read : bytes → option bytes) (rel : bytes) : Prop :=
  ∃ content, read rel = Some content ∧ (isBinary content = false ∨ q_Text req = true) ∧
    stream_hits mat rel content ≠ [].

Lemma stream_scan_found read rel ss :
  filesOnly req = true →
  let ss' := stream_scan req mat displayCols (read rel) rel ss in
  0 < ss_matches ss' ↔ 0 < ss_matches ss ∨ stream_found read rel.
Proof.
  intros HF. unfold stream_scan, stream_found. destruct (read rel) as [content|].
  2: { cbn [add_unreadable ss_matches]. split; [by left|]. by intros [?|(? & ? & _)]. }
  destruct (isBinary content && negb (q_Text req)) eqn:Eb; cbn zeta.
  { split; [by left|]. intros [?|(? & [= <-] & Hb & _)]; [done|].
    apply andb_prop in Eb as [E1 E2%negb_true_iff]. destruct Hb; congruence. }
  apply andb_false_iff in Eb. rewrite negb_false_iff in Eb. unfold scanned.
  set (hs := stream_hits mat rel content). case_bool_decide as Hh.
  { split; [by left|]. by intros [?|(? & [= <-] & _ & ?)]. }
  cbn [ss_matches].
  assert (0 < counted req (ss_limitLeft ss) (length hs)) as Hc.
  { unfold counted. rewrite HF. destruct hs; [done|]. destruct (q_Files req); cbn [length]; lia. }
  split; [|lia]. intros _. right. by exists content.
Qed.
End Streams.

(** The client's scan of a request for counts or files, which no limit ends, finds something when one
    of the files has a match. *)
Lemma scanStreams_found `{RegexpEngine} req mat displayCols limitLeft read files :
  MatcherFor (q_Pattern req) (q_Fixed req) (q_NoCase req) = Some mat → filesOnly req = true →
  ∃ ss, scanStreams req displayCols limitLeft read files = Some ss ∧
    (0 < ss_matches ss ↔ ∃ rel, rel ∈ files ∧ stream_found req mat read rel).
Proof.
  intros Hm HF. pose proof (MatcherFor_ok _ _ _ _ Hm) as Hok. unfold scanStreams. rewrite Hm.
  case_bool_decide as Hn.
  { eexists. split; [done|]. subst. cbn [ss_matches]. split; [lia|]. intros (rel & Hr & _). by apply elem_of_nil in Hr. }
  rewrite (scan_streams_fold req mat displayCols Hok) by (by right). eexists. split; [done|].
  assert (∀ ss, 0 < ss_matches (foldl (λ ss rel, stream_scan req mat displayCols (read rel) rel ss) ss files) ↔
    0 < ss_matches ss ∨ ∃ rel, rel ∈ files ∧ stream_found req mat read rel) as Hf.
  { clear Hn. induction files as [|rel files IH]; intros ss; cbn [foldl].
    { split; [by left|]. intros [?|(? & Hr & _)]; [done|]. by apply elem_of_nil in Hr. }
    rewrite IH, (stream_scan_found req mat displayCols read rel ss) by done.
    setoid_rewrite elem_of_cons. split; [intros [[?|?]|(r & ? & ?)]; eauto|].
    intros [?|(r & [->|?] & ?)]; eauto. }
  rewrite Hf. cbn [ss_matches]. split; [intros [?|?]; [lia|done]|by right].
Qed.

(** ** The exit code *)

(** The events of a counting search, as the client sees them. *)
Definition counting (evs : list Event) : Prop :=
  Forall (λ ev, match ev with EvFileCount _ _ | EvStreamFile _ _ => True | _ => False end) evs.

Lemma counting_body evs n hits trunc :
  counting evs → body (evs ++ [EvDone n hits trunc]) = evs ∧ ending (evs ++ [EvDone n hits trunc]) = Some (EvDone n hits trunc).
Proof.
  unfold ending. induction 1 as [|ev evs Hev _ [IH1 IH2]]; [done|]. cbn [app body List.find].
  destruct ev; try done; cbn [terminal]; by rewrite IH1.
Qed.

Lemma counting_found evs :
  counting evs → existsb found_event evs || (0 <? sum_list (event_counts evs)) = true ↔ ∃ file n, EvFileCount file n ∈ evs.
Proof.
  induction 1 as [|ev evs Hev _ IH].
  - split; [done|]. intros (? & ? & Hin). by apply elem_of_nil in Hin.
  - destruct ev as [| |file n|file sz| |]; try done.
    + split; [|done]. intros _. exists file, n. by left.
    + change (event_counts (EvStreamFile file sz :: evs)) with (event_counts evs). cbn [existsb found_event orb].
      rewrite IH. setoid_rewrite elem_of_cons. split; [intros (f & n & Hin); by eauto|].
      intros (f & n & [[=]|Hin]); by eauto.
Qed.

(** Counts are positive, so that the total alone says whether something was found, as it does with [--json]. *)
Lemma counting_json evs (jsonOut : bool) :
  counting evs → (∀ file n, EvFileCount file n ∈ evs → 0 < n) →
  existsb found_event evs || (0 <? sum_list (event_counts evs)) =
    negb jsonOut && existsb found_event evs || (0 <? sum_list (event_counts evs)).
Proof.
  intros Hc Hpos. destruct jsonOut; [|done]. cbn [negb andb orb]. induction Hc as [|ev evs Hev _ IH]; [done|].
  specialize (IH ltac:(intros f n ?; apply (Hpos f n); by right)).
  destruct ev as [| |file n|file sz| |]; try done. pose proof (Hpos file n ltac:(by left)).
  change (sum_list (event_counts (EvFileCount file n :: evs))) with (n + sum_list (event_counts evs)).
  rewrite (proj2 (Nat.ltb_lt 0 _)) by lia. by rewrite orb_true_r.
Qed.

Lemma stream_files_elem evs rel : rel ∈ stream_files evs ↔ ∃ n, EvStreamFile rel n ∈ evs.
Proof.
  unfold stream_files. rewrite list_elem_of_omap. split.
  - intros (ev & Hin & Hev). destruct ev; try done. injection Hev as ->. by eexists.
  - intros [n Hin]. by exists (EvStreamFile rel n).
Qed.

(** The client's answer to a counting search. *)
Lemma counting_exit `{RegexpEngine} c req jsonOut read mat evs hits trunc :
  counting evs → (∀ file n, EvFileCount file n ∈ evs → 0 < n) →
  MatcherFor (q_Pattern req) (q_Fixed req) (q_NoCase req) = Some mat → filesOnly req = true →
  ∃ out code, streamSearch c req jsonOut read (evs ++ [EvDone (sum_list (event_counts evs)) hits trunc]) = Some (out, code) ∧
    (code = 0%Z ∨ code = 1%Z) ∧
    (code = 0%Z ↔ (∃ file n, EvFileCount file n ∈ evs) ∨
       ∃ rel n, EvStreamFile rel n ∈ evs ∧ stream_found req mat (λ p, ok_file (read p)) rel).
Proof.
  intros Hc Hpos Hm HF. set (total := sum_list (event_counts evs)).
  destruct (counting_body evs total hits trunc Hc) as [Hb He].
  destruct (streamSearch_run c req jsonOut read (evs ++ [EvDone total hits trunc])) as (ss & Hss & Hs).
  rewrite Hb, He in *.
  edestruct (scanStreams_found req mat) as (ss' & Hss' & Hfound); [done|done|]. rewrite Hss in Hss'. injection Hss' as <-.
  rewrite Hs. unfold client_end. eexists _, _. split; [done|].
  assert ((negb jsonOut && existsb found_event evs || (0 <? ss_matches ss) || (0 <? total))%bool = true ↔
    (∃ file n, EvFileCount file n ∈ evs) ∨ ∃ rel n, EvStreamFile rel n ∈ evs ∧
       stream_found req mat (λ p, ok_file (read p)) rel) as Hiff.
  { rewrite <-(counting_found evs Hc), (counting_json evs jsonOut Hc Hpos). fold total. rewrite !orb_true_iff, (Nat.ltb_lt 0 (ss_matches ss)), Hfound.
    setoid_rewrite stream_files_elem. split.
    - intros [[?|(rel & [n Hn] & ?)]|?]; [by left; left|right; by exists rel, n|by left; right].
    - intros [[?|?]|(rel & n & ? & ?)]; [by left; left|by right|left; right; exists rel; eauto]. }
  rewrite <-Hiff. destruct (_ || _); split; auto; split; congruence.
Qed.

Section EndToEnd.
Context `{MapOrder} `{UnicodeCase} `{RE : RegexpEngine} `{RS : !RegexpString} `{SymbolExtractor}.
Context `{GoParser} `{TSRegexps} `{OS}.

(** The connection to a daemon that holds the stores [sv]. *)
Definition serve (c : Config) (w : World) (create : option RootStore) (sync : RootStore → option RootStore)
    (order : list nat) (clean : bytes) (sv : Stores) : Request → list Event :=
  λ req, match handle c w create sync order clean sv req with Some (_, Events evs) => evs | _ => [] end.

Lemma parseArgs_search c args o : parseArgs c args = inr o → q_Op (o_req o) = bs "search".
Proof.
  unfold parseArgs. destruct (Parse _ _) as [err|[vs rest]]; [done|]. destruct (parseSize _) as [n|]; [|done].
  destruct rest as [|pattern [|path [|? ?]]]; try done; destruct (resolve _) as [[abs [|]]|]; by intros [= <-].
Qed.

(** What a counting search finds: an indexed file, or a file of the stream manifest that the client reads. *)
Definition found_indexed (ix : Index) (req : Request) (pm : option (bytes → bool)) : Prop :=
  ∃ p f, contents ix !! p = Some f ∧ size_ok req (Size (e_meta f)) ∧ path_ok pm p = true ∧
    holds (q_Pattern req) (q_NoCase req) (e_content f).
Definition found_streamed (s : RootStore) (req : Request) (pm : option (bytes → bool)) (sub : bytes)
    (read : bytes → bytes + bytes) : Prop :=
  ∃ p e content, st_stream s !! p = Some e ∧ size_ok req (se_size e) ∧ path_ok pm p = true ∧
    read (trim_prefix p sub) = inl content ∧ (isBinary content = false ∨ q_Text req = true) ∧
    holds (q_Pattern req) (q_NoCase req) content.

(** C20. A count of a fixed string from the command line to the exit code.  For a command line that
    parses to a search with -F and -c for a non-empty ASCII string without a newline, with valid globs, with or without
    --json and whatever the limit, and a store that the daemon serves from the in-memory engine,
    the client always answers; it exits with 0 exactly when a file of the index, or a file of the
    stream manifest that the client can read and does not take for binary, passes the filters of the
    request and holds the string, up to ASCII case with -i, and with 1 otherwise. *)
Theorem count_search_exit c d w create sync order clean sv sv1 s sub ix args o m reqOK read :
  parseArgs c args = inr o →
  let req := o_req o in
  q_Fixed req = true → q_Count req = true →
  ascii (q_Pattern req) → q_Pattern req ≠ [] → newline ∉ q_Pattern req →
  MatcherFor (q_Pattern req) true (q_NoCase req) = Some m → req_filter req = inr reqOK →
  prologue sv req create sync = (sv1, Some (inr (s, sub))) →
  st_disk s = None → st_idx s = Some ix → index_ok ix →
  let pm := search_filter req sub (git_file w) reqOK in
  ∃ out code, cmdSearch c (Some (serve d w create sync order clean sv)) read args = Some (out, code) ∧
    (code = 0%Z ∨ code = 1%Z) ∧
    (code = 0%Z ↔ found_indexed ix req pm ∨ found_streamed s req pm sub (read (q_Root req))).
Proof.
  intros Ho req Hfix Hcount Ha Hne Hnl Hm Hf Hp Hd Hi Hok pm.
  destruct (handleSearch_count_spec d w (git_file w) s ix sub order req m reqOK) as (evs & hits & Hs & Hfc & Hsf & Hall);
    [done..|]. fold pm in Hfc, Hsf.
  assert (∀ file n, EvFileCount file n ∈ evs → 0 < n) as Hpos.
  { intros file n (p & _ & f & locs & _ & _ & _ & _ & Hn & ->)%Hfc. destruct locs; [done|]. cbn [length]. lia. }
  unfold cmdSearch, send. rewrite Ho. fold req. unfold serve, handle.
  rewrite (bool_decide_eq_true_2 _ (parseArgs_search _ _ _ Ho)), Hfix, Hm, Hp, Hs. cbn [mbind option_bind].
  destruct (counting_exit c req (o_jsonOut o) (read (q_Root req)) m evs hits false Hall Hpos)
    as (out & code & Hout & Hcode & Hiff); [by rewrite Hfix|unfold filesOnly; by rewrite Hcount, orb_true_r|].
  exists out, code. split_and!; [done|done|]. rewrite Hiff.
  destruct (MatcherFor_fixed _ _ _ Ha Hm) as (Hpl & Hfold & _).
  apply MatcherFor_ok in Hm. setoid_rewrite Hfc. setoid_rewrite Hsf. f_equiv.
  - unfold file_counts, found_indexed. split.
    + intros (file & n & p & _ & f & locs & G1 & G2 & G3 & G4 & G5 & _). exists p, f. split_and!; try done.
      by apply (literalFindAll_holds _ _ _ locs).
    + intros (p & f & G1 & G2 & G3 & G4). destruct (literalFindAll_spec (e_content f) (q_Pattern req) (q_NoCase req) Hne)
        as (locs & Hl & _). exists (trim_prefix p sub), (length locs), p. split; [done|]. exists f, locs.
      split_and!; try done. by apply (literalFindAll_holds (e_content f) (q_Pattern req) (q_NoCase req)).
  - unfold found_streamed, stream_found. split.
    + intros (rel & n & (p & e & -> & G1 & G2 & G3 & _) & content & Hr & Hb & Hh). exists p, e, content.
      rewrite stream_hits_literal, Hpl, Hfold in Hh by (done || by rewrite Hpl). split_and!; try done.
      unfold ok_file in Hr. destruct (read _ _) as [x|x]; [by injection Hr as ->|done].
    + intros (p & e & content & G1 & G2 & G3 & Hr & Hb & Hh). exists (trim_prefix p sub), (se_size e).
      split; [by exists p, e|]. exists content. split_and!; [by rewrite Hr|done|].
      rewrite stream_hits_literal by (done || by rewrite Hpl). by rewrite Hpl, Hfold.
Qed.
End EndToEnd.

(** The only store of a daemon serves what it covers. *)
Lemma prologue_one `{MapOrder} key s s' req create (sync : RootStore → option RootStore) :
  key.2 = q_Follow req → covers key.1 (q_Root req) = true → sync s = Some s' →
  prologue {[key := s]} req create sync = ({[key := s]}, Some (inr (s', sub_prefix (st_root s') (q_Root req)))).
Proof.
  intros Hf Hc Hs. unfold prologue, store, find_store.
  assert (range ({[key := s]} : Stores) = [(key, s)]) as ->.
  { apply Permutation_singleton_r. by rewrite range_perm, map_to_list_singleton. }
  rewrite filter_cons_True; [|cbn; by rewrite Hf, Bool.eqb_reflx, Hc].
  cbn [head filter list_filter]. by rewrite Hs.
Qed.

(** The example: a store with an index and one file of the stream manifest, and the command
    [gcgrep -F -i -c --hidden hello], with the default limit. *)
Definition demo_args : list bytes := [bs "-F"; bs "-i"; bs "-c"; bs "--hidden"; bs "hello"].
Definition grep_store (ix : Index) : RootStore :=
  mkStore (bs "/home/.") false (Default 1) (bs "mem") (Some ix) None [] None ∅ StateReady 0 0 (mkSkipped 0 0 0 0) 0.

Lemma count_search_exit_witness :
  let re := one_engine hello_re in
  let rs := Build_RegexpString re (λ _, []) in
  let gp := Build_GoParser (λ _, None) in
  let ts := Build_TSRegexps (λ _, []) (λ _, []) (λ _, []) (λ _, []) (λ _, []) in
  ∃ ix out, @cmdSearch demo_os re (Default 1)
    (Some (@serve tree_order latin1_case re rs no_symbols gp ts (Default 1) demo_world None Some [] []
             {[(bs "/home/.", false) := grep_store ix]})) (λ _ _, inr []) demo_args = Some (out, 0%Z).
Proof.
  intros re rs gp ts.
  destruct (@run_updates_spec tree_order no_symbols (New (bs "/r")) demo_updates) as (ix & _ & Hok & Hc);
    [apply New_ok|vm_compute; discriminate|].
  set (sv := {[(bs "/home/.", false) := grep_store ix]} : Stores).
  set (o := mkCli (mkRequest (bs "search") (bs "/home/.") (bs "hello") true true false true [] 2000 false 0 [] [] false
                     true false false false 0) false (bs ".")).
  assert (@parseArgs demo_os (Default 1) demo_args = inr o) as Ho by (vm_compute; reflexivity).
  destruct (@count_search_exit tree_order latin1_case re rs no_symbols gp ts demo_os (Default 1) (Default 1) demo_world
    None Some [] [] sv sv (grep_store ix) [] ix demo_args o
    (@mkMatcher re (Some tt) (bs "hello") true (chr "h") true) None (λ _ _, inr []) Ho)
    as (out & code & Hs & _ & Hiff).
  - reflexivity.
  - reflexivity.
  - repeat (constructor; [reflexivity|]); constructor.
  - discriminate.
  - apply (bool_decide_eq_true_1 _). vm_compute. reflexivity.
  - vm_compute. reflexivity.
  - vm_compute. reflexivity.
  - apply (@prologue_one tree_order); reflexivity.
  - reflexivity.
  - reflexivity.
  - exact Hok.
  - assert (code = 0%Z) as ->; [|exists ix, out; exact Hs]. apply Hiff. left.
    exists (bs "c.txt"), (mkEntry (mkMeta (bs "c.txt") 11 1) (bs "hello" ++ newline :: bs "hello") [] false).
    split; [rewrite Hc; vm_compute; reflexivity|]. split; [reflexivity|]. split; [vm_compute; reflexivity|].
    exists 0. vm_compute. reflexivity.
Defined.
